(* ===== verification/_CoqProject ===== *)
-Q . S2P
Prelude.v
Lmb.v
Memory.v
CString.v
Membuff.v
MembuffHeap.v
Ctype.v
StringExt.v
Strto.v
Number.v
Vsprintf.v
Charset.v
Capitalization.v
Uuid.v
Qsort.v
Hashtable.v
EnvText.v
Blkcache.v
EnvAttr.v
EnvFlags.v
EnvCallback.v
BlockDev.v
PartDos.v
FatTable.v
FatFile.v
FatWrite.v
Crc32.v
Checksum.v
EnvStore.v
Command.v
CliSimple.v
CliRun.v
Tftp.v
Memsize.v
MallocSimple.v
