(* ===== verification/Prelude.v ===== *)
(** * Verification of the core of U-Boot

    The program is U-Boot v2019.10-rc4 for the Raspberry Pi 2
    (src/my_mini_pi/u-boot; 32-bit ARM, little-endian, the configuration of
    u-boot.cfg).  Paths below are relative to that directory.  The development
    models the parts whose correctness does not depend on hardware: the
    bookkeeping of memory, the string, text and number routines, the environment, the
    block cache, partition tables, the FAT file system, the command line and the
    file transfer, and shows that they do what their callers rely on.

    ** The parts and how they interact

    - [Prelude]: words of the machine ([wrap], [swrap]), arrays, the loop
      combinators [loop] and [loop_brk] with the rules for invariants and
      measures, tactics and lemmas on lists and integers that all files share.
    - [Lmb] (lib/lmb.c): the tables of memory and reserved regions, from which
      loaders take addresses.
    - [Memory]: bytes in memory; no result for an address that does not exist.
      The class [MemOps] is what [Membuff] needs of [memcpy] and [memmove];
      [CString] discharges it.
    - [CString] (lib/string.c): one function per C function.
    - [Membuff] (lib/membuff.c): the circular buffer of the console, proved
      against [MemOps], and refining a queue of bytes.
    - [MembuffHeap]: its operations that allocate, over an allocator as the class
      [Heap] with the promise [HeapWorks].
    - [Ctype], [Strto] (lib/ctype.c, include/linux/ctype.h, lib/strto.c):
      character classes and the parsers of numbers.
    - [Number], [Vsprintf] (lib/vsprintf.c): the conversion of numbers and the
      format interpreter, which uses [Number], [CString] and [Strto].
    - [Charset], [Capitalization] (lib/charset.c, include/capitalization.h):
      strings in UTF-8 and UTF-16, their conversion, and the case of letters.
    - [Uuid] (lib/uuid.c, lib/net_utils.c): UUIDs and IPv4 addresses as text.
    - [StringExt] (lib/string.c, lib/qsort.c): comparison without case, tokens,
      copies, and the search by words.
    - [Qsort] (lib/qsort.c): the shell sort, which [EnvText] uses.
    - [Hashtable], [EnvText] (lib/hashtable.c): the table of environment
      variables and its text form.  What the table calls is the class
      [EnvHooks] (permission check, callbacks, allocator) and the class [Regex]
      (lib/slre.c, third-party).
    - [EnvAttr] (env/attr.c): lists of attributes of variables, which the next
      two files read, and the update of all entries of the table.
    - [EnvFlags] (env/flags.c): types and access of variables; [flags_hooks]
      gives [EnvHooks] the permission check of the program.
    - [EnvCallback] (env/callback.c): the functions that are called when a
      variable changes.  [env_hooks] are the hooks of the table of the program,
      with the permission check and the callbacks, and [env_step] is a request on
      it with the effects that the callbacks of .flags and .callbacks have on
      every entry.
    - [Blkcache] (drivers/block/blkcache.c, the block operations of
      drivers/block/blk-uclass.c) over the operations [BlkOps] of a driver.
    - [BlockDev]: the promise of the block operations to a file system as the
      class [BlockDev]; [cached_device] discharges it with [Blkcache].
    - [PartDos] (disk/part_dos.c): partition tables of DOS, read from a
      [BlockDev].
    - [FatTable], [FatFile], [FatWrite] (fs/fat/fat.c, fs/fat/fat_write.c): the
      allocation table behind its buffer, the reading of files along the chain
      of their clusters, and writing, allocation and deletion.
    - [Crc32] (lib/crc32.c): the checksum through its table, and what it is of
      the bits.
    - [Checksum] (net/checksum.c, lib/crc16.c, lib/crc8.c, lib/crc7.c): the
      internet checksum and the small polynomials.
    - [EnvStore] (env/common.c, env/env.c, env/fat.c, cmd/nvedit.c): images of
      the environment with their checksum, redundant copies, the choice of a
      storage driver, loading and saving, and setting a variable (its branch for
      EFI variables is a parameter).  The file system is the class [EnvFile], its
      promise [EnvFileWorks].
    - [Command] (common/command.c): the table of commands and their calls; the
      functions of the commands are the class [CommandFunctions].
    - [CliSimple], [CliRun] (common/cli_simple.c, common/cli.c): words, variables
      and lines of the simple command line; lines run the commands of [Command],
      and the variables are those of [Hashtable].  The class [CommandsWork] is
      what a line needs of the commands: that they return and keep the
      environment well formed.
    - [Tftp] (net/tftp.c, net/net.c): the client of the file transfer and the
      main loop with timeouts, restarts and the abort by ctrl-c; it takes its
      memory from [Lmb].  The other end is the class [TftpServer], with the promise
      [HonestServer]: it may acknowledge any of the options that the client sent.
    - [Memsize] (common/memsize.c): the search for the size of the memory over
      the class [RamBus].
    - [MallocSimple] (common/malloc_simple.c): the allocator before relocation.

    ** How the code is modelled

    A C function is a Rocq function of its arguments and of the state it reads
    and writes, named as in the source; a handler with several phases is split
    at the phases and composed as in the source.  Integers are [Z], cut to
    their width where the code stores them ([u8], [u16], [u32], [s32]).  An
    access outside of an object, and the use of a NULL pointer, has no result
    ([None]): a theorem that an operation returns [Some] includes that it stays
    inside of the objects it was given.  Error codes are the values that the
    functions return.  A loop is [loop fuel body state]; the fuel comes from
    the data (the length of a list or a buffer, the number of bits of a word,
    the number of entries of the allocation table), and every theorem states
    that the result exists, so that the fuel is shown to be enough.

    ** What the theorems show

    - Refinement: the hash table is a bounded finite map for every sequence of
      requests ([hashtable_refines_map]); the allocation table behind its
      buffer is an array of entries ([fat_table_refines]); the circular buffer
      is a queue ([membuff_put_correct], [membuff_get_correct]), also when it
      grows ([membuff_extend_by_correct], with the exact conditions of failure).
    - Round trips: export and import of the environment
      ([env_text_roundtrip]), writing and reading a file ([fat_write_read]),
      writing and deleting one ([fat_write_delete]), saving and loading the
      environment ([env_save_load]), numbers and UUIDs as text
      ([number_roundtrip], [uuid_roundtrip]), UTF-8 and UTF-16 ([utf_roundtrip]).
      Those of the environment are for tables that the program can import
      ([importable]): the permission check of the import accepts their entries.
    - Liveness: a transfer from a server that has the file ends with the file in
      memory, whatever is lost and repeated within the retries, when the copies of
      an answer arrive in a row ([tftp_get_completes]; [late_oack_fails] shows what
      a late copy does).
    - Equivalence: a line of commands without quotes in front and without empty
      commands is the list of its commands
      ([cli_simple_run_command_correct]); the checksum by tables and words is the
      division of the bits ([crc32_correct]); the conversion of decimal numbers gives the digits
      ([put_dec_correct]); a search by words is the search of bytes
      ([memchr_inv_correct]).
    - Errors: a burst of wrong bits changes the checksum
      ([crc32_detects_bursts]), and a damaged image is refused
      ([env_import_detects]).
    - Safety: a read through the block cache gives the bytes of the device
      ([blk_dread_coherent]); as long as the lists .flags and .callbacks stay as
      they are, protected variables keep their values and every value has the form
      of its type ([env_protected], [env_types_hold]; [flags_change_unprotects]
      shows what a change of .flags does); an
      import of any text ends and stays inside of it ([himport_safe]); formatted
      output stays inside of its buffer ([vsnprintf_correct]), as does the
      replacement of variables ([cli_simple_process_macros_bounded]) and the
      conversion of words ([utf16_utf8_fits]); whatever packets
      arrive, only free memory is written as long as no address wraps around
      ([tftp_safe]); the blocks of the simple allocator do not overlap for requests
      that do not wrap around ([alloc_simple_disjoint]).
    - Function: allocation and freeing of memory blocks ([lmb_alloc_base_correct]
      and the other theorems of [Lmb]), reading files ([get_contents_correct]),
      freeing chains of clusters ([clear_fatent_frees]), finding partitions
      ([part_get_info_dos_correct]) and commands ([find_cmd_correct]), the changes
      of all variables when the lists of attributes change ([on_flags_correct],
      [on_callbacks_correct]), setting a variable
      ([env_set_get]), the newest of two copies ([env_redund_newest]), the size of
      the memory ([get_ram_size_correct]), checksums of parts ([ip_checksum_parts]), sorting ([qsort_correct]), the case of
      letters ([utf_case_correct]), the string functions and the parsers.
    The comment of a theorem states its conditions; where inputs are excluded, an
    Example shows what the code does with them.
    The Examples next to them evaluate the definitions; those that show a
    deviation of the code from its comments or its purpose are named in the
    findings of the project.

    ** Not modelled

    The start-up code, device drivers and board code (registers and
    interrupts), the shell cli_hush.c (of busybox) and the libraries kept in the tree (dtc,
    zlib, bzip2, lzma, zstd, dlmalloc, slre: third-party code), the EFI loader,
    the driver model, the other file systems, GPT and the choice of a partition
    driver, completion, line editing and help of the command line, the boot
    commands and image formats, and directories, long names and the boot
    sector of FAT volumes.  Output on the console has no counterpart.  What the
    rpi_2 configuration leaves out (for example uploads by TFTP) is left out as
    well, unless a file says otherwise: the functions of common/cli.c are those of
    a build with the simple command line. *)

From Stdlib Require Import ZArith Lia List Sorted.
From stdpp Require Import base numbers list option gmap.

#[global] Open Scope Z_scope.

(** ** Machine words

    An object of an unsigned C type of [w] bits holds [wrap w x]; the 32-bit
    ARM build of U-Boot has [int], [long] and pointers of 32 bits. *)

Definition wrap (w x : Z) : Z := x mod 2 ^ w.

(** The value of the signed object of [w] bits with the low bits of [x]. *)
Definition swrap (w x : Z) : Z := (x + 2 ^ (w - 1)) mod 2 ^ w - 2 ^ (w - 1).

Abbreviation u8 := (wrap 8).
Abbreviation u16 := (wrap 16).
Abbreviation u32 := (wrap 32).
Abbreviation u64 := (wrap 64).
Abbreviation s32 := (swrap 32).

Create Rewrite HintDb word.

Lemma wrap_range (w x : Z) : 0 ≤ w → 0 ≤ wrap w x < 2 ^ w.
Proof. intros Hw. apply Z.mod_pos_bound. lia. Qed.

Lemma wrap_small (w x : Z) : 0 ≤ x < 2 ^ w → wrap w x = x.
Proof. apply Z.mod_small. Qed.

Lemma wrap_wrap (w x : Z) : 0 ≤ w → wrap w (wrap w x) = wrap w x.
Proof. intros Hw. apply wrap_small, wrap_range, Hw. Qed.

Lemma wrap_add_mul (w x k : Z) : 0 ≤ w → wrap w (x + k * 2 ^ w) = wrap w x.
Proof. intros Hw. apply Z_mod_plus_full. Qed.

Lemma swrap_small (w x : Z) :
  0 < w → - 2 ^ (w - 1) ≤ x < 2 ^ (w - 1) → swrap w x = x.
Proof.
  intros Hw Hx. unfold swrap.
  assert (2 ^ w = 2 * 2 ^ (w - 1)) by (rewrite <-Z.pow_succ_r by lia; f_equal; lia).
  rewrite Z.mod_small; lia.
Qed.

#[export] Hint Rewrite wrap_small swrap_small using lia : word.

(** [word_small] removes the truncations that the context shows to be
    harmless. *)
Ltac word_small :=
  repeat match goal with
  | |- context [wrap ?w ?x] => rewrite (wrap_small w x) by lia
  | H : context [wrap ?w ?x] |- _ => rewrite (wrap_small w x) in H by lia
  | |- context [swrap ?w ?x] => rewrite (swrap_small w x) by lia
  | H : context [swrap ?w ?x] |- _ => rewrite (swrap_small w x) in H by lia
  end.

(** The low [k] bits and the rest. *)
Lemma lor_low_high (k a b : Z) : 0 ≤ k → 0 ≤ b < 2 ^ k → Z.lor (a * 2 ^ k) b = a * 2 ^ k + b.
Proof.
  intros Hk Hb. assert (H : Z.land (a * 2 ^ k) b = 0).
  { apply Z.bits_inj'. intros n Hn. rewrite Z.land_spec, Z.bits_0.
    destruct (Z.lt_ge_cases n k); [by rewrite Z.mul_pow2_bits_low|].
    destruct (Z.eq_dec b 0) as [->|]; [by rewrite Z.bits_0, andb_false_r|].
    rewrite (Z.bits_above_log2 b n), andb_false_r; [done|lia|].
    apply Z.log2_lt_pow2; [lia|]. eapply Z.lt_le_trans; [apply Hb|]. by apply Z.pow_le_mono_r. }
  rewrite Z.add_nocarry_lxor by done. symmetry. by apply Z.lxor_lor.
Qed.

Lemma lxor_range n a b : 0 ≤ n → 0 ≤ a < 2 ^ n → 0 ≤ b < 2 ^ n → 0 ≤ Z.lxor a b < 2 ^ n.
Proof.
  intros Hn Ha Hb. assert (E : Z.lxor a b = Z.lxor a b mod 2 ^ n).
  { rewrite <-(Z.mod_small a (2 ^ n)), <-(Z.mod_small b (2 ^ n)), <-!Z.land_ones by done.
    apply Z.bits_inj'. intros i _. rewrite !Z.land_spec, !Z.lxor_spec, !Z.land_spec.
    by destruct (Z.testbit a i), (Z.testbit b i), (Z.testbit (Z.ones n) i). }
  rewrite E. apply Z.mod_pos_bound. by apply Z.pow_pos_nonneg.
Qed.

(** ** Arrays

    An array of the program is a list; an access outside of it has no defined
    result ([None]). *)

Section arrays.
Context {A : Type}.
Implicit Types (l : list A) (i : Z) (x y : A).

Definition arr_get l i : option A :=
  if 0 <=? i then l !! Z.to_nat i else None.

Definition arr_set l i x : option (list A) :=
  if (0 <=? i) && (i <? Z.of_nat (length l))
  then Some (<[Z.to_nat i := x]> l) else None.

Lemma arr_get_middle l1 l2 i x :
  i = Z.of_nat (length l1) → arr_get (l1 ++ x :: l2) i = Some x.
Proof.
  intros ->. unfold arr_get. rewrite (proj2 (Z.leb_le _ _)) by lia.
  rewrite Nat2Z.id. by apply list_lookup_middle.
Qed.

Lemma arr_set_middle l1 l2 i x y :
  i = Z.of_nat (length l1) → arr_set (l1 ++ x :: l2) i y = Some (l1 ++ y :: l2).
Proof.
  intros ->. unfold arr_set. rewrite length_app; cbn [length].
  rewrite (proj2 (Z.leb_le _ _)), (proj2 (Z.ltb_lt _ _)) by lia; cbn.
  rewrite Nat2Z.id, insert_app_r_alt, Nat.sub_diag by lia. done.
Qed.

(** The same two facts, with the decomposition of the array on the side. *)
Lemma arr_get_at l l1 x l2 i :
  l = l1 ++ x :: l2 → i = Z.of_nat (length l1) → arr_get l i = Some x.
Proof. intros ->. apply arr_get_middle. Qed.

Lemma arr_set_at l l1 x l2 i y :
  l = l1 ++ x :: l2 → i = Z.of_nat (length l1) → arr_set l i y = Some (l1 ++ y :: l2).
Proof. intros ->. apply arr_set_middle. Qed.

Lemma arr_get_Some l i x :
  arr_get l i = Some x ↔ 0 ≤ i ∧ l !! Z.to_nat i = Some x.
Proof. unfold arr_get. destruct (Z.leb_spec 0 i); naive_solver lia. Qed.

Lemma arr_get_is_Some l i : is_Some (arr_get l i) ↔ 0 ≤ i < Z.of_nat (length l).
Proof.
  unfold arr_get. destruct (Z.leb_spec 0 i).
  - rewrite lookup_lt_is_Some. lia.
  - split; [intros [? ?]; done | lia].
Qed.

Lemma arr_get_ex l i : 0 ≤ i < Z.of_nat (length l) → ∃ x, arr_get l i = Some x.
Proof. apply arr_get_is_Some. Qed.

(** An index in range splits the array around the element it designates. *)
Lemma arr_split l i :
  0 ≤ i < Z.of_nat (length l) →
  ∃ l1 x l2, l = l1 ++ x :: l2 ∧ Z.of_nat (length l1) = i.
Proof.
  intros Hi. destruct (lookup_lt_is_Some_2 l (Z.to_nat i)) as [x Hx]; [lia|].
  exists (take (Z.to_nat i) l), x, (drop (S (Z.to_nat i)) l).
  split; [by rewrite take_drop_middle|]. rewrite length_take. lia.
Qed.

Lemma arr_get_set l i x l' j :
  arr_set l i x = Some l' → arr_get l' j = if j =? i then Some x else arr_get l j.
Proof.
  unfold arr_set, arr_get. destruct (Z.leb_spec 0 i), (Z.ltb_spec i (Z.of_nat (length l))); cbn; try done.
  intros [= <-]. destruct (Z.eqb_spec j i) as [->|].
  - rewrite (proj2 (Z.leb_le _ _)) by lia. apply list_lookup_insert_eq. lia.
  - destruct (Z.leb_spec 0 j); [|done]. apply list_lookup_insert_ne. lia.
Qed.

Lemma arr_set_ex l i x : 0 ≤ i < Z.of_nat (length l) →
  ∃ l1 y l2, l = l1 ++ y :: l2 ∧ i = Z.of_nat (length l1) ∧ arr_get l i = Some y ∧
    arr_set l i x = Some (l1 ++ x :: l2).
Proof.
  intros Hi. destruct (arr_split l i Hi) as (l1 & y & l2 & -> & <-). exists l1, y, l2.
  by rewrite (arr_get_middle l1 l2 _ y), (arr_set_middle l1 l2 _ y x).
Qed.
End arrays.

(** ** Loops

    A C loop is the iteration of its body on the variables it changes.  The
    body gives the next values, leaves the loop ([break], or a condition that
    fails) or returns from the function; it has no result where the C program
    has undefined behaviour.  [loop] stops with [None] when [fuel] iterations
    were not enough. *)

Inductive ctl (S R : Type) : Type :=
| Next (s : S)
| Break (s : S)
| Return (r : R).
Arguments Next {S R} s.
Arguments Break {S R} s.
Arguments Return {S R} r.

Section loops.
Context {S R : Type}.
Implicit Types (step : S → option (ctl S R)) (s : S).

Fixpoint loop (fuel : nat) step s : option (S + R) :=
  match fuel with
  | O => None
  | Datatypes.S fuel =>
      match step s with
      | None => None
      | Some (Next s') => loop fuel step s'
      | Some (Break s') => Some (inl s')
      | Some (Return r) => Some (inr r)
      end
  end.

(** Total correctness: an invariant indexed by a bound on the iterations
    that remain, and a postcondition of every way out, give a result. *)
Lemma loop_total_ix step (I : nat → S → Prop) (Q : S + R → Prop) :
  (∀ n s, I n s → ∃ c, step s = Some c ∧
     match c with
     | Next s' => ∃ n', (n' < n)%nat ∧ I n' s'
     | Break s' => Q (inl s')
     | Return r => Q (inr r)
     end) →
  ∀ fuel n s, I n s → (n < fuel)%nat → ∃ o, loop fuel step s = Some o ∧ Q o.
Proof.
  intros Hstep fuel. induction fuel as [|fuel IH]; intros n s HI Hn; [lia|].
  destruct (Hstep n s HI) as (c & Hc & Hpost). cbn. rewrite Hc.
  destruct c as [s'|s'|r]; [|by eauto..].
  destruct Hpost as (n' & Hlt & HI'). apply (IH n'); [done|lia].
Qed.

(** The same rule with a measure of the state. *)
Lemma loop_total step (I : S → Prop) (μ : S → nat) (Q : S + R → Prop) :
  (∀ s, I s → ∃ c, step s = Some c ∧
     match c with
     | Next s' => I s' ∧ (μ s' < μ s)%nat
     | Break s' => Q (inl s')
     | Return r => Q (inr r)
     end) →
  ∀ fuel s, I s → (μ s < fuel)%nat → ∃ o, loop fuel step s = Some o ∧ Q o.
Proof.
  intros Hstep fuel s HI Hμ.
  apply (loop_total_ix step (λ n s, I s ∧ n = μ s) Q) with (n := μ s); [|done..].
  intros n s' [HI' ->]. destruct (Hstep s' HI') as (c & Hc & Hpost).
  exists c. split; [done|]. destruct c; naive_solver.
Qed.

(** More fuel does not change a result. *)
Lemma loop_mono step fuel fuel' s o :
  loop fuel step s = Some o → (fuel ≤ fuel')%nat → loop fuel' step s = Some o.
Proof.
  revert fuel' s. induction fuel as [|fuel IH]; intros [|fuel'] s; cbn; try done.
  - lia.
  - intros H Hle. destruct (step s) as [[s'|s'|r]|]; try done. apply IH; [done|lia].
Qed.
End loops.

(** A loop whose body never returns from the function. *)
Definition loop_brk {S : Type} (fuel : nat)
    (step : S → option (ctl S Empty_set)) (s : S) : option S :=
  match loop fuel step s with
  | Some (inl s') => Some s'
  | Some (inr e) => match e with end
  | None => None
  end.

Lemma loop_brk_next {S : Type} (step : S → option (ctl S Empty_set)) fuel s s' :
  step s = Some (Next s') → loop_brk (Datatypes.S fuel) step s = loop_brk fuel step s'.
Proof. intros H. unfold loop_brk. cbn. by rewrite H. Qed.

Lemma loop_brk_break {S : Type} (step : S → option (ctl S Empty_set)) fuel s s' :
  step s = Some (Break s') → loop_brk (Datatypes.S fuel) step s = Some s'.
Proof. intros H. unfold loop_brk. cbn. by rewrite H. Qed.

Lemma loop_brk_none {S : Type} (step : S → option (ctl S Empty_set)) fuel s :
  step s = None → loop_brk (Datatypes.S fuel) step s = None.
Proof. intros H. unfold loop_brk. cbn. by rewrite H. Qed.

Lemma loop_next {S R : Type} (step : S → option (ctl S R)) fuel s s' :
  step s = Some (Next s') → loop (Datatypes.S fuel) step s = loop fuel step s'.
Proof. intros H. cbn. by rewrite H. Qed.

Lemma loop_break {S R : Type} (step : S → option (ctl S R)) fuel s s' :
  step s = Some (Break s') → loop (Datatypes.S fuel) step s = Some (inl s').
Proof. intros H. cbn. by rewrite H. Qed.

Lemma loop_return {S R : Type} (step : S → option (ctl S R)) fuel s r :
  step s = Some (Return r) → loop (Datatypes.S fuel) step s = Some (inr r).
Proof. intros H. cbn. by rewrite H. Qed.

Lemma loop_brk_total_ix {S : Type} (step : S → option (ctl S Empty_set))
    (I : nat → S → Prop) (Q : S → Prop) :
  (∀ n s, I n s → ∃ c, step s = Some c ∧
     match c with
     | Next s' => ∃ n', (n' < n)%nat ∧ I n' s'
     | Break s' => Q s'
     | Return _ => False
     end) →
  ∀ fuel n s, I n s → (n < fuel)%nat → ∃ s', loop_brk fuel step s = Some s' ∧ Q s'.
Proof.
  intros Hstep fuel n s HI Hn.
  destruct (loop_total_ix step I (λ o, match o with inl s' => Q s' | inr _ => False end))
    with (fuel := fuel) (n := n) (s := s) as ([s'|[]] & Ho & HQ); [|done..|].
  - intros n1 s1 H1. destruct (Hstep n1 s1 H1) as ([s2|s2|[]] & Hc & Hp); eauto.
  - exists s'. unfold loop_brk. by rewrite Ho.
Qed.

Lemma loop_brk_total {S : Type} (step : S → option (ctl S Empty_set))
    (I : S → Prop) (μ : S → nat) (Q : S → Prop) :
  (∀ s, I s → ∃ c, step s = Some c ∧
     match c with
     | Next s' => I s' ∧ (μ s' < μ s)%nat
     | Break s' => Q s'
     | Return _ => False
     end) →
  ∀ fuel s, I s → (μ s < fuel)%nat → ∃ s', loop_brk fuel step s = Some s' ∧ Q s'.
Proof.
  intros Hstep fuel s HI Hμ.
  apply (loop_brk_total_ix step (λ n s, I s ∧ n = μ s) Q) with (n := μ s); [|done..].
  intros n s' [HI' ->]. destruct (Hstep s' HI') as (c & Hc & Hpost).
  exists c. split; [done|]. destruct c; naive_solver.
Qed.

(** Partial correctness: what holds of every result. *)
Lemma loop_brk_inv {S : Type} (step : S → option (ctl S Empty_set)) (I Q : S → Prop) :
  (∀ s c, I s → step s = Some c →
     match c with Next s' => I s' | Break s' => Q s' | Return _ => False end) →
  ∀ fuel s s', I s → loop_brk fuel step s = Some s' → Q s'.
Proof.
  intros Hstep fuel. unfold loop_brk. induction fuel as [|fuel IH]; intros s s' HI; cbn; [done|].
  destruct (step s) as [[s1|s1|[]]|] eqn:E; [| |done]; pose proof (Hstep s _ HI E) as H.
  - by apply IH.
  - by intros [= <-].
Qed.

(** [loop_ix k I Q] replaces the loop of the goal by its outcome, of which [Q]
    is known; the body, the first state and the fuel are left to prove. *)
Ltac loop_ix k I Q :=
  match goal with
  | |- context [loop_brk ?f ?step ?s] =>
      let H := fresh "Hloop" in
      assert (H : ∃ s', loop_brk f step s = Some s' ∧ Q s');
      [refine (loop_brk_total_ix step I Q _ f k s _ _)|];
      [| | |let s' := fresh "st" in let Hs := fresh "Hst" in let HQ := fresh "HQ" in
            destruct H as (s' & Hs & HQ); rewrite Hs; clear Hs]
  | |- context [loop ?f ?step ?s] =>
      let H := fresh "Hloop" in
      assert (H : ∃ o, loop f step s = Some o ∧ Q o);
      [refine (loop_total_ix step I Q _ f k s _ _)|];
      [| | |let o := fresh "st" in let Ho := fresh "Hst" in let HQ := fresh "HQ" in
            destruct H as (o & Ho & HQ); rewrite Ho; clear Ho]
  end.

(** ** Liveness *)

(** Whatever steps are taken from a state, one of [P] is reached, and until
    then there is always a step to take. *)
Section eventually.
Context {S : Type} (step : S → S → Prop) (P : S → Prop).

Inductive eventually : S → Prop :=
  | eventually_now s : P s → eventually s
  | eventually_later s : (∃ s', step s s') → (∀ s', step s s' → eventually s') → eventually s.

Lemma eventually_measure (I : S → Prop) (μ : S → nat) :
  (∀ s, I s → P s ∨ (∃ s', step s s') ∧ ∀ s', step s s' → I s' ∧ (μ s' < μ s)%nat) →
  ∀ s, I s → eventually s.
Proof.
  intros Hstep s. remember (μ s) as n eqn:Hn. revert s Hn.
  induction n as [n IH] using lt_wf_ind. intros s -> HI.
  destruct (Hstep s HI) as [HP|[Hex Hall]]; [by apply eventually_now|].
  apply eventually_later; [done|]. intros s' Hs'. destruct (Hall s' Hs') as [HI' Hlt]. by eapply IH.
Qed.
End eventually.

Lemma exists_last_or_nil {A} (l : list A) : l = [] ∨ ∃ l' x, l = l' ++ [x].
Proof. destruct l using rev_ind; eauto. Qed.

(** ** Sorted lists *)

Section sorted.
Context {A : Type} (R : A → A → Prop).

Lemma StronglySorted_app_iff (l1 l2 : list A) :
  StronglySorted R (l1 ++ l2) ↔
  StronglySorted R l1 ∧ StronglySorted R l2 ∧
  (∀ x y, x ∈ l1 → y ∈ l2 → R x y).
Proof.
  induction l1 as [|z l1 IH]; cbn.
  - split; [intros H; split; [constructor|]; set_solver | naive_solver].
  - split.
    + intros H. inversion H as [|? ? Hs Hf]; subst.
      apply IH in Hs as (H1 & H2 & H3). rewrite Forall_app in Hf.
      destruct Hf as [Hf1 Hf2]. split; [by constructor|]. split; [done|].
      intros x y Hx Hy. apply elem_of_cons in Hx as [->|Hx]; [|by auto].
      rewrite Forall_forall in Hf2. by apply Hf2.
    + intros (H1 & H2 & H3). inversion H1; subst. constructor.
      * apply IH. split; [done|]. split; [done|]. intros. apply H3; set_solver.
      * apply Forall_app. split; [done|]. apply Forall_forall. intros. apply H3; set_solver.
Qed.

Lemma StronglySorted_cons_iff (x : A) (l : list A) :
  StronglySorted R (x :: l) ↔ StronglySorted R l ∧ (∀ y, y ∈ l → R x y).
Proof.
  rewrite <-Forall_forall. split; [intros H; by inversion H | intros []; by constructor].
Qed.
End sorted.

(** Equality of lists and lengths up to the associativity of [++]. *)
Ltac list_norm :=
  repeat (progress (rewrite <-?app_assoc, ?app_nil_r, ?length_app; cbn [app length])).
Ltac list_eq := list_norm; solve [done | lia | f_equal; list_norm; done].

(** Split the boolean tests of the goal and the context into facts for
    [lia]. *)
Ltac bools :=
  repeat match goal with
  | |- context [?a =? ?b] => destruct (Z.eqb_spec a b)
  | |- context [?a <? ?b] => destruct (Z.ltb_spec a b)
  | |- context [?a <=? ?b] => destruct (Z.leb_spec a b)
  end; cbn [andb orb negb].
