(* ===== verification/Lmb.v ===== *)
(** * Lmb: the logical memory blocks of lib/lmb.c *)

From Stdlib Require Import ZArith Lia List Sorted.
From stdpp Require Import base numbers list option sets.
From S2P Require Import Prelude.

(** ** Data (include/lmb.h) *)

Definition MAX_LMB_REGIONS : Z := 8.
Definition LMB_ALLOC_ANYWHERE : Z := 0.

Record lmb_property := { lp_base : Z; lp_size : Z }.

(** [region] has [MAX_LMB_REGIONS + 1] entries, the first [cnt] are in use. *)
Record lmb_region := { cnt : Z; rgn_size : Z; region : list lmb_property }.

Record lmb := { memory : lmb_region; reserved : lmb_region }.

#[export] Instance lmb_property_eq_dec : EqDecision lmb_property.
Proof. solve_decision. Defined.

Definition with_region (rgn : lmb_region) (l : list lmb_property) : lmb_region :=
  {| cnt := cnt rgn; rgn_size := rgn_size rgn; region := l |}.

Definition with_cnt (rgn : lmb_region) (n : Z) : lmb_region :=
  {| cnt := n; rgn_size := rgn_size rgn; region := region rgn |}.

Definition with_reserved (l : lmb) (r : lmb_region) : lmb :=
  {| memory := memory l; reserved := r |}.

(** No loop over a table makes more than [MAX_LMB_REGIONS + 1] iterations. *)
Definition lmb_fuel : nat := 10.

(** ** Operations *)

Definition lmb_addrs_overlap (base1 size1 base2 size2 : Z) : bool :=
  let base1_end := u32 (base1 + size1 - 1) in
  let base2_end := u32 (base2 + size2 - 1) in
  (base1 <=? base2_end) && (base2 <=? base1_end).

Definition lmb_addrs_adjacent (base1 size1 base2 size2 : Z) : Z :=
  if base2 =? u32 (base1 + size1) then 1
  else if base1 =? u32 (base2 + size2) then -1
  else 0.

Definition lmb_regions_adjacent (rgn : lmb_region) (r1 r2 : Z) : option Z :=
  p1 ← arr_get (region rgn) r1;
  p2 ← arr_get (region rgn) r2;
  Some (lmb_addrs_adjacent (lp_base p1) (lp_size p1) (lp_base p2) (lp_size p2)).

Definition lmb_remove_region (rgn : lmb_region) (r : Z) : option lmb_region :=
  '(l, _) ← loop_brk lmb_fuel (λ '(l, i),
      if i <? u32 (cnt rgn - 1) then
        p ← arr_get l (i + 1);
        l ← arr_set l i p;
        Some (Next (l, i + 1))
      else Some (Break (l, i)))
    (region rgn, r);
  Some (with_cnt (with_region rgn l) (u32 (cnt rgn - 1))).

Definition lmb_coalesce_regions (rgn : lmb_region) (r1 r2 : Z) : option lmb_region :=
  p1 ← arr_get (region rgn) r1;
  p2 ← arr_get (region rgn) r2;
  l ← arr_set (region rgn) r1
        {| lp_base := lp_base p1; lp_size := u32 (lp_size p1 + lp_size p2) |};
  lmb_remove_region (with_region rgn l) r2.

Definition lmb_init (l : lmb) : lmb :=
  {| memory := {| cnt := 0; rgn_size := 0; region := region (memory l) |};
     reserved := {| cnt := 0; rgn_size := 0; region := region (reserved l) |} |}.

(** The search of [lmb_add_region] for a region to extend: the index where it
    stops, the table and the number of regions extended, or the value that the
    function returns at once. *)
Definition lmb_add_scan (rgn : lmb_region) (base size : Z)
    : option (lmb_region * Z * Z + Z) :=
  loop lmb_fuel (λ '(rgn, i, coalesced),
      if i <? cnt rgn then
        p ← arr_get (region rgn) i;
        let rgnbase := lp_base p in
        let rgnsize := lp_size p in
        if (rgnbase =? base) && (rgnsize =? size) then Some (Return 0)
        else
          let adjacent := lmb_addrs_adjacent base size rgnbase rgnsize in
          if 0 <? adjacent then
            l ← arr_set (region rgn) i
                  {| lp_base := u32 (rgnbase - size); lp_size := u32 (rgnsize + size) |};
            Some (Break (with_region rgn l, i, coalesced + 1))
          else if adjacent <? 0 then
            l ← arr_set (region rgn) i
                  {| lp_base := rgnbase; lp_size := u32 (rgnsize + size) |};
            Some (Break (with_region rgn l, i, coalesced + 1))
          else if lmb_addrs_overlap base size rgnbase rgnsize then Some (Return (-1))
          else Some (Next (rgn, i + 1, coalesced))
      else Some (Break (rgn, i, coalesced)))
    (rgn, 0, 0).

(** The merge, in [lmb_add_region], of the region where the search stopped
    with the region after it. *)
Definition lmb_add_join (rgn : lmb_region) (i coalesced : Z) : option (lmb_region * Z) :=
  if i <? u32 (cnt rgn - 1) then
    adjacent ← lmb_regions_adjacent rgn i (i + 1);
    if adjacent =? 0 then Some (rgn, coalesced)
    else rgn ← lmb_coalesce_regions rgn i (i + 1); Some (rgn, coalesced + 1)
  else Some (rgn, coalesced).

(** The insertion of [lmb_add_region] in the sorted table. *)
Definition lmb_add_shift (l : list lmb_property) (n base size : Z)
    : option (list lmb_property) :=
  '(l, _) ← loop_brk lmb_fuel (λ '(l, i),
      if 0 <=? i then
        p ← arr_get l i;
        if base <? lp_base p then
          l ← arr_set l (i + 1) p;
          Some (Next (l, i - 1))
        else
          l ← arr_set l (i + 1) {| lp_base := base; lp_size := size |};
          Some (Break (l, i))
      else Some (Break (l, i)))
    (l, n - 1);
  p0 ← arr_get l 0;
  if base <? lp_base p0
  then arr_set l 0 {| lp_base := base; lp_size := size |}
  else Some l.

Definition lmb_add_region (rgn : lmb_region) (base size : Z)
    : option (lmb_region * Z) :=
  if cnt rgn =? 0 then
    l ← arr_set (region rgn) 0 {| lp_base := base; lp_size := size |};
    Some (with_cnt (with_region rgn l) 1, 0)
  else
    o ← lmb_add_scan rgn base size;
    match o with
    | inr r => Some (rgn, r)
    | inl (rgn, i, coalesced) =>
        '(rgn, coalesced) ← lmb_add_join rgn i coalesced;
        if negb (coalesced =? 0) then Some (rgn, coalesced)
        else if MAX_LMB_REGIONS <=? cnt rgn then Some (rgn, -1)
        else
          l ← lmb_add_shift (region rgn) (cnt rgn) base size;
          Some (with_cnt (with_region rgn l) (u32 (cnt rgn + 1)), 0)
    end.

Definition lmb_add (m : lmb) (base size : Z) : option (lmb * Z) :=
  '(rgn, r) ← lmb_add_region (memory m) base size;
  Some ({| memory := rgn; reserved := reserved m |}, r).

Definition lmb_reserve (m : lmb) (base size : Z) : option (lmb * Z) :=
  '(rgn, r) ← lmb_add_region (reserved m) base size;
  Some (with_reserved m rgn, r).

(** The search of [lmb_free] for the region that contains [base, end]. *)
Definition lmb_free_find (rgn : lmb_region) (base end_ : Z)
    : option (Z * Z * Z) :=
  loop_brk lmb_fuel (λ '(i, rgnbegin, rgnend),
      if i <? cnt rgn then
        p ← arr_get (region rgn) i;
        let rgnbegin := lp_base p in
        let rgnend := u32 (rgnbegin + lp_size p - 1) in
        if (rgnbegin <=? base) && (end_ <=? rgnend)
        then Some (Break (i, rgnbegin, rgnend))
        else Some (Next (i + 1, rgnbegin, rgnend))
      else Some (Break (i, rgnbegin, rgnend)))
    (0, 0, 0).

Definition lmb_free (m : lmb) (base size : Z) : option (lmb * Z) :=
  let rgn := reserved m in
  let end_ := u32 (base + size - 1) in
  '(i, rgnbegin, rgnend) ← lmb_free_find rgn base end_;
  if i =? cnt rgn then Some (m, -1)
  else if (rgnbegin =? base) && (rgnend =? end_) then
    rgn ← lmb_remove_region rgn i;
    Some (with_reserved m rgn, 0)
  else
    p ← arr_get (region rgn) i;
    if rgnbegin =? base then
      l ← arr_set (region rgn) i
            {| lp_base := u32 (end_ + 1); lp_size := u32 (lp_size p - size) |};
      Some (with_reserved m (with_region rgn l), 0)
    else if rgnend =? end_ then
      l ← arr_set (region rgn) i
            {| lp_base := lp_base p; lp_size := u32 (lp_size p - size) |};
      Some (with_reserved m (with_region rgn l), 0)
    else
      l ← arr_set (region rgn) i
            {| lp_base := lp_base p; lp_size := u32 (base - lp_base p) |};
      '(rgn, r) ← lmb_add_region (with_region rgn l) (u32 (end_ + 1)) (u32 (rgnend - end_));
      Some (with_reserved m rgn, r).

Definition lmb_overlaps_region (rgn : lmb_region) (base size : Z) : option Z :=
  i ← loop_brk lmb_fuel (λ i,
      if i <? cnt rgn then
        p ← arr_get (region rgn) i;
        if lmb_addrs_overlap base size (lp_base p) (lp_size p)
        then Some (Break i) else Some (Next (i + 1))
      else Some (Break i)) 0;
  Some (if i <? cnt rgn then i else -1).

Definition lmb_align_down (addr size : Z) : Z :=
  Z.land addr (u32 (Z.lnot (u32 (size - 1)))).

(** The loop of [__lmb_alloc_base] over the candidate addresses of one memory
    region; a returned value is the function's. *)
Definition lmb_alloc_probe (m : lmb) (size align lmbbase base : Z)
    : option (Z + lmb * Z) :=
  loop lmb_fuel (λ base,
      if negb (base =? 0) && (lmbbase <=? base) then
        rgn ← lmb_overlaps_region (reserved m) base size;
        if rgn <? 0 then
          '(r, ret) ← lmb_add_region (reserved m) base size;
          if ret <? 0 then Some (Return (with_reserved m r, 0))
          else Some (Return (with_reserved m r, base))
        else
          p ← arr_get (region (reserved m)) rgn;
          let res_base := lp_base p in
          if res_base <? size then Some (Break base)
          else Some (Next (lmb_align_down (u32 (res_base - size)) align))
      else Some (Break base))
    base.

(** The body of the loop of [__lmb_alloc_base] for the memory region [p]: the
    value to return, if any. *)
Definition lmb_alloc_in (m : lmb) (size align max_addr : Z) (p : lmb_property)
    : option (option (lmb * Z)) :=
  let lmbbase := lp_base p in
  let lmbsize := lp_size p in
  let probe base :=
    o ← lmb_alloc_probe m size align lmbbase base;
    Some (match o with inl _ => None | inr r => Some r end) in
  if lmbsize <? size then Some None
  else if max_addr =? LMB_ALLOC_ANYWHERE then
    probe (lmb_align_down (u32 (lmbbase + lmbsize - size)) align)
  else if lmbbase <? max_addr then
    let base := u32 (lmbbase + lmbsize) in
    let base := if base <? lmbbase then u32 (-1) else base in
    let base := Z.min base max_addr in
    probe (lmb_align_down (u32 (base - size)) align)
  else Some None.

Definition __lmb_alloc_base (m : lmb) (size align max_addr : Z) : option (lmb * Z) :=
  o ← loop lmb_fuel (λ i,
      if 0 <=? i then
        p ← arr_get (region (memory m)) i;
        r ← lmb_alloc_in m size align max_addr p;
        Some (match r with Some r => Return r | None => Next (i - 1) end)
      else Some (Break i))
    (cnt (memory m) - 1);
  Some (match o with inl _ => (m, 0) | inr r => r end).

Definition lmb_alloc_base (m : lmb) (size align max_addr : Z) : option (lmb * Z) :=
  __lmb_alloc_base m size align max_addr.

Definition lmb_alloc (m : lmb) (size align : Z) : option (lmb * Z) :=
  lmb_alloc_base m size align LMB_ALLOC_ANYWHERE.

Definition lmb_alloc_addr (m : lmb) (base size : Z) : option (lmb * Z) :=
  rgn ← lmb_overlaps_region (memory m) base size;
  if 0 <=? rgn then
    p ← arr_get (region (memory m)) rgn;
    if lmb_addrs_overlap (lp_base p) (lp_size p) (u32 (base + size - 1)) 1 then
      '(m, ret) ← lmb_reserve m base size;
      Some (m, if 0 <=? ret then base else 0)
    else Some (m, 0)
  else Some (m, 0).

Definition lmb_get_free_size (m : lmb) (addr : Z) : option Z :=
  rgn ← lmb_overlaps_region (memory m) addr 1;
  if 0 <=? rgn then
    o ← loop lmb_fuel (λ i,
        if i <? cnt (reserved m) then
          p ← arr_get (region (reserved m)) i;
          if addr <? lp_base p then Some (Return (u32 (lp_base p - addr)))
          else if addr <? u32 (lp_base p + lp_size p) then Some (Return 0)
          else Some (Next (i + 1))
        else Some (Break i)) 0;
    match o with
    | inr r => Some r
    | inl _ =>
        p ← arr_get (region (memory m)) (u32 (cnt (memory m) - 1));
        Some (u32 (lp_base p + lp_size p - addr))
    end
  else Some 0.

Definition lmb_is_reserved (m : lmb) (addr : Z) : option Z :=
  o ← loop lmb_fuel (λ i,
      if i <? cnt (reserved m) then
        p ← arr_get (region (reserved m)) i;
        let upper := u32 (lp_base p + lp_size p - 1) in
        if (lp_base p <=? addr) && (addr <=? upper) then Some (Return 1)
        else Some (Next (i + 1))
      else Some (Break i)) 0;
  Some (match o with inl _ => 0 | inr r => r end).

(** ** The set of addresses that a table describes *)

Definition blk (b size : Z) : lmb_property := {| lp_base := b; lp_size := size |}.
Definition lp_end (p : lmb_property) : Z := lp_base p + lp_size p.
Definition inside (p : lmb_property) (a : Z) : Prop := lp_base p ≤ a < lp_end p.
Definition covers (L : list lmb_property) (a : Z) : Prop := ∃ p, p ∈ L ∧ inside p a.

(** A block of at least a byte that ends below the top of the address space. *)
Definition lp_ok (p : lmb_property) : Prop :=
  0 ≤ lp_base p ∧ 0 < lp_size p ∧ lp_end p < 2 ^ 32.

(** [p] ends strictly below [q]: the two blocks are neither overlapping nor
    adjacent. *)
Definition before (p q : lmb_property) : Prop := lp_end p < lp_base q.

Definition disjoint (p q : lmb_property) : Prop :=
  lp_end p ≤ lp_base q ∨ lp_end q ≤ lp_base p.

(** The first [cnt] entries of the table are [L], sorted by address and
    coalesced. *)
Record lmb_repr (rgn : lmb_region) (L : list lmb_property) : Prop := {
  repr_tail : ∃ T, region rgn = L ++ T ∧ Z.of_nat (length (L ++ T)) = MAX_LMB_REGIONS + 1;
  repr_cnt : cnt rgn = Z.of_nat (length L);
  repr_max : Z.of_nat (length L) ≤ MAX_LMB_REGIONS;
  repr_ok : Forall lp_ok L;
  repr_sorted : StronglySorted before L
}.

Ltac lmb_arith :=
  unfold MAX_LMB_REGIONS, LMB_ALLOC_ANYWHERE, lp_ok, before, disjoint, inside, lp_end, blk in *;
  cbn [lp_base lp_size] in *; try lia.

Lemma overlap_iff p q :
  lp_ok p → lp_ok q →
  lmb_addrs_overlap (lp_base p) (lp_size p) (lp_base q) (lp_size q) = true ↔ ¬ disjoint p q.
Proof.
  intros Hp Hq. unfold lmb_addrs_overlap. lmb_arith. word_small.
  rewrite andb_true_iff, !Z.leb_le. lia.
Qed.

Lemma overlap_false p q :
  lp_ok p → lp_ok q → disjoint p q →
  lmb_addrs_overlap (lp_base p) (lp_size p) (lp_base q) (lp_size q) = false.
Proof.
  intros Hp Hq Hd. apply not_true_is_false. rewrite overlap_iff by done. naive_solver.
Qed.

Lemma adjacent_eq p q :
  lp_ok p → lp_ok q →
  lmb_addrs_adjacent (lp_base p) (lp_size p) (lp_base q) (lp_size q) =
  if lp_base q =? lp_end p then 1 else if lp_base p =? lp_end q then -1 else 0.
Proof. intros Hp Hq. unfold lmb_addrs_adjacent. lmb_arith. by word_small. Qed.

Lemma Forall_middle {A} (P : A → Prop) l1 x l2 :
  Forall P (l1 ++ x :: l2) ↔ Forall P l1 ∧ P x ∧ Forall P l2.
Proof. rewrite Forall_app, Forall_cons_iff. done. Qed.

Lemma covers_app L1 L2 a : covers (L1 ++ L2) a ↔ covers L1 a ∨ covers L2 a.
Proof.
  unfold covers. split.
  - intros (p & Hp & Hi). apply elem_of_app in Hp as [?|?]; eauto.
  - intros [(p & Hp & Hi)|(p & Hp & Hi)]; exists p; rewrite elem_of_app; eauto.
Qed.

Lemma covers_cons p L a : covers (p :: L) a ↔ inside p a ∨ covers L a.
Proof.
  unfold covers. split.
  - intros (q & Hq & Hi). apply elem_of_cons in Hq as [->|?]; eauto.
  - intros [Hi|(q & Hq & Hi)]; [exists p|exists q]; rewrite elem_of_cons; eauto.
Qed.

Lemma covers_nil a : ¬ covers [] a.
Proof. intros (p & Hp & _). by apply not_elem_of_nil in Hp. Qed.

(** *** Removal of an entry *)

Lemma lmb_remove_region_spec rgn L1 q L2 T :
  region rgn = L1 ++ q :: L2 ++ T →
  Z.of_nat (length (region rgn)) = MAX_LMB_REGIONS + 1 →
  cnt rgn = Z.of_nat (length (L1 ++ q :: L2)) →
  cnt rgn ≤ MAX_LMB_REGIONS →
  ∃ T', lmb_remove_region rgn (Z.of_nat (length L1)) =
          Some (with_cnt (with_region rgn (L1 ++ L2 ++ T')) (cnt rgn - 1)) ∧
        length T' = S (length T).
Proof.
  intros Hr Hlen Hc Hmax. rewrite length_app in Hc; cbn [length] in Hc.
  unfold lmb_remove_region. rewrite (wrap_small 32 (cnt rgn - 1)) by lmb_arith.
  edestruct (loop_brk_total
    (λ '(l, i),
      if i <? cnt rgn - 1 then
        p ← arr_get l (i + 1);
        l ← arr_set l i p;
        Some (Next (l, i + 1))
      else Some (Break (l, i)))
    (λ '(l, i), ∃ L2a L2b x, L2 = L2a ++ L2b ∧ l = L1 ++ L2a ++ x :: L2b ++ T ∧
       i = Z.of_nat (length L1 + length L2a))
    (λ '(l, i), Z.to_nat (cnt rgn - i))
    (λ '(l, i), ∃ x, l = L1 ++ L2 ++ x :: T))
    with (fuel := lmb_fuel) (s := (region rgn, Z.of_nat (length L1)))
    as ([l i] & Hl & x & ->).
  - intros [l i] (L2a & L2b & x & -> & -> & ->).
    rewrite length_app in Hc. cbv beta iota zeta.
    destruct (Z.ltb_spec (Z.of_nat (length L1 + length L2a)) (cnt rgn - 1)) as [Hlt|Hge].
    + destruct L2b as [|y L2b]; [cbn in Hc; lia|]. cbn [length] in Hc.
      rewrite (arr_get_at _ (L1 ++ L2a ++ [x]) y (L2b ++ T)) by list_eq. cbn.
      rewrite (arr_set_at _ (L1 ++ L2a) x (y :: L2b ++ T)) by list_eq. cbn.
      eexists; split; [done|]. split; [|lia].
      exists (L2a ++ [y]), L2b, y. rewrite <-!app_assoc, length_app; cbn.
      split_and!; [done..|lia].
    + eexists; split; [done|]. destruct L2b; [|cbn in Hc; lia].
      exists x. by rewrite app_nil_r.
  - exists [], L2, q. rewrite Hr, Nat.add_0_r. done.
  - lmb_arith. unfold lmb_fuel. lia.
  - rewrite Hl. exists (x :: T). done.
Qed.

(** *** The search for a region to extend *)

(** What [lmb_add_scan] finds for a block [p] that no region of [L] overlaps:
    nothing to extend, the region that starts where [p] ends, or the region
    that ends where [p] starts. *)
Inductive scan_found (rgn : lmb_region) (L : list lmb_property) (p : lmb_property)
    : lmb_region * Z * Z + Z → Prop :=
| found_none :
    (∀ q, q ∈ L → lp_end p ≠ lp_base q ∧ lp_end q ≠ lp_base p) →
    scan_found rgn L p (inl (rgn, cnt rgn, 0))
| found_up L1 q L2 T :
    L = L1 ++ q :: L2 → region rgn = L ++ T → lp_end p = lp_base q →
    (∀ q', q' ∈ L1 → lp_end q' ≠ lp_base p) →
    scan_found rgn L p
      (inl (with_region rgn
              (L1 ++ {| lp_base := lp_base p; lp_size := lp_size p + lp_size q |} :: L2 ++ T),
            Z.of_nat (length L1), 1))
| found_down L1 q L2 T :
    L = L1 ++ q :: L2 → region rgn = L ++ T → lp_end q = lp_base p →
    scan_found rgn L p
      (inl (with_region rgn
              (L1 ++ {| lp_base := lp_base q; lp_size := lp_size q + lp_size p |} :: L2 ++ T),
            Z.of_nat (length L1), 1)).

Lemma lmb_add_scan_spec rgn L p :
  lmb_repr rgn L → lp_ok p → (∀ q, q ∈ L → disjoint p q) →
  ∃ o, lmb_add_scan rgn (lp_base p) (lp_size p) = Some o ∧ scan_found rgn L p o.
Proof.
  intros [(T & HT & Hlen) Hc Hmax Hok _] Hp Hd. unfold lmb_add_scan.
  apply loop_total with
    (I := λ '(rgn', i, c), rgn' = rgn ∧ c = 0 ∧
            ∃ L1 L2, L = L1 ++ L2 ∧ i = Z.of_nat (length L1) ∧
            (∀ q, q ∈ L1 → lp_end p ≠ lp_base q ∧ lp_end q ≠ lp_base p))
    (μ := λ '(_, i, _), Z.to_nat (cnt rgn - i)).
  - intros [[rgn' i] c] (-> & -> & L1 & L2 & HL & -> & Hno).
    cbv beta iota zeta. rewrite Hc, HL, length_app.
    destruct L2 as [|q L2]; cbn [length].
    { rewrite (proj2 (Z.ltb_ge _ _)) by lia. eexists; split; [done|].
      replace (Z.of_nat (length L1)) with (cnt rgn) by (rewrite Hc, HL; list_eq).
      constructor. subst L. rewrite app_nil_r. done. }
    rewrite (proj2 (Z.ltb_lt _ _)) by lia.
    rewrite (arr_get_at _ L1 q (L2 ++ T)) by (rewrite ?HT, ?HL; list_eq). cbn [mbind option_bind].
    assert (Hq : lp_ok q) by (rewrite Forall_forall in Hok; apply Hok; set_solver).
    assert (Hdq : disjoint p q) by (apply Hd; set_solver).
    rewrite adjacent_eq, (overlap_false p q) by done.
    assert (Hsame : (lp_base q =? lp_base p) && (lp_size q =? lp_size p) = false)
      by (bools; lmb_arith).
    rewrite Hsame.
    destruct (Z.eqb_spec (lp_base q) (lp_end p)) as [He|Hne]; cbn [Z.ltb Z.compare].
    { rewrite (arr_set_at _ L1 q (L2 ++ T)) by (rewrite ?HT, ?HL; list_eq).
      cbn [mbind option_bind]. eexists; split; [done|].
      replace (u32 (lp_base q - lp_size p)) with (lp_base p) by (lmb_arith; word_small; lia).
      rewrite wrap_small, (Z.add_comm (lp_size q)) by lmb_arith.
      apply (found_up _ _ _ L1 q L2 T); [done|by rewrite HT, HL|done|]. intros q' Hq'. by apply Hno. }
    destruct (Z.eqb_spec (lp_base p) (lp_end q)) as [He|Hne2]; cbn [Z.ltb Z.compare].
    { rewrite (arr_set_at _ L1 q (L2 ++ T)) by (rewrite ?HT, ?HL; list_eq).
      cbn [mbind option_bind]. eexists; split; [done|].
      rewrite wrap_small by lmb_arith.
      apply (found_down _ _ _ L1 q L2 T); [done|by rewrite HT, HL|done]. }
    eexists; split; [done|]. split; [|lia].
    split_and!; [done..|]. exists (L1 ++ [q]), L2. split_and!; [list_eq..|].
    intros q' [?|?%list_elem_of_singleton]%elem_of_app; subst; auto.
  - split_and!; [done..|]. exists [], L. split_and!; [done..|]. set_solver.
  - lmb_arith. unfold lmb_fuel. lia.
Qed.

(** *** The insertion in the sorted table *)

Lemma lmb_add_shift_spec La Lb x T p :
  (0 < length (La ++ Lb))%nat →
  Z.of_nat (length (La ++ Lb)) < MAX_LMB_REGIONS →
  Forall (λ q, lp_base q ≤ lp_base p) La → Forall (λ q, lp_base p < lp_base q) Lb →
  lmb_add_shift (La ++ Lb ++ x :: T) (Z.of_nat (length (La ++ Lb))) (lp_base p) (lp_size p)
  = Some (La ++ p :: Lb ++ T).
Proof.
  intros Hpos Hmax HLa HLb. unfold lmb_add_shift.
  edestruct (loop_brk_total
    (λ '(l, i),
      if 0 <=? i then
        q ← arr_get l i;
        if lp_base p <? lp_base q then
          l ← arr_set l (i + 1) q;
          Some (Next (l, i - 1))
        else
          l ← arr_set l (i + 1) {| lp_base := lp_base p; lp_size := lp_size p |};
          Some (Break (l, i))
      else Some (Break (l, i)))
    (λ '(l, i), ∃ Lb1 Lb2 y, Lb = Lb1 ++ Lb2 ∧ l = La ++ Lb1 ++ y :: Lb2 ++ T ∧
       i = Z.of_nat (length La + length Lb1) - 1 ∧ (La = [] → Lb1 = [] → ∃ L', Lb2 = y :: L'))
    (λ '(l, i), Z.to_nat (i + 1))
    (λ '(l, i), ∃ y, l = La ++ y :: Lb ++ T ∧
       (La = [] → ∃ L', Lb = y :: L') ∧ (La ≠ [] → y = p)))
    with (fuel := lmb_fuel) (s := (La ++ Lb ++ x :: T, Z.of_nat (length (La ++ Lb)) - 1))
    as ([l i] & Hl & y & -> & Hnil & Hcons).
  - intros [l i] (Lb1 & Lb2 & y & -> & -> & -> & Hhd). cbv beta iota zeta.
    destruct (exists_last_or_nil Lb1) as [->|(Lb1' & q & ->)].
    + destruct (exists_last_or_nil La) as [->|(La' & q & ->)].
      * cbn. eexists; split; [done|]. exists y. split_and!; [done| |done].
        intros _. by apply Hhd.
      * rewrite (proj2 (Z.leb_le _ _)) by (list_norm; lia).
        rewrite (arr_get_at _ La' q (y :: Lb2 ++ T)) by list_eq. cbn [mbind option_bind].
        apply Forall_app in HLa as [_ Hq%Forall_inv].
        rewrite (proj2 (Z.ltb_ge _ _)) by done.
        rewrite (arr_set_at _ (La' ++ [q]) y (Lb2 ++ T)) by list_eq. cbn [mbind option_bind].
        eexists; split; [done|]. exists p. split_and!; [by destruct p| |done].
        intros He. by destruct La'.
    + rewrite (proj2 (Z.leb_le _ _)) by (list_norm; lia).
      rewrite (arr_get_at _ (La ++ Lb1') q (y :: Lb2 ++ T)) by list_eq. cbn [mbind option_bind].
      rewrite <-app_assoc in HLb. apply Forall_app in HLb as [_ Hq%Forall_inv].
      rewrite (proj2 (Z.ltb_lt _ _)) by done.
      rewrite (arr_set_at _ (La ++ Lb1' ++ [q]) y (Lb2 ++ T)) by list_eq.
      cbn [mbind option_bind]. eexists; split; [done|].
      split; [|list_norm; lia]. exists Lb1', (q :: Lb2), q.
      split_and!; [list_eq|list_eq|list_norm; lia|eauto].
  - exists Lb, [], x. split_and!; [list_eq..|]. intros -> ->. cbn in Hpos. lia.
  - lmb_arith. unfold lmb_fuel. lia.
  - rewrite Hl. cbn [mbind option_bind].
    destruct La as [|q La].
    + destruct Hnil as [L' ->]; [done|].
      rewrite (arr_get_at _ [] y ((y :: L') ++ T)) by done. cbn [mbind option_bind].
      rewrite (proj2 (Z.ltb_lt _ _)) by (by apply Forall_inv in HLb).
      rewrite (arr_set_at _ [] y ((y :: L') ++ T)) by done. by destruct p.
    + rewrite (arr_get_at _ [] q (La ++ y :: Lb ++ T)) by done. cbn [mbind option_bind].
      rewrite (proj2 (Z.ltb_ge _ _)) by (by apply Forall_inv in HLa).
      by rewrite (Hcons ltac:(done)).
Qed.

(** *** [lmb_add_region] *)

Lemma before_split L p :
  StronglySorted before L → Forall lp_ok L → (∀ q, q ∈ L → disjoint p q) → lp_ok p →
  ∃ La Lb, L = La ++ Lb ∧
    (∀ q, q ∈ La → lp_end q ≤ lp_base p) ∧ (∀ q, q ∈ Lb → lp_end p ≤ lp_base q).
Proof.
  intros Hs Hok Hd Hp. induction L as [|q L IH].
  { exists [], []. split_and!; [done|set_solver..]. }
  apply StronglySorted_cons_iff in Hs as [Hs Hq]. apply Forall_cons_iff in Hok as [Hokq Hok].
  destruct (Hd q ltac:(set_solver)) as [Hpq|Hqp].
  - exists [], (q :: L). split_and!; [done|set_solver|].
    intros r [->|Hr]%elem_of_cons; [done|]. apply Hq in Hr. lmb_arith.
  - destruct IH as (La & Lb & -> & HLa & HLb); [set_solver..|].
    exists (q :: La), Lb. split_and!; [done| |done].
    intros r [->|Hr]%elem_of_cons; auto.
Qed.

(** The blocks of [L], none adjacent to [p], with [p] in its place. *)
Lemma repr_insert La Lb p :
  StronglySorted before (La ++ Lb) →
  (∀ q, q ∈ La → lp_end q < lp_base p) → (∀ q, q ∈ Lb → lp_end p < lp_base q) →
  StronglySorted before (La ++ p :: Lb).
Proof.
  rewrite !StronglySorted_app_iff, StronglySorted_cons_iff. intros (H1 & H2 & H3) HLa HLb.
  split_and!; [done..|].
  intros x y Hx [->|Hy]%elem_of_cons; [by apply HLa|auto].
Qed.

(** Replacing the block [q] of a sorted table by a larger block [q'] that
    stays clear of the neighbours. *)
Lemma repr_replace L1 q q' L2 :
  StronglySorted before (L1 ++ q :: L2) →
  (∀ r, r ∈ L1 → lp_end r < lp_base q') → (∀ r, r ∈ L2 → lp_end q' < lp_base r) →
  StronglySorted before (L1 ++ q' :: L2).
Proof.
  intros Hs. apply repr_insert.
  rewrite !StronglySorted_app_iff, StronglySorted_cons_iff in *.
  destruct Hs as (H1 & [H2 _] & H3). split_and!; [done..|]. intros; apply H3; [done|set_solver].
Qed.

Lemma sorted_middle L1 q L2 :
  StronglySorted before (L1 ++ q :: L2) →
  (∀ r, r ∈ L1 → lp_end r < lp_base q) ∧ (∀ r, r ∈ L2 → lp_end q < lp_base r).
Proof.
  rewrite StronglySorted_app_iff, StronglySorted_cons_iff. intros (H1 & [H2 H3] & H4).
  split; [intros r Hr; apply H4; [done|set_solver]|done].
Qed.

(** The result of [lmb_add_region rgn p] for a table [L]: full, or the table
    [L'] that covers the addresses of [L] and of [p], in which [r] regions
    were merged with [p]. *)
Inductive added (rgn : lmb_region) (L : list lmb_property) (p : lmb_property)
    : lmb_region * Z → Prop :=
| added_full :
    cnt rgn = MAX_LMB_REGIONS →
    (∀ q, q ∈ L → lp_end p ≠ lp_base q ∧ lp_end q ≠ lp_base p) →
    added rgn L p (rgn, -1)
| added_ok rgn' L' r :
    0 ≤ r ≤ 2 →
    (r ≠ 0 → ∃ q, q ∈ L ∧ (lp_end p = lp_base q ∨ lp_end q = lp_base p)) →
    lmb_repr rgn' L' → Z.of_nat (length L') = Z.of_nat (length L) + 1 - r →
    (∀ a, covers L' a ↔ covers L a ∨ inside p a) →
    added rgn L p (rgn', r).

Lemma repr_set rgn L1 q m L2 T :
  lmb_repr rgn (L1 ++ q :: L2) → region rgn = (L1 ++ q :: L2) ++ T → lp_ok m →
  (∀ r, r ∈ L1 → lp_end r < lp_base m) → (∀ r, r ∈ L2 → lp_end m < lp_base r) →
  lmb_repr (with_region rgn (L1 ++ m :: L2 ++ T)) (L1 ++ m :: L2).
Proof.
  intros [(T' & HT' & Hlen) Hc Hmax Hok Hs] HT Hm H1 H2.
  rewrite HT' in HT. apply app_inv_head in HT as ->. constructor; cbn.
  - exists T. split; [list_eq|]. revert Hlen. list_norm. lia.
  - rewrite Hc. list_norm. lia.
  - revert Hmax. list_norm. lia.
  - rewrite Forall_middle in *. naive_solver.
  - by eapply repr_replace.
Qed.

(** Removal of the entry [q], seen from the table. *)
Lemma lmb_remove_repr rgn L1 q L2 :
  lmb_repr rgn (L1 ++ q :: L2) →
  ∃ rgn', lmb_remove_region rgn (Z.of_nat (length L1)) = Some rgn' ∧
          lmb_repr rgn' (L1 ++ L2).
Proof.
  intros [(T & HT & Hlen) Hc Hmax Hok Hs].
  destruct (lmb_remove_region_spec rgn L1 q L2 T) as (T' & -> & HT').
  { rewrite HT. list_eq. } { by rewrite HT. } { done. } { by rewrite Hc. }
  eexists; split; [done|]. revert Hlen Hmax. list_norm. intros Hlen Hmax.
  constructor; cbn.
  - exists T'. split; [list_eq|]. list_norm. lia.
  - rewrite Hc. list_norm. lia.
  - list_norm. lia.
  - rewrite Forall_middle in Hok. rewrite Forall_app. naive_solver.
  - rewrite !StronglySorted_app_iff, StronglySorted_cons_iff in *.
    destruct Hs as (H1 & [H2 _] & H3). split_and!; [done..|]. intros; apply H3; [done|set_solver].
Qed.

Lemma lmb_add_join_none rgn L1 m L2 c :
  lmb_repr rgn (L1 ++ m :: L2) →
  lmb_add_join rgn (Z.of_nat (length L1)) c = Some (rgn, c).
Proof.
  intros [(T & HT & Hlen) Hc Hmax Hok Hs]. unfold lmb_add_join.
  rewrite wrap_small by (revert Hc Hmax; list_norm; lmb_arith).
  destruct (Z.ltb_spec (Z.of_nat (length L1)) (cnt rgn - 1)) as [Hlt|]; [|done].
  destruct L2 as [|r L2]; [revert Hc Hlt; list_norm; lia|].
  unfold lmb_regions_adjacent.
  rewrite (arr_get_at _ L1 m (r :: L2 ++ T) (Z.of_nat (length L1))) by (rewrite ?HT; list_eq).
  rewrite (arr_get_at _ (L1 ++ [m]) r (L2 ++ T)) by (rewrite ?HT; list_eq).
  cbn [mbind option_bind].
  apply Forall_middle in Hok as (_ & Hm & [Hr _]%Forall_cons_iff).
  rewrite adjacent_eq by done.
  destruct (sorted_middle _ _ _ Hs) as [_ Hmr]. specialize (Hmr r ltac:(set_solver)).
  rewrite (proj2 (Z.eqb_neq (lp_base r) _)), (proj2 (Z.eqb_neq (lp_base m) _)) by lmb_arith.
  done.
Qed.

Lemma lmb_add_join_merge rgn T L1 m r L2 c :
  region rgn = (L1 ++ m :: r :: L2) ++ T →
  Z.of_nat (length (region rgn)) = MAX_LMB_REGIONS + 1 →
  cnt rgn = Z.of_nat (length (L1 ++ m :: r :: L2)) → cnt rgn ≤ MAX_LMB_REGIONS →
  Forall lp_ok (L1 ++ m :: r :: L2) → lp_end m = lp_base r →
  (∀ x, x ∈ L1 → lp_end x < lp_base m) → (∀ x, x ∈ L2 → lp_end r < lp_base x) →
  StronglySorted before (L1 ++ L2) →
  ∃ rgn', lmb_add_join rgn (Z.of_nat (length L1)) c = Some (rgn', c + 1) ∧
    lmb_repr rgn' (L1 ++ {| lp_base := lp_base m; lp_size := lp_size m + lp_size r |} :: L2).
Proof.
  intros HT Hlen Hc Hmax Hok Hadj H1 H2 Hs. unfold lmb_add_join.
  revert Hc. list_norm. intros Hc.
  rewrite wrap_small, (proj2 (Z.ltb_lt _ _)) by lmb_arith.
  apply Forall_middle in Hok as (Hok1 & Hm & [Hr Hok2]%Forall_cons_iff).
  unfold lmb_regions_adjacent, lmb_coalesce_regions.
  rewrite (arr_get_at _ L1 m (r :: L2 ++ T) (Z.of_nat (length L1))) by (rewrite ?HT; list_eq).
  rewrite (arr_get_at _ (L1 ++ [m]) r (L2 ++ T)) by (rewrite ?HT; list_eq).
  cbn [mbind option_bind].
  rewrite adjacent_eq, (proj2 (Z.eqb_eq (lp_base r) (lp_end m))) by done. cbn [Z.eqb].
  rewrite (arr_set_at _ L1 m (r :: L2 ++ T)) by (rewrite ?HT; list_eq).
  cbn [mbind option_bind]. rewrite wrap_small by lmb_arith.
  set (m' := {| lp_base := _; lp_size := _ |}).
  destruct (lmb_remove_region_spec (with_region rgn (L1 ++ m' :: r :: L2 ++ T))
              (L1 ++ [m']) r L2 T) as (T' & Hrm & HT'); cbn.
  { list_eq. } { revert Hlen. rewrite HT. list_norm. lia. } { rewrite Hc. list_eq. } { done. }
  replace (Z.of_nat (length L1) + 1) with (Z.of_nat (length (L1 ++ [m']))) by list_eq.
  rewrite Hrm. cbn. eexists; split; [done|].
  revert Hlen. rewrite HT. list_norm. intros Hlen. constructor; cbn.
  - exists T'. split; [list_eq|]. list_norm. lia.
  - list_norm. lia.
  - list_norm. lia.
  - apply Forall_middle. split_and!; [done| |done]. subst m'. lmb_arith.
  - apply repr_insert; [done|done|]. intros x Hx%H2. subst m'. lmb_arith.
Qed.

Lemma repr_room rgn L :
  lmb_repr rgn L → cnt rgn < MAX_LMB_REGIONS →
  ∃ x T, region rgn = L ++ x :: T ∧ Z.of_nat (length (L ++ x :: T)) = MAX_LMB_REGIONS + 1.
Proof.
  intros [(T & HT & Hlen) Hc _ _ _] Hlt. destruct T as [|x T]; [|eauto].
  revert Hlen. list_norm. lia.
Qed.

Lemma repr_insert_table rgn La Lb x T p :
  lmb_repr rgn (La ++ Lb) → region rgn = (La ++ Lb) ++ x :: T →
  cnt rgn < MAX_LMB_REGIONS → lp_ok p → 
  (∀ q, q ∈ La → lp_end q < lp_base p) → (∀ q, q ∈ Lb → lp_end p < lp_base q) →
  lmb_repr (with_cnt (with_region rgn (La ++ p :: Lb ++ T)) (cnt rgn + 1)) (La ++ p :: Lb).
Proof.
  intros [(T' & HT' & Hlen) Hc Hmax Hok Hs] HT Hlt Hp HLa HLb.
  rewrite HT' in HT. apply app_inv_head in HT as ->.
  revert Hlen Hc Hmax. list_norm. intros Hlen Hc Hmax. constructor; cbn.
  - exists T. split; [list_eq|]. list_norm. lia.
  - list_norm. lia.
  - list_norm. lia.
  - apply Forall_app in Hok. apply Forall_middle. naive_solver.
  - by apply repr_insert.
Qed.

(** What follows the search, in the three cases where it ends. *)

Lemma added_none rgn L p :
  lmb_repr rgn L → lp_ok p → (∀ q, q ∈ L → disjoint p q) → cnt rgn ≠ 0 →
  cnt rgn < MAX_LMB_REGIONS →
  (∀ q, q ∈ L → lp_end p ≠ lp_base q ∧ lp_end q ≠ lp_base p) →
  ∃ l, lmb_add_shift (region rgn) (cnt rgn) (lp_base p) (lp_size p) = Some l ∧
       added rgn L p (with_cnt (with_region rgn l) (u32 (cnt rgn + 1)), 0).
Proof.
  intros HL Hp Hd Hn0 Hlt Hno. pose proof HL as [_ Hc Hmax Hok Hs].
  destruct (repr_room rgn L HL Hlt) as (x & T & HT & HlenT).
  destruct (before_split L p) as (La & Lb & -> & HLa & HLb); [done..|].
  assert (Ha : ∀ q, q ∈ La → lp_end q < lp_base p).
  { intros q Hq. destruct (Hno q) as [_ Hne]; [set_solver|]. apply HLa in Hq. lia. }
  assert (Hb : ∀ q, q ∈ Lb → lp_end p < lp_base q).
  { intros q Hq. destruct (Hno q) as [Hne _]; [set_solver|]. apply HLb in Hq. lia. }
  rewrite HT, Hc, <-app_assoc, lmb_add_shift_spec.
  - eexists; split; [done|].
    apply (added_ok _ _ _ _ (La ++ p :: Lb)); [lia|done| |list_norm; lia|].
    + rewrite wrap_small, <-Hc by lmb_arith. by eapply repr_insert_table.
    + intros a. rewrite !covers_app, covers_cons. tauto.
  - lia.
  - by rewrite <-Hc.
  - apply Forall_app in Hok as [Hok _]. rewrite Forall_forall in *.
    intros q Hq. specialize (Hok q Hq). apply Ha in Hq. lmb_arith.
  - rewrite Forall_forall. intros q Hq%Hb. lmb_arith.
Qed.

Lemma added_up rgn L1 q L2 T p :
  let m := {| lp_base := lp_base p; lp_size := lp_size p + lp_size q |} in
  lmb_repr rgn (L1 ++ q :: L2) → region rgn = (L1 ++ q :: L2) ++ T →
  lp_ok p → (∀ r, r ∈ L1 ++ q :: L2 → disjoint p r) →
  lp_end p = lp_base q → (∀ r, r ∈ L1 → lp_end r ≠ lp_base p) →
  ∃ o, lmb_add_join (with_region rgn (L1 ++ m :: L2 ++ T)) (Z.of_nat (length L1)) 1 = Some o ∧
       snd o ≠ 0 ∧ added rgn (L1 ++ q :: L2) p o.
Proof.
  intros m HL HT Hp Hd Hadj Hno. pose proof HL as [_ Hc Hmax Hok Hs].
  destruct (sorted_middle _ _ _ Hs) as [Hs1 Hs2].
  pose proof Hok as (Hok1 & Hq & _)%Forall_middle.
  assert (HLm : lmb_repr (with_region rgn (L1 ++ m :: L2 ++ T)) (L1 ++ m :: L2)).
  { apply (repr_set rgn L1 q); [done..|subst m; lmb_arith| |].
    - intros r Hr. specialize (Hs1 r Hr). specialize (Hno r Hr).
      rewrite Forall_forall in Hok1. specialize (Hok1 r Hr).
      specialize (Hd r ltac:(set_solver)). subst m. lmb_arith.
    - intros r Hr%Hs2. subst m. lmb_arith. }
  rewrite (lmb_add_join_none _ L1 m L2) by done.
  eexists; split_and!; [done|done|].
  eapply (added_ok _ _ _ _ (L1 ++ m :: L2)); [lia| |done|list_norm; lia|].
  { intros _. exists q. set_solver. }
  intros a. rewrite !covers_app, !covers_cons.
  assert (inside m a ↔ inside q a ∨ inside p a) by (subst m; lmb_arith). tauto.
Qed.

(** [q], extended to the end of [p], stays clear of the next block or meets
    it. *)
Lemma added_down rgn L1 q L2 T p :
  let m := {| lp_base := lp_base q; lp_size := lp_size q + lp_size p |} in
  lmb_repr rgn (L1 ++ q :: L2) → region rgn = (L1 ++ q :: L2) ++ T →
  lp_ok p → (∀ r, r ∈ L1 ++ q :: L2 → disjoint p r) → lp_end q = lp_base p →
  ∃ o, lmb_add_join (with_region rgn (L1 ++ m :: L2 ++ T)) (Z.of_nat (length L1)) 1 = Some o ∧
       snd o ≠ 0 ∧ added rgn (L1 ++ q :: L2) p o.
Proof.
  intros m HL HT Hp Hd Hadj. pose proof HL as [(T0 & HT0 & Hlen) Hc Hmax Hok Hs].
  destruct (sorted_middle _ _ _ Hs) as [Hs1 Hs2].
  pose proof Hok as (Hok1 & Hq & Hok2)%Forall_middle.
  assert (Hm : lp_ok m).
  { subst m. lmb_arith. }
  assert (Hma : ∀ a, inside m a ↔ inside q a ∨ inside p a) by (intros; subst m; lmb_arith).
  assert (Hends : lp_end m = lp_end p) by (subst m; lmb_arith).
  assert (Hp2 : ∀ r, r ∈ L2 → lp_end p ≤ lp_base r).
  { intros r Hr. specialize (Hs2 r Hr). specialize (Hd r ltac:(set_solver)).
    rewrite Forall_forall in Hok2. specialize (Hok2 r Hr). lmb_arith. }
  assert ((∃ r L2', L2 = r :: L2' ∧ lp_end p = lp_base r) ∨
          (∀ r L2', L2 = r :: L2' → lp_end p < lp_base r)) as [(r & L2' & -> & He)|Hne].
  { destruct L2 as [|r L2']; [by right|]. specialize (Hp2 r ltac:(set_solver)).
    destruct (Z.eq_dec (lp_end p) (lp_base r)); [by eauto|].
    right. intros ? ? [= <- <-]. lia. }
  - destruct (lmb_add_join_merge (with_region rgn (L1 ++ m :: (r :: L2') ++ T)) T L1 m r L2' 1)
      as (rgn' & -> & Hrepr); cbn [with_region region cnt].
    + list_eq.
    + revert Hlen. rewrite <-HT0, HT. list_norm. lia.
    + rewrite Hc. list_eq.
    + lia.
    + by apply Forall_middle.
    + lia.
    + done.
    + intros x Hx. rewrite StronglySorted_app_iff, !StronglySorted_cons_iff in Hs. naive_solver.
    + rewrite !StronglySorted_app_iff, !StronglySorted_cons_iff in *.
      destruct Hs as (? & [[? ?] ?] & Hx). split_and!; [done..|]. intros; apply Hx; set_solver.
    + eexists; split_and!; [done|done|].
      eapply added_ok; [| |exact Hrepr|list_norm; lia|]; [lia|intros _; exists q; set_solver|].
      intros a. rewrite !covers_app, !covers_cons. specialize (Hma a).
      pose proof Hok2 as [Hr _]%Forall_cons_iff.
      assert (inside {| lp_base := lp_base m; lp_size := lp_size m + lp_size r |} a
              ↔ inside m a ∨ inside r a) by lmb_arith. tauto.
  - assert (HLm : lmb_repr (with_region rgn (L1 ++ m :: L2 ++ T)) (L1 ++ m :: L2)).
    { apply (repr_set rgn L1 q); [done..|]. intros x Hx.
      destruct L2 as [|r L2']; [set_solver|]. specialize (Hne r L2' eq_refl).
      apply elem_of_cons in Hx as [->|Hx]; [lia|].
      rewrite StronglySorted_app_iff, !StronglySorted_cons_iff in Hs.
      destruct Hs as (_ & [[_ Hrx] _] & _). specialize (Hrx x Hx).
      pose proof Hok2 as [Hr _]%Forall_cons_iff. lmb_arith. }
    rewrite (lmb_add_join_none _ L1 m L2) by done. eexists; split_and!; [done|done|].
    eapply (added_ok _ _ _ _ (L1 ++ m :: L2)); [lia| |done|list_norm; lia|].
    { intros _. exists q. set_solver. }
    intros a. rewrite !covers_app, !covers_cons, Hma. tauto.
Qed.

Lemma lmb_add_region_spec rgn L p :
  lmb_repr rgn L → lp_ok p → (∀ q, q ∈ L → disjoint p q) →
  ∃ o, lmb_add_region rgn (lp_base p) (lp_size p) = Some o ∧ added rgn L p o.
Proof.
  intros HL Hp Hd. unfold lmb_add_region.
  destruct (lmb_add_scan_spec rgn L p HL Hp Hd) as (o & Ho & Hscan).
  pose proof HL as [_ Hc Hmax Hok Hs].
  destruct (Z.eqb_spec (cnt rgn) 0) as [H0|Hn0].
  { destruct (repr_room rgn L HL) as (x & T & HT & HlenT); [lmb_arith|].
    destruct L; [|cbn in Hc; lia].
    rewrite (arr_set_at _ [] x T) by done. cbn [mbind option_bind].
    eexists; split; [done|]. apply (added_ok _ _ _ _ [p]); [lia|done| |done|].
    - replace 1 with (cnt rgn + 1) by lia. destruct p as [b s].
      apply (repr_insert_table rgn [] [] x T); [done|done|lmb_arith|done|set_solver|set_solver].
    - intros a. rewrite covers_cons. tauto. }
  rewrite Ho. cbn [mbind option_bind].
  destruct Hscan as [Hno | L1 q L2 T -> HT Hadj Hno | L1 q L2 T -> HT Hadj].
  - unfold lmb_add_join. rewrite (proj2 (Z.ltb_ge _ _)) by (rewrite wrap_small; lmb_arith).
    cbn [mbind option_bind Z.eqb negb].
    destruct (Z.leb_spec MAX_LMB_REGIONS (cnt rgn)).
    { eexists; split; [done|]. apply added_full; [lmb_arith|done]. }
    destruct (added_none rgn L p) as (l & -> & Hl); [done..|]. eauto.
  - destruct (added_up rgn L1 q L2 T p) as ([rgn' r] & Hj & Hr & ?); [done..|].
    rewrite Hj. cbn in Hr |- *. rewrite (proj2 (Z.eqb_neq _ _)) by done. eauto.
  - destruct (added_down rgn L1 q L2 T p) as ([rgn' r] & Hj & Hr & ?); [done..|].
    rewrite Hj. cbn in Hr |- *. rewrite (proj2 (Z.eqb_neq _ _)) by done. eauto.
Qed.

(** *** Searching a table *)

Lemma lmb_overlaps_region_spec rgn L p :
  lmb_repr rgn L → lp_ok p →
  ∃ i, lmb_overlaps_region rgn (lp_base p) (lp_size p) = Some i ∧
    ((i = -1 ∧ ∀ q, q ∈ L → disjoint p q) ∨
     ∃ L1 q L2, L = L1 ++ q :: L2 ∧ i = Z.of_nat (length L1) ∧ ¬ disjoint p q).
Proof.
  intros [(T & HT & Hlen) Hc Hmax Hok _] Hp. unfold lmb_overlaps_region.
  edestruct (loop_brk_total
    (λ i, if i <? cnt rgn then
            q ← arr_get (region rgn) i;
            if lmb_addrs_overlap (lp_base p) (lp_size p) (lp_base q) (lp_size q)
            then Some (Break i) else Some (Next (i + 1))
          else Some (Break i))
    (λ i, ∃ L1 L2, L = L1 ++ L2 ∧ i = Z.of_nat (length L1) ∧ ∀ q, q ∈ L1 → disjoint p q)
    (λ i, Z.to_nat (cnt rgn - i))
    (λ i, (i = cnt rgn ∧ ∀ q, q ∈ L → disjoint p q) ∨
       ∃ L1 q L2, L = L1 ++ q :: L2 ∧ i = Z.of_nat (length L1) ∧ ¬ disjoint p q))
    with (fuel := lmb_fuel) (s := 0) as (i & Hi & Hpost).
  - intros i (L1 & L2 & HL & -> & Hno). cbv beta. rewrite Hc, HL, length_app.
    destruct L2 as [|q L2]; cbn [length].
    { rewrite (proj2 (Z.ltb_ge _ _)) by lia. eexists; split; [done|].
      left. rewrite app_nil_r in *. split; [lia|done]. }
    rewrite (proj2 (Z.ltb_lt _ _)) by lia.
    rewrite (arr_get_at _ L1 q (L2 ++ T)) by (rewrite ?HT, ?HL; list_eq). cbn [mbind option_bind].
    assert (Hq : lp_ok q) by (subst L; apply Forall_middle in Hok; naive_solver).
    destruct (lmb_addrs_overlap _ _ _ _) eqn:Ho; (eexists; split; [done|]).
    + right. exists L1, q, L2. by rewrite overlap_iff in Ho.
    + assert (disjoint p q).
      { apply not_true_iff_false in Ho. rewrite overlap_iff in Ho by done. lmb_arith. }
      split; [|list_norm; lia]. exists (L1 ++ [q]), L2. split_and!; [list_eq..|].
      intros r [?|?%list_elem_of_singleton]%elem_of_app; subst; auto.
  - exists [], L. split_and!; [done..|set_solver].
  - lmb_arith. unfold lmb_fuel. lia.
  - rewrite Hi. cbn [mbind option_bind]. eexists; split; [done|].
    destruct Hpost as [[-> Hno]|(L1 & q & L2 & -> & -> & Hq)].
    + left. by rewrite Z.ltb_irrefl.
    + right. exists L1, q, L2. rewrite (proj2 (Z.ltb_lt _ _)); [done|]. rewrite Hc. list_norm. lia.
Qed.

Lemma repr_get rgn L1 q L2 :
  lmb_repr rgn (L1 ++ q :: L2) → arr_get (region rgn) (Z.of_nat (length L1)) = Some q.
Proof. intros [(T & HT & _) _ _ _ _]. apply (arr_get_at _ L1 q (L2 ++ T)); [rewrite HT|]; list_eq. Qed.

(** *** Allocation *)

Lemma lmb_align_down_pow2 a k :
  0 ≤ k < 32 → 0 ≤ a < 2 ^ 32 → lmb_align_down a (2 ^ k) = a - a mod 2 ^ k.
Proof.
  intros Hk Ha. unfold lmb_align_down.
  assert (2 ^ k < 2 ^ 32) by (apply Z.pow_lt_mono_r; lia).
  rewrite (wrap_small 32 (2 ^ k - 1)) by lia. rewrite Z.sub_1_r, <-Z.ones_equiv.
  transitivity (Z.ldiff a (Z.ones k)).
  - apply Z.bits_inj'. intros i Hi. rewrite Z.land_spec, Z.ldiff_spec. unfold wrap.
    destruct (Z.ltb_spec i 32).
    + by rewrite Z.mod_pow2_bits_low, Z.lnot_spec by lia.
    + rewrite Z.mod_pow2_bits_high by lia.
      rewrite <-(Z.mod_small a (2 ^ 32)) by done. by rewrite Z.mod_pow2_bits_high by lia.
  - rewrite Z.ldiff_ones_r, Z.shiftl_mul_pow2, Z.shiftr_div_pow2 by lia.
    pose proof (Z.div_mod a (2 ^ k) ltac:(lia)). lia.
Qed.

(** [b] is the highest multiple of [2^k] up to [a]. *)
Lemma align_down_greatest a k b :
  0 ≤ k → b mod 2 ^ k = 0 → b ≤ a → b ≤ a - a mod 2 ^ k.
Proof.
  intros Hk Hb Hle. pose proof (Z.div_mod a (2 ^ k) ltac:(lia)).
  pose proof (Z.div_mod b (2 ^ k) ltac:(lia)). rewrite Hb in *.
  assert (b / 2 ^ k ≤ a / 2 ^ k) by (apply Z.div_le_mono; lia). nia.
Qed.

Lemma align_down_aligned a k : 0 ≤ k → (a - a mod 2 ^ k) mod 2 ^ k = 0.
Proof.
  intros Hk. rewrite Zminus_mod, Z.mod_mod, Z.sub_diag, Z.mod_0_l by lia. done.
Qed.

Section alloc.
Context (m : lmb) (R : list lmb_property) (size k : Z).
Context (HR : lmb_repr (reserved m) R).
Context (Hsize : 0 < size) (Hk : 0 ≤ k < 32).

(** A candidate address: aligned, not null, in the range from [lo] to
    [top]. *)
Definition candidate (lo top b : Z) : Prop :=
  b ≠ 0 ∧ b mod 2 ^ k = 0 ∧ lo ≤ b ∧ b + size ≤ top.

Definition taken (b : Z) : Prop := ∃ x, x ∈ R ∧ ¬ disjoint (blk b size) x.

(** The allocation of [b]: the block was free and is now reserved. *)
Definition allocated (m' : lmb) (b : Z) : Prop :=
  ¬ taken b ∧ memory m' = memory m ∧
  ∃ R', lmb_repr (reserved m') R' ∧ ∀ a, covers R' a ↔ covers R a ∨ inside (blk b size) a.

Lemma lmb_alloc_probe_spec lo top :
  0 ≤ lo → size ≤ top → top < 2 ^ 32 →
  ∃ o, lmb_alloc_probe m size (2 ^ k) lo (lmb_align_down (top - size) (2 ^ k)) = Some o ∧
    match o with
    | inl _ => ∀ b, candidate lo top b → taken b
    | inr (m', r) =>
        (r = 0 ∧ m' = m ∧ cnt (reserved m) = MAX_LMB_REGIONS) ∨
        (candidate lo top r ∧ allocated m' r)
    end.
Proof.
  intros Hlo Htop Htop2. unfold lmb_alloc_probe.
  apply loop_total_ix with (n := length R)
    (I := λ n base, 0 ≤ base ∧ base + size ≤ top ∧ base mod 2 ^ k = 0 ∧
            (∃ R1 R2, R = R1 ++ R2 ∧ n = length R1 ∧ ∀ x, x ∈ R2 → base + size ≤ lp_base x) ∧
            ∀ b, candidate lo top b → base < b → taken b).
  - intros n base (H0 & H1 & H2 & (R1 & R2 & HR12 & -> & Habove) & Htaken). cbv beta.
    destruct (Z.eqb_spec base 0) as [->|Hne]; cbn [negb andb].
    { eexists; split; [done|]. intros b Hb. apply Htaken; [done|]. destruct Hb. lia. }
    destruct (Z.leb_spec lo base) as [Hlb|Hlb].
    2:{ eexists; split; [done|]. intros b Hb. apply Htaken; [done|]. destruct Hb. lia. }
    assert (Hok : lp_ok (blk base size)) by (lmb_arith).
    destruct (lmb_overlaps_region_spec (reserved m) R (blk base size) HR Hok)
      as (i & Hi & [[-> Hfree]|(L1 & q & L2 & HL & -> & Hq)]);
      cbn in Hi; rewrite Hi; cbn [mbind option_bind].
    + destruct (lmb_add_region_spec (reserved m) R (blk base size) HR Hok Hfree)
        as ([rgn' ret] & Hadd & Hadded). cbn in Hadd |- *. rewrite Hadd. cbn.
      inversion Hadded as [Hfull _|? R' ? Hr _ HR' _ Hcov]; subst; cbn.
      * eexists; split; [done|]. left. split_and!; [done|by destruct m|done].
      * rewrite (proj2 (Z.ltb_ge _ _)) by lia. eexists; split; [done|]. right.
        split; [by split_and!|]. split; [|eauto].
        intros (x & Hx & Hd). by apply Hd, Hfree.
    + rewrite (proj2 (Z.ltb_ge _ _)) by lia.
      assert (Hget := HR). rewrite HL in Hget. apply repr_get in Hget. rewrite Hget.
      cbn [mbind option_bind].
      assert (Hlb' : ∀ b, candidate lo top b → lp_base q < b + size → taken b).
      { intros b Hb Hlt. destruct (decide (base < b)) as [?|Hge]; [by apply Htaken|].
        exists q. split; [rewrite HL; set_solver|]. lmb_arith. }
      destruct (Z.ltb_spec (lp_base q) size).
      { eexists; split; [done|]. intros b Hb. apply Hlb'; [done|]. destruct Hb. lia. }
      pose proof (repr_ok _ _ HR) as Hall. rewrite HL in Hall.
      apply Forall_middle in Hall as (_ & Hqok & _).
      eexists; split; [done|]. rewrite wrap_small by lmb_arith.
      rewrite lmb_align_down_pow2 by lmb_arith.
      pose proof (Z.mod_pos_bound (lp_base q - size) (2 ^ k) ltac:(lia)).
      pose proof (Z.mod_le (lp_base q - size) (2 ^ k) ltac:(lia) ltac:(lia)).
      exists (length L1). split.
      { assert (Hn : ¬ (length R1 ≤ length L1)%nat); [|lia]. intros Hn.
        apply Hq. left. cbn; apply Habove.
        apply list_elem_of_lookup. exists (length L1 - length R1)%nat.
        rewrite <-lookup_app_r, <-HR12, HL by done. by apply list_lookup_middle. }
      split_and!; [lia|lmb_arith|by apply align_down_aligned; lia| |].
      * exists L1, (q :: L2). split_and!; [done..|].
        pose proof (repr_sorted _ _ HR) as Hs. rewrite HL in Hs.
        apply sorted_middle in Hs as [_ Hs].
        intros x [->|Hx%Hs]%elem_of_cons; lmb_arith.
      * intros b Hb Hlt. apply Hlb'; [done|]. destruct Hb as (_ & Hb & _).
        assert (¬ b ≤ lp_base q - size); [|lia].
        intros Hle. apply (align_down_greatest _ k) in Hle; [lia..].
  - rewrite lmb_align_down_pow2 by lia.
    pose proof (Z.mod_pos_bound (top - size) (2 ^ k) ltac:(lia)).
    pose proof (Z.mod_le (top - size) (2 ^ k) ltac:(lia) ltac:(lia)).
    split_and!; [lia|lia|by apply align_down_aligned; lia| |].
    + exists R, []. rewrite app_nil_r. split_and!; [done..|set_solver].
    + intros b (_ & Hb & _ & Hle) Hlt.
      assert (b ≤ top - size) as Hle' by lia.
      apply (align_down_greatest _ k) in Hle'; lia.
  - pose proof (repr_max _ _ HR). lmb_arith. unfold lmb_fuel. lia.
Qed.
End alloc.

(** The end of the addresses of the memory block [q] that an allocation
    below [max_addr] may use. *)
Definition region_top (max_addr : Z) (q : lmb_property) : Z :=
  if max_addr =? LMB_ALLOC_ANYWHERE then lp_end q else Z.min (lp_end q) max_addr.

(** The condition under which the search below [max_addr] does not compute an
    address below zero. *)
Definition max_addr_ok (size max_addr : Z) : Prop :=
  0 ≤ max_addr < 2 ^ 32 ∧ (max_addr = LMB_ALLOC_ANYWHERE ∨ size ≤ max_addr).

Section alloc_base.
Context (m : lmb) (M R : list lmb_property) (size k max_addr : Z).
Context (HM : lmb_repr (memory m) M) (HR : lmb_repr (reserved m) R).
Context (Hsize : 0 < size) (Hk : 0 ≤ k < 32) (Hmax : max_addr_ok size max_addr).

(** [b] is an address of the memory block [q] where [size] bytes fit. *)
Definition fits (q : lmb_property) (b : Z) : Prop :=
  candidate size k (lp_base q) (region_top max_addr q) b.

Lemma lmb_alloc_in_spec q :
  lp_ok q →
  ∃ o, lmb_alloc_in m size (2 ^ k) max_addr q = Some o ∧
    match o with
    | None => ∀ b, fits q b → taken R size b
    | Some (m', r) => (r = 0 ∧ m' = m ∧ cnt (reserved m) = MAX_LMB_REGIONS) ∨
                      (fits q r ∧ allocated m R size m' r)
    end.
Proof.
  intros Hq. destruct Hmax as [Hmax1 Hmax2]. unfold lmb_alloc_in.
  destruct (Z.ltb_spec (lp_size q) size).
  { eexists; split; [done|]. intros b (_ & _ & H1 & H2). revert H2.
    unfold region_top. bools; lmb_arith. }
  assert (Hprobe : size ≤ region_top max_addr q → region_top max_addr q < 2 ^ 32 → ∃ o,
    (o ← lmb_alloc_probe m size (2 ^ k) (lp_base q)
           (lmb_align_down (region_top max_addr q - size) (2 ^ k));
     Some (match o with inl _ => None | inr r => Some r end)) = Some o ∧
    match o with
    | None => ∀ b, fits q b → taken R size b
    | Some (m', r) => (r = 0 ∧ m' = m ∧ cnt (reserved m) = MAX_LMB_REGIONS) ∨
                      (fits q r ∧ allocated m R size m' r)
    end).
  { intros Htop Htop2.
    destruct (lmb_alloc_probe_spec m R size k) with (lo := lp_base q)
      (top := region_top max_addr q) as ([b|[m' r]] & -> & Hp); [done..|lmb_arith|done|done| |];
      cbn; eauto. }
  unfold region_top in Hprobe.
  destruct (Z.eqb_spec max_addr LMB_ALLOC_ANYWHERE) as [->|Hne].
  { rewrite wrap_small by lmb_arith. apply Hprobe; lmb_arith. }
  destruct (Z.ltb_spec (lp_base q) max_addr).
  { rewrite (wrap_small 32 (lp_base q + lp_size q)) by lmb_arith.
    rewrite (proj2 (Z.ltb_ge _ _)) by lmb_arith.
    rewrite (wrap_small 32 (Z.min _ _ - size)) by lmb_arith. apply Hprobe; lmb_arith. }
  eexists; split; [done|]. intros b (_ & _ & H1 & H2). revert H2.
  unfold region_top. bools; lmb_arith.
Qed.

Lemma __lmb_alloc_base_spec :
  ∃ m' r, __lmb_alloc_base m size (2 ^ k) max_addr = Some (m', r) ∧
    ((r = 0 ∧ m' = m ∧ (cnt (reserved m) = MAX_LMB_REGIONS ∨
       ∀ q b, q ∈ M → fits q b → taken R size b)) ∨
     (∃ q, q ∈ M ∧ fits q r ∧ allocated m R size m' r)).
Proof.
  unfold __lmb_alloc_base.
  pose (Q := λ o : Z + lmb * Z, match o with
    | inl _ => ∀ q b, q ∈ M → fits q b → taken R size b
    | inr (m', r) => (r = 0 ∧ m' = m ∧ cnt (reserved m) = MAX_LMB_REGIONS) ∨
        ∃ q, q ∈ M ∧ fits q r ∧ allocated m R size m' r
    end).
  loop_ix (length M)
    (λ (n : nat) (i : Z), i = Z.of_nat n - 1 ∧ ∃ M1 M2, M = M1 ++ M2 ∧ n = length M1 ∧
       ∀ q b, q ∈ M2 → fits q b → taken R size b) Q.
  - intros n i (-> & M1 & M2 & HM12 & -> & Hno). cbv beta.
    destruct (exists_last_or_nil M1) as [->|(M1' & q & ->)].
    { eexists; split; [done|]. unfold Q. rewrite HM12. exact Hno. }
    rewrite <-app_assoc in HM12; cbn in HM12.
    rewrite (proj2 (Z.leb_le _ _)) by (list_norm; lia).
    assert (Hget := HM). rewrite HM12 in Hget. apply repr_get in Hget.
    replace (Z.of_nat (length (M1' ++ [q])) - 1) with (Z.of_nat (length M1')) by (list_norm; lia).
    rewrite Hget. cbn [mbind option_bind].
    pose proof (repr_ok _ _ HM) as Hall. rewrite HM12 in Hall.
    apply Forall_middle in Hall as (_ & Hq & _).
    assert (HqM : q ∈ M) by (rewrite HM12; set_solver).
    destruct (lmb_alloc_in_spec q Hq) as ([[m' r]|] & -> & Ho); (eexists; split; [done|]).
    + destruct Ho as [?|[? ?]]; [by left|by right; eauto].
    + exists (length M1'). split; [list_norm; lia|]. split; [done|].
      exists M1', (q :: M2). split_and!; [done..|].
      intros x b [->|Hx]%elem_of_cons; eauto.
  - split; [by rewrite (repr_cnt _ _ HM)|].
    exists M, []. rewrite app_nil_r. split_and!; [done..|set_solver].
  - pose proof (repr_max _ _ HM). lmb_arith. unfold lmb_fuel. lia.
  - destruct st as [i|[m' r]]; cbn in HQ |- *; do 2 eexists; (split; [done|]).
    + left. split_and!; [done..|by right].
    + destruct HQ as [(-> & -> & ?)|?]; [left; by eauto|by right].
Qed.
End alloc_base.

(** *** Release *)

Definition contains (q p : lmb_property) : Prop :=
  lp_base q ≤ lp_base p ∧ lp_end p ≤ lp_end q.

Lemma lmb_free_find_spec rgn L p :
  lmb_repr rgn L → lp_ok p →
  ∃ i b e, lmb_free_find rgn (lp_base p) (u32 (lp_base p + lp_size p - 1)) = Some (i, b, e) ∧
    ((i = cnt rgn ∧ ∀ q, q ∈ L → ¬ contains q p) ∨
     ∃ L1 q L2, L = L1 ++ q :: L2 ∧ i = Z.of_nat (length L1) ∧ contains q p ∧
       b = lp_base q ∧ e = lp_end q - 1).
Proof.
  intros [(T & HT & Hlen) Hc Hmax Hok _] Hp. unfold lmb_free_find.
  loop_ix (length L)
    (λ (n : nat) '((i, _, _) : Z * Z * Z), ∃ L1 L2, L = L1 ++ L2 ∧ i = Z.of_nat (length L1) ∧
       n = length L2 ∧ ∀ q, q ∈ L1 → ¬ contains q p)
    (λ '((i, b, e) : Z * Z * Z), (i = cnt rgn ∧ ∀ q, q ∈ L → ¬ contains q p) ∨
       ∃ L1 q L2, L = L1 ++ q :: L2 ∧ i = Z.of_nat (length L1) ∧ contains q p ∧
       b = lp_base q ∧ e = lp_end q - 1).
  - intros n [[i b] e] (L1 & L2 & HL & -> & -> & Hno). cbv beta iota zeta.
    rewrite Hc, HL, length_app. destruct L2 as [|q L2]; cbn [length].
    { rewrite (proj2 (Z.ltb_ge _ _)) by lia. eexists; split; [done|].
      left. rewrite app_nil_r in *. split; [lia|done]. }
    rewrite (proj2 (Z.ltb_lt _ _)) by lia.
    rewrite (arr_get_at _ L1 q (L2 ++ T)) by (rewrite ?HT, ?HL; list_eq). cbn [mbind option_bind].
    assert (Hq : lp_ok q) by (subst L; apply Forall_middle in Hok; naive_solver).
    rewrite !wrap_small by lmb_arith.
    destruct (_ && _) eqn:Hb; (eexists; split; [done|]).
    + apply andb_true_iff in Hb as [Hb1%Z.leb_le Hb2%Z.leb_le]. right. exists L1, q, L2.
      unfold contains. split_and!; first [done | lmb_arith].
    + exists (length L2). split; [lia|]. exists (L1 ++ [q]), L2. split_and!; [list_eq..|].
      intros r [?|?%list_elem_of_singleton]%elem_of_app; [auto|subst r].
      intros [H1 H2]. revert Hb. bools; lmb_arith.
  - exists [], L. split_and!; [done..|set_solver].
  - lmb_arith. unfold lmb_fuel. lia.
  - destruct st as [[i b] e]. do 3 eexists; split; [done|exact HQ].
Qed.

Lemma not_inside_other R1 q R2 a :
  StronglySorted before (R1 ++ q :: R2) → Forall lp_ok (R1 ++ q :: R2) →
  covers R1 a ∨ covers R2 a → ¬ inside q a.
Proof.
  intros Hs Hok Ha Hq. apply sorted_middle in Hs as [Hs1 Hs2].
  apply Forall_middle in Hok as (Hok1 & Hokq & Hok2). rewrite !Forall_forall in *.
  destruct Ha as [(x & Hx & Ha)|(x & Hx & Ha)].
  - specialize (Hs1 x Hx). lmb_arith.
  - specialize (Hs2 x Hx). lmb_arith.
Qed.

(** The addresses of a table from which the part [f] of the block [q] is
    cut. *)
Lemma covers_cut R1 q R2 (f : Z → Prop) a :
  StronglySorted before (R1 ++ q :: R2) → Forall lp_ok (R1 ++ q :: R2) →
  (f a → inside q a) →
  covers (R1 ++ q :: R2) a ∧ ¬ f a ↔ covers R1 a ∨ (inside q a ∧ ¬ f a) ∨ covers R2 a.
Proof.
  intros Hs Hok Hf. rewrite covers_app, covers_cons.
  pose proof (not_inside_other R1 q R2 a Hs Hok). tauto.
Qed.

(** The result of [lmb_free] for a block [p] of the reserved table [R]. *)
Inductive freed (m : lmb) (R : list lmb_property) (p : lmb_property) : lmb * Z → Prop :=
| freed_none :
    (∀ q, q ∈ R → ¬ contains q p) → freed m R p (m, -1)
| freed_ok rgn R' :
    lmb_repr rgn R' → (∀ a, covers R' a ↔ covers R a ∧ ¬ inside p a) →
    freed m R p (with_reserved m rgn, 0)
| freed_full rgn R' q :
    q ∈ R → contains q p → cnt (reserved m) = MAX_LMB_REGIONS →
    lmb_repr rgn R' →
    (∀ a, covers R' a ↔ covers R a ∧ ¬ (lp_base p ≤ a < lp_end q)) →
    freed m R p (with_reserved m rgn, -1).

Section free.
Context (m : lmb) (R1 R2 : list lmb_property) (q p : lmb_property).
Context (HR : lmb_repr (reserved m) (R1 ++ q :: R2)) (Hp : lp_ok p) (Hqp : contains q p).

Lemma free_set q' :
  lp_ok q' → contains q q' →
  ∃ l, arr_set (region (reserved m)) (Z.of_nat (length R1)) q' = Some l ∧
       lmb_repr (with_region (reserved m) l) (R1 ++ q' :: R2).
Proof.
  intros Hq' [Hc1 Hc2]. pose proof HR as [(T & HT & _) _ _ _ Hs].
  apply sorted_middle in Hs as [Hs1 Hs2].
  rewrite (arr_set_at _ R1 q (R2 ++ T)) by (rewrite ?HT; list_eq).
  eexists; split; [done|]. apply (repr_set _ _ q); [done..| |].
  - intros r Hr%Hs1. lia.
  - intros r Hr%Hs2. lia.
Qed.

Lemma free_shrunk q' l :
  arr_set (region (reserved m)) (Z.of_nat (length R1)) q' = Some l →
  lmb_repr (with_region (reserved m) l) (R1 ++ q' :: R2) →
  (∀ a, inside q' a ↔ inside q a ∧ ¬ inside p a) →
  freed m (R1 ++ q :: R2) p (with_reserved m (with_region (reserved m) l), 0).
Proof.
  intros _ Hl Hq'. apply (freed_ok _ _ _ _ _ Hl). intros a.
  destruct HR as [_ _ _ Hok Hs].
  rewrite (covers_cut R1 q R2 (inside p) a) by (done || destruct Hqp; lmb_arith).
  by rewrite covers_app, covers_cons, Hq'.
Qed.

(** The block is in the middle of [q]: its front part stays in the entry,
    and its tail becomes a new one if the table has room. *)
Lemma free_split l :
  let q1 := blk (lp_base q) (lp_base p - lp_base q) in
  let q2 := blk (lp_end p) (lp_end q - lp_end p) in
  lp_base q < lp_base p → lp_end p < lp_end q →
  lmb_repr (with_region (reserved m) l) (R1 ++ q1 :: R2) →
  ∃ o, lmb_add_region (with_region (reserved m) l) (lp_base q2) (lp_size q2) = Some o ∧
       freed m (R1 ++ q :: R2) p (with_reserved m (fst o), snd o).
Proof.
  intros q1 q2 H1 H2 Hl. pose proof HR as [_ _ _ Hok Hs].
  pose proof Hok as (Hok1 & Hq & Hok2)%Forall_middle.
  destruct (sorted_middle _ _ _ Hs) as [Hs1 Hs2].
  assert (Hq2 : lp_ok q2) by (subst q2; lmb_arith).
  destruct (lmb_add_region_spec _ _ q2 Hl Hq2) as (o & Ho & Hadd).
  { intros r Hr. rewrite !Forall_forall in *. subst q1 q2.
    apply elem_of_app in Hr as [Hr|[->|Hr]%elem_of_cons]; [apply Hs1 in Hr| |apply Hs2 in Hr];
      lmb_arith. }
  exists o. split; [done|]. destruct Hadd as [Hfull Hno|rgn' L' r Hr Hadj HL' Hlen Hcov]; cbn.
  - eapply (freed_full _ _ _ _ _ q); [set_solver|done|done|done|].
    intros a. rewrite (covers_cut R1 q R2 (λ a, lp_base p ≤ a < lp_end q) a) by (done || lmb_arith).
    rewrite covers_app, covers_cons.
    assert (inside q1 a ↔ inside q a ∧ ¬ (lp_base p ≤ a < lp_end q)) by (subst q1; lmb_arith).
    tauto.
  - assert (r = 0) as ->.
    { destruct (decide (r = 0)) as [|Hr0]; [done|]. destruct (Hadj Hr0) as (x & Hx & Hx').
      exfalso. rewrite !Forall_forall in *. subst q1 q2.
      apply elem_of_app in Hx as [Hx|[->|Hx]%elem_of_cons];
        [pose proof (Hok1 x Hx); apply Hs1 in Hx| |pose proof (Hok2 x Hx); apply Hs2 in Hx]; lmb_arith. }
    apply (freed_ok _ _ _ _ L'); [done|]. intros a.
    rewrite (covers_cut R1 q R2 (inside p) a) by (done || destruct Hqp; lmb_arith).
    rewrite Hcov, covers_app, covers_cons.
    assert (inside q1 a ∨ inside q2 a ↔ inside q a ∧ ¬ inside p a) by (subst q1 q2; lmb_arith).
    tauto.
Qed.
End free.


(** *** Queries and allocation at a given address *)

Lemma lmb_is_reserved_spec m R addr :
  lmb_repr (reserved m) R →
  ∃ r, lmb_is_reserved m addr = Some r ∧ (r = 0 ∨ r = 1) ∧ (r = 1 ↔ covers R addr).
Proof.
  intros [(T & HT & Hlen) Hc Hmax Hok _]. unfold lmb_is_reserved.
  loop_ix (length R)
    (λ (n : nat) (i : Z), ∃ R1 R2, R = R1 ++ R2 ∧ i = Z.of_nat (length R1) ∧ n = length R2 ∧
       ¬ covers R1 addr)
    (λ o : Z + Z, match o with
      | inl _ => ¬ covers R addr
      | inr r => r = 1 ∧ covers R addr
      end).
  - intros n i (R1 & R2 & HL & -> & -> & Hno). cbv beta zeta.
    rewrite Hc, HL, length_app. destruct R2 as [|q R2]; cbn [length].
    { rewrite (proj2 (Z.ltb_ge _ _)) by lia. eexists; split; [done|]. by rewrite app_nil_r. }
    rewrite (proj2 (Z.ltb_lt _ _)) by lia.
    rewrite (arr_get_at _ R1 q (R2 ++ T)) by (rewrite ?HT, ?HL; list_eq). cbn [mbind option_bind].
    assert (Hq : lp_ok q) by (subst R; apply Forall_middle in Hok; naive_solver).
    rewrite wrap_small by lmb_arith.
    destruct (_ && _) eqn:Hb; (eexists; split; [done|]).
    + apply andb_true_iff in Hb as [Hb1%Z.leb_le Hb2%Z.leb_le]. split; [done|].
      rewrite covers_app, covers_cons. right. left. lmb_arith.
    + exists (length R2). split; [lia|]. exists (R1 ++ [q]), R2. split_and!; [list_eq..|].
      rewrite covers_app, covers_cons. intros [?|[?|Hnil%covers_nil]]; [done| |done].
      revert Hb. bools; lmb_arith.
  - exists [], R. split_and!; [done..|apply covers_nil].
  - lmb_arith. unfold lmb_fuel. lia.
  - destruct st as [?|r]; eexists; (split; [done|]); cbn in HQ; [|destruct HQ as [-> ?]]; naive_solver.
Qed.

(** The size returned for an address of the memory: the distance to the first
    reserved block above it, or to the end of the last memory block. *)
Lemma lmb_get_free_size_spec m M R addr :
  lmb_repr (memory m) M → lmb_repr (reserved m) R → 0 ≤ addr < 2 ^ 32 - 1 →
  ∃ n, lmb_get_free_size m addr = Some n ∧
    (¬ covers M addr → n = 0) ∧
    (covers M addr → covers R addr → n = 0) ∧
    (covers M addr → ¬ covers R addr →
       0 < n ∧ (∀ a, addr ≤ a < addr + n → ¬ covers R a) ∧
       ((∃ q, q ∈ R ∧ addr + n = lp_base q) ∨
        (∃ M' q, M = M' ++ [q] ∧ addr + n = lp_end q))).
Proof.
  intros HM HR Ha. unfold lmb_get_free_size.
  assert (Hp : lp_ok (blk addr 1)) by lmb_arith.
  destruct (lmb_overlaps_region_spec _ _ (blk addr 1) HM Hp)
    as (i & Hi & [[-> Hno]|(M1 & q & M2 & HM12 & -> & Hq)]); cbn in Hi; rewrite Hi.
  { cbn. eexists; split; [done|]. split; [done|].
    assert (Hn : ¬ covers M addr).
    { intros (x & Hx & Hin). specialize (Hno x Hx). lmb_arith. } naive_solver. }
  assert (Hcov : covers M addr).
  { exists q. split; [rewrite HM12; set_solver|]. lmb_arith. }
  cbn [mbind option_bind]. rewrite (proj2 (Z.leb_le _ _)) by lia.
  pose proof HR as [(T & HT & Hlen) Hc Hmax Hok Hs].
  loop_ix (length R)
    (λ (n : nat) (i : Z), ∃ R1 R2, R = R1 ++ R2 ∧ i = Z.of_nat (length R1) ∧ n = length R2 ∧
       ∀ x, x ∈ R1 → lp_end x ≤ addr)
    (λ o : Z + Z, match o with
      | inl _ => ∀ x, x ∈ R → lp_end x ≤ addr
      | inr n => (covers R addr ∧ n = 0) ∨
          (¬ covers R addr ∧ 0 < n ∧ (∀ a, addr ≤ a < addr + n → ¬ covers R a) ∧
           ∃ q, q ∈ R ∧ addr + n = lp_base q)
      end).
  - intros n i (R1 & R2 & HL & -> & -> & Hbelow). cbv beta zeta.
    rewrite Hc, HL, length_app. destruct R2 as [|x R2]; cbn [length].
    { rewrite (proj2 (Z.ltb_ge _ _)) by lia. eexists; split; [done|]. by rewrite app_nil_r. }
    rewrite (proj2 (Z.ltb_lt _ _)) by lia.
    rewrite (arr_get_at _ R1 x (R2 ++ T)) by (rewrite ?HT, ?HL; list_eq). cbn [mbind option_bind].
    assert (Hx : lp_ok x) by (subst R; apply Forall_middle in Hok; naive_solver).
    destruct (Z.ltb_spec addr (lp_base x)).
    { eexists; split; [done|]. right. rewrite wrap_small by lmb_arith.
      assert (Hfree : ∀ a, addr ≤ a < lp_base x → ¬ covers (R1 ++ x :: R2) a).
      { rewrite HL in Hs. apply sorted_middle in Hs as [_ Hs2].
        intros a Hlt. rewrite covers_app, covers_cons. intros [(y & Hy & Hin)|[Hin|(y & Hy & Hin)]].
        - specialize (Hbelow y Hy). lmb_arith.
        - lmb_arith.
        - specialize (Hs2 y Hy). lmb_arith. }
      split_and!; [apply Hfree; lia|lia|intros a Hlt; apply Hfree; lia|].
      exists x. split; [set_solver|lia]. }
    rewrite wrap_small by lmb_arith.
    destruct (Z.ltb_spec addr (lp_base x + lp_size x)); (eexists; split; [done|]).
    + left. split; [|done]. rewrite covers_app, covers_cons. right. left. lmb_arith.
    + exists (length R2). split; [lia|]. exists (R1 ++ [x]), R2. split_and!; [list_eq..|].
      intros r [?|?%list_elem_of_singleton]%elem_of_app; subst; [auto|lmb_arith].
  - exists [], R. split_and!; [done..|set_solver].
  - lmb_arith. unfold lmb_fuel. lia.
  - cbn [mbind option_bind]. destruct st as [?|n]; cbn in HQ.
    + destruct (exists_last_or_nil M) as [->|(M' & l & HMl)]; [by apply covers_nil in Hcov|].
      pose proof HM as [_ HcM _ HokM HsM].
      rewrite wrap_small by (rewrite HcM, HMl; pose proof (repr_max _ _ HM); revert H;
                             rewrite ?HMl; list_norm; lmb_arith).
      assert (Hget := HM). rewrite HMl in Hget. apply repr_get in Hget.
      replace (cnt (memory m) - 1) with (Z.of_nat (length M')) by (rewrite HcM, HMl; list_norm; lia).
      rewrite Hget. cbn [mbind option_bind].
      rewrite HMl in HokM, HsM. apply Forall_middle in HokM as (HokM & Hl & _).
      assert (Hal : addr < lp_end l).
      { destruct Hcov as (x & Hx & Hin). rewrite HMl in Hx.
        apply sorted_middle in HsM as [HsM _].
        apply elem_of_app in Hx as [Hx%HsM| ->%list_elem_of_singleton]; lmb_arith. }
      rewrite wrap_small by lmb_arith. eexists; split; [done|].
      assert (Hn : ∀ a, addr ≤ a → ¬ covers R a).
      { intros a Hlt (x & Hx%HQ & Hin). lmb_arith. }
      split_and!; [done|intros _ Hr; by apply Hn in Hr|].
      intros _ _. split_and!; [lmb_arith|intros; apply Hn; lia|].
      right. exists M', l. split; [done|lmb_arith].
    + eexists; split; [done|]. naive_solver.
Qed.


(** ** Properties *)

(** C14. lmb_alloc_base of a size above 0, with an alignment that is a power
    of two and a limit max_addr that is 0 (anywhere) or at least the size,
    either reserves the bytes at a non-null aligned address of one memory
    block, below max_addr, that no reserved block overlaps, and then the
    reserved table covers exactly the old addresses and the new block; or it
    returns 0 and changes nothing, and then the reserved table is full or no
    such address exists in any memory block. (For a limit below the size the
    address computed wraps around: lmb_alloc_base_wraps.) *)
Theorem lmb_alloc_base_correct m M R size k max_addr :
  lmb_repr (memory m) M → lmb_repr (reserved m) R →
  0 < size → 0 ≤ k < 32 → max_addr_ok size max_addr →
  ∃ m' r, lmb_alloc_base m size (2 ^ k) max_addr = Some (m', r) ∧
    ((r = 0 ∧ m' = m ∧ (cnt (reserved m) = MAX_LMB_REGIONS ∨
       ∀ q b, q ∈ M → fits size k max_addr q b → taken R size b)) ∨
     (∃ q, q ∈ M ∧ fits size k max_addr q r ∧ allocated m R size m' r)).
Proof. intros. by apply __lmb_alloc_base_spec. Qed.

(** C29. [lmb_reserve] of a block clear of the reserved ones keeps the table
    sorted and coalesced and adds exactly the addresses of the block, or
    returns -1 and changes nothing because the table is full and the block
    touches none of its entries. *)
Theorem lmb_reserve_correct m R p :
  lmb_repr (reserved m) R → lp_ok p → (∀ q, q ∈ R → disjoint p q) →
  ∃ m' r, lmb_reserve m (lp_base p) (lp_size p) = Some (m', r) ∧
    added (reserved m) R p (reserved m', r) ∧ memory m' = memory m ∧ (r = -1 → m' = m).
Proof.
  intros HR Hp Hd. unfold lmb_reserve.
  destruct (lmb_add_region_spec _ _ p HR Hp Hd) as ([rgn r] & -> & Hadd).
  cbn. do 2 eexists; split; [done|]. split_and!; [done..|].
  intros ->. inversion Hadd; [by destruct m|lia].
Qed.

(** C26. [lmb_free] of a block that no reserved block contains returns -1 and
    changes nothing; otherwise it returns 0 and removes exactly the addresses
    of the block, except that a full table which would need one more entry
    also loses the reserved addresses above the block, with -1. *)
Theorem lmb_free_correct m R p :
  lmb_repr (reserved m) R → lp_ok p →
  ∃ o, lmb_free m (lp_base p) (lp_size p) = Some o ∧ freed m R p o.
Proof.
  intros HR Hp. unfold lmb_free.
  destruct (lmb_free_find_spec _ _ p HR Hp) as (i & b & e & -> & [[-> Hno]|Hfound]).
  { cbn. rewrite Z.eqb_refl. eexists; split; [done|by constructor]. }
  destruct Hfound as (R1 & q & R2 & -> & -> & Hqp & -> & ->). cbn [mbind option_bind].
  pose proof HR as [_ Hc _ Hok Hs]. pose proof Hok as (_ & Hq & _)%Forall_middle.
  rewrite (proj2 (Z.eqb_neq _ _)) by (rewrite Hc; list_norm; lia).
  rewrite (wrap_small 32 (lp_base p + lp_size p - 1)) by lmb_arith.
  destruct Hqp as [Hb He].
  destruct ((lp_base q =? lp_base p) && (_ =? _)) eqn:Hall.
  { apply andb_true_iff in Hall as [H1%Z.eqb_eq H2%Z.eqb_eq].
    destruct (lmb_remove_repr _ _ _ _ HR) as (rgn & -> & Hrgn).
    eexists; split; [done|]. apply (freed_ok _ _ _ _ _ Hrgn). intros a.
    rewrite (covers_cut R1 q R2 (inside p) a) by (done || lmb_arith).
    rewrite covers_app. assert (inside q a ↔ inside p a) by lmb_arith. tauto. }
  rewrite (repr_get _ _ _ _ HR). cbn [mbind option_bind].
  destruct (Z.eqb_spec (lp_base q) (lp_base p)) as [H1|H1].
  { cbn [andb] in Hall. apply Z.eqb_neq in Hall.
    rewrite !wrap_small by lmb_arith.
    edestruct (free_set m R1 R2 q HR) as (l & Hl & Hr); [| |rewrite Hl];
      [lmb_arith|split; lmb_arith|].
    eexists; split; [done|]. eapply free_shrunk; [done..|by split|done|done|].
    intros a. lmb_arith. }
  destruct (Z.eqb_spec (lp_end q - 1) (lp_base p + lp_size p - 1)) as [H2|H2].
  { rewrite !wrap_small by lmb_arith.
    edestruct (free_set m R1 R2 q HR) as (l & Hl & Hr); [| |rewrite Hl];
      [lmb_arith|split; lmb_arith|].
    eexists; split; [done|]. eapply free_shrunk; [done..|by split|done|done|].
    intros a. lmb_arith. }
  rewrite !wrap_small by lmb_arith.
  edestruct (free_set m R1 R2 q HR) as (l & Hl & Hr); [| |rewrite Hl];
    [lmb_arith|split; lmb_arith|]. cbn [mbind option_bind].
  destruct (free_split m R1 R2 q p HR Hp) with (l := l) as ([rgn r] & Ha & Hf);
    [by split|lmb_arith|lmb_arith|done|].
  cbn in Ha. replace (lp_base p + lp_size p - 1 + 1) with (lp_end p) by lmb_arith.
  replace (lp_end q - 1 - (lp_base p + lp_size p - 1)) with (lp_end q - lp_end p) by lmb_arith.
  rewrite Ha. eexists; split; [done|exact Hf].
Qed.

(** [lmb_alloc_addr] of a block clear of the reserved ones reserves it and
    returns its address only if its end lies in the first memory block that it
    overlaps; it returns 0 and changes nothing only if no memory block
    contains it or the reserved table is full. *)
Theorem lmb_alloc_addr_correct m M R p :
  lmb_repr (memory m) M → lmb_repr (reserved m) R → lp_ok p → lp_base p ≠ 0 →
  (∀ q, q ∈ R → disjoint p q) →
  ∃ m' r, lmb_alloc_addr m (lp_base p) (lp_size p) = Some (m', r) ∧
    ((r = 0 ∧ m' = m ∧ (cnt (reserved m) = MAX_LMB_REGIONS ∨ ∀ q, q ∈ M → ¬ contains q p)) ∨
     (r = lp_base p ∧ memory m' = memory m ∧
      (∃ q, q ∈ M ∧ ¬ disjoint p q ∧ lp_end p ≤ lp_end q) ∧
      ∃ R', lmb_repr (reserved m') R' ∧ ∀ a, covers R' a ↔ covers R a ∨ inside p a)).
Proof.
  intros HM HR Hp Hne Hd. unfold lmb_alloc_addr.
  destruct (lmb_overlaps_region_spec _ _ p HM Hp)
    as (i & -> & [[-> Hno]|(M1 & q & M2 & HM12 & -> & Hq)]); cbn [mbind option_bind].
  { cbn. do 2 eexists; split; [done|]. left. split_and!; [done..|right].
    intros q Hq%Hno [? ?]. lmb_arith. }
  rewrite (proj2 (Z.leb_le _ _)) by lia.
  assert (Hget := HM). rewrite HM12 in Hget. apply repr_get in Hget. rewrite Hget.
  cbn [mbind option_bind].
  pose proof HM as [_ _ _ HokM HsM]. rewrite HM12 in HokM, HsM.
  pose proof HokM as (_ & Hqok & HokM2)%Forall_middle.
  rewrite wrap_small by lmb_arith.
  assert (Hlast : lp_ok (blk (lp_end p - 1) 1)) by lmb_arith.
  pose proof (overlap_iff q _ Hqok Hlast) as Ho.
  replace (lp_end p - 1) with (lp_base p + lp_size p - 1) in Ho by lmb_arith. cbn in Ho.
  destruct (lmb_addrs_overlap (lp_base q) _ _ 1).
  - unfold lmb_reserve. destruct (lmb_add_region_spec _ _ p HR Hp Hd) as ([rgn r] & -> & Hadd).
    cbn [mbind option_bind]. inversion Hadd as [|? R' ? Hr _ HR' _ Hcov]; subst.
    + cbn. do 2 eexists; split; [done|]. left. split_and!; [done|by destruct m|by left].
    + rewrite (proj2 (Z.leb_le _ _)) by lia. do 2 eexists; split; [done|]. right.
      split_and!; [done|done| |by eauto]. exists q. split; [set_solver|]. split; [done|].
      destruct Ho as [Ho _]. specialize (Ho eq_refl). lmb_arith.
  - do 2 eexists; split; [done|]. left. split_and!; [done..|right].
    assert (Hlt : lp_end q < lp_end p).
    { destruct Ho as [_ Ho]. destruct (Z.lt_ge_cases (lp_end q) (lp_end p)) as [|Hge]; [done|].
      discriminate Ho. lmb_arith. }
    rewrite HM12. intros x Hx [Hc1 Hc2].
    apply sorted_middle in HsM as [H1 H2]. rewrite Forall_forall in HokM2.
    apply elem_of_app in Hx as [Hx%H1|[->|Hx]%elem_of_cons]; [lmb_arith..|].
    pose proof (HokM2 x Hx). specialize (H2 x Hx). lmb_arith.
Qed.

(** ** Witnesses and examples *)

Definition table (l : list lmb_property) : lmb_region :=
  {| cnt := Z.of_nat (length l); rgn_size := 0;
     region := l ++ replicate (9 - length l) {| lp_base := 0; lp_size := 0 |} |}.

(** 1 GiB of memory from address 0, the first 4 KiB and 64 KiB at 512 MiB
    reserved. *)
Definition rpi : lmb :=
  {| memory := table [blk 0 0x40000000];
     reserved := table [blk 0 0x1000; blk 0x20000000 0x10000] |}.

Ltac solve_repr :=
  constructor;
  [ eexists; split; reflexivity
  | reflexivity
  | cbn; lmb_arith
  | repeat (apply Forall_cons_iff; split; [unfold lp_ok, lp_end, blk; cbn; lia|]); apply Forall_nil; exact I
  | repeat (apply SSorted_cons; [|repeat constructor; unfold before, lp_end, blk; cbn; lia]);
    apply SSorted_nil ].

Lemma rpi_memory : lmb_repr (memory rpi) [blk 0 0x40000000].
Proof. solve_repr. Qed.

Lemma rpi_reserved : lmb_repr (reserved rpi) [blk 0 0x1000; blk 0x20000000 0x10000].
Proof. solve_repr. Qed.

Example rpi_alloc :
  option_map snd (lmb_alloc rpi 0x100000 0x1000) = Some 0x3ff00000.
Proof. vm_compute. reflexivity. Qed.

Example rpi_alloc_below :
  option_map snd (lmb_alloc_base rpi 0x1000 0x1000 0x20004000) = Some 0x1ffff000.
Proof. vm_compute. reflexivity. Qed.

Lemma lmb_alloc_base_correct_witness :
  ∃ m' r, lmb_alloc_base rpi 0x1000 (2 ^ 12) 0x20004000 = Some (m', r) ∧
    ((r = 0 ∧ m' = rpi ∧ (cnt (reserved rpi) = MAX_LMB_REGIONS ∨
       ∀ q b, q ∈ [blk 0 0x40000000] → fits 0x1000 12 0x20004000 q b →
              taken [blk 0 0x1000; blk 0x20000000 0x10000] 0x1000 b)) ∨
     (∃ q, q ∈ [blk 0 0x40000000] ∧ fits 0x1000 12 0x20004000 q r ∧
           allocated rpi [blk 0 0x1000; blk 0x20000000 0x10000] 0x1000 m' r)).
Proof.
  apply lmb_alloc_base_correct;
    [exact rpi_memory|exact rpi_reserved|lia|lia|split; [lia|right; lia]].
Defined.

Lemma rpi_clear : ∀ q, q ∈ [blk 0 0x1000; blk 0x20000000 0x10000] → disjoint (blk 0x1000 0x1000) q.
Proof.
  intros q [->|[->|[]%elem_of_nil]%elem_of_cons]%elem_of_cons; unfold disjoint, lp_end, blk; cbn; lia.
Qed.

Lemma lmb_reserve_correct_witness :
  ∃ m' r, lmb_reserve rpi 0x1000 0x1000 = Some (m', r) ∧
    added (reserved rpi) [blk 0 0x1000; blk 0x20000000 0x10000] (blk 0x1000 0x1000)
      (reserved m', r) ∧ memory m' = memory rpi ∧ (r = -1 → m' = rpi).
Proof.
  apply (lmb_reserve_correct rpi _ (blk 0x1000 0x1000));
    [exact rpi_reserved|unfold lp_ok, lp_end, blk; cbn; lia|exact rpi_clear].
Defined.

Lemma lmb_free_correct_witness :
  ∃ o, lmb_free rpi 0x20004000 0x1000 = Some o ∧
       freed rpi [blk 0 0x1000; blk 0x20000000 0x10000] (blk 0x20004000 0x1000) o.
Proof.
  apply (lmb_free_correct rpi _ (blk 0x20004000 0x1000));
    [exact rpi_reserved|unfold lp_ok, lp_end, blk; cbn; lia].
Defined.

Lemma lmb_alloc_addr_correct_witness :
  ∃ m' r, lmb_alloc_addr rpi 0x1000 0x1000 = Some (m', r) ∧
    ((r = 0 ∧ m' = rpi ∧ (cnt (reserved rpi) = MAX_LMB_REGIONS ∨
        ∀ q, q ∈ [blk 0 0x40000000] → ¬ contains q (blk 0x1000 0x1000))) ∨
     (r = 0x1000 ∧ memory m' = memory rpi ∧
      (∃ q, q ∈ [blk 0 0x40000000] ∧ ¬ disjoint (blk 0x1000 0x1000) q ∧
            lp_end (blk 0x1000 0x1000) ≤ lp_end q) ∧
      ∃ R', lmb_repr (reserved m') R' ∧
            ∀ a, covers R' a ↔ covers [blk 0 0x1000; blk 0x20000000 0x10000] a ∨
                               inside (blk 0x1000 0x1000) a)).
Proof.
  apply (lmb_alloc_addr_correct rpi _ _ (blk 0x1000 0x1000));
    [exact rpi_memory|exact rpi_reserved|unfold lp_ok, lp_end, blk; cbn; lia|done|exact rpi_clear].
Defined.

(** *** Where the code departs from its intent *)

(** [lmb_add_region] extends the region that the new block touches before it
    looks at the regions above: reserving [0x1000, 0x3000) between [0, 0x1000)
    and [0x2000, 0x4000) succeeds, and the table then overlaps itself. *)
Example lmb_reserve_overlap :
  let m := {| memory := table [blk 0 0x40000000];
              reserved := table [blk 0 0x1000; blk 0x2000 0x2000] |} in
  option_map (λ '(m', r), (take 2 (region (reserved m')), r)) (lmb_reserve m 0x1000 0x2000)
  = Some ([blk 0 0x3000; blk 0x2000 0x2000], 1).
Proof. vm_compute. reflexivity. Qed.

(** So [lmb_alloc_addr] gives out a block that is partly reserved. *)
Example lmb_alloc_addr_reserved :
  let m := {| memory := table [blk 0x1000 0x40000000];
              reserved := table [blk 0x1000 0x1000; blk 0x3000 0x2000] |} in
  lmb_is_reserved m 0x3000 = Some 1 ∧
  option_map snd (lmb_alloc_addr m 0x2000 0x2000) = Some 0x2000.
Proof. vm_compute. done. Qed.

(** A block that is exactly a reserved region is given out again. *)
Example lmb_alloc_addr_twice :
  let m := {| memory := table [blk 0x1000 0x40000000]; reserved := table [blk 0x3000 0x2000] |} in
  lmb_is_reserved m 0x3000 = Some 1 ∧ lmb_alloc_addr m 0x3000 0x2000 = Some (m, 0x3000).
Proof. vm_compute. done. Qed.

(** The start of the block is not compared with the start of the memory. *)
Example lmb_alloc_addr_outside :
  let m := {| memory := table [blk 0x1000 0x40000000]; reserved := table [] |} in
  option_map snd (lmb_alloc_addr m 0x800 0x1000) = Some 0x800.
Proof. vm_compute. done. Qed.

(** With [max_addr < size] the candidate address wraps around and lies outside
    of the memory. *)
Example lmb_alloc_base_wraps :
  option_map snd (lmb_alloc_base
    {| memory := table [blk 0 0x40000000]; reserved := table [] |} 0x2000 0x1000 0x1000)
  = Some 0xfffff000.
Proof. vm_compute. done. Qed.

(** A failing [lmb_free] releases the addresses above the block. *)
Example lmb_free_loses :
  let m := {| memory := table []; reserved := table (map (λ i, blk (Z.of_nat i * 0x10000) 0x8000) (seq 0 8)) |} in
  option_map snd (lmb_free m 0x1000 0x1000) = Some (-1) ∧
  lmb_is_reserved m 0x3000 = Some 1 ∧
  (o ← lmb_free m 0x1000 0x1000; lmb_is_reserved (fst o) 0x3000) = Some 0.
Proof. vm_compute. done. Qed.
