(* ===== verification/Memory.v ===== *)
(** * Memory: the bytes that the C code reads and writes

    A memory maps the addresses that exist to bytes.  Reading or writing
    another address has no result: a theorem that an operation returns [Some]
    says that it stays inside of the objects it was given. *)

From Stdlib Require Import ZArith Lia List.
From stdpp Require Import base numbers list option gmap fin_maps.
From S2P Require Import Prelude.

Abbreviation mem := (gmap Z Z).

Definition load (m : mem) (a : Z) : option Z := m !! a.

Definition store (m : mem) (a v : Z) : option mem :=
  _ ← m !! a; Some (<[a := u8 v]> m).

(** A word of the little-endian 32-bit machine. *)
Definition load32 (m : mem) (a : Z) : option Z :=
  b0 ← load m a; b1 ← load m (a + 1); b2 ← load m (a + 2); b3 ← load m (a + 3);
  Some (b0 + 2 ^ 8 * b1 + 2 ^ 16 * b2 + 2 ^ 24 * b3).

Definition store32 (m : mem) (a v : Z) : option mem :=
  m ← store m a v;
  m ← store m (a + 1) (v / 2 ^ 8);
  m ← store m (a + 2) (v / 2 ^ 16);
  store m (a + 3) (v / 2 ^ 24).

(** ** Ranges of bytes *)

Definition is_byte (x : Z) : Prop := 0 ≤ x < 256.

(** The bytes [l] are at address [a]. *)
Definition bytes_at (m : mem) (a : Z) (l : list Z) : Prop :=
  ∀ i x, l !! i = Some x → m !! (a + Z.of_nat i) = Some x.

(** The [n] addresses from [a] exist. *)
Definition mapped (m : mem) (a n : Z) : Prop :=
  ∀ b, a ≤ b < a + n → is_Some (m !! b).

Fixpoint set_bytes (m : mem) (a : Z) (l : list Z) : mem :=
  match l with
  | [] => m
  | x :: l => set_bytes (<[a := x]> m) (a + 1) l
  end.

Fixpoint get_bytes (m : mem) (a : Z) (n : nat) : option (list Z) :=
  match n with
  | O => Some []
  | S n => x ← m !! a; l ← get_bytes m (a + 1) n; Some (x :: l)
  end.

(** The memory that holds just the bytes [l], from address [a]. *)
Definition mem_of (a : Z) (l : list Z) : mem := set_bytes ∅ a l.

Create Rewrite HintDb mem.

Lemma lookup_set_bytes_in m a l i x :
  l !! i = Some x → set_bytes m a l !! (a + Z.of_nat i) = Some x.
Proof.
  assert (Hout : ∀ l m a b, b < a → set_bytes m a l !! b = m !! b).
  { clear. induction l as [|y l IH]; intros m a b Hb; cbn; [done|].
    rewrite IH by lia. apply lookup_insert_ne. lia. }
  revert m a i. induction l as [|y l IH]; intros m a i; [done|]. destruct i as [|i]; cbn.
  - intros [= ->]. rewrite Hout by lia. rewrite Z.add_0_r. apply lookup_insert_eq.
  - intros Hi. replace (a + Z.of_nat (S i)) with (a + 1 + Z.of_nat i) by lia. by apply IH.
Qed.

Lemma lookup_set_bytes_out m a l b :
  b < a ∨ a + Z.of_nat (length l) ≤ b → set_bytes m a l !! b = m !! b.
Proof.
  revert m a. induction l as [|y l IH]; intros m a Hb; cbn in *; [done|].
  rewrite IH by lia. apply lookup_insert_ne. lia.
Qed.

Lemma set_bytes_subseteq m a l :
  (∀ b, a ≤ b < a + Z.of_nat (length l) → m !! b = None) → m ⊆ set_bytes m a l.
Proof.
  intros Hn. apply map_subseteq_spec. intros b x Hb. rewrite lookup_set_bytes_out; [done|].
  destruct (decide (a ≤ b < a + Z.of_nat (length l))) as [Hin|]; [by rewrite Hn in Hb|lia].
Qed.

Lemma lookup_mem_of_out a l b : b < a ∨ a + Z.of_nat (length l) ≤ b → mem_of a l !! b = None.
Proof. intros H. unfold mem_of. rewrite lookup_set_bytes_out by done. apply lookup_empty. Qed.

Lemma bytes_at_set_same m a l : bytes_at (set_bytes m a l) a l.
Proof. intros i x Hi. by apply lookup_set_bytes_in. Qed.

Lemma bytes_at_set_other m a l b k :
  b + Z.of_nat (length k) ≤ a ∨ a + Z.of_nat (length l) ≤ b →
  bytes_at m b k → bytes_at (set_bytes m a l) b k.
Proof.
  intros Hd Hk i x Hi. pose proof (lookup_lt_Some _ _ _ Hi).
  rewrite lookup_set_bytes_out by lia. by apply Hk.
Qed.

Lemma bytes_at_nil m a : bytes_at m a [].
Proof. by intros [|i] x. Qed.

Lemma bytes_at_cons m a x l :
  bytes_at m a (x :: l) ↔ m !! a = Some x ∧ bytes_at m (a + 1) l.
Proof.
  split.
  - intros H. split.
    + specialize (H O x eq_refl). by rewrite Z.add_0_r in H.
    + intros i y Hi. specialize (H (S i) y Hi).
      by replace (a + 1 + Z.of_nat i) with (a + Z.of_nat (S i)) by lia.
  - intros [H0 H] [|i] y Hi; cbn in Hi.
    + injection Hi as <-. by rewrite Z.add_0_r.
    + replace (a + Z.of_nat (S i)) with (a + 1 + Z.of_nat i) by lia. by apply H.
Qed.

Lemma bytes_at_app m a l k :
  bytes_at m a (l ++ k) ↔ bytes_at m a l ∧ bytes_at m (a + Z.of_nat (length l)) k.
Proof.
  revert a. induction l as [|x l IH]; intros a; cbn [app length].
  - rewrite Z.add_0_r. split; [intros H; split; [apply bytes_at_nil|done]|by intros []].
  - rewrite !bytes_at_cons, IH.
    replace (a + 1 + Z.of_nat (length l)) with (a + Z.of_nat (S (length l))) by lia. tauto.
Qed.

Lemma bytes_at_slice m a l i n :
  bytes_at m a l → bytes_at m (a + Z.of_nat i) (take n (drop i l)).
Proof.
  intros H j x Hj. rewrite lookup_take_Some, lookup_drop in Hj. destruct Hj as [Hj _].
  rewrite <-Z.add_assoc, <-Nat2Z.inj_add. by apply H.
Qed.

Lemma bytes_at_get m a l i x :
  bytes_at m a l → l !! i = Some x → m !! (a + Z.of_nat i) = Some x.
Proof. intros H. apply H. Qed.

Lemma bytes_at_mapped m a l n :
  bytes_at m a l → n ≤ Z.of_nat (length l) → mapped m a n.
Proof.
  intros H Hn b Hb. destruct (lookup_lt_is_Some_2 l (Z.to_nat (b - a))) as [x Hx]; [lia|].
  exists x. apply H in Hx. by replace (a + Z.of_nat (Z.to_nat (b - a))) with b in Hx by lia.
Qed.

Lemma mapped_bytes m a n :
  0 ≤ n → mapped m a n → ∃ l, length l = Z.to_nat n ∧ bytes_at m a l.
Proof.
  intros Hn. rewrite <-(Z2Nat.id n) by done. generalize (Z.to_nat n). clear. intros k.
  revert a. induction k as [|k IH]; intros a Hm.
  - exists []. split; [done|apply bytes_at_nil].
  - destruct (Hm a) as [x Hx]; [lia|]. destruct (IH (a + 1)) as (l & Hl & Hb).
    { intros b Hb. apply Hm. lia. }
    exists (x :: l). split; [cbn; lia|]. by apply bytes_at_cons.
Qed.

Lemma mapped_set_bytes m a l b n : mapped m b n → mapped (set_bytes m a l) b n.
Proof.
  intros H c Hc. destruct (decide (a ≤ c < a + Z.of_nat (length l))) as [Hin|Hout].
  - destruct (lookup_lt_is_Some_2 l (Z.to_nat (c - a))) as [x Hx]; [lia|].
    exists x. replace c with (a + Z.of_nat (Z.to_nat (c - a))) by lia.
    by apply lookup_set_bytes_in.
  - rewrite lookup_set_bytes_out by lia. by apply H.
Qed.

Lemma mapped_insert m a x b n : mapped m b n → mapped (<[a := x]> m) b n.
Proof. apply (mapped_set_bytes m a [x] b n). Qed.

Lemma mapped_sub m a n b k : mapped m a n → a ≤ b → b + k ≤ a + n → mapped m b k.
Proof. intros H ? ? c Hc. apply H. lia. Qed.

Lemma set_bytes_app m a l k :
  set_bytes m a (l ++ k) = set_bytes (set_bytes m a l) (a + Z.of_nat (length l)) k.
Proof.
  revert m a. induction l as [|x l IH]; intros m a; cbn [app set_bytes length].
  - by rewrite Z.add_0_r.
  - rewrite IH. f_equal. lia.
Qed.

Lemma set_bytes_snoc m a l x :
  set_bytes m a (l ++ [x]) = <[a + Z.of_nat (length l) := x]> (set_bytes m a l).
Proof. by rewrite set_bytes_app. Qed.

(** A write below or above a range commutes with it. *)
Lemma set_bytes_insert m a l b x :
  b < a ∨ a + Z.of_nat (length l) ≤ b →
  set_bytes (<[b := x]> m) a l = <[b := x]> (set_bytes m a l).
Proof.
  revert m a. induction l as [|y l IH]; intros m a Hb; cbn [set_bytes length] in *; [done|].
  rewrite insert_insert_ne by lia. apply IH. lia.
Qed.

Lemma set_bytes_id m a l : bytes_at m a l → set_bytes m a l = m.
Proof.
  revert a. induction l as [|x l IH]; intros a H; cbn; [done|].
  apply bytes_at_cons in H as [Hx Hl]. rewrite insert_id by done. by apply IH.
Qed.

(** Two writes to the same range: the second one wins. *)
Lemma set_bytes_twice m a l k :
  length l = length k → set_bytes (set_bytes m a l) a k = set_bytes m a k.
Proof.
  revert m a k. induction l as [|x l IH]; intros m a [|y k] Hl; cbn in *; try done.
  rewrite <-set_bytes_insert by lia. rewrite insert_insert_eq. apply IH. lia.
Qed.

(** A longer write over the end of an earlier one. *)
Lemma set_bytes_over m a l k k' b :
  b = a + Z.of_nat (length l) → (length k ≤ length k')%nat →
  set_bytes (set_bytes m a (l ++ k)) b k' = set_bytes m a (l ++ k').
Proof.
  intros -> Hk. rewrite !set_bytes_app. set (m1 := set_bytes m a l).
  rewrite <-(take_drop (length k) k'), !set_bytes_app, set_bytes_twice; [done|].
  rewrite length_take. lia.
Qed.

Lemma mem_of_subseteq m a l : bytes_at m a l → mem_of a l ⊆ m.
Proof.
  intros H. apply map_subseteq_spec. intros b x Hb.
  destruct (decide (a ≤ b < a + Z.of_nat (length l))) as [Hin|];
    [|rewrite lookup_mem_of_out in Hb by lia; done].
  assert (∃ i, b = a + Z.of_nat i) as [i ->] by (exists (Z.to_nat (b - a)); lia).
  destruct (lookup_lt_is_Some_2 l i) as [y Hy]; [lia|]. unfold mem_of in Hb.
  rewrite (lookup_set_bytes_in _ _ _ _ _ Hy) in Hb. injection Hb as <-. by apply H.
Qed.

Lemma store_ok m a v : is_Some (m !! a) → store m a v = Some (<[a := u8 v]> m).
Proof. intros [x Hx]. unfold store. by rewrite Hx. Qed.

Lemma store_mapped m a v b n :
  mapped m b n → b ≤ a < b + n → store m a v = Some (<[a := u8 v]> m).
Proof. intros H Ha. by apply store_ok, H. Qed.

Lemma get_bytes_spec m a l : get_bytes m a (length l) = Some l ↔ bytes_at m a l.
Proof.
  revert a. induction l as [|x l IH]; intros a; cbn [length get_bytes].
  - split; [intros _; apply bytes_at_nil|done].
  - rewrite bytes_at_cons, <-IH. destruct (m !! a) as [y|]; cbn; [|naive_solver].
    destruct (get_bytes m (a + 1) (length l)); cbn; naive_solver.
Qed.

Lemma bytes_at_mem_of a l : bytes_at (mem_of a l) a l.
Proof. apply bytes_at_set_same. Qed.

(** A copied word is four copied bytes. *)
Lemma store32_load32 m a b0 b1 b2 b3 :
  is_byte b0 → is_byte b1 → is_byte b2 → is_byte b3 → mapped m a 4 →
  store32 m a (b0 + 2 ^ 8 * b1 + 2 ^ 16 * b2 + 2 ^ 24 * b3) =
  Some (set_bytes m a [b0; b1; b2; b3]).
Proof.
  unfold is_byte. intros H0 H1 H2 H3 Hm. unfold store32.
  set (v := b0 + _ + _ + _).
  assert (E0 : u8 v = b0).
  { unfold wrap, v. replace (b0 + _ + _ + _) with (b0 + (b1 + 2 ^ 8 * b2 + 2 ^ 16 * b3) * 2 ^ 8) by ring.
    rewrite Z_mod_plus_full, Z.mod_small; lia. }
  assert (E1 : u8 (v / 2 ^ 8) = b1).
  { unfold wrap, v. replace (b0 + _ + _ + _) with (b0 + (b1 + (b2 + 2 ^ 8 * b3) * 2 ^ 8) * 2 ^ 8) by ring.
    rewrite Z.div_add, Z.div_small, Z.add_0_l, Z_mod_plus_full, Z.mod_small; lia. }
  assert (E2 : u8 (v / 2 ^ 16) = b2).
  { unfold wrap, v. replace (b0 + _ + _ + _) with ((b0 + 2 ^ 8 * b1) + (b2 + b3 * 2 ^ 8) * 2 ^ 16) by ring.
    rewrite Z.div_add, Z.div_small, Z.add_0_l, Z_mod_plus_full, Z.mod_small; lia. }
  assert (E3 : u8 (v / 2 ^ 24) = b3).
  { unfold wrap, v. replace (b0 + _ + _ + _) with ((b0 + 2 ^ 8 * b1 + 2 ^ 16 * b2) + b3 * 2 ^ 24) by ring.
    rewrite Z.div_add, Z.div_small, Z.add_0_l, Z.mod_small; lia. }
  rewrite (store_mapped m _ _ a 4), E0 by (done || lia). cbn [mbind option_bind].
  rewrite (store_mapped _ _ _ a 4), E1 by (repeat apply mapped_insert; done || lia). cbn [mbind option_bind].
  rewrite (store_mapped _ _ _ a 4), E2 by (repeat apply mapped_insert; done || lia). cbn [mbind option_bind].
  rewrite (store_mapped _ _ _ a 4), E3 by (repeat apply mapped_insert; done || lia).
  cbn. by rewrite <-!Z.add_assoc.
Qed.

(** As many addresses exist as there are bytes at an address: [size m]
    iterations are enough for any scan of consecutive addresses. *)
Lemma bytes_at_size m a l : bytes_at m a l → (length l ≤ size m)%nat.
Proof.
  revert m a. induction l as [|x l IH]; intros m a H; cbn; [lia|].
  apply bytes_at_cons in H as [Hx Hl].
  rewrite <-(insert_delete_id m a x Hx), map_size_insert_None by apply lookup_delete_eq.
  assert (length l ≤ size (delete a m))%nat; [|lia].
  apply (IH _ (a + 1)). intros i y Hi. rewrite lookup_delete_ne by lia. by apply Hl.
Qed.

Lemma mapped_size m a n : mapped m a n → n ≤ Z.of_nat (size m).
Proof.
  intros H. destruct (Z.le_gt_cases 0 n) as [Hn|Hn]; [|lia].
  destruct (mapped_bytes m a n Hn H) as (l & Hl & Hb).
  apply bytes_at_size in Hb. lia.
Qed.

(** ** Strings *)

(** The characters of a string: bytes (the compiler's [char] is unsigned)
    other than NUL. *)
Definition is_char (c : Z) : Prop := 0 < c < 256.

(** The NUL-terminated string [s] is at address [a]. *)
Definition cstr_at (m : mem) (a : Z) (s : list Z) : Prop :=
  bytes_at m a (s ++ [0]) ∧ Forall is_char s.

Lemma cstr_at_nil m a : cstr_at m a [] ↔ m !! a = Some 0.
Proof.
  unfold cstr_at. cbn. rewrite bytes_at_cons. split; [naive_solver|].
  intros H. split; [split; [done|apply bytes_at_nil]|constructor].
Qed.

Lemma cstr_at_cons m a c s :
  cstr_at m a (c :: s) ↔ m !! a = Some c ∧ is_char c ∧ cstr_at m (a + 1) s.
Proof. unfold cstr_at. cbn [app]. rewrite bytes_at_cons, Forall_cons_iff. tauto. Qed.

Lemma cstr_at_drop m a s k :
  cstr_at m a (s ++ k) → cstr_at m (a + Z.of_nat (length s)) k.
Proof.
  intros [H Hc]. rewrite <-app_assoc, bytes_at_app in H. apply Forall_app in Hc.
  split; naive_solver.
Qed.

Lemma cstr_at_size m a s : cstr_at m a s → (length s < size m)%nat.
Proof. intros [H%bytes_at_size _]. rewrite length_app in H. cbn in H. lia. Qed.

(** A string and a write apart from it. *)
Lemma cstr_set_other m a s b l :
  a + Z.of_nat (length s) < b ∨ b + Z.of_nat (length l) ≤ a → cstr_at m a s → cstr_at (set_bytes m b l) a s.
Proof.
  intros Hd [Hs Hc]. split; [|done]. apply bytes_at_set_other; [|done]. rewrite length_app. cbn [length]. lia.
Qed.

Lemma is_char_byte c : is_char c → is_byte c.
Proof. unfold is_char, is_byte. lia. Qed.

Lemma cstr_bytes s : Forall is_char s → Forall is_byte (s ++ [0]).
Proof.
  intros H. apply Forall_app. split; [|by repeat constructor].
  eapply Forall_impl; [exact H|]. exact is_char_byte.
Qed.

(** The length of the longest prefix whose elements satisfy [f]. *)
Fixpoint prefix_len (f : Z → bool) (s : list Z) : nat :=
  match s with
  | [] => O
  | c :: s => if f c then S (prefix_len f s) else O
  end.

Lemma prefix_len_le f s : (prefix_len f s ≤ length s)%nat.
Proof. induction s as [|c s IH]; cbn; [lia|]. destruct (f c); lia. Qed.

Lemma prefix_len_all f s i c :
  (i < prefix_len f s)%nat → s !! i = Some c → f c = true.
Proof.
  revert i. induction s as [|d s IH]; intros i; cbn; [lia|].
  destruct (f d) eqn:Hd; [|lia]. destruct i as [|i]; cbn; [naive_solver|].
  intros Hi. apply IH. lia.
Qed.

Lemma prefix_len_stop f s c : s !! prefix_len f s = Some c → f c = false.
Proof. induction s as [|d s IH]; cbn; [done|]. destruct (f d) eqn:Hd; cbn; naive_solver. Qed.

(** ** Reading *)

(** A function that only reads gives the same result in a larger memory. *)
Definition mono {A} (f : mem → option A) : Prop :=
  ∀ m0 m x, m0 ⊆ m → f m0 = Some x → f m = Some x.

Section mono.
Context {A B S : Type}.

Lemma mono_const (x : option A) : mono (λ _, x).
Proof. by intros m0 m y _. Qed.

Lemma mono_load a : mono (λ m, load m a).
Proof. intros m0 m x Hm Hx. by eapply lookup_weaken. Qed.

Lemma mono_bind (f : mem → option A) (g : A → mem → option B) :
  mono f → (∀ x, mono (g x)) → mono (λ m, x ← f m; g x m).
Proof.
  intros Hf Hg m0 m y Hm. destruct (f m0) as [x|] eqn:E; cbn; [|done].
  rewrite (Hf _ _ _ Hm E). cbn. by apply Hg.
Qed.

Lemma mono_if (b : bool) (f g : mem → option A) :
  mono f → mono g → mono (λ m, if b then f m else g m).
Proof. by destruct b. Qed.

Lemma mono_loop_brk (step : S → mem → option (ctl S Empty_set)) (s : S) :
  (∀ s, mono (step s)) → mono (λ m, loop_brk (Datatypes.S (size m)) (λ s, step s m) s).
Proof.
  intros Hstep m0 m x Hm. pose proof (map_subseteq_size _ _ Hm) as Hsize.
  generalize (Datatypes.S (size m0)) (Datatypes.S (size m)) (le_n_S _ _ Hsize). clear Hsize.
  intros f0 f1. revert f1 s. unfold loop_brk.
  induction f0 as [|f0 IH]; intros [|f1] s Hf; cbn; try done; [lia|].
  destruct (step s m0) as [[s'|s'|[]]|] eqn:E; [| |done].
  - rewrite (Hstep s _ _ _ Hm E). apply IH. lia.
  - by rewrite (Hstep s _ _ _ Hm E).
Qed.

(** The same with a fuel that does not depend on the memory. *)
Lemma mono_loop_fix (step : S → mem → option (ctl S Empty_set)) fuel (s : S) :
  (∀ s, mono (step s)) → mono (λ m, loop_brk fuel (λ s, step s m) s).
Proof.
  intros Hstep m0 m x Hm. unfold loop_brk. revert s. induction fuel as [|fuel IH]; intros s; cbn; [done|].
  destruct (step s m0) as [[s'|s'|[]]|] eqn:E; [| |done].
  - rewrite (Hstep s _ _ _ Hm E). apply IH.
  - by rewrite (Hstep s _ _ _ Hm E).
Qed.
End mono.

Lemma mono_get_bytes a n : mono (λ m, get_bytes m a n).
Proof.
  revert a. induction n as [|n IH]; intros a; cbn; [apply mono_const|].
  apply (mono_bind (λ m, m !! a)); [apply mono_load|]. intros x.
  apply (mono_bind (λ m, get_bytes m (a + 1) n)); [apply IH|]. intros l. apply mono_const.
Qed.

(** Proves [mono] of a composition of reads, loops and tests. *)
Ltac mono_step :=
  match goal with
  | |- mono (λ m, load m _) => apply mono_load
  | |- mono (λ m, get_bytes m _ _) => apply mono_get_bytes
  | |- mono (λ _, ?x) => apply mono_const
  | |- mono (λ m, loop_brk (S (size m)) _ _) => apply mono_loop_brk; intros
  | |- mono (λ m, loop_brk _ _ _) => apply mono_loop_fix; intros
  | |- mono (λ m, mbind _ _) => apply mono_bind; [|intros]
  | |- mono (λ m, if ?b then _ else _) => destruct b
  | |- mono (λ m, match ?x with _ => _ end) => is_var x; destruct x
  | |- mono (match ?x with _ => _ end) => is_var x; destruct x
  | |- mono _ => progress cbv beta zeta
  end.
Ltac mono_tac := repeat mono_step.
