(* ===== verification/CString.v ===== *)
(** * CString: the string and memory functions of lib/string.c

    Pointers are addresses, [NULL] is 0, [size_t] values are non-negative
    integers below 2^32.  A function that returns its first argument unchanged
    is modelled by the memory it leaves.  [memcpy] and [memset] are the C
    versions; the rpi_2 configuration replaces these two by assembly. *)

From Stdlib Require Import ZArith Lia List.
From stdpp Require Import base numbers list option gmap fin_maps.
From S2P Require Import Prelude Memory.

Definition NULL : Z := 0.

(** ** Memory areas *)

Definition memset (m : mem) (s c count : Z) : option mem :=
  let next cl := Z.lor (u32 (Z.shiftl cl 8)) (Z.land c 0xff) in
  let cl := next (next (next (next 0))) in
  '(m, sl, count) ←
    (if Z.land s 3 =? 0 then
       loop_brk (S (size m)) (λ '(m, sl, count),
         if 4 <=? count then
           m ← store32 m sl cl;
           Some (Next (m, sl + 4, count - 4))
         else Some (Break (m, sl, count)))
       (m, s, count)
     else Some (m, s, count));
  '(m, _, _) ← loop_brk (S (size m)) (λ '(m, s8, count),
      if count =? 0 then Some (Break (m, s8, count))
      else m ← store m s8 c; Some (Next (m, s8 + 1, count - 1)))
    (m, sl, count);
  Some m.

(** The byte loop of [memcpy]. *)
Definition copy_bytes (m : mem) (d8 s8 count : Z) : option mem :=
  '(m, _, _, _) ← loop_brk (S (size m)) (λ '(m, d8, s8, count),
      if count =? 0 then Some (Break (m, d8, s8, count))
      else v ← load m s8; m ← store m d8 v; Some (Next (m, d8 + 1, s8 + 1, count - 1)))
    (m, d8, s8, count);
  Some m.

Definition memcpy (m : mem) (dest src count : Z) : option mem :=
  if src =? dest then Some m else
  '(m, dl, sl, count) ←
    (if Z.land (Z.lor dest src) 3 =? 0 then
       loop_brk (S (size m)) (λ '(m, dl, sl, count),
         if 4 <=? count then
           v ← load32 m sl;
           m ← store32 m dl v;
           Some (Next (m, dl + 4, sl + 4, count - 4))
         else Some (Break (m, dl, sl, count)))
       (m, dest, src, count)
     else Some (m, dest, src, count));
  copy_bytes m dl sl count.

Definition memmove (m : mem) (dest src count : Z) : option mem :=
  if dest <=? src then memcpy m dest src count
  else
    '(m, _, _, _) ← loop_brk (S (size m)) (λ '(m, tmp, s, count),
        if count =? 0 then Some (Break (m, tmp, s, count))
        else
          v ← load m (s - 1);
          m ← store m (tmp - 1) v;
          Some (Next (m, tmp - 1, s - 1, count - 1)))
      (m, dest + count, src + count, count);
    Some m.

Definition memcmp (m : mem) (cs ct count : Z) : option Z :=
  '(_, _, _, res) ← loop_brk (S (size m)) (λ '(su1, su2, count, res),
      if 0 <? count then
        v1 ← load m su1;
        v2 ← load m su2;
        let res := v1 - v2 in
        if negb (res =? 0) then Some (Break (su1, su2, count, res))
        else Some (Next (su1 + 1, su2 + 1, count - 1, res))
      else Some (Break (su1, su2, count, res)))
    (cs, ct, count, 0);
  Some res.

Definition memscan (m : mem) (addr c size_ : Z) : option Z :=
  '(p, _) ← loop_brk (S (size m)) (λ '(p, size_),
      if size_ =? 0 then Some (Break (p, size_))
      else
        v ← load m p;
        if v =? c then Some (Break (p, size_)) else Some (Next (p + 1, size_ - 1)))
    (addr, size_);
  Some p.

Definition memchr (m : mem) (s c n : Z) : option Z :=
  o ← loop (S (size m)) (λ '(p, n),
      if n =? 0 then Some (Break (p, n))
      else
        v ← load m p;
        if u8 c =? v then Some (Return p) else Some (Next (p + 1, n - 1)))
    (s, n);
  Some (match o with inl _ => NULL | inr p => p end).

(** ** Strings *)

Definition strlen (m : mem) (s : Z) : option Z :=
  sc ← loop_brk (S (size m)) (λ sc,
      v ← load m sc;
      if v =? 0 then Some (Break sc) else Some (Next (sc + 1))) s;
  Some (sc - s).

Definition strnlen (m : mem) (s count : Z) : option Z :=
  '(sc, _) ← loop_brk (S (size m)) (λ '(sc, count),
      if count =? 0 then Some (Break (sc, count - 1))
      else
        v ← load m sc;
        if v =? 0 then Some (Break (sc, count - 1)) else Some (Next (sc + 1, count - 1)))
    (s, count);
  Some (sc - s).

Definition strcpy (m : mem) (dest src : Z) : option mem :=
  '(m, _, _) ← loop_brk (S (size m)) (λ '(m, dest, src),
      v ← load m src;
      m ← store m dest v;
      if v =? 0 then Some (Break (m, dest + 1, src + 1))
      else Some (Next (m, dest + 1, src + 1)))
    (m, dest, src);
  Some m.

Definition strncpy (m : mem) (dest src count : Z) : option mem :=
  '(m, _, _, _) ← loop_brk (S (size m)) (λ '(m, dest, src, count),
      if count =? 0 then Some (Break (m, dest, src, count - 1))
      else
        v ← load m src;
        m ← store m dest v;
        if v =? 0 then Some (Break (m, dest + 1, src + 1, count - 1))
        else Some (Next (m, dest + 1, src + 1, count - 1)))
    (m, dest, src, count);
  Some m.

Definition strlcpy (m : mem) (dest src size_ : Z) : option (mem * Z) :=
  ret ← strlen m src;
  if negb (size_ =? 0) then
    let len := if size_ <=? ret then size_ - 1 else ret in
    m ← memcpy m dest src len;
    m ← store m (dest + len) 0;
    Some (m, ret)
  else Some (m, ret).

Definition strcat (m : mem) (dest src : Z) : option mem :=
  d ← loop_brk (S (size m)) (λ dest,
      v ← load m dest;
      if v =? 0 then Some (Break dest) else Some (Next (dest + 1))) dest;
  '(m, _, _) ← loop_brk (S (size m)) (λ '(m, dest, src),
      v ← load m src;
      m ← store m dest v;
      if v =? 0 then Some (Break (m, dest + 1, src + 1))
      else Some (Next (m, dest + 1, src + 1)))
    (m, d, src);
  Some m.

Definition strncat (m : mem) (dest src count : Z) : option mem :=
  if negb (count =? 0) then
    d ← loop_brk (S (size m)) (λ dest,
        v ← load m dest;
        if v =? 0 then Some (Break dest) else Some (Next (dest + 1))) dest;
    '(m, _, _, _) ← loop_brk (S (size m)) (λ '(m, dest, src, count),
        v ← load m src;
        m ← store m dest v;
        if v =? 0 then Some (Break (m, dest + 1, src + 1, count))
        else if count - 1 =? 0 then
          m ← store m (dest + 1) 0;
          Some (Break (m, dest + 1, src + 1, count - 1))
        else Some (Next (m, dest + 1, src + 1, count - 1)))
      (m, d, src, count);
    Some m
  else Some m.

(** The difference of the characters is kept in a [signed char]. *)
Definition strcmp (m : mem) (cs ct : Z) : option Z :=
  '(_, _, res) ← loop_brk (S (size m)) (λ '(cs, ct, _),
      v1 ← load m cs;
      v2 ← load m ct;
      let res := swrap 8 (v1 - v2) in
      if negb (res =? 0) then Some (Break (cs, ct + 1, res))
      else if v1 =? 0 then Some (Break (cs + 1, ct + 1, res))
      else Some (Next (cs + 1, ct + 1, res)))
    (cs, ct, 0);
  Some res.

Definition strncmp (m : mem) (cs ct count : Z) : option Z :=
  '(_, _, _, res) ← loop_brk (S (size m)) (λ '(cs, ct, count, res),
      if count =? 0 then Some (Break (cs, ct, count, res))
      else
        v1 ← load m cs;
        v2 ← load m ct;
        let res := swrap 8 (v1 - v2) in
        if negb (res =? 0) then Some (Break (cs, ct + 1, count, res))
        else if v1 =? 0 then Some (Break (cs + 1, ct + 1, count, res))
        else Some (Next (cs + 1, ct + 1, count - 1, res)))
    (cs, ct, count, 0);
  Some res.

Definition strchr (m : mem) (s c : Z) : option Z :=
  o ← loop (S (size m)) (λ s,
      v ← load m s;
      if negb (v =? u8 c)
      then if v =? 0 then Some (Return NULL) else Some (Next (s + 1))
      else Some (Break s)) s;
  Some (match o with inl s => s | inr r => r end).

Definition strchrnul (m : mem) (s c : Z) : option Z :=
  loop_brk (S (size m)) (λ s,
      v ← load m s;
      if negb (v =? u8 c)
      then if v =? 0 then Some (Break s) else Some (Next (s + 1))
      else Some (Break s)) s.

Definition strrchr (m : mem) (s c : Z) : option Z :=
  n ← strlen m s;
  o ← loop (S (size m)) (λ p,
      v ← load m p;
      if v =? u8 c then Some (Return p)
      else if s <=? p - 1 then Some (Next (p - 1)) else Some (Break (p - 1))) (s + n);
  Some (match o with inl _ => NULL | inr p => p end).

(** The inner loop of the functions that search a set of characters: where the
    search of [v] in the string [r] stops. *)
Definition set_scan (m : mem) (v r : Z) : option Z :=
  loop_brk (S (size m)) (λ r,
      w ← load m r;
      if w =? 0 then Some (Break r)
      else if v =? w then Some (Break r) else Some (Next (r + 1))) r.

Definition strcspn (m : mem) (s reject : Z) : option Z :=
  o ← loop (S (size m)) (λ '(p, count),
      v ← load m p;
      if v =? 0 then Some (Break (p, count))
      else
        r ← set_scan m v reject;
        w ← load m r;
        if negb (w =? 0) then Some (Return count)
        else Some (Next (p + 1, count + 1)))
    (s, 0);
  Some (match o with inl (_, count) => count | inr count => count end).

Definition strspn (m : mem) (s accept : Z) : option Z :=
  o ← loop (S (size m)) (λ '(p, count),
      v ← load m p;
      if v =? 0 then Some (Break (p, count))
      else
        a ← set_scan m v accept;
        w ← load m a;
        if w =? 0 then Some (Return count)
        else Some (Next (p + 1, count + 1)))
    (s, 0);
  Some (match o with inl (_, count) => count | inr count => count end).

Definition strpbrk (m : mem) (cs ct : Z) : option Z :=
  o ← loop (S (size m)) (λ sc1,
      v ← load m sc1;
      if v =? 0 then Some (Break sc1)
      else
        sc2 ← set_scan m v ct;
        w ← load m sc2;
        if negb (w =? 0) then Some (Return sc1) else Some (Next (sc1 + 1))) cs;
  Some (match o with inl _ => NULL | inr p => p end).

(** [*s] is the pointer to the rest of the string; the results are the token,
    the new [*s] and the memory. *)
Definition strsep (m : mem) (s ct : Z) : option (Z * Z * mem) :=
  let sbegin := s in
  if sbegin =? NULL then Some (NULL, s, m)
  else
    end_ ← strpbrk m sbegin ct;
    if negb (end_ =? NULL) then
      m ← store m end_ 0;
      Some (sbegin, end_ + 1, m)
    else Some (sbegin, end_, m).

Definition strstr (m : mem) (s1 s2 : Z) : option Z :=
  l2 ← strlen m s2;
  if l2 =? 0 then Some s1
  else
    l1 ← strlen m s1;
    o ← loop (S (size m)) (λ '(s1, l1),
        if l2 <=? l1 then
          d ← memcmp m s1 s2 l2;
          if d =? 0 then Some (Return s1) else Some (Next (s1 + 1, l1 - 1))
        else Some (Break (s1, l1)))
      (s1, l1);
    Some (match o with inl _ => NULL | inr p => p end).

(** ** Memory areas: specification *)

(** A copy of [n] bytes from [src] to [dest] that goes upwards reads no byte
    that it has written. *)
Definition fwd_ok (dest src n : Z) : Prop := dest ≤ src ∨ src + n ≤ dest.

Lemma copy_bytes_spec m dest src l :
  bytes_at m src l → Forall is_byte l → mapped m dest (Z.of_nat (length l)) →
  fwd_ok dest src (Z.of_nat (length l)) →
  copy_bytes m dest src (Z.of_nat (length l)) = Some (set_bytes m dest l).
Proof.
  intros Hl Hb Hd Hf. unfold copy_bytes.
  assert (Hfuel : (length l < S (size m))%nat) by (apply bytes_at_size in Hl; lia).
  revert Hfuel. generalize (S (size m)) as fuel. intros fuel Hfuel.
  match goal with |- context [loop_brk fuel ?step _] =>
    assert (H : ∃ d s, loop_brk fuel step (m, dest, src, Z.of_nat (length l))
                       = Some (set_bytes m dest l, d, s, 0)); [|by destruct H as (d & s & ->)] end.
  revert m dest src fuel Hl Hb Hd Hf Hfuel.
  induction l as [|x l IH]; intros m dest src [|fuel] Hl Hb Hd Hf Hfuel; cbn [length] in *; try lia.
  { erewrite loop_brk_break by done. eauto. }
  apply bytes_at_cons in Hl as [Hx Hl]. apply Forall_cons_iff in Hb as [Hbx Hb].
  erewrite loop_brk_next.
  2:{ cbv beta iota. rewrite (proj2 (Z.eqb_neq _ 0)) by lia. unfold load. rewrite Hx. cbn [mbind option_bind].
      rewrite (store_mapped m _ _ dest (Z.of_nat (S (length l)))) by (done || lia).
      cbn [mbind option_bind]. reflexivity. }
  rewrite wrap_small by exact Hbx.
  replace (Z.of_nat (S (length l)) - 1) with (Z.of_nat (length l)) by lia.
  cbn [set_bytes]. apply IH; [|done| | |lia].
  - apply (bytes_at_set_other m dest [x]); [cbn; unfold fwd_ok in Hf; lia|done].
  - apply mapped_insert. eapply mapped_sub; [exact Hd|lia|lia].
  - unfold fwd_ok in *. lia.
Qed.

Lemma load32_bytes m a b0 b1 b2 b3 l :
  bytes_at m a (b0 :: b1 :: b2 :: b3 :: l) →
  load32 m a = Some (b0 + 2 ^ 8 * b1 + 2 ^ 16 * b2 + 2 ^ 24 * b3).
Proof.
  rewrite !bytes_at_cons. intros (H0 & H1 & H2 & H3 & _). unfold load32, load.
  replace (a + 1 + 1) with (a + 2) in H2 by lia.
  replace (a + 1 + 1 + 1) with (a + 3) in H3 by lia. by rewrite H0, H1, H2, H3.
Qed.

Lemma lor_aligned dest src :
  Z.land (Z.lor dest src) 3 = 0 → dest mod 4 = 0 ∧ src mod 4 = 0.
Proof.
  rewrite Z.land_lor_distr_l, Z.lor_eq_0_iff. change 3 with (Z.ones 2).
  by rewrite !Z.land_ones by lia.
Qed.

(** The word loop copies some first bytes; the rest is left to the byte
    loop. *)
Lemma memcpy_words m dest src l fuel :
  bytes_at m src l → Forall is_byte l → mapped m dest (Z.of_nat (length l)) →
  fwd_ok dest src (Z.of_nat (length l)) → src ≠ dest → dest mod 4 = 0 → src mod 4 = 0 →
  (length l < fuel)%nat →
  ∃ l1 l2, l = l1 ++ l2 ∧
    loop_brk fuel (λ '(m, dl, sl, count),
      if 4 <=? count then
        v ← load32 m sl;
        m ← store32 m dl v;
        Some (Next (m, dl + 4, sl + 4, count - 4))
      else Some (Break (m, dl, sl, count))) (m, dest, src, Z.of_nat (length l))
    = Some (set_bytes m dest l1, dest + Z.of_nat (length l1), src + Z.of_nat (length l1),
            Z.of_nat (length l2)).
Proof.
  revert m dest src l. induction fuel as [|fuel IH];
    intros m dest src l Hl Hb Hd Hf Hne Hda Hsa Hfuel; [lia|].
  destruct l as [|b0 [|b1 [|b2 [|b3 l]]]];
    try (eexists [], _; split; [reflexivity|]; cbn [length Z.of_nat];
         rewrite !Z.add_0_r; erewrite loop_brk_break by done; reflexivity).
  erewrite loop_brk_next.
  2:{ cbv beta iota. rewrite (proj2 (Z.leb_le 4 _)) by (cbn [length]; lia).
      rewrite (load32_bytes _ _ _ _ _ _ _ Hl). cbn [mbind option_bind].
      rewrite !Forall_cons_iff in Hb. rewrite store32_load32; [cbn [mbind option_bind]; reflexivity|..];
        try tauto. eapply mapped_sub; [exact Hd|lia|cbn [length]; lia]. }
  set (w := [b0; b1; b2; b3]).
  assert (Hrest : bytes_at (set_bytes m dest w) (src + 4) l).
  { apply bytes_at_set_other.
    - unfold fwd_ok in Hf. cbn [length] in *. subst w. cbn [length].
      pose proof (Z.div_mod dest 4 ltac:(lia)). pose proof (Z.div_mod src 4 ltac:(lia)). lia.
    - apply (bytes_at_app m src w l) in Hl as [_ Hl]. exact Hl. }
  destruct (IH (set_bytes m dest w) (dest + 4) (src + 4) l) as (l1 & l2 & -> & Hloop).
  - done.
  - rewrite !Forall_cons_iff in Hb. tauto.
  - apply mapped_set_bytes. eapply mapped_sub; [exact Hd|lia|cbn [length]; lia].
  - unfold fwd_ok in *. cbn [length] in Hf. lia.
  - lia.
  - rewrite <-Zplus_mod_idemp_l, Hda. done.
  - rewrite <-Zplus_mod_idemp_l, Hsa. done.
  - cbn [length] in Hfuel. lia.
  - exists (w ++ l1), l2. split; [done|].
    replace (Z.of_nat (length (b0 :: b1 :: b2 :: b3 :: l1 ++ l2)) - 4)
      with (Z.of_nat (length (l1 ++ l2))) by (cbn [length]; lia).
    rewrite Hloop, set_bytes_app, length_app. change (Z.of_nat (length w)) with 4.
    replace (Z.of_nat (length w + length l1)) with (4 + Z.of_nat (length l1)) by (cbn [length w]; lia).
    by rewrite !Z.add_assoc.
Qed.

Lemma memcpy_fwd m dest src l :
  bytes_at m src l → Forall is_byte l → mapped m dest (Z.of_nat (length l)) →
  fwd_ok dest src (Z.of_nat (length l)) →
  memcpy m dest src (Z.of_nat (length l)) = Some (set_bytes m dest l).
Proof.
  intros Hl Hb Hd Hf. unfold memcpy. destruct (Z.eqb_spec src dest) as [->|Hne].
  { by rewrite set_bytes_id. }
  destruct (Z.eqb_spec (Z.land (Z.lor dest src) 3) 0) as [Ha|Ha].
  - apply lor_aligned in Ha as [Hda Hsa].
    destruct (memcpy_words m dest src l (S (size m))) as (l1 & l2 & -> & ->); [done..|  |].
    { apply bytes_at_size in Hl. lia. }
    cbn [mbind option_bind]. rewrite length_app in *.
    apply bytes_at_app in Hl as [Hl1 Hl2]. apply Forall_app in Hb as [Hb1 Hb2].
    rewrite copy_bytes_spec; [by rewrite set_bytes_app| |done| |].
    + apply bytes_at_set_other; [unfold fwd_ok in Hf; lia|done].
    + apply mapped_set_bytes. eapply mapped_sub; [exact Hd|lia|lia].
    + unfold fwd_ok in *. lia.
  - cbn [mbind option_bind]. by apply copy_bytes_spec.
Qed.

Lemma memmove_down m dest src l fuel :
  bytes_at m src l → Forall is_byte l → mapped m dest (Z.of_nat (length l)) → src < dest →
  (length l < fuel)%nat →
  ∃ d s, loop_brk fuel (λ '(m, tmp, s, count),
        if count =? 0 then Some (Break (m, tmp, s, count))
        else
          v ← load m (s - 1);
          m ← store m (tmp - 1) v;
          Some (Next (m, tmp - 1, s - 1, count - 1)))
      (m, dest + Z.of_nat (length l), src + Z.of_nat (length l), Z.of_nat (length l))
    = Some (set_bytes m dest l, d, s, 0).
Proof.
  revert m fuel. induction l as [|x l IH] using rev_ind; intros m fuel Hl Hb Hd Hlt Hfuel.
  { destruct fuel; [cbn in Hfuel; lia|]. erewrite loop_brk_break by done. eauto. }
  rewrite length_app in *; cbn [length] in *. destruct fuel as [|fuel]; [lia|].
  apply bytes_at_app in Hl as [Hl Hx]. apply bytes_at_cons in Hx as [Hx _].
  apply Forall_app in Hb as [Hb Hbx%Forall_inv].
  erewrite loop_brk_next.
  2:{ cbv beta iota. rewrite (proj2 (Z.eqb_neq _ 0)) by lia.
      replace (src + Z.of_nat (length l + 1) - 1) with (src + Z.of_nat (length l)) by lia.
      unfold load. rewrite Hx. cbn [mbind option_bind].
      replace (dest + Z.of_nat (length l + 1) - 1) with (dest + Z.of_nat (length l)) by lia.
      rewrite (store_mapped m _ _ dest (Z.of_nat (length l + 1))) by (done || lia).
      cbn [mbind option_bind]. reflexivity. }
  rewrite wrap_small by exact Hbx.
  replace (Z.of_nat (length l + 1) - 1) with (Z.of_nat (length l)) by lia.
  destruct (IH (<[dest + Z.of_nat (length l) := x]> m) fuel) as (d & s & H); [| | | |lia|].
  - apply (bytes_at_set_other m _ [x]); [lia|done].
  - done.
  - apply mapped_insert. eapply mapped_sub; [exact Hd|lia|lia].
  - done.
  - rewrite H, set_bytes_snoc, set_bytes_insert by lia. eauto.
Qed.

Lemma memmove_spec m dest src l :
  bytes_at m src l → Forall is_byte l → mapped m dest (Z.of_nat (length l)) →
  memmove m dest src (Z.of_nat (length l)) = Some (set_bytes m dest l).
Proof.
  intros Hl Hb Hd. unfold memmove. destruct (Z.leb_spec dest src).
  - apply memcpy_fwd; [done..|by left].
  - destruct (memmove_down m dest src l (S (size m))) as (d & s & ->); [done..| |done].
    apply bytes_at_size in Hl. lia.
Qed.

(** The words that [memset] writes. *)
Lemma memset_word c :
  let next cl := Z.lor (u32 (Z.shiftl cl 8)) (Z.land c 0xff) in
  next (next (next (next 0))) = u8 c + 2 ^ 8 * u8 c + 2 ^ 16 * u8 c + 2 ^ 24 * u8 c.
Proof.
  cbv zeta. replace (Z.land c 0xff) with (u8 c)
    by (change 0xff with (Z.ones 8); by rewrite Z.land_ones).
  pose proof (wrap_range 8 c ltac:(lia)) as H. revert H. generalize (u8 c). clear c.
  intros b Hb. assert (Hall : forallb (λ b,
     let next cl := Z.lor (u32 (Z.shiftl cl 8)) b in
     next (next (next (next 0))) =? b + 2 ^ 8 * b + 2 ^ 16 * b + 2 ^ 24 * b)
     (map Z.of_nat (seq 0 256)) = true) by (vm_compute; reflexivity).
  rewrite forallb_forall in Hall. apply Z.eqb_eq, Hall.
  apply in_map_iff. exists (Z.to_nat b). split; [lia|]. apply in_seq. lia.
Qed.

Lemma memset_bytes m s c n fuel :
  mapped m s (Z.of_nat n) → (n < fuel)%nat →
  ∃ p, loop_brk fuel (λ '(m, s8, count),
      if count =? 0 then Some (Break (m, s8, count))
      else m ← store m s8 c; Some (Next (m, s8 + 1, count - 1)))
    (m, s, Z.of_nat n) = Some (set_bytes m s (replicate n (u8 c)), p, 0).
Proof.
  revert m s fuel. induction n as [|n IH]; intros m s [|fuel] Hm Hfuel; try lia.
  { erewrite loop_brk_break by done. eauto. }
  erewrite loop_brk_next.
  2:{ cbv beta iota. rewrite (proj2 (Z.eqb_neq _ 0)) by lia.
      rewrite (store_mapped m _ _ s (Z.of_nat (S n))) by (done || lia). reflexivity. }
  replace (Z.of_nat (S n) - 1) with (Z.of_nat n) by lia. cbn [replicate set_bytes].
  apply IH; [|lia]. apply mapped_insert. eapply mapped_sub; [exact Hm|lia|lia].
Qed.

Lemma memset_words m s c n fuel :
  mapped m s (Z.of_nat n) → (n < fuel)%nat →
  ∃ k n', (n = k + n')%nat ∧
    loop_brk fuel (λ '(m, sl, count),
         if 4 <=? count then
           m ← store32 m sl (u8 c + 2 ^ 8 * u8 c + 2 ^ 16 * u8 c + 2 ^ 24 * u8 c);
           Some (Next (m, sl + 4, count - 4))
         else Some (Break (m, sl, count))) (m, s, Z.of_nat n)
    = Some (set_bytes m s (replicate k (u8 c)), s + Z.of_nat k, Z.of_nat n').
Proof.
  revert m s n. induction fuel as [|fuel IH]; intros m s n Hm Hfuel; [lia|].
  destruct (Z.leb_spec 4 (Z.of_nat n)) as [Hge|Hlt].
  - destruct (IH (set_bytes m s (replicate 4 (u8 c))) (s + 4) (n - 4)%nat)
      as (k & n' & Hn & Hloop); [|lia|].
    { apply mapped_set_bytes. eapply mapped_sub; [exact Hm|lia|lia]. }
    exists (4 + k)%nat, n'. split; [lia|]. erewrite loop_brk_next.
    2:{ cbv beta iota. rewrite (proj2 (Z.leb_le 4 _)) by lia.
        rewrite store32_load32; [reflexivity|apply (wrap_range 8 c); lia..|].
        eapply mapped_sub; [exact Hm|lia|lia]. }
    replace (Z.of_nat n - 4) with (Z.of_nat (n - 4)) by lia.
    change [u8 c; u8 c; u8 c; u8 c] with (replicate 4 (u8 c)). rewrite Hloop.
    rewrite replicate_add, set_bytes_app. change (Z.of_nat (length (replicate 4 (u8 c)))) with 4.
    by rewrite Nat2Z.inj_add, Z.add_assoc.
  - exists O, n. split; [done|]. erewrite loop_brk_break.
    2:{ cbv beta iota. rewrite (proj2 (Z.leb_gt 4 _)) by lia. reflexivity. }
    cbn. by rewrite Z.add_0_r.
Qed.

Lemma memset_spec m s c n :
  mapped m s (Z.of_nat n) →
  memset m s c (Z.of_nat n) = Some (set_bytes m s (replicate n (u8 c))).
Proof.
  intros Hm. unfold memset. cbv zeta. rewrite memset_word.
  pose proof (mapped_size m s _ Hm) as Hsize.
  destruct (Z.eqb_spec (Z.land s 3) 0) as [Ha|Ha].
  - destruct (memset_words m s c n (S (size m))) as (k & n' & -> & ->); [done|lia|].
    cbn [mbind option_bind].
    destruct (memset_bytes (set_bytes m s (replicate k (u8 c))) (s + Z.of_nat k) c n'
      (S (size (set_bytes m s (replicate k (u8 c)))))) as (p & ->).
    + apply mapped_set_bytes. eapply mapped_sub; [exact Hm|lia|lia].
    + assert (Z.of_nat (k + n') ≤ Z.of_nat (size (set_bytes m s (replicate k (u8 c))))); [|lia].
      apply (mapped_size _ s). by apply mapped_set_bytes.
    + cbn. rewrite replicate_add, set_bytes_app, length_replicate. done.
  - cbn [mbind option_bind].
    destruct (memset_bytes m s c n (S (size m))) as (p & ->); [done|lia|done].
Qed.

(** *** The interface to the other components *)

(** What a client relies on: areas are copied and filled without touching
    anything else. *)
Class MemOps := {
  mo_memcpy : mem → Z → Z → Z → option mem;
  mo_memmove : mem → Z → Z → Z → option mem;
  mo_memcpy_spec m dest src l :
    bytes_at m src l → Forall is_byte l → mapped m dest (Z.of_nat (length l)) →
    fwd_ok dest src (Z.of_nat (length l)) →
    mo_memcpy m dest src (Z.of_nat (length l)) = Some (set_bytes m dest l);
  mo_memmove_spec m dest src l :
    bytes_at m src l → Forall is_byte l → mapped m dest (Z.of_nat (length l)) →
    mo_memmove m dest src (Z.of_nat (length l)) = Some (set_bytes m dest l)
}.

#[export] Instance cstring_ops : MemOps := {|
  mo_memcpy := memcpy;
  mo_memmove := memmove;
  mo_memcpy_spec := memcpy_fwd;
  mo_memmove_spec := memmove_spec
|}.

(** ** Strings: specification *)

(** One iteration of a loop over a string. *)
Ltac step_next := erewrite loop_brk_next; [|cbv beta iota zeta].
Ltac step_break := erewrite loop_brk_break; [|cbv beta iota zeta].
Ltac reduce := cbn [mbind option_bind negb].

(** [end_] is the address of the terminator of the string at [a]. *)
Lemma strlen_loop m a s fuel :
  cstr_at m a s → (length s < fuel)%nat →
  loop_brk fuel (λ sc, v ← load m sc; if v =? 0 then Some (Break sc) else Some (Next (sc + 1))) a
  = Some (a + Z.of_nat (length s)).
Proof.
  revert a fuel. induction s as [|c s IH]; intros a [|fuel] Hs Hfuel; cbn [length] in *; try lia.
  - apply cstr_at_nil in Hs. step_break; [|unfold load; rewrite Hs; reflexivity].
    by rewrite Z.add_0_r.
  - apply cstr_at_cons in Hs as (Hc & Hch & Hs).
    step_next; [|unfold load; rewrite Hc; reduce;
                 rewrite (proj2 (Z.eqb_neq c 0)) by (unfold is_char in Hch; lia); reflexivity].
    rewrite IH by (done || lia). f_equal. lia.
Qed.

Lemma strlen_spec m a s : cstr_at m a s → strlen m a = Some (Z.of_nat (length s)).
Proof.
  intros Hs. unfold strlen. rewrite (strlen_loop m a s) by (done || apply cstr_at_size in Hs; lia).
  reduce. f_equal. lia.
Qed.

(** [strnlen] does not look beyond [count] characters. *)
Lemma strnlen_spec m a l n :
  bytes_at m a l → Forall is_char l →
  n = Z.of_nat (length l) ∨ (Z.of_nat (length l) < n ∧ m !! (a + Z.of_nat (length l)) = Some 0) →
  strnlen m a n = Some (Z.of_nat (length l)).
Proof.
  intros Hl Hc Hn. unfold strnlen.
  assert (Hfuel : (length l < S (size m))%nat) by (apply bytes_at_size in Hl; lia).
  revert Hfuel. generalize (S (size m)) as fuel. intros fuel Hfuel.
  match goal with |- context [loop_brk fuel ?step _] =>
    assert (H : ∃ k, loop_brk fuel step (a, n) = Some (a + Z.of_nat (length l), k)) end.
  { revert a n fuel Hl Hn Hfuel.
    induction l as [|c l IH]; intros a n [|fuel] Hl Hn Hfuel; cbn [length] in *; try lia.
    - rewrite Z.add_0_r in *. destruct Hn as [->|[Hn H0]].
      + step_break; [|reflexivity]. eauto.
      + step_break; [|rewrite (proj2 (Z.eqb_neq n 0)) by lia; unfold load; rewrite H0; reflexivity].
        eauto.
    - apply bytes_at_cons in Hl as [Hx Hl]. apply Forall_cons_iff in Hc as [Hcc Hc].
      step_next; [|rewrite (proj2 (Z.eqb_neq n 0)) by lia; unfold load; rewrite Hx; reduce;
                   rewrite (proj2 (Z.eqb_neq c 0)) by (unfold is_char in Hcc; lia); reflexivity].
      destruct (IH Hc (a + 1) (n - 1) fuel) as (k & ->); [done| |lia|].
      + replace (a + 1 + Z.of_nat (length l)) with (a + Z.of_nat (S (length l))) by lia.
        destruct Hn as [->|[? ?]]; [left; lia|right; split; [lia|done]].
      + exists k. do 2 f_equal. lia. }
  destruct H as (k & ->). reduce. f_equal. lia.
Qed.

(** The copy loop of [strcpy] and [strcat]. *)
Lemma strcpy_loop m dest src s fuel :
  cstr_at m src s → mapped m dest (Z.of_nat (length s) + 1) →
  fwd_ok dest src (Z.of_nat (length s) + 1) → (length s < fuel)%nat →
  ∃ d e, loop_brk fuel (λ '(m, dest, src),
      v ← load m src;
      m ← store m dest v;
      if v =? 0 then Some (Break (m, dest + 1, src + 1))
      else Some (Next (m, dest + 1, src + 1)))
    (m, dest, src) = Some (set_bytes m dest (s ++ [0]), d, e).
Proof.
  revert m dest src fuel.
  induction s as [|c s IH]; intros m dest src [|fuel] Hs Hd Hf Hfuel; cbn [length] in *; try lia.
  - apply cstr_at_nil in Hs. step_break.
    2:{ unfold load; rewrite Hs; reduce. rewrite (store_mapped _ _ _ dest 1) by (done || lia).
        reflexivity. }
    eauto.
  - apply cstr_at_cons in Hs as (Hc & Hch & Hs).
    step_next.
    2:{ unfold load; rewrite Hc; reduce.
        rewrite (store_mapped _ _ _ dest (Z.of_nat (S (length s)) + 1)) by (done || lia). reduce.
        rewrite (proj2 (Z.eqb_neq c 0)) by (unfold is_char in Hch; lia). reflexivity. }
    rewrite wrap_small by (apply is_char_byte in Hch; exact Hch). cbn [app set_bytes].
    apply IH; [| | |lia].
    + destruct Hs as [Hs Hall]. split; [|done].
      apply (bytes_at_set_other m dest [c]); [|done].
      rewrite length_app. cbn. unfold fwd_ok in Hf. lia.
    + apply mapped_insert. eapply mapped_sub; [exact Hd|lia|lia].
    + unfold fwd_ok in *. lia.
Qed.

Lemma strcpy_spec m dest src s :
  cstr_at m src s → mapped m dest (Z.of_nat (length s) + 1) →
  fwd_ok dest src (Z.of_nat (length s) + 1) →
  strcpy m dest src = Some (set_bytes m dest (s ++ [0])).
Proof.
  intros Hs Hd Hf. unfold strcpy.
  destruct (strcpy_loop m dest src s (S (size m))) as (d & e & ->); [done..| |done].
  apply cstr_at_size in Hs. lia.
Qed.

Lemma strncpy_spec m dest src s count :
  cstr_at m src s → 0 ≤ count → mapped m dest (Z.min count (Z.of_nat (length s) + 1)) →
  fwd_ok dest src (Z.of_nat (length s) + 1) →
  strncpy m dest src count = Some (set_bytes m dest (take (Z.to_nat count) (s ++ [0]))).
Proof.
  intros Hs H0 Hd Hf. unfold strncpy.
  assert (Hfuel : (length s < size m)%nat) by (by apply cstr_at_size in Hs).
  assert (Hfuel' : (length s + 1 < S (size m))%nat) by lia. clear Hfuel.
  revert Hfuel'. generalize (S (size m)) as fuel. intros fuel Hfuel.
  match goal with |- context [loop_brk fuel ?step _] =>
    assert (H : ∃ d e n, loop_brk fuel step (m, dest, src, count)
       = Some (set_bytes m dest (take (Z.to_nat count) (s ++ [0])), d, e, n));
    [|by destruct H as (d & e & n & ->)] end.
  revert m dest src count fuel Hs H0 Hd Hf Hfuel.
  induction s as [|c s IH]; intros m dest src count [|fuel] Hs H0 Hd Hf Hfuel;
    cbn [length] in *; try lia;
    (destruct (Z.eq_dec count 0) as [->|Hne]; [step_break; [|reflexivity]; cbn; by eauto|]).
  - apply cstr_at_nil in Hs. step_break.
    2:{ rewrite (proj2 (Z.eqb_neq count 0)) by done. unfold load; rewrite Hs; reduce.
        rewrite (store_mapped _ _ _ dest (Z.min count (Z.of_nat 0 + 1))) by (done || lia).
        reflexivity. }
    cbn [app]. rewrite take_ge by (cbn; lia). eauto.
  - apply cstr_at_cons in Hs as (Hc & Hch & Hs). step_next.
    2:{ rewrite (proj2 (Z.eqb_neq count 0)) by done. unfold load; rewrite Hc; reduce.
        rewrite (store_mapped _ _ _ dest (Z.min count (Z.of_nat (S (length s)) + 1)))
          by (done || lia). reduce.
        rewrite (proj2 (Z.eqb_neq c 0)) by (unfold is_char in Hch; lia). reflexivity. }
    rewrite wrap_small by (apply is_char_byte in Hch; exact Hch).
    replace (Z.to_nat count) with (S (Z.to_nat (count - 1))) by lia. cbn [app take set_bytes].
    apply IH; [|lia| | |lia].
    + destruct Hs as [Hs Hall]. split; [|done].
      apply (bytes_at_set_other m dest [c]); [|done].
      rewrite length_app. cbn. unfold fwd_ok in Hf. lia.
    + apply mapped_insert. eapply mapped_sub; [exact Hd|lia|lia].
    + unfold fwd_ok in *. lia.
Qed.

(** The part of a string that fits in a buffer of [size_] bytes, with its
    terminator. *)
Definition clip (s : list Z) (size_ : Z) : list Z := take (Z.to_nat (size_ - 1)) s ++ [0].

Lemma clip_length s size_ :
  0 < size_ → Z.of_nat (length (clip s size_)) = Z.min (Z.of_nat (length s) + 1) size_.
Proof. intros H. unfold clip. rewrite length_app, length_take. cbn. lia. Qed.

Lemma strlcpy_spec m dest src s size_ :
  cstr_at m src s → 0 < size_ → mapped m dest (Z.of_nat (length (clip s size_))) →
  fwd_ok dest src (Z.of_nat (length s) + 1) →
  strlcpy m dest src size_ = Some (set_bytes m dest (clip s size_), Z.of_nat (length s)).
Proof.
  intros Hs Hpos Hd Hf. unfold strlcpy. rewrite (strlen_spec _ _ _ Hs). reduce.
  rewrite (proj2 (Z.eqb_neq size_ 0)) by lia. cbn [negb].
  set (t := take (Z.to_nat (size_ - 1)) s).
  assert (Hlen : (if size_ <=? Z.of_nat (length s) then size_ - 1 else Z.of_nat (length s))
                 = Z.of_nat (length t)).
  { subst t. rewrite length_take. bools; lia. }
  rewrite Hlen. destruct Hs as [Hs Hall].
  assert (Ht : s = t ++ drop (Z.to_nat (size_ - 1)) s) by (subst t; by rewrite take_drop).
  unfold clip in *. fold t in Hd |- *. rewrite length_app in Hd. cbn [length] in Hd.
  rewrite memcpy_fwd.
  - reduce. rewrite (store_mapped _ _ _ dest (Z.of_nat (length t + 1)))
      by (apply mapped_set_bytes || lia; done).
    reduce. by rewrite set_bytes_snoc.
  - rewrite Ht, <-app_assoc, bytes_at_app in Hs. tauto.
  - rewrite Ht in Hall. apply Forall_app in Hall as [Hall _].
    eapply Forall_impl; [exact Hall|exact is_char_byte].
  - eapply mapped_sub; [exact Hd|lia|lia].
  - unfold fwd_ok in *. subst t. rewrite length_take. lia.
Qed.

Lemma strcat_spec m dest src d s :
  cstr_at m dest d → cstr_at m src s →
  mapped m (dest + Z.of_nat (length d)) (Z.of_nat (length s) + 1) →
  fwd_ok (dest + Z.of_nat (length d)) src (Z.of_nat (length s) + 1) →
  strcat m dest src = Some (set_bytes m (dest + Z.of_nat (length d)) (s ++ [0])).
Proof.
  intros Hd Hs Hm Hf. unfold strcat.
  rewrite (strlen_loop m dest d) by (done || apply cstr_at_size in Hd; lia). reduce.
  destruct (strcpy_loop m (dest + Z.of_nat (length d)) src s (S (size m))) as (p & e & ->);
    [done..| |done].
  apply cstr_at_size in Hs. lia.
Qed.

Lemma strncat_spec m dest src d s count :
  cstr_at m dest d → cstr_at m src s → 0 < count →
  mapped m (dest + Z.of_nat (length d)) (Z.of_nat (length (clip s (count + 1)))) →
  fwd_ok (dest + Z.of_nat (length d)) src (Z.of_nat (length s) + 1) →
  strncat m dest src count = Some (set_bytes m (dest + Z.of_nat (length d)) (clip s (count + 1))).
Proof.
  intros Hd Hs Hpos Hm Hf. unfold strncat.
  rewrite (proj2 (Z.eqb_neq count 0)) by lia. cbn [negb].
  rewrite (strlen_loop m dest d) by (done || apply cstr_at_size in Hd; lia). reduce.
  assert (Hfuel : (length s < S (size m))%nat) by (apply cstr_at_size in Hs; lia).
  revert Hm Hf Hfuel. clear Hd. generalize (dest + Z.of_nat (length d)). clear dest. intros dest.
  generalize (S (size m)) as fuel. intros fuel Hm Hf Hfuel.
  match goal with |- context [loop_brk fuel ?step _] =>
    assert (H : ∃ p e n, loop_brk fuel step (m, dest, src, count)
       = Some (set_bytes m dest (clip s (count + 1)), p, e, n));
    [|by destruct H as (p & e & n & ->)] end.
  revert m dest src count fuel Hs Hpos Hm Hf Hfuel.
  induction s as [|c s IH]; intros m dest src count [|fuel] Hs Hpos Hm Hf Hfuel;
    cbn [length] in *; try lia.
  - apply cstr_at_nil in Hs. unfold clip in *. rewrite take_nil in *. step_break.
    2:{ unfold load; rewrite Hs; reduce. rewrite (store_mapped _ _ _ dest 1) by (done || lia).
        reflexivity. }
    eauto.
  - apply cstr_at_cons in Hs as (Hc & Hch & Hs).
    assert (Hclip : clip (c :: s) (count + 1) = c :: clip s count).
    { unfold clip. by replace (Z.to_nat (count + 1 - 1)) with (S (Z.to_nat (count - 1))) by lia. }
    rewrite Hclip in *. cbn [length set_bytes] in *.
    assert (Hlen := clip_length s count Hpos).
    destruct (Z.eq_dec (count - 1) 0) as [He|Hne].
    + step_break.
      2:{ unfold load; rewrite Hc; reduce.
          rewrite (store_mapped _ _ _ _ _ Hm) by lia. reduce.
          rewrite (proj2 (Z.eqb_neq c 0)) by (unfold is_char in Hch; lia).
          rewrite (proj2 (Z.eqb_eq _ 0)) by done.
          rewrite (store_mapped _ _ _ dest (Z.of_nat (S (length (clip s count)))))
            by (apply mapped_insert || lia; done). reduce. reflexivity. }
      rewrite !wrap_small by (unfold is_char in Hch; lia).
      replace count with 1 by lia. unfold clip. cbn. eauto.
    + step_next.
      2:{ unfold load; rewrite Hc; reduce.
          rewrite (store_mapped _ _ _ _ _ Hm) by lia. reduce.
          rewrite (proj2 (Z.eqb_neq c 0)) by (unfold is_char in Hch; lia).
          rewrite (proj2 (Z.eqb_neq _ 0)) by done. reflexivity. }
      rewrite wrap_small by (apply is_char_byte in Hch; exact Hch).
      specialize (IH (<[dest := c]> m) (dest + 1) (src + 1) (count - 1) fuel).
      rewrite Z.sub_add in IH. apply IH; [|lia| | |lia].
      * destruct Hs as [Hs Hall]. split; [|done].
        apply (bytes_at_set_other m dest [c]); [|done].
        rewrite length_app. cbn. unfold fwd_ok in Hf. lia.
      * apply mapped_insert. eapply mapped_sub; [exact Hm|lia|lia].
      * unfold fwd_ok in *. lia.
Qed.

(** *** Comparison *)

(** The character at index [i], the terminator at the end. *)
Definition nthc (s : list Z) (i : nat) : Z := default 0 (s !! i).

(** The result of [strcmp]: the difference of the first characters that
    differ, kept in a [signed char]. *)
Fixpoint cmp_spec (s t : list Z) : Z :=
  match s, t with
  | [], [] => 0
  | [], d :: _ => swrap 8 (0 - d)
  | c :: _, [] => swrap 8 (c - 0)
  | c :: s, d :: t => if c =? d then cmp_spec s t else swrap 8 (c - d)
  end.

Lemma swrap8_zero c d :
  0 ≤ c < 256 → 0 ≤ d < 256 → swrap 8 (c - d) = 0 ↔ c = d.
Proof.
  intros Hc Hd. unfold swrap. change (2 ^ (8 - 1)) with 128. change (2 ^ 8) with 256.
  split; [|intros ->; by rewrite Z.sub_diag].
  intros H. assert (Hm : (c - d + 128) mod 256 = 128) by lia.
  pose proof (Z.div_mod (c - d + 128) 256 ltac:(lia)).
  assert ((c - d + 128) / 256 = 0 ∨ (c - d + 128) / 256 = -1 ∨ (c - d + 128) / 256 = 1) by lia. lia.
Qed.

Lemma cmp_spec_zero s t : Forall is_char s → Forall is_char t → cmp_spec s t = 0 ↔ s = t.
Proof.
  revert t. induction s as [|c s IH]; intros [|d t] Hs Ht; cbn; [done|..];
    repeat match goal with H : Forall is_char (_ :: _) |- _ => apply Forall_cons_iff in H as [? ?] end;
    unfold is_char in *.
  - rewrite swrap8_zero by lia. split; [lia|done].
  - rewrite swrap8_zero by lia. split; [lia|done].
  - destruct (Z.eqb_spec c d) as [->|Hne].
    + rewrite IH by done. naive_solver.
    + rewrite swrap8_zero by lia. naive_solver.
Qed.

Lemma strcmp_spec m cs ct s t :
  cstr_at m cs s → cstr_at m ct t → strcmp m cs ct = Some (cmp_spec s t).
Proof.
  intros Hs Ht. unfold strcmp.
  assert (Hfuel : (length s < S (size m))%nat) by (apply cstr_at_size in Hs; lia).
  revert Hfuel. generalize (S (size m)) as fuel. intros fuel Hfuel.
  match goal with |- context [loop_brk fuel ?step _] =>
    assert (H : ∀ r, ∃ p q, loop_brk fuel step (cs, ct, r) = Some (p, q, cmp_spec s t));
    [|destruct (H 0) as (p & q & ->); done] end.
  revert cs ct t fuel Hs Ht Hfuel.
  induction s as [|c s IH]; intros cs ct t [|fuel] Hs Ht Hfuel r; cbn [length] in *; try lia.
  - apply cstr_at_nil in Hs. destruct t as [|d t].
    + apply cstr_at_nil in Ht. step_break; [|unfold load; rewrite Hs, Ht; reflexivity]. eauto.
    + apply cstr_at_cons in Ht as (Hd & Hdh & Ht). cbn [cmp_spec].
      step_break.
      2:{ unfold load; rewrite Hs, Hd; reduce. rewrite (proj2 (Z.eqb_neq (swrap 8 _) 0));
          [reflexivity|]. unfold is_char in *. rewrite swrap8_zero by lia. lia. }
      eauto.
  - apply cstr_at_cons in Hs as (Hc & Hch & Hs). unfold is_char in Hch.
    destruct t as [|d t].
    + apply cstr_at_nil in Ht. cbn [cmp_spec].
      step_break.
      2:{ unfold load; rewrite Hc, Ht; reduce. rewrite (proj2 (Z.eqb_neq (swrap 8 _) 0));
          [reflexivity|]. rewrite swrap8_zero by lia. lia. }
      eauto.
    + apply cstr_at_cons in Ht as (Hd & Hdh & Ht). unfold is_char in Hdh. cbn [cmp_spec].
      destruct (Z.eqb_spec c d) as [->|Hne].
      * step_next.
        2:{ unfold load; rewrite Hc, Hd; reduce. rewrite Z.sub_diag. cbn -[swrap].
            rewrite (proj2 (Z.eqb_neq d 0)) by lia. reflexivity. }
        apply IH; [done|done|lia].
      * step_break.
        2:{ unfold load; rewrite Hc, Hd; reduce. rewrite (proj2 (Z.eqb_neq (swrap 8 _) 0));
            [reflexivity|]. rewrite swrap8_zero by lia. lia. }
        eauto.
Qed.

(** *** Search *)

Lemma strchr_spec m a s c :
  cstr_at m a s →
  strchr m a c = Some (let k := prefix_len (λ d, negb (d =? u8 c)) s in
                       if (k <? length s)%nat || (u8 c =? 0) then a + Z.of_nat k else NULL).
Proof.
  intros Hs. unfold strchr.
  assert (Hfuel : (length s < S (size m))%nat) by (apply cstr_at_size in Hs; lia).
  revert Hfuel. generalize (S (size m)) as fuel. intros fuel Hfuel.
  revert a fuel Hs Hfuel.
  induction s as [|d s IH]; intros a [|fuel] Hs Hfuel; cbn [length] in *; try lia; cbn [prefix_len].
  - apply cstr_at_nil in Hs. cbv zeta. rewrite Nat.ltb_irrefl. cbn [orb].
    destruct (Z.eqb_spec (u8 c) 0) as [He|Hne].
    + erewrite loop_break; [cbn; by rewrite Z.add_0_r|].
      unfold load; rewrite Hs; reduce. by rewrite He.
    + erewrite loop_return; [done|]. unfold load; rewrite Hs; reduce.
      by rewrite (proj2 (Z.eqb_neq 0 (u8 c))) by lia.
  - apply cstr_at_cons in Hs as (Hd & Hdh & Hs). unfold is_char in Hdh.
    destruct (Z.eqb_spec d (u8 c)) as [He|Hne]; cbn [negb].
    + erewrite loop_break; [cbn; by rewrite Z.add_0_r|].
      unfold load; rewrite Hd; reduce. by rewrite (proj2 (Z.eqb_eq _ _) He).
    + erewrite loop_next.
      2:{ unfold load; rewrite Hd; reduce. rewrite (proj2 (Z.eqb_neq _ _) Hne); cbn [negb].
          rewrite (proj2 (Z.eqb_neq d 0)) by lia. reflexivity. }
      rewrite IH by (done || lia). f_equal. cbn zeta.
      change (S ?x <? S ?y)%nat with (x <? y)%nat. destruct (_ || _); [lia|done].
Qed.

(** Whether the character [v] is in the set [t]. *)
Definition in_set (t : list Z) (v : Z) : bool := existsb (Z.eqb v) t.

Lemma set_scan_spec m v r t :
  cstr_at m r t → 0 < v →
  ∃ p w, set_scan m v r = Some p ∧ m !! p = Some w ∧ (w = 0 ↔ in_set t v = false).
Proof.
  intros Ht Hv. unfold set_scan.
  assert (Hfuel : (length t < S (size m))%nat) by (apply cstr_at_size in Ht; lia).
  revert Hfuel. generalize (S (size m)) as fuel. intros fuel Hfuel. revert r fuel Ht Hfuel.
  induction t as [|d t IH]; intros r [|fuel] Ht Hfuel; cbn [length] in *; try lia.
  - apply cstr_at_nil in Ht. step_break; [|unfold load; rewrite Ht; reflexivity].
    exists r, 0. done.
  - apply cstr_at_cons in Ht as (Hd & Hdh & Ht). unfold is_char in Hdh. cbn [in_set existsb].
    destruct (Z.eqb_spec v d) as [->|Hne].
    + step_break.
      2:{ unfold load; rewrite Hd; reduce. rewrite (proj2 (Z.eqb_neq d 0)) by lia.
          by rewrite Z.eqb_refl. }
      exists r, d. cbn. split_and!; [done..|]. split; [lia|done].
    + step_next.
      2:{ unfold load; rewrite Hd; reduce. rewrite (proj2 (Z.eqb_neq d 0)) by lia.
          rewrite (proj2 (Z.eqb_neq v d)) by done. reflexivity. }
      cbn. apply IH; [done|lia].
Qed.

Lemma strspn_spec m s t accept :
  cstr_at m s t → ∀ u, cstr_at m accept u →
  strspn m s accept = Some (Z.of_nat (prefix_len (in_set u) t)).
Proof.
  intros Ht u Hu. unfold strspn.
  assert (Hfuel : (length t < S (size m))%nat) by (apply cstr_at_size in Ht; lia).
  revert Hfuel. generalize (S (size m)) as fuel. intros fuel Hfuel.
  match goal with |- context [loop fuel ?step _] =>
    assert (H : ∀ n, ∃ o, loop fuel step (s, n) = Some o ∧
      match o with inl (_, c) => c | inr c => c end = n + Z.of_nat (prefix_len (in_set u) t));
    [|destruct (H 0) as (o & -> & Ho); reduce; f_equal; rewrite Ho; lia] end.
  revert s fuel Ht Hfuel.
  induction t as [|d t IH]; intros s [|fuel] Ht Hfuel n; cbn [length] in *; try lia; cbn [prefix_len].
  - apply cstr_at_nil in Ht. erewrite loop_break; [|unfold load; rewrite Ht; reflexivity].
    eexists; split; [done|]. lia.
  - apply cstr_at_cons in Ht as (Hd & Hdh & Ht). unfold is_char in Hdh.
    destruct (set_scan_spec m d accept u Hu ltac:(lia)) as (p & w & Hp & Hw & Hin).
    destruct (in_set u d).
    + erewrite loop_next.
      2:{ unfold load; rewrite Hd; reduce. rewrite (proj2 (Z.eqb_neq d 0)) by lia.
          rewrite Hp; reduce. rewrite Hw; reduce.
          rewrite (proj2 (Z.eqb_neq w 0)) by (intros ->; naive_solver). reflexivity. }
      destruct (IH (s + 1) fuel Ht ltac:(lia) (n + 1)) as (o & -> & Ho).
      eexists; split; [done|]. lia.
    + erewrite loop_return.
      2:{ unfold load; rewrite Hd; reduce. rewrite (proj2 (Z.eqb_neq d 0)) by lia.
          rewrite Hp; reduce. rewrite Hw; reduce. by rewrite (proj2 (Z.eqb_eq w 0)) by naive_solver. }
      eexists; split; [done|]. lia.
Qed.

(** Where the first character of [u] is in [t]. *)
Definition cut_at (u t : list Z) : nat := prefix_len (λ d, negb (in_set u d)) t.

Lemma strcspn_spec m s t reject u :
  cstr_at m s t → cstr_at m reject u →
  strcspn m s reject = Some (Z.of_nat (cut_at u t)).
Proof.
  intros Ht Hu. unfold strcspn.
  assert (Hfuel : (length t < S (size m))%nat) by (apply cstr_at_size in Ht; lia).
  revert Hfuel. generalize (S (size m)) as fuel. intros fuel Hfuel.
  match goal with |- context [loop fuel ?step _] =>
    assert (H : ∀ n, ∃ o, loop fuel step (s, n) = Some o ∧
      match o with inl (_, c) => c | inr c => c end = n + Z.of_nat (cut_at u t));
    [|destruct (H 0) as (o & -> & Ho); reduce; f_equal; rewrite Ho; lia] end.
  revert s fuel Ht Hfuel. unfold cut_at.
  induction t as [|d t IH]; intros s [|fuel] Ht Hfuel n; cbn [length] in *; try lia; cbn [prefix_len].
  - apply cstr_at_nil in Ht. erewrite loop_break; [|unfold load; rewrite Ht; reflexivity].
    eexists; split; [done|]. lia.
  - apply cstr_at_cons in Ht as (Hd & Hdh & Ht). unfold is_char in Hdh.
    destruct (set_scan_spec m d reject u Hu ltac:(lia)) as (p & w & Hp & Hw & Hin).
    destruct (in_set u d); cbn [negb].
    + erewrite loop_return.
      2:{ unfold load; rewrite Hd; reduce. rewrite (proj2 (Z.eqb_neq d 0)) by lia.
          rewrite Hp; reduce. rewrite Hw; reduce.
          by rewrite (proj2 (Z.eqb_neq w 0)) by (intros ->; naive_solver). }
      eexists; split; [done|]. lia.
    + erewrite loop_next.
      2:{ unfold load; rewrite Hd; reduce. rewrite (proj2 (Z.eqb_neq d 0)) by lia.
          rewrite Hp; reduce. rewrite Hw; reduce.
          rewrite (proj2 (Z.eqb_eq w 0)) by naive_solver. reflexivity. }
      destruct (IH (s + 1) fuel Ht ltac:(lia) (n + 1)) as (o & -> & Ho).
      eexists; split; [done|]. lia.
Qed.

Lemma strpbrk_spec m cs t ct u :
  cstr_at m cs t → cstr_at m ct u →
  strpbrk m cs ct =
    Some (if (cut_at u t <? length t)%nat then cs + Z.of_nat (cut_at u t) else NULL).
Proof.
  intros Ht Hu. unfold strpbrk.
  assert (Hfuel : (length t < S (size m))%nat) by (apply cstr_at_size in Ht; lia).
  revert Hfuel. generalize (S (size m)) as fuel. intros fuel Hfuel. revert cs fuel Ht Hfuel.
  unfold cut_at.
  induction t as [|d t IH]; intros s [|fuel] Ht Hfuel; cbn [length] in *; try lia; cbn [prefix_len].
  - apply cstr_at_nil in Ht. erewrite loop_break; [done|]. unfold load; rewrite Ht. reflexivity.
  - apply cstr_at_cons in Ht as (Hd & Hdh & Ht). unfold is_char in Hdh.
    destruct (set_scan_spec m d ct u Hu ltac:(lia)) as (p & w & Hp & Hw & Hin).
    destruct (in_set u d); cbn [negb].
    + erewrite loop_return; [cbn; by rewrite Z.add_0_r|].
      unfold load; rewrite Hd; reduce. rewrite (proj2 (Z.eqb_neq d 0)) by lia.
      rewrite Hp; reduce. rewrite Hw; reduce.
      by rewrite (proj2 (Z.eqb_neq w 0)) by (intros ->; naive_solver).
    + erewrite loop_next.
      2:{ unfold load; rewrite Hd; reduce. rewrite (proj2 (Z.eqb_neq d 0)) by lia.
          rewrite Hp; reduce. rewrite Hw; reduce.
          rewrite (proj2 (Z.eqb_eq w 0)) by naive_solver. reflexivity. }
      rewrite IH by (done || lia). f_equal. change (S ?x <? S ?y)%nat with (x <? y)%nat.
      case_match; lia.
Qed.

(** A memory comparison against the bytes at two addresses. *)
Lemma memcmp_spec m cs ct l k :
  bytes_at m cs l → bytes_at m ct k → length l = length k →
  ∃ r, memcmp m cs ct (Z.of_nat (length l)) = Some r ∧ (r = 0 ↔ l = k).
Proof.
  intros Hl Hk Hlen. unfold memcmp.
  assert (Hfuel : (length l < S (size m))%nat) by (apply bytes_at_size in Hl; lia).
  revert Hfuel. generalize (S (size m)) as fuel. intros fuel Hfuel.
  match goal with |- context [loop_brk fuel ?step _] =>
    assert (H : ∃ p q n r, loop_brk fuel step (cs, ct, Z.of_nat (length l), 0) = Some (p, q, n, r)
      ∧ (r = 0 ↔ l = k)); [|destruct H as (p & q & n & r & -> & Hr); by exists r] end.
  revert cs ct k fuel Hl Hk Hlen Hfuel.
  induction l as [|x l IH]; intros cs ct [|y k] [|fuel] Hl Hk Hlen Hfuel; cbn [length] in *; try lia.
  - step_break; [|reflexivity]. by do 4 eexists.
  - apply bytes_at_cons in Hl as [Hx Hl]. apply bytes_at_cons in Hk as [Hy Hk].
    destruct (Z.eq_dec (x - y) 0) as [He|Hne].
    + step_next.
      2:{ rewrite (proj2 (Z.ltb_lt 0 _)) by lia. unfold load; rewrite Hx, Hy; reduce.
          rewrite (proj2 (Z.eqb_eq (x - y) 0)) by done. cbn [negb]. reflexivity. }
      rewrite He. replace (Z.of_nat (S (length l)) - 1) with (Z.of_nat (length l)) by lia.
      destruct (IH (cs + 1) (ct + 1) k fuel) as (p & q & n & r & -> & Hr); [done|done|lia|lia|].
      do 4 eexists; split; [done|]. rewrite Hr. replace y with x by lia. naive_solver.
    + step_break.
      2:{ rewrite (proj2 (Z.ltb_lt 0 _)) by lia. unfold load; rewrite Hx, Hy; reduce.
          rewrite (proj2 (Z.eqb_neq (x - y) 0)) by done. reflexivity. }
      do 4 eexists; split; [done|]. split; [lia|]. intros [= -> ->]. lia.
Qed.

(** [t] occurs in [s] at index [i]. *)
Definition occurs (t s : list Z) (i : nat) : Prop := take (length t) (drop i s) = t.

Lemma strstr_loop m s2 t fuel s1 s :
  cstr_at m s1 s → cstr_at m s2 t → t ≠ [] → (length s < fuel)%nat →
  ∃ o, loop fuel (λ '(s1, l1),
        if Z.of_nat (length t) <=? l1 then
          d ← memcmp m s1 s2 (Z.of_nat (length t));
          if d =? 0 then Some (Return s1) else Some (Next (s1 + 1, l1 - 1))
        else Some (Break (s1, l1)))
      (s1, Z.of_nat (length s)) = Some o ∧
    match o with
    | inl _ => ∀ i, ¬ occurs t s i
    | inr p => ∃ i, p = s1 + Z.of_nat i ∧ occurs t s i ∧ ∀ j, (j < i)%nat → ¬ occurs t s j
    end.
Proof.
  revert s1 fuel. induction s as [|c s IH]; intros s1 [|fuel] Hs Ht Hne Hfuel; cbn [length] in *; try lia.
  - erewrite loop_break.
    2:{ rewrite (proj2 (Z.leb_gt _ _)) by (destruct t; [done|cbn; lia]). reflexivity. }
    eexists; split; [done|]. intros i. unfold occurs. rewrite drop_nil, take_nil. congruence.
  - destruct (Z.leb_spec (Z.of_nat (length t)) (Z.of_nat (S (length s)))) as [Hle|Hgt].
    + assert (Hb : bytes_at m s1 (take (length t) (c :: s))).
      { destruct Hs as [Hs _]. rewrite <-(take_drop (length t) (c :: s)), <-app_assoc in Hs.
        apply bytes_at_app in Hs. tauto. }
      destruct Ht as [Htb Htc]. pose proof (proj1 (proj1 (bytes_at_app _ _ _ _) Htb)) as Hb2.
      assert (Hlen : length (take (length t) (c :: s)) = length t)
        by (rewrite length_take; cbn [length]; lia).
      destruct (memcmp_spec m s1 s2 _ _ Hb Hb2 Hlen) as (r & Hr & Hr0). rewrite Hlen in Hr.
      destruct (Z.eqb_spec r 0) as [->|Hrn].
      * erewrite loop_return.
        2:{ rewrite (proj2 (Z.leb_le _ _)) by lia. rewrite Hr. reflexivity. }
        eexists; split; [done|]. exists O. split_and!; [lia| |lia].
        unfold occurs. rewrite drop_0. by apply Hr0.
      * erewrite loop_next.
        2:{ rewrite (proj2 (Z.leb_le _ _)) by lia. rewrite Hr; reduce.
            rewrite (proj2 (Z.eqb_neq r 0)) by done. reflexivity. }
        replace (Z.of_nat (S (length s)) - 1) with (Z.of_nat (length s)) by lia.
        assert (Hno0 : ¬ occurs t (c :: s) 0).
        { unfold occurs. rewrite drop_0. intros H%Hr0. done. }
        apply cstr_at_cons in Hs as (_ & _ & Hs).
        destruct (IH (s1 + 1) fuel Hs) as (o & Ho & HQ); [done|done|lia|].
        exists o. split; [exact Ho|]. destruct o as [?|p].
        -- intros [|i]; [done|]. apply HQ.
        -- destruct HQ as (i & -> & Hi & Hj). exists (S i). split_and!; [lia|done|].
           intros [|j] Hlt; [done|]. apply Hj. lia.
    + erewrite loop_break.
      2:{ rewrite (proj2 (Z.leb_gt _ _)) by lia. reflexivity. }
      eexists; split; [done|]. intros i Ho. unfold occurs in Ho.
      apply (f_equal length) in Ho. rewrite length_take, length_drop in Ho. cbn in Ho. lia.
Qed.

(** ** Properties *)

(** C34. [memmove] copies: afterwards each byte of the destination is the byte
    that the source held before, and every other byte of the memory is as it
    was, whether or not the two areas overlap; it reads and writes nothing
    outside of them. *)
Theorem memmove_correct m dest src n :
  0 ≤ n → mapped m src n → mapped m dest n →
  (∀ a x, m !! a = Some x → is_byte x) →
  ∃ m', memmove m dest src n = Some m' ∧
    ∀ a, m' !! a = if (dest <=? a) && (a <? dest + n) then m !! (src + (a - dest)) else m !! a.
Proof.
  intros Hn Hs Hd Hb. destruct (mapped_bytes m src n Hn Hs) as (l & Hl & Hls).
  replace n with (Z.of_nat (length l)) in * by lia. rewrite memmove_spec; [|done| |done].
  - eexists; split; [done|]. intros a.
    destruct (Z.leb_spec dest a), (Z.ltb_spec a (dest + Z.of_nat (length l))); cbn [andb];
      try (apply lookup_set_bytes_out; lia).
    destruct (lookup_lt_is_Some_2 l (Z.to_nat (a - dest))) as [x Hx]; [lia|].
    replace a with (dest + Z.of_nat (Z.to_nat (a - dest))) at 1 by lia.
    rewrite (lookup_set_bytes_in _ _ _ _ _ Hx). symmetry.
    replace (a - dest) with (Z.of_nat (Z.to_nat (a - dest))) by lia. by apply Hls.
  - apply Forall_forall. intros x Hx. apply list_elem_of_lookup in Hx as [i Hi].
    eapply Hb, Hls, Hi.
Qed.

(** [strlcpy] into a buffer of [size] bytes always leaves a terminated
    string there, the first [size - 1] characters of the source, writes
    nothing outside of the buffer, and returns the length of the source. *)
Theorem strlcpy_correct m dest src s size_ :
  cstr_at m src s → 0 < size_ → mapped m dest size_ →
  dest + size_ ≤ src ∨ src + Z.of_nat (length s) < dest →
  ∃ m', strlcpy m dest src size_ = Some (m', Z.of_nat (length s)) ∧
    cstr_at m' dest (take (Z.to_nat (size_ - 1)) s) ∧ cstr_at m' src s ∧
    ∀ a, a < dest ∨ dest + size_ ≤ a → m' !! a = m !! a.
Proof.
  intros Hs Hpos Hd Hdis. pose proof (clip_length s size_ Hpos) as Hlen.
  rewrite (strlcpy_spec _ _ _ _ _ Hs Hpos).
  - eexists; split; [done|]. destruct Hs as [Hs Hc]. split_and!.
    + split; [apply bytes_at_set_same|by apply Forall_take].
    + split; [|done]. apply bytes_at_set_other; [|done]. rewrite length_app. cbn. lia.
    + intros a Ha. apply lookup_set_bytes_out. lia.
  - eapply mapped_sub; [exact Hd|lia|lia].
  - unfold fwd_ok. lia.
Qed.

(** [strcmp] of two strings is 0 exactly when they are equal. *)
Theorem strcmp_zero m cs ct s t :
  cstr_at m cs s → cstr_at m ct t → ∃ r, strcmp m cs ct = Some r ∧ (r = 0 ↔ s = t).
Proof.
  intros Hs Ht. rewrite (strcmp_spec _ _ _ _ _ Hs Ht). eexists; split; [done|].
  apply cmp_spec_zero; [apply Hs|apply Ht].
Qed.

(** [strsep] cuts the string at its first delimiter: the token is the part
    before it, terminated in place, and [*s] moves to the part after it, or
    becomes [NULL] when there is no delimiter; no other byte changes. *)
Theorem strsep_correct m s ct t u :
  cstr_at m s t → cstr_at m ct u → 0 < s →
  ct + Z.of_nat (length u) < s ∨ s + Z.of_nat (length t) < ct →
  let k := cut_at u t in
  ∃ rest m', strsep m s ct = Some (s, rest, m') ∧
    cstr_at m' s (take k t) ∧ cstr_at m' ct u ∧
    (∀ a, a ≠ s + Z.of_nat k → m' !! a = m !! a) ∧
    if (k <? length t)%nat
    then rest = s + Z.of_nat k + 1 ∧ cstr_at m' rest (drop (S k) t)
    else rest = NULL ∧ m' = m.
Proof.
  intros Ht Hu Hs Hdis k. unfold strsep.
  rewrite (proj2 (Z.eqb_neq s NULL)) by (unfold NULL; lia).
  rewrite (strpbrk_spec _ _ _ _ _ Ht Hu). reduce. fold k.
  destruct (Nat.ltb_spec k (length t)) as [Hk|Hk].
  - rewrite (proj2 (Z.eqb_neq _ NULL)) by (unfold NULL; lia). cbn [negb].
    destruct Ht as [Ht Htc]. destruct (lookup_lt_is_Some_2 t k Hk) as [d Hd].
    rewrite store_ok.
    2:{ exists d. apply Ht. by apply lookup_app_l_Some. }
    reduce. do 2 eexists; split; [done|].
    rewrite <-(take_drop_middle t k d Hd) in Ht, Htc.
    apply Forall_app in Htc as [Htc1 [_ Htc2]%Forall_cons_iff].
    rewrite <-app_assoc in Ht. apply bytes_at_app in Ht as [Ht1 Ht2].
    cbn [app] in Ht2. apply bytes_at_cons in Ht2 as [_ Ht2].
    assert (Hlen : length (take k t) = k) by (rewrite length_take; lia). rewrite Hlen in Ht2.
    rewrite wrap_small by lia. split_and!.
    + split; [|done]. apply bytes_at_app. rewrite Hlen. split.
      * apply (bytes_at_set_other m _ [0]); [lia|done].
      * apply bytes_at_cons. split; [apply lookup_insert_eq|apply bytes_at_nil].
    + destruct Hu as [Hu Huc]. split; [|done].
      apply (bytes_at_set_other m _ [0]); [|done]. rewrite length_app. cbn. lia.
    + intros a Ha. by apply lookup_insert_ne.
    + done.
    + split; [|done]. apply (bytes_at_set_other m _ [0]); [|done]. cbn. lia.
  - cbn. do 2 eexists; split; [done|]. by rewrite take_ge.
Qed.

(** [strstr] returns the address of the first occurrence of the second
    string in the first one, and [NULL] if there is none. *)
Theorem strstr_correct m s1 s2 s t :
  cstr_at m s1 s → cstr_at m s2 t → 0 < s1 →
  ∃ p, strstr m s1 s2 = Some p ∧
    ((p = NULL ∧ ∀ i, ¬ occurs t s i) ∨
     ∃ i, p = s1 + Z.of_nat i ∧ occurs t s i ∧ ∀ j, (j < i)%nat → ¬ occurs t s j).
Proof.
  intros Hs Ht Hpos. unfold strstr. rewrite (strlen_spec _ _ _ Ht). reduce.
  destruct t as [|d t].
  - cbn [length Z.of_nat]. eexists; split; [done|]. right. exists O. split_and!; [lia|done|lia].
  - rewrite (proj2 (Z.eqb_neq _ 0)) by (cbn [length]; lia).
    rewrite (strlen_spec _ _ _ Hs). reduce.
    destruct (strstr_loop m s2 (d :: t) (S (size m)) s1 s) as (o & -> & Ho);
      [done..|apply cstr_at_size in Hs; lia|].
    reduce. destruct o as [[? ?]|p]; (eexists; split; [done|]); [by left|by right].
Qed.

(** ** Witnesses and examples *)

(** "ab,cd" at 100 and "," at 200, ten bytes at 300. *)
Definition demo : mem :=
  set_bytes (set_bytes (mem_of 100 [97; 98; 44; 99; 100; 0]) 200 [44; 0]) 300 (replicate 10 7).

Lemma demo_str : cstr_at demo 100 [97; 98; 44; 99; 100].
Proof.
  split; [|repeat constructor; done].
  rewrite <-get_bytes_spec. vm_compute. reflexivity.
Qed.

Lemma demo_delim : cstr_at demo 200 [44].
Proof. split; [|repeat constructor; done]. rewrite <-get_bytes_spec. vm_compute. reflexivity. Qed.

Lemma demo_mapped : mapped demo 300 10.
Proof.
  apply (bytes_at_mapped _ _ (replicate 10 7)); [|cbn; lia].
  rewrite <-get_bytes_spec. vm_compute. reflexivity.
Qed.

Lemma demo_bytes : ∀ a x, demo !! a = Some x → is_byte x.
Proof.
  apply map_Forall_to_list. vm_compute. repeat constructor; discriminate.
Qed.

Lemma memmove_correct_witness :
  ∃ m', memmove demo 102 100 4 = Some m' ∧
    ∀ a, m' !! a = if (102 <=? a) && (a <? 102 + 4) then demo !! (100 + (a - 102)) else demo !! a.
Proof.
  assert (H : mapped demo 100 6).
  { eapply bytes_at_mapped; [apply demo_str|cbn; lia]. }
  apply memmove_correct; [lia|eapply mapped_sub; [exact H|lia|lia]..|exact demo_bytes].
Defined.

Example memmove_overlap :
  (m' ← memmove demo 102 100 4; get_bytes m' 100 6) = Some [97; 98; 97; 98; 44; 99].
Proof. vm_compute. reflexivity. Qed.

Lemma strlcpy_correct_witness :
  ∃ m', strlcpy demo 300 100 4 = Some (m', 5) ∧
    cstr_at m' 300 [97; 98; 44] ∧ cstr_at m' 100 [97; 98; 44; 99; 100] ∧
    ∀ a, a < 300 ∨ 300 + 4 ≤ a → m' !! a = demo !! a.
Proof.
  apply (strlcpy_correct demo 300 100 [97; 98; 44; 99; 100] 4);
    [exact demo_str|lia|eapply mapped_sub; [exact demo_mapped|lia|lia]|right; cbn; lia].
Defined.

Lemma strcmp_zero_witness :
  ∃ r, strcmp demo 100 200 = Some r ∧ (r = 0 ↔ [97; 98; 44; 99; 100] = [44]).
Proof. apply strcmp_zero; [exact demo_str|exact demo_delim]. Defined.

Lemma strsep_correct_witness :
  ∃ rest m', strsep demo 100 200 = Some (100, rest, m') ∧
    cstr_at m' 100 [97; 98] ∧ cstr_at m' 200 [44] ∧
    (∀ a, a ≠ 102 → m' !! a = demo !! a) ∧
    (rest = 103 ∧ cstr_at m' rest [99; 100]).
Proof.
  apply (strsep_correct demo 100 200 [97; 98; 44; 99; 100] [44]);
    [exact demo_str|exact demo_delim|lia|right; cbn; lia].
Defined.

Lemma strstr_correct_witness :
  ∃ p, strstr demo 100 200 = Some p ∧
    ((p = NULL ∧ ∀ i, ¬ occurs [44] [97; 98; 44; 99; 100] i) ∨
     ∃ i, p = 100 + Z.of_nat i ∧ occurs [44] [97; 98; 44; 99; 100] i ∧
          ∀ j, (j < i)%nat → ¬ occurs [44] [97; 98; 44; 99; 100] j).
Proof. apply strstr_correct; [exact demo_str|exact demo_delim|lia]. Defined.

(** The [signed char] of [strcmp] has the wrong sign for characters that are
    more than 127 apart: a string of the single character 0xe0 compares below
    a string of a single space. *)
Example strcmp_sign :
  strcmp (set_bytes (mem_of 100 [0xe0; 0]) 200 [0x20; 0]) 100 200 = Some (-64).
Proof. vm_compute. reflexivity. Qed.
