(* ===== verification/Membuff.v ===== *)
(** * Membuff: the circular buffer of lib/membuff.c

    The control data are the four pointers of [struct membuff]; the bytes are
    in the memory.  The functions are stated over the copying operations of
    [MemOps], which CString provides. *)

From Stdlib Require Import ZArith Lia List.
From stdpp Require Import base numbers list option gmap fin_maps.
From S2P Require Import Prelude Memory CString.

Record membuff := { start : Z; end_ : Z; head : Z; tail : Z }.

Definition with_head (mb : membuff) (p : Z) : membuff :=
  {| start := start mb; end_ := end_ mb; head := p; tail := tail mb |}.
Definition with_tail (mb : membuff) (p : Z) : membuff :=
  {| start := start mb; end_ := end_ mb; head := head mb; tail := p |}.

(** ** Operations *)

Section operations.
Context `{!MemOps}.

Definition membuff_purge (mb : membuff) : membuff :=
  {| start := start mb; end_ := end_ mb; head := start mb; tail := start mb |}.

(** The results are the buffer, the length and the offset [*offsetp]; [*data]
    is the address of [mb->start]. *)
Definition membuff_putrawflex (mb : membuff) (maxlen : Z) (update : bool)
    : membuff * Z * Z :=
  let offset := head mb - start mb in
  if start mb =? NULL then (mb, 0, offset)
  else if tail mb <=? head mb then
    let len := end_ mb - head mb - 1 in
    let len := if (0 <=? maxlen) && (maxlen <? len) then maxlen else len in
    let mb1 := if update then with_head mb (head mb + len) else mb in
    if ((maxlen <? 0) || (len <? maxlen)) && negb (tail mb =? start mb) then
      (if update then with_head mb1 (start mb1) else mb1, len + 1, offset)
    else (mb1, len, offset)
  else
    let len := tail mb - head mb - 1 in
    let len := if (0 <=? maxlen) && (maxlen <? len) then maxlen else len in
    (if update then with_head mb (head mb + len) else mb, len, offset).

Definition membuff_putraw (mb : membuff) (maxlen : Z) (update : bool) : membuff * Z * Z :=
  let '(mb, size_, offset) := membuff_putrawflex mb maxlen update in
  (mb, size_, start mb + offset).

Definition membuff_putbyte (m : mem) (mb : membuff) (ch : Z) : option (mem * membuff * bool) :=
  let '(mb, n, data) := membuff_putraw mb 1 true in
  if negb (n =? 1) then Some (m, mb, false)
  else m ← store m data ch; Some (m, mb, true).

(** [data] is the caller's pointer, left alone when there is nothing to get. *)
Definition membuff_getraw (mb : membuff) (maxlen : Z) (update : bool) (data : Z)
    : membuff * Z * Z :=
  if tail mb <? head mb then
    let len := head mb - tail mb in
    let len := if (0 <=? maxlen) && (maxlen <? len) then maxlen else len in
    (if update then with_tail mb (tail mb + len) else mb, len, tail mb)
  else if head mb <? tail mb then
    let len := end_ mb - tail mb in
    let len := if (0 <=? maxlen) && (maxlen <? len) then maxlen else len in
    (if update then
       let mb1 := with_tail mb (tail mb + len) in
       if tail mb1 =? end_ mb1 then with_tail mb1 (start mb1) else mb1
     else mb, len, tail mb)
  else (mb, 0, data).

Definition membuff_getbyte (m : mem) (mb : membuff) : option (membuff * Z) :=
  let '(mb, n, data) := membuff_getraw mb 1 true 0 in
  if negb (n =? 1) then Some (mb, -1) else v ← load m data; Some (mb, v).

Definition membuff_peekbyte (m : mem) (mb : membuff) : option (membuff * Z) :=
  let '(mb, n, data) := membuff_getraw mb 1 false 0 in
  if negb (n =? 1) then Some (mb, -1) else v ← load m data; Some (mb, v).

Definition membuff_get (m : mem) (mb : membuff) (buff maxlen : Z)
    : option (mem * membuff * Z) :=
  '(m, mb, _, buffptr, _, _, _) ← loop_brk 3 (λ '(m, mb, data, buffptr, maxlen, len, i),
      if negb (len =? 0) && (i <? 2) then
        let '(mb, len, data) := membuff_getraw mb maxlen true data in
        m ← mo_memcpy m buffptr data len;
        Some (Next (m, mb, data, buffptr + len, maxlen - len, len, i + 1))
      else Some (Break (m, mb, data, buffptr, maxlen, len, i)))
    (m, mb, 0, buff, maxlen, 1, 0);
  Some (m, mb, buffptr - buff).

Definition membuff_put (m : mem) (mb : membuff) (buff length_ : Z)
    : option (mem * membuff * Z) :=
  '(m, mb, _, _, written, _) ← loop_brk 3 (λ '(m, mb, buff, length_, written, i),
      if i <? 2 then
        let '(mb, towrite, data) := membuff_putraw mb length_ true in
        m ← mo_memcpy m data buff towrite;
        Some (Next (m, mb, buff + towrite, length_ - towrite, written + towrite, i + 1))
      else Some (Break (m, mb, buff, length_, written, i)))
    (m, mb, buff, length_, 0, 0);
  Some (m, mb, written).

Definition membuff_isempty (mb : membuff) : bool := head mb =? tail mb.

Definition membuff_avail (mb : membuff) : Z :=
  let '(copy, n1, data) := membuff_getraw mb (-1) true 0 in
  let '(copy, n2, data) := membuff_getraw copy (-1) true data in
  0 + n1 + n2.

Definition membuff_size (mb : membuff) : Z := end_ mb - start mb.

Definition membuff_free (mb : membuff) : Z :=
  if end_ mb =? start mb then 0 else (end_ mb - start mb) - 1 - membuff_avail mb.

Definition membuff_makecontig (m : mem) (mb : membuff) : option (mem * membuff * bool) :=
  o ← (if head mb <? tail mb then
         let topsize := end_ mb - tail mb in
         let botsize := head mb - start mb in
         if tail mb <=? head mb + topsize then Some None
         else
           m ← mo_memmove m (start mb + topsize) (start mb) botsize;
           Some (Some (m, topsize, botsize))
       else Some (Some (m, head mb - tail mb, 0)));
  match o with
  | None => Some (m, mb, false)
  | Some (m, topsize, botsize) =>
      m ← mo_memcpy m (start mb) (tail mb) topsize;
      let mb := with_tail mb (start mb) in
      Some (m, with_head mb (start mb + topsize + botsize), true)
  end.

(** The results are the memory, the buffer and the length. *)
Definition membuff_readline (m : mem) (mb : membuff) (str maxlen minch : Z)
    : option (mem * membuff * Z) :=
  let orig := str in
  let end0 := if tail mb <=? head mb then head mb else end_ mb in
  '(m, len, s, _, str, ok) ← loop_brk (S (S (Z.to_nat maxlen)))
    (λ '(m, len, s, e, str, ok),
      if (s <? e) && (len <? maxlen - 1) then
        v ← load m s;
        m ← store m str v;
        let s := s + 1 in
        let len := len + 1 in
        if (v =? 10) || (v <? minch) then Some (Break (m, len, s, e, str, true))
        else
          let '(s, e) :=
            if (s =? e) && (head mb <? tail mb) then (start mb, head mb) else (s, e) in
          Some (Next (m, len, s, e, str + 1, ok))
      else Some (Break (m, len, s, e, str, ok)))
    (m, 0, tail mb, end0, str, false);
  if negb ok then
    if negb (maxlen =? 0) then m ← store m orig 0; Some (m, mb, 0) else Some (m, mb, 0)
  else
    m ← store m str 0;
    Some (m, with_tail mb (if s =? end_ mb then start mb else s), len).

Definition membuff_init (buff size_ : Z) : membuff :=
  membuff_purge {| start := buff; end_ := buff + size_; head := 0; tail := 0 |}.

Definition membuff_uninit : membuff :=
  membuff_purge {| start := NULL; end_ := NULL; head := 0; tail := 0 |}.

(** Arithmetic on [int] that overflows has no result. *)
Definition int (x : Z) : option Z := if (- 2 ^ 31 <=? x) && (x <? 2 ^ 31) then Some x else None.

(** The size that [membuff_extend_by] asks for. *)
Definition membuff_extend_size (fuel : nat) (orig by_ max : Z) : option Z :=
  size_ ← loop_brk fuel (λ size_,
      target ← int (orig + by_);
      if size_ <? target then size_ ← int (size_ * 2); Some (Next size_) else Some (Break size_)) orig;
  Some (if negb (max =? -1) then Z.min size_ max else size_).

End operations.

(** ** The queue of bytes that a buffer holds *)

(** The bytes [q], oldest first, are between [tail] and [head], through the
    end of the buffer when [head] is below [tail]. *)
Definition layout (m : mem) (mb : membuff) (q : list Z) : Prop :=
  if tail mb <=? head mb
  then bytes_at m (tail mb) q ∧ head mb = tail mb + Z.of_nat (length q)
  else ∃ q1 q2, q = q1 ++ q2 ∧
    bytes_at m (tail mb) q1 ∧ end_ mb = tail mb + Z.of_nat (length q1) ∧
    bytes_at m (start mb) q2 ∧ head mb = start mb + Z.of_nat (length q2).

Record mb_repr (m : mem) (mb : membuff) (q : list Z) : Prop := {
  mb_start : 0 < start mb;
  mb_head : start mb ≤ head mb < end_ mb;
  mb_tail : start mb ≤ tail mb < end_ mb;
  mb_mapped : mapped m (start mb) (end_ mb - start mb);
  mb_bytes : Forall is_byte q;
  mb_layout : layout m mb q
}.

(** One byte of the buffer is never used. *)
Definition capacity (mb : membuff) : Z := end_ mb - start mb - 1.
Definition room (mb : membuff) (q : list Z) : Z := capacity mb - Z.of_nat (length q).

Lemma mb_room m mb q : mb_repr m mb q → 0 ≤ room mb q.
Proof.
  intros [Hs Hh Ht _ _ Hl]. unfold room, capacity, layout in *.
  destruct (Z.leb_spec (tail mb) (head mb)).
  - lia.
  - destruct Hl as (q1 & q2 & -> & _ & He & _ & Hq2). rewrite length_app. lia.
Qed.

(** A change of memory outside of the buffer does not matter. *)
Lemma layout_frame m m' mb q :
  (∀ a, start mb ≤ a < end_ mb → m' !! a = m !! a) →
  start mb ≤ head mb < end_ mb → start mb ≤ tail mb < end_ mb →
  layout m mb q → layout m' mb q.
Proof.
  intros Hf Hh Ht. unfold layout.
  assert (Hb : ∀ a l, start mb ≤ a → a + Z.of_nat (length l) ≤ end_ mb →
                 bytes_at m a l → bytes_at m' a l).
  { intros a l H1 H2 Hl i x Hi. rewrite Hf; [by apply Hl|].
    apply lookup_lt_Some in Hi. lia. }
  destruct (Z.leb_spec (tail mb) (head mb)).
  - intros [Hq He]. split; [apply Hb; [lia|lia|done]|done].
  - intros (q1 & q2 & -> & H1 & He & H2 & He2). exists q1, q2.
    split_and!; [done|apply Hb; [lia|lia|done]|done|apply Hb; [lia|lia|done]|done].
Qed.

Lemma mb_frame m m' mb q :
  (∀ a, start mb ≤ a < end_ mb → m' !! a = m !! a) → mb_repr m mb q → mb_repr m' mb q.
Proof.
  intros Hf [Hs Hh Ht Hm Hb Hl]. constructor; try done.
  - intros a Ha. rewrite Hf by lia. by apply Hm.
  - by eapply layout_frame.
Qed.

(** *** Writing *)

Ltac buffer_cases :=
  repeat match goal with
  | |- context [?a <=? ?b] => destruct (Z.leb_spec a b)
  | |- context [?a <? ?b] => destruct (Z.ltb_spec a b)
  | |- context [?a =? ?b] => destruct (Z.eqb_spec a b)
  end; cbn [andb orb negb] in *; try lia.

(** What a call of [membuff_putraw] promises: [n] contiguous bytes at [data]
    that the caller must write. *)
Record put_slot (m : mem) (mb : membuff) (q : list Z) (maxlen : Z)
    (mb' : membuff) (n data : Z) : Prop := {
  ps_n : 0 ≤ n ≤ maxlen;
  ps_data : start mb ≤ data ∧ data + n ≤ end_ mb;
  ps_same : start mb' = start mb ∧ end_ mb' = end_ mb;
  ps_repr l : Z.of_nat (length l) = n → Forall is_byte l →
              mb_repr (set_bytes m data l) mb' (q ++ l);
  ps_most : n = Z.min maxlen (room mb q) ∨ (n < maxlen ∧ head mb' < tail mb');
  ps_wrapped : head mb < tail mb → n = Z.min maxlen (room mb q)
}.

(** Bytes written after the queue, from [head] up. *)
Lemma layout_extend m mb q l p :
  start mb ≤ head mb < end_ mb → start mb ≤ tail mb < end_ mb → layout m mb q →
  (tail mb ≤ head mb → head mb + Z.of_nat (length l) ≤ end_ mb) →
  (head mb < tail mb → head mb + Z.of_nat (length l) < tail mb) →
  p = head mb + Z.of_nat (length l) ∧ p < end_ mb ∨
  p = start mb ∧ tail mb ≤ head mb ∧ head mb + Z.of_nat (length l) = end_ mb ∧ start mb < tail mb →
  layout (set_bytes m (head mb) l) (with_head mb p) (q ++ l).
Proof.
  intros Hh Ht Hl H1 H2 Hp. unfold layout in *. cbn.
  destruct (Z.leb_spec (tail mb) (head mb)) as [Hle|Hgt].
  - destruct Hl as [Hq He].
    assert (Hql : bytes_at (set_bytes m (head mb) l) (tail mb) (q ++ l)).
    { apply bytes_at_app. split; [apply bytes_at_set_other; [lia|done]|].
      rewrite <-He. apply bytes_at_set_same. }
    destruct Hp as [[-> Hp]|(-> & _ & Hend & Hst)].
    + rewrite (proj2 (Z.leb_le _ _)) by lia. split; [done|]. rewrite length_app. lia.
    + rewrite (proj2 (Z.leb_gt _ _)) by lia. exists (q ++ l), [].
      split_and!; [by rewrite app_nil_r|done|rewrite length_app; lia|apply bytes_at_nil|cbn; lia].
  - destruct Hl as (q1 & q2 & -> & Hq1 & He & Hq2 & He2).
    destruct Hp as [[-> Hp]|(-> & ? & _)]; [|lia].
    rewrite (proj2 (Z.leb_gt _ _)) by lia. exists q1, (q2 ++ l). split_and!.
    + by rewrite app_assoc.
    + apply bytes_at_set_other; [lia|done].
    + done.
    + apply bytes_at_app. split; [apply bytes_at_set_other; [lia|done]|].
      rewrite <-He2. apply bytes_at_set_same.
    + rewrite length_app. lia.
Qed.

Lemma repr_extend m mb q l p :
  mb_repr m mb q → Forall is_byte l →
  (tail mb ≤ head mb → head mb + Z.of_nat (length l) ≤ end_ mb) →
  (head mb < tail mb → head mb + Z.of_nat (length l) < tail mb) →
  p = head mb + Z.of_nat (length l) ∧ p < end_ mb ∨
  p = start mb ∧ tail mb ≤ head mb ∧ head mb + Z.of_nat (length l) = end_ mb ∧ start mb < tail mb →
  mb_repr (set_bytes m (head mb) l) (with_head mb p) (q ++ l).
Proof.
  intros [Hs Hh Ht Hm Hb Hl] Hbl H1 H2 Hp. constructor; cbn; [done|lia|done| | |].
  - by apply mapped_set_bytes.
  - by apply Forall_app.
  - by apply layout_extend.
Qed.

Lemma room_eq m mb q :
  mb_repr m mb q →
  room mb q = if tail mb <=? head mb then capacity mb - (head mb - tail mb)
              else tail mb - head mb - 1.
Proof.
  intros [_ Hh Ht _ _ Hl]. unfold room, capacity, layout in *.
  destruct (Z.leb_spec (tail mb) (head mb)).
  - destruct Hl as [_ ->]. lia.
  - destruct Hl as (q1 & q2 & -> & _ & He & _ & Hq2). rewrite length_app. lia.
Qed.

Lemma membuff_putraw_spec m mb q maxlen :
  mb_repr m mb q → 0 ≤ maxlen →
  ∃ mb' n data, membuff_putraw mb maxlen true = (mb', n, data) ∧
                put_slot m mb q maxlen mb' n data.
Proof.
  intros HR Hmax. pose proof HR as [Hs Hh Ht _ _ _]. pose proof (room_eq _ _ _ HR) as Hroom.
  unfold membuff_putraw, membuff_putrawflex.
  rewrite (proj2 (Z.eqb_neq (start mb) NULL)) by (unfold NULL; lia).
  destruct (Z.leb_spec (tail mb) (head mb)) as [Hle|Hgt]; unfold capacity in Hroom.
  - set (len := if (0 <=? maxlen) && _ then _ else _).
    assert (Hlen : len = Z.min maxlen (end_ mb - head mb - 1)) by (subst len; buffer_cases).
    destruct ((maxlen <? 0) || (len <? maxlen)) eqn:Hlt; cbn [andb].
    + assert (len < maxlen) by (revert Hlt; buffer_cases).
      destruct (Z.eqb_spec (tail mb) (start mb)) as [He|Hne]; cbn [negb].
      * do 3 eexists; split; [done|]. cbn. replace (start mb + (head mb - start mb)) with (head mb) by lia.
        constructor; cbn; [lia|lia|done| |left; lia|lia].
        intros l Hll Hbl. apply repr_extend; [done|done|lia|lia|left; lia].
      * do 3 eexists; split; [done|]. cbn. replace (start mb + (head mb - start mb)) with (head mb) by lia.
        constructor; cbn; [lia|lia|done| |destruct (decide (len + 1 = maxlen)); [left; lia|right; lia]|lia].
        intros l Hll Hbl. apply (repr_extend m mb q l (start mb)); [done|done|lia|lia|right; lia].
    + assert (maxlen ≤ len) by (revert Hlt; buffer_cases).
      do 3 eexists; split; [done|]. cbn. replace (start mb + (head mb - start mb)) with (head mb) by lia.
      constructor; cbn; [lia|lia|done| |left; lia|lia].
      intros l Hll Hbl. apply repr_extend; [done|done|lia|lia|left; lia].
  - set (len := if (0 <=? maxlen) && _ then _ else _).
    assert (Hlen : len = Z.min maxlen (tail mb - head mb - 1)) by (subst len; buffer_cases).
    do 3 eexists; split; [done|]. cbn. replace (start mb + (head mb - start mb)) with (head mb) by lia.
    constructor; cbn; [lia|lia|done| |left; lia|lia].
    intros l Hll Hbl. apply repr_extend; [done|done|lia|lia|left; lia].
Qed.

(** *** Storing a sequence *)

Section transfer.
Context `{!MemOps}.

(** What a piece of a transfer leaves as it was. *)
Definition same_outside (mb : membuff) (m m' : mem) : Prop :=
  ∀ a, ¬ start mb ≤ a < end_ mb → m' !! a = m !! a.

Definition apart (mb : membuff) (a n : Z) : Prop := a + n ≤ start mb ∨ end_ mb ≤ a.

Lemma put_step m mb q buff l :
  mb_repr m mb q → bytes_at m buff l → Forall is_byte l →
  apart mb buff (Z.of_nat (length l)) →
  ∃ mb' l1 l2 data, l = l1 ++ l2 ∧
    let n := Z.of_nat (length l1) in
    membuff_putraw mb (Z.of_nat (length l)) true = (mb', n, data) ∧
    mo_memcpy m data buff n = Some (set_bytes m data l1) ∧
    mb_repr (set_bytes m data l1) mb' (q ++ l1) ∧
    start mb' = start mb ∧ end_ mb' = end_ mb ∧
    same_outside mb m (set_bytes m data l1) ∧
    bytes_at (set_bytes m data l1) (buff + n) l2 ∧
    (n = Z.min (Z.of_nat (length l)) (room mb q) ∨ (l2 ≠ [] ∧ head mb' < tail mb')) ∧
    (head mb < tail mb → n = Z.min (Z.of_nat (length l)) (room mb q)).
Proof.
  intros HR Hb Hl Hap.
  destruct (membuff_putraw_spec m mb q (Z.of_nat (length l)) HR) as (mb' & n & data & E & PS); [lia|].
  destruct PS as [Hn Hdata [Hs He] Hrepr Hmost Hwr].
  exists mb', (take (Z.to_nat n) l), (drop (Z.to_nat n) l), data.
  rewrite length_take, Nat.min_l, Z2Nat.id by lia.
  assert (Hlen : length (take (Z.to_nat n) l) = Z.to_nat n) by (rewrite length_take; lia).
  pose proof Hb as Hb'. rewrite <-(take_drop (Z.to_nat n) l) in Hb'.
  apply bytes_at_app in Hb' as [Hb1 Hb2]. rewrite Hlen, Z2Nat.id in Hb2 by lia.
  pose proof Hl as Hl'. rewrite <-(take_drop (Z.to_nat n) l) in Hl'.
  apply Forall_app in Hl' as [Hl1 Hl2].
  pose proof (mb_mapped _ _ _ HR) as Hm. unfold apart in Hap.
  split; [by rewrite take_drop|]. split_and!; [done| |by apply Hrepr; [lia|]|done|done| | | |done].
  - assert (En : n = Z.of_nat (length (take (Z.to_nat n) l))) by lia.
    rewrite En at 1. apply mo_memcpy_spec; [done|done| |unfold fwd_ok; lia].
    eapply mapped_sub; [exact Hm|lia|lia].
  - intros a Ha. apply lookup_set_bytes_out. lia.
  - apply bytes_at_set_other; [|done]. rewrite length_drop. lia.
  - destruct Hmost as [?|[? ?]]; [by left|right]. split; [|done].
    intros Hnil. apply (f_equal length) in Hnil. rewrite length_drop in Hnil. cbn in Hnil. lia.
Qed.

Lemma membuff_put_spec m mb q buff l :
  mb_repr m mb q → bytes_at m buff l → Forall is_byte l →
  apart mb buff (Z.of_nat (length l)) →
  ∃ m' mb' l1, let n := Z.of_nat (length l1) in
    membuff_put m mb buff (Z.of_nat (length l)) = Some (m', mb', n) ∧
    n = Z.min (Z.of_nat (length l)) (room mb q) ∧ l1 `prefix_of` l ∧
    mb_repr m' mb' (q ++ l1) ∧ start mb' = start mb ∧ end_ mb' = end_ mb ∧
    same_outside mb m m'.
Proof.
  intros HR Hb Hl Hap.
  destruct (put_step m mb q buff l HR Hb Hl Hap)
    as (mb1 & l1 & l2 & d1 & -> & E1 & C1 & R1 & S1 & S1' & F1 & B1 & M1 & _).
  apply Forall_app in Hl as [Hl1 Hl2]. set (m1 := set_bytes m d1 l1) in *.
  destruct (put_step m1 mb1 (q ++ l1) (buff + Z.of_nat (length l1)) l2 R1 B1 Hl2)
    as (mb2 & l3 & l4 & d2 & -> & E2 & C2 & R2 & S2 & S2' & F2 & B2 & M2 & W2).
  { unfold apart in *. rewrite S1, S1', length_app in *. lia. }
  pose proof (mb_room _ _ _ R1) as Hr1. pose proof (mb_room _ _ _ R2) as Hr2.
  unfold room, capacity in *. rewrite ?S2, ?S2', ?S1, ?S1', ?length_app in *.
  unfold membuff_put.
  erewrite loop_brk_next; [|cbv beta iota; rewrite E1; cbn -[set_bytes]; rewrite C1; reflexivity].
  replace (Z.of_nat (length l1 + (length l3 + length l4)) - Z.of_nat (length l1))
    with (Z.of_nat (length l3 + length l4)) by lia.
  erewrite loop_brk_next; [|cbv beta iota; rewrite E2; cbn -[set_bytes]; fold m1; rewrite C2; reflexivity].
  erewrite loop_brk_break by reflexivity. cbn -[set_bytes Z.of_nat].
  exists (set_bytes m1 d2 l3), mb2, (l1 ++ l3). rewrite length_app.
  split_and!; [repeat f_equal; lia| | |by rewrite app_assoc|done|done|].
  - destruct M1 as [M1|[Hne M1]]; [|specialize (W2 M1)]; lia.
  - apply prefix_app, prefix_app_r. done.
  - intros a Ha. rewrite F2 by (rewrite S1, S1'; done). by apply F1.
Qed.

(** *** Fetching *)

(** The most that a limit of [maxlen] bytes lets through; a negative limit is
    none. *)
Definition limit (maxlen n : Z) : Z := if maxlen <? 0 then n else Z.min maxlen n.

Lemma limit_if maxlen len :
  (if (0 <=? maxlen) && (maxlen <? len) then maxlen else len) = limit maxlen len.
Proof. unfold limit. buffer_cases. Qed.

(** What a call of [membuff_getraw] gives: the oldest bytes [l1] of the
    queue, [l2] being left. *)
Record get_slot (m : mem) (mb : membuff) (l1 l2 : list Z) (maxlen : Z)
    (mb' : membuff) (data : Z) : Prop := {
  gs_at : bytes_at m data l1;
  gs_data : l1 ≠ [] → start mb ≤ data ∧ data + Z.of_nat (length l1) ≤ end_ mb;
  gs_same : start mb' = start mb ∧ end_ mb' = end_ mb;
  gs_repr : mb_repr m mb' l2;
  gs_most : Z.of_nat (length l1) = limit maxlen (Z.of_nat (length (l1 ++ l2))) ∨
            (maxlen < 0 ∨ Z.of_nat (length l1) < maxlen) ∧ tail mb' < head mb';
  gs_whole : tail mb ≤ head mb →
             Z.of_nat (length l1) = limit maxlen (Z.of_nat (length (l1 ++ l2)))
}.

Lemma limit_range maxlen n : 0 ≤ n → 0 ≤ limit maxlen n ≤ n.
Proof. unfold limit. buffer_cases. Qed.

Lemma take_limit (q : list Z) maxlen :
  ∃ l1 l2, q = l1 ++ l2 ∧ Z.of_nat (length l1) = limit maxlen (Z.of_nat (length q)).
Proof.
  pose proof (limit_range maxlen (Z.of_nat (length q))).
  exists (take (Z.to_nat (limit maxlen (Z.of_nat (length q)))) q), (drop (Z.to_nat (limit maxlen (Z.of_nat (length q)))) q).
  split; [by rewrite take_drop|]. rewrite length_take. lia.
Qed.

Lemma membuff_getraw_spec m mb q maxlen data0 :
  mb_repr m mb q →
  ∃ mb' l1 l2 data, q = l1 ++ l2 ∧
    membuff_getraw mb maxlen true data0 = (mb', Z.of_nat (length l1), data) ∧
    get_slot m mb l1 l2 maxlen mb' data.
Proof.
  intros HR. pose proof HR as [Hs Hh Ht Hm Hb Hl]. unfold layout in Hl.
  unfold membuff_getraw. rewrite !limit_if.
  destruct (Z.ltb_spec (tail mb) (head mb)) as [Hlt|Hge].
  - rewrite (proj2 (Z.leb_le _ _)) in Hl by lia. destruct Hl as [Hq He].
    destruct (take_limit q maxlen) as (l1 & l2 & -> & Hlen).
    replace (head mb - tail mb) with (Z.of_nat (length (l1 ++ l2))) by lia. rewrite <-Hlen.
    pose proof Hq as Hq'. apply bytes_at_app in Hq as [Hq1 Hq2]. apply Forall_app in Hb as [Hb1 Hb2].
    rewrite length_app in *. do 4 eexists. split; [done|]. split; [done|].
    constructor; cbn; try done; [lia| |left; rewrite length_app; lia|rewrite length_app; lia].
    constructor; cbn; try done; [lia|]. unfold layout; cbn.
    rewrite (proj2 (Z.leb_le _ _)) by lia. split; [done|lia].
  - destruct (Z.ltb_spec (head mb) (tail mb)) as [Hlt|Heq].
    + rewrite (proj2 (Z.leb_gt _ _)) in Hl by lia.
      destruct Hl as (q1 & q2 & -> & Hq1 & He & Hq2 & He2).
      destruct (take_limit q1 maxlen) as (l1 & l2 & -> & Hlen).
      replace (end_ mb - tail mb) with (Z.of_nat (length (l1 ++ l2))) by lia. rewrite <-Hlen.
      apply bytes_at_app in Hq1 as [Hq1 Hq1']. rewrite <-app_assoc in Hb.
      apply Forall_app in Hb as [Hb1 Hb2]. rewrite length_app in *.
      destruct (Z.eqb_spec (tail (with_tail mb (tail mb + Z.of_nat (length l1)))) (end_ mb)) as [Ht'|Ht'];
        cbn in Ht' |- *; rewrite ?(proj2 (Z.eqb_eq _ _) Ht'), ?(proj2 (Z.eqb_neq _ _) Ht');
        do 4 eexists; (split; [by rewrite <-app_assoc|]); (split; [done|]).
      * assert (l2 = []) as -> by (destruct l2; [done|cbn in *; lia]).
        constructor; cbn; try done; [lia| | |lia].
        { constructor; cbn; try done; [lia|]. unfold layout; cbn.
          rewrite (proj2 (Z.leb_le _ _)) by lia. done. }
        rewrite length_app. unfold limit in *. cbn in Hlen. destruct q2; cbn in *; [left; revert Hlen; buffer_cases|].
        revert Hlen. destruct (Z.ltb_spec maxlen 0); intros; [right; split; [left|]; lia|].
        destruct (decide (Z.of_nat (length l1) = maxlen)); [left; lia|right; split; [right|]; lia].
      * constructor; cbn; try done; [lia| | |lia].
        { constructor; cbn; try done; [lia|]. unfold layout; cbn.
          rewrite (proj2 (Z.leb_gt _ _)) by lia. exists l2, q2. split_and!; [done|done|lia|done|done]. }
        left. rewrite !length_app. unfold limit in *. revert Hlen. buffer_cases.
    + rewrite (proj2 (Z.leb_le _ _)) in Hl by lia. destruct Hl as [_ He].
      assert (q = []) as -> by (destruct q; [done|cbn in *; lia]).
      exists mb, [], [], data0. split; [done|]. split; [done|].
      pose proof (limit_range maxlen 0 ltac:(lia)) as Hlim.
      assert (0 = limit maxlen 0) by lia. by constructor; cbn -[limit]; auto.
Qed.

Lemma get_step m mb q buff maxlen data0 :
  mb_repr m mb q → 0 ≤ maxlen → mapped m buff maxlen → apart mb buff maxlen →
  ∃ mb' l1 l2 data, q = l1 ++ l2 ∧
    let n := Z.of_nat (length l1) in
    membuff_getraw mb maxlen true data0 = (mb', n, data) ∧
    mo_memcpy m buff data n = Some (set_bytes m buff l1) ∧
    mb_repr (set_bytes m buff l1) mb' l2 ∧
    start mb' = start mb ∧ end_ mb' = end_ mb ∧ n ≤ maxlen ∧
    (n = Z.min maxlen (Z.of_nat (length q)) ∨ (n < maxlen ∧ tail mb' < head mb')) ∧
    (tail mb ≤ head mb → n = Z.min maxlen (Z.of_nat (length q))).
Proof.
  intros HR Hmax Hm Hap.
  destruct (membuff_getraw_spec m mb q maxlen data0 HR)
    as (mb' & l1 & l2 & data & -> & E & [Hat Hdata [S1 S2] Hrepr Hmost Hwh]).
  pose proof (mb_bytes _ _ _ HR) as Hb. apply Forall_app in Hb as [Hb1 Hb2].
  assert (Hlim : limit maxlen (Z.of_nat (length (l1 ++ l2))) = Z.min maxlen (Z.of_nat (length (l1 ++ l2))))
    by (unfold limit; buffer_cases).
  rewrite Hlim in *. exists mb', l1, l2, data. split; [done|]. unfold apart in Hap.
  assert (Hle : Z.of_nat (length l1) ≤ maxlen) by lia.
  split_and!; [done| | |done|done|done| |done].
  - apply mo_memcpy_spec; [done|done|eapply mapped_sub; [exact Hm|lia|lia]|].
    unfold fwd_ok. destruct l1 as [|x l1]; [cbn; lia|]. destruct Hdata; [done|]. lia.
  - eapply mb_frame; [|exact Hrepr]. intros a Ha. apply lookup_set_bytes_out. lia.
  - destruct Hmost as [?|[[?|?] ?]]; [by left|lia|by right].
Qed.

Lemma membuff_get_spec m mb q buff maxlen :
  mb_repr m mb q → 0 ≤ maxlen → mapped m buff maxlen → apart mb buff maxlen →
  ∃ mb' l1 l2, q = l1 ++ l2 ∧ let n := Z.of_nat (length l1) in
    membuff_get m mb buff maxlen = Some (set_bytes m buff l1, mb', n) ∧
    n = Z.min maxlen (Z.of_nat (length q)) ∧
    mb_repr (set_bytes m buff l1) mb' l2 ∧ start mb' = start mb ∧ end_ mb' = end_ mb.
Proof.
  intros HR Hmax Hm Hap.
  destruct (get_step m mb q buff maxlen 0 HR Hmax Hm Hap)
    as (mb1 & l1 & l2 & d1 & -> & E1 & C1 & R1 & S1 & S1' & L1 & M1 & W1).
  unfold membuff_get.
  erewrite loop_brk_next; [|cbv beta iota; rewrite E1; cbn -[set_bytes]; rewrite C1; reflexivity].
  destruct l1 as [|x l1].
  { erewrite loop_brk_break by reflexivity. cbn. exists mb1, [], l2. cbn in *.
    split_and!; [done|by rewrite Z.add_0_r, Z.sub_diag| |done|done|done].
    destruct M1 as [M1|[M1 M1']]; [done|]. destruct (Z.le_gt_cases (tail mb) (head mb)); [lia|].
    pose proof (mb_layout _ _ _ R1) as Hl. revert E1. unfold membuff_getraw, limit.
    rewrite !limit_if. unfold limit. pose proof (mb_tail _ _ _ HR).
    destruct (Z.ltb_spec (tail mb) (head mb)); [lia|].
    destruct (Z.ltb_spec (head mb) (tail mb)); [|lia]. destruct (Z.ltb_spec maxlen 0); [lia|].
    intros [= _ Hn _]. lia. }
  set (l := x :: l1) in *. assert (Hne : (0 < length l)%nat) by (cbn; lia). clearbody l. clear x l1.
  destruct (get_step (set_bytes m buff l) mb1 l2 (buff + Z.of_nat (length l)) (maxlen - Z.of_nat (length l)) d1 R1)
    as (mb2 & l3 & l4 & d2 & -> & E2 & C2 & R2 & S2 & S2' & L2 & M2 & W2).
  { lia. } { apply mapped_set_bytes. eapply mapped_sub; [exact Hm|lia|lia]. }
  { unfold apart in *. rewrite S1, S1'. lia. }
  erewrite loop_brk_next; [|rewrite (proj2 (Z.eqb_neq _ _)) by lia; cbn -[set_bytes]; rewrite E2; cbn -[set_bytes]; rewrite C2; reflexivity].
  erewrite loop_brk_break; [|by rewrite andb_false_r].
  cbn -[set_bytes]. rewrite <-set_bytes_app in *. exists mb2, (l ++ l3), l4. rewrite !length_app in *.
  split_and!; [by rewrite app_assoc|repeat f_equal; lia| |done|congruence|congruence].
  destruct M1 as [M1|[M1 M1']]; [|specialize (W2 ltac:(lia))]; lia.
Qed.
End transfer.

(** ** Properties *)

Section properties.
Context `{!MemOps}.

Lemma membuff_init_repr m buff size_ :
  0 < buff → 0 < size_ → mapped m buff size_ → mb_repr m (membuff_init buff size_) [].
Proof.
  intros Hb Hs Hm. constructor; cbn; try lia; [|constructor|].
  - by replace (buff + size_ - buff) with size_ by lia.
  - unfold layout; cbn. rewrite Z.leb_refl. split; [apply bytes_at_nil|lia].
Qed.

(** C30. [membuff_put] appends to the queue as many of the bytes given as there
    is room for, in at most two pieces, returns their number, keeps the
    buffer well formed and writes nowhere else. *)
Theorem membuff_put_correct (m : mem) (mb : membuff) (q l : list Z) (buff : Z)
    (HR : mb_repr m mb q) (Hat : bytes_at m buff l) (Hl : Forall is_byte l)
    (Hap : apart mb buff (Z.of_nat (length l))) :
  ∃ m' mb' n,
    membuff_put m mb buff (Z.of_nat (length l)) = Some (m', mb', Z.of_nat n) ∧
    n = Nat.min (length l) (Z.to_nat (room mb q)) ∧
    mb_repr m' mb' (q ++ take n l) ∧
    start mb' = start mb ∧ end_ mb' = end_ mb ∧ same_outside mb m m'.
Proof.
  destruct (membuff_put_spec m mb q buff l HR Hat Hl Hap)
    as (m' & mb' & l1 & E & Hn & [l2 ->] & HR' & Hs & He & Hf).
  pose proof (mb_room _ _ _ HR). exists m', mb', (length l1).
  rewrite take_app_length. split_and!; [done|lia|done|done|done|done].
Qed.

(** [membuff_get] removes from the queue the oldest bytes, as many as
    there are up to [maxlen], copies them in order to [buff], returns their
    number, and changes no other byte. *)
Theorem membuff_get_correct (m : mem) (mb : membuff) (q : list Z) (buff maxlen : Z)
    (HR : mb_repr m mb q) (Hmax : 0 ≤ maxlen) (Hm : mapped m buff maxlen)
    (Hap : apart mb buff maxlen) :
  let n := Nat.min (Z.to_nat maxlen) (length q) in
  ∃ mb',
    membuff_get m mb buff maxlen = Some (set_bytes m buff (take n q), mb', Z.of_nat n) ∧
    mb_repr (set_bytes m buff (take n q)) mb' (drop n q) ∧
    start mb' = start mb ∧ end_ mb' = end_ mb.
Proof.
  destruct (membuff_get_spec m mb q buff maxlen HR Hmax Hm Hap)
    as (mb' & l1 & l2 & -> & E & Hn & HR' & Hs & He).
  cbv zeta. replace (Nat.min _ _) with (length l1) by lia.
  rewrite take_app_length, drop_app_length. eauto.
Qed.

Lemma getraw_all m mb q data :
  mb_repr m mb q →
  ∃ mb' l1 l2 data', q = l1 ++ l2 ∧
    membuff_getraw mb (-1) true data = (mb', Z.of_nat (length l1), data') ∧
    mb_repr m mb' l2 ∧ (l2 = [] ∨ tail mb' < head mb') ∧ (tail mb ≤ head mb → l2 = []).
Proof.
  intros HR. destruct (membuff_getraw_spec m mb q (-1) data HR)
    as (mb' & l1 & l2 & data' & -> & E & [_ _ _ Hr Hm Hw]).
  exists mb', l1, l2, data'. unfold limit in *. cbn in Hm, Hw. rewrite length_app in *.
  assert (Hnil : length l2 = O → l2 = []) by (destruct l2; done).
  split_and!; [done|done|done| |].
  - destruct Hm as [Hm|[_ Hm]]; [left; apply Hnil; lia|by right].
  - intros Hle. apply Hnil. specialize (Hw Hle). lia.
Qed.

Lemma membuff_avail_spec m mb q : mb_repr m mb q → membuff_avail mb = Z.of_nat (length q).
Proof.
  intros HR. destruct (getraw_all m mb q 0 HR) as (mb1 & l1 & l2 & d1 & -> & E1 & R1 & M1 & _).
  destruct (getraw_all m mb1 l2 d1 R1) as (mb2 & l3 & l4 & d2 & -> & E2 & R2 & M2 & W2).
  unfold membuff_avail. rewrite E1, E2, !length_app.
  assert (l4 = []) as ->; [|cbn; lia].
  destruct M1 as [M1|M1]; [by destruct l3, l4|apply W2; lia].
Qed.

(** The counts: [membuff_avail] is the number of bytes in the queue,
    [membuff_free] the number that can still be stored (the size less one
    when the queue is empty), and [membuff_isempty] tells whether the queue is
    empty. *)
Theorem membuff_counts_correct (m : mem) (mb : membuff) (q : list Z)
    (HR : mb_repr m mb q) :
  membuff_avail mb = Z.of_nat (length q) ∧
  membuff_free mb = room mb q ∧
  (membuff_isempty mb = true ↔ q = []).
Proof.
  pose proof (membuff_avail_spec _ _ _ HR) as Ha. destruct HR as [Hs Hh Ht _ _ Hl].
  split_and!; [done| |].
  - unfold membuff_free, room, capacity. rewrite Ha. destruct (Z.eqb_spec (end_ mb) (start mb)); lia.
  - unfold membuff_isempty. rewrite Z.eqb_eq. unfold layout in Hl.
    destruct (Z.leb_spec (tail mb) (head mb)).
    + destruct Hl as [_ ->]. destruct q; cbn; split; intros; (done || lia).
    + split; [lia|]. intros ->. destruct Hl as ([|? ?] & ? & ? & _ & ? & _); cbn in *; (lia || done).
Qed.

(** [membuff_makecontig] keeps the queue and leaves it in one piece at the
    start of the buffer, or fails without any change; it fails only when the
    queue is split and the gap is not larger than the part above the gap. *)
Theorem membuff_makecontig_correct (m : mem) (mb : membuff) (q : list Z)
    (HR : mb_repr m mb q) :
  (∃ m' mb', membuff_makecontig m mb = Some (m', mb', true) ∧
     mb_repr m' mb' q ∧ tail mb' = start mb ∧ start mb' = start mb ∧ end_ mb' = end_ mb ∧
     bytes_at m' (start mb) q ∧ same_outside mb m m') ∨
  (membuff_makecontig m mb = Some (m, mb, false) ∧ head mb < tail mb ∧
   tail mb - head mb ≤ end_ mb - tail mb).
Proof.
  destruct HR as [Hs Hh Ht Hm Hb Hl]. unfold layout in Hl.
  unfold membuff_makecontig.
  destruct (Z.ltb_spec (head mb) (tail mb)) as [Hlt|Hge].
  - rewrite (proj2 (Z.leb_gt _ _)) in Hl by lia. destruct Hl as (q1 & q2 & -> & H1 & He & H2 & He2).
    destruct (Z.leb_spec (tail mb) (head mb + (end_ mb - tail mb))); [right; split; [done|lia]|left].
    apply Forall_app in Hb as [Hb1 Hb2].
    replace (end_ mb - tail mb) with (Z.of_nat (length q1)) in * by lia.
    replace (head mb - start mb) with (Z.of_nat (length q2)) by lia.
    rewrite (mo_memmove_spec _ _ _ q2), <-(Z.add_comm (Z.of_nat (length q1))) by (done || (eapply mapped_sub; [exact Hm|lia|lia])).
    cbn -[set_bytes Z.of_nat]. set (m1 := set_bytes m _ q2).
    rewrite (mo_memcpy_spec _ _ _ q1);
      [|apply bytes_at_set_other; [lia|done]|done
       |apply mapped_set_bytes; eapply mapped_sub; [exact Hm|lia|lia]|unfold fwd_ok; lia].
    assert (Hq : bytes_at (set_bytes m1 (start mb) q1) (start mb) (q1 ++ q2)).
    { apply bytes_at_app. split; [apply bytes_at_set_same|].
      apply bytes_at_set_other; [lia|]. rewrite Z.add_comm. apply bytes_at_set_same. }
    do 2 eexists. split; [done|]. cbn -[set_bytes Z.of_nat]. split_and!; try done.
    + constructor; cbn -[set_bytes Z.of_nat]; try done; try lia.
      * by repeat apply mapped_set_bytes.
      * by apply Forall_app.
      * unfold layout; cbn -[set_bytes Z.of_nat]. rewrite (proj2 (Z.leb_le _ _)) by lia.
        split; [done|]. rewrite length_app. lia.
    + intros a Ha. unfold m1. rewrite !lookup_set_bytes_out; [done|lia|lia].
  - left. rewrite (proj2 (Z.leb_le _ _)) in Hl by lia. destruct Hl as [Hq He].
    replace (head mb - tail mb) with (Z.of_nat (length q)) by lia. cbn -[set_bytes Z.of_nat].
    rewrite (mo_memcpy_spec _ _ _ q);
      [|done|done|eapply mapped_sub; [exact Hm|lia|lia]|unfold fwd_ok; lia].
    do 2 eexists. split; [done|]. cbn -[set_bytes Z.of_nat]. split_and!; try done.
    + constructor; cbn -[set_bytes Z.of_nat]; try done; try lia.
      * by apply mapped_set_bytes.
      * unfold layout; cbn -[set_bytes Z.of_nat]. rewrite (proj2 (Z.leb_le _ _)) by lia.
        split; [apply bytes_at_set_same|lia].
    + apply bytes_at_set_same.
    + intros a Ha. rewrite !lookup_set_bytes_out; [done|lia].
Qed.
End properties.

(** ** A concrete buffer *)

(** Four bytes of buffer at 16, wrapped around: [7] at 19, [8] at 16; four
    bytes of the caller at 20. *)
Definition ex_mem : mem := mem_of 16 [8; 0; 0; 7; 1; 2; 3; 4].
Definition ex_buf : membuff := {| start := 16; end_ := 20; head := 17; tail := 19 |}.

Lemma mb_ex_mapped : mapped ex_mem 16 8.
Proof. by eapply bytes_at_mapped; [apply bytes_at_mem_of|]. Defined.

Lemma mb_ex_repr : mb_repr ex_mem ex_buf [7; 8].
Proof.
  constructor; try done.
  - eapply mapped_sub; [apply mb_ex_mapped|done|done].
  - repeat constructor; done.
  - exists [7], [8]. split_and!; try done.
    + exact (bytes_at_slice ex_mem 16 _ 3 1 (bytes_at_mem_of 16 [8; 0; 0; 7; 1; 2; 3; 4])).
    + exact (bytes_at_slice ex_mem 16 _ 0 1 (bytes_at_mem_of 16 [8; 0; 0; 7; 1; 2; 3; 4])).
Defined.

Lemma membuff_put_correct_witness :
  ∃ m' mb' n, membuff_put ex_mem ex_buf 20 4 = Some (m', mb', Z.of_nat n) ∧
    n = 1%nat ∧ mb_repr m' mb' [7; 8; 1] ∧
    start mb' = 16 ∧ end_ mb' = 20 ∧ same_outside ex_buf ex_mem m'.
Proof.
  destruct (membuff_put_correct ex_mem ex_buf [7; 8] [1; 2; 3; 4] 20 mb_ex_repr)
    as (m' & mb' & n & H1 & -> & H3 & H4).
  - exact (bytes_at_slice ex_mem 16 _ 4 4 (bytes_at_mem_of 16 [8; 0; 0; 7; 1; 2; 3; 4])).
  - repeat constructor; done.
  - right. done.
  - exists m', mb', 1%nat. exact (conj H1 (conj eq_refl (conj H3 H4))).
Defined.

Lemma membuff_get_correct_witness :
  ∃ mb', membuff_get ex_mem ex_buf 20 4 = Some (set_bytes ex_mem 20 [7; 8], mb', 2) ∧
    mb_repr (set_bytes ex_mem 20 [7; 8]) mb' [] ∧ start mb' = 16 ∧ end_ mb' = 20.
Proof.
  apply (membuff_get_correct ex_mem ex_buf [7; 8] 20 4 mb_ex_repr).
  - done.
  - eapply mapped_sub; [apply mb_ex_mapped|done|done].
  - right. done.
Defined.

Lemma membuff_counts_correct_witness :
  membuff_avail ex_buf = 2 ∧ membuff_free ex_buf = 1 ∧
  (membuff_isempty ex_buf = true ↔ [7; 8] = []).
Proof. exact (membuff_counts_correct ex_mem ex_buf [7; 8] mb_ex_repr). Defined.

Lemma membuff_makecontig_correct_witness :
  mb_repr ex_mem ex_buf [7; 8] ∧
  ((∃ m' mb', membuff_makecontig ex_mem ex_buf = Some (m', mb', true) ∧
     mb_repr m' mb' [7; 8] ∧ tail mb' = 16 ∧ start mb' = 16 ∧ end_ mb' = 20 ∧
     bytes_at m' 16 [7; 8] ∧ same_outside ex_buf ex_mem m') ∨
  (membuff_makecontig ex_mem ex_buf = Some (ex_mem, ex_buf, false) ∧ 17 < 19 ∧ 19 - 17 ≤ 20 - 19)).
Proof. split; [exact mb_ex_repr|]. exact (membuff_makecontig_correct ex_mem ex_buf [7; 8] mb_ex_repr). Defined.

(** [membuff_extend_by] doubles the size until it is large enough: from a
    buffer of no size (the state after [membuff_uninit]) it never ends. *)
Example membuff_extend_loops fuel by_ max :
  0 < by_ → membuff_extend_size fuel 0 by_ max = None.
Proof.
  intros Hb. unfold membuff_extend_size. replace (loop_brk fuel _ 0) with (@None Z); [done|].
  induction fuel as [|fuel IH]; [done|]. destruct (int (0 + by_)) as [t|] eqn:E.
  - erewrite loop_brk_next; [exact IH|]. unfold int in E. destruct (_ && _) in E; [|done]. injection E as <-.
    cbn [mbind option_bind]. by rewrite (proj2 (Z.ltb_lt _ _)) by lia.
  - by rewrite loop_brk_none.
Qed.

(** The doubled size can overflow where the sum does not: 3 * 2^29 bytes and one more. *)
Example membuff_extend_overflows : membuff_extend_size 9 (3 * 2 ^ 29) 1 (-1) = None.
Proof. vm_compute. reflexivity. Qed.

(** [membuff_readline] with [maxlen] 3 has room for a line of one character
    only and its newline. *)
Example membuff_readline_short :
  let m := mem_of 16 [97; 98; 10; 0; 0; 0; 0; 0] in
  let mb := {| start := 16; end_ := 20; head := 19; tail := 16 |} in
  option_map snd (membuff_readline m mb 20 3 32) = Some 0 ∧
  option_map snd (membuff_readline m mb 20 4 32) = Some 3.
Proof. by vm_compute. Qed.
