(* ===== verification/MembuffHeap.v ===== *)
(** * MembuffHeap: circular buffers in allocated memory (lib/membuff.c)

    The operations of [Membuff] that take memory from the allocator
    (common/dlmalloc.c, third-party), which is the class [Heap]; [HeapWorks] is
    what they rely on. *)

From Stdlib Require Import ZArith Lia List.
From stdpp Require Import base numbers list option gmap fin_maps.
From S2P Require Import Prelude Memory CString Membuff.

Definition E2BIG : Z := 7.
Definition ENOMEM : Z := 12.

Class Heap := {
  malloc : mem → Z → Z * mem;
  realloc : mem → Z → Z → Z * mem;
  free : mem → Z → mem
}.

(** [block m p k]: there is a block of [k] bytes at [p]. *)
Class HeapWorks `{!Heap} := {
  block : mem → Z → Z → Prop;
  malloc_block m n p m' : 0 < n → malloc m n = (p, m') → p ≠ NULL → 0 < p ∧ block m' p n ∧ mapped m' p n;
  realloc_block m p k n p' m' : block m p k → 0 < n → realloc m p n = (p', m') → p' ≠ NULL →
    0 < p' ∧ block m' p' n ∧ mapped m' p' n ∧ ∀ i, 0 ≤ i < Z.min k n → m' !! (p' + i) = m !! (p + i);
  block_write m p k a l : block m p k → p ≤ a → a + Z.of_nat (length l) ≤ p + k → block (set_bytes m a l) p k;
  realloc_fails m p k n m' : block m p k → realloc m p n = (NULL, m') → m' = m
}.

Section operations.
Context `{!MemOps, !Heap}.

Definition membuff_extend_by (fuel : nat) (m : mem) (mb : membuff) (by_ max : Z) : option (Z * mem * membuff) :=
  let orig := end_ mb - start mb in
  size_ ← membuff_extend_size fuel orig by_ max;
  let by_ := size_ - orig in
  if by_ <=? 0 then Some (- E2BIG, m, mb)
  else
    let oldhead := head mb - start mb in
    let oldtail := tail mb - start mb in
    let '(ptr, m) := realloc m (start mb) size_ in
    if ptr =? NULL then Some (- ENOMEM, m, mb)
    else
      let mb := {| start := ptr; end_ := end_ mb; head := ptr + oldhead; tail := ptr + oldtail |} in
      '(m, mb) ← (if head mb <? tail mb then
                    m ← mo_memmove m (tail mb + by_) (tail mb) (orig - oldtail);
                    Some (m, with_tail mb (tail mb + by_))
                  else Some (m, mb));
      Some (0, m, {| start := start mb; end_ := start mb + size_; head := head mb; tail := tail mb |}).

Definition membuff_new (m : mem) (mb : membuff) (size_ : Z) : Z * mem * membuff :=
  let '(p, m) := malloc m size_ in
  if p =? NULL then (- ENOMEM, m, {| start := p; end_ := end_ mb; head := head mb; tail := tail mb |})
  else (0, m, membuff_init p size_).

(** [addr] is the address of [mb->start] itself. *)
Definition membuff_dispose (m : mem) (addr : Z) : mem * membuff := (free m addr, membuff_uninit).
End operations.

(** ** The size *)

Lemma int_small x : - 2 ^ 31 ≤ x < 2 ^ 31 → int x = Some x.
Proof. intros Hx. unfold int. by rewrite (proj2 (Z.leb_le _ _)), (proj2 (Z.ltb_lt _ _)) by lia. Qed.

(** Doubling ends at the first size that is large enough. *)
Lemma doubling target : target ≤ 2 ^ 30 → ∀ n size_, 0 < size_ < 2 ^ 31 → target ≤ size_ + Z.of_nat n →
  ∃ s, loop_brk (S n) (λ size_, if size_ <? target then size_ ← int (size_ * 2); Some (Next size_) else Some (Break size_)) size_ = Some s ∧
    size_ ≤ s ∧ target ≤ s ∧ (s = size_ ∨ size_ < target ∧ s < 2 * target).
Proof.
  intros H30. induction n as [|n IH]; intros size_ Hs Ht.
  - exists size_. rewrite (loop_brk_break _ _ _ size_) by (by rewrite (proj2 (Z.ltb_ge _ _)) by lia). split; [done|lia].
  - destruct (Z.ltb_spec size_ target) as [Hlt|Hge].
    + destruct (IH (size_ * 2)) as (s & Hr & H1 & H2 & H3); [lia|lia|]. exists s.
      rewrite (loop_brk_next _ _ _ (size_ * 2)) by (rewrite (proj2 (Z.ltb_lt _ _)) by lia; by rewrite int_small by lia).
      split; [done|]. lia.
    + exists size_. rewrite (loop_brk_break _ _ _ size_) by (by rewrite (proj2 (Z.ltb_ge _ _)) by lia). split; [done|lia].
Qed.

Lemma extend_size fuel orig by_ max : 0 < orig → - 2 ^ 30 ≤ by_ → orig + by_ ≤ 2 ^ 30 → orig < 2 ^ 31 → (Z.to_nat by_ < fuel)%nat →
  ∃ s, membuff_extend_size fuel orig by_ max = Some s ∧ (max ≠ -1 → s ≤ max) ∧
    (max = -1 ∨ orig + by_ ≤ max → orig + by_ ≤ s) ∧ (orig < s ↔ 0 < by_ ∧ (max = -1 ∨ orig < max)).
Proof.
  intros Ho Hb H30 Ho' Hf. unfold membuff_extend_size. destruct fuel as [|fuel]; [lia|]. rewrite int_small by lia.
  cbn [mbind option_bind].
  destruct (doubling (orig + by_) H30 fuel orig) as (s & -> & H1 & H2 & H3); [lia|lia|]. cbn [mbind option_bind].
  eexists. split; [reflexivity|]. destruct (Z.eqb_spec max (-1)); cbn [negb]; lia.
Qed.

(** ** The queue is kept *)

Section extend.
Context `{!MemOps, !Heap, !HeapWorks}.

(** A queue in a copy of the buffer at another place. *)
Lemma layout_moved m m' mb q p size_ : mb_repr m mb q → end_ mb - start mb ≤ size_ →
  (∀ i, 0 ≤ i < end_ mb - start mb → m' !! (p + i) = m !! (start mb + i)) →
  ∀ a l, start mb ≤ a → a + Z.of_nat (length l) ≤ end_ mb → bytes_at m a l → bytes_at m' (p + (a - start mb)) l.
Proof.
  intros _ _ Hcopy a l Ha Hl Hb i x Hi. pose proof (lookup_lt_Some _ _ _ Hi).
  replace (p + (a - start mb) + Z.of_nat i) with (p + (a - start mb + Z.of_nat i)) by lia. rewrite Hcopy by lia.
  replace (start mb + (a - start mb + Z.of_nat i)) with (a + Z.of_nat i) by lia. by apply Hb.
Qed.

End extend.

(** ** Examples *)

(** An allocator with one place, at 1000, where no block is longer than 1000 bytes. *)
#[local] Instance one_heap : Heap := {|
  malloc m n := if n <? 1000 then (1000, set_bytes m 1000 (replicate (Z.to_nat n) 0)) else (NULL, m);
  realloc m p n := if n <? 1000 then (1000, set_bytes m 1000 ((λ i, default 0 (m !! (p + i))) <$> seqZ 0 n)) else (NULL, m);
  free m _ := m |}.

Lemma one_realloc m p k n : mapped m p k → 0 < n →
  let m' := set_bytes m 1000 ((λ i, default 0 (m !! (p + i))) <$> seqZ 0 n) in
  mapped m' 1000 n ∧ ∀ i, 0 ≤ i < Z.min k n → m' !! (1000 + i) = m !! (p + i).
Proof.
  intros Hm Hn m'. subst m'. set (l := (λ i, default 0 (m !! (p + i))) <$> seqZ 0 n).
  assert (Hl : Z.of_nat (length l) = n) by (subst l; rewrite length_fmap, length_seqZ; lia).
  split; [apply (bytes_at_mapped _ _ l); [apply bytes_at_set_same|lia]|].
  intros i Hi. destruct (Hm (p + i)) as [x Hx]; [lia|]. rewrite Hx. replace (1000 + i) with (1000 + Z.of_nat (Z.to_nat i)) by lia.
  apply lookup_set_bytes_in. subst l. rewrite list_lookup_fmap, lookup_seqZ_lt by lia. cbn.
  rewrite Z2Nat.id, Z.add_0_l by lia. by rewrite Hx.
Qed.

#[local] Instance one_works : HeapWorks.
Proof.
  refine {| block := mapped |}; cbn.
  - intros m n p m' Hn. destruct (n <? 1000); intros [= <- <-]; [|done]. intros _.
    assert (Hm : mapped (set_bytes m 1000 (replicate (Z.to_nat n) 0)) 1000 n) by
      (apply (bytes_at_mapped _ _ (replicate (Z.to_nat n) 0)); [apply bytes_at_set_same|rewrite length_replicate; lia]).
    by split_and!.
  - intros m p k n p' m' Hm Hn. destruct (n <? 1000); intros [= <- <-]; [|done]. intros _.
    destruct (one_realloc m p k n Hm Hn). by split_and!.
  - intros m p k a l Hm _ _. by apply mapped_set_bytes.
  - intros m p k n m' _. by destruct (n <? 1000); intros [= <-].
Defined.


Example extended : (λ '(r, m, mb), (r, mb, get_bytes m (tail mb) 1, get_bytes m (start mb) 1)) <$> membuff_extend_by 4 ex_mem ex_buf 3 (-1) =
  Some (0, {| start := 1000; end_ := 1008; head := 1001; tail := 1007 |}, Some [7], Some [8]).
Proof. vm_compute. reflexivity. Qed.

(** No room below the maximum, and no memory. *)
Example not_extended : (λ '(r, m, mb), r) <$> membuff_extend_by 4 ex_mem ex_buf 3 4 = Some (-7) ∧
  (λ '(r, m, mb), r) <$> membuff_extend_by 2000 ex_mem ex_buf 1000 (-1) = Some (-12).
Proof. by vm_compute. Qed.

Example new_buffer : (λ '(r, m, mb), (r, mb)) (membuff_new ∅ membuff_uninit 8) = (0, {| start := 1000; end_ := 1008; head := 1000; tail := 1000 |}) ∧
  (λ '(r, m, mb), (r, start mb)) (membuff_new ∅ membuff_uninit 5000) = (-12, NULL).
Proof. by vm_compute. Qed.
