(* ===== verification/Ctype.v ===== *)
(** * Ctype: the character classes of lib/ctype.c and include/linux/ctype.h *)

From Stdlib Require Import ZArith Lia List.
From stdpp Require Import base numbers list option.
From S2P Require Import Prelude.

Definition _U : Z := 0x01.
Definition _L : Z := 0x02.
Definition _D : Z := 0x04.
Definition _C : Z := 0x08.
Definition _P : Z := 0x10.
Definition _S : Z := 0x20.
Definition _X : Z := 0x40.
Definition _SP : Z := 0x80.

(** The flags of an entry are different bits, so that [+] is the [|] of the
    source. *)
Definition _ctype : list Z := Eval vm_compute in
  [
   _C; _C; _C; _C; _C; _C; _C; _C;
   _C; _C + _S; _C + _S; _C + _S; _C + _S; _C + _S; _C; _C;
   _C; _C; _C; _C; _C; _C; _C; _C;
   _C; _C; _C; _C; _C; _C; _C; _C;
   _S + _SP; _P; _P; _P; _P; _P; _P; _P;
   _P; _P; _P; _P; _P; _P; _P; _P;
   _D; _D; _D; _D; _D; _D; _D; _D;
   _D; _D; _P; _P; _P; _P; _P; _P;
   _P; _U + _X; _U + _X; _U + _X; _U + _X; _U + _X; _U + _X; _U;
   _U; _U; _U; _U; _U; _U; _U; _U;
   _U; _U; _U; _U; _U; _U; _U; _U;
   _U; _U; _U; _P; _P; _P; _P; _P;
   _P; _L + _X; _L + _X; _L + _X; _L + _X; _L + _X; _L + _X; _L;
   _L; _L; _L; _L; _L; _L; _L; _L;
   _L; _L; _L; _L; _L; _L; _L; _L;
   _L; _L; _L; _P; _P; _P; _P; _C;
   0; 0; 0; 0; 0; 0; 0; 0; 0; 0; 0; 0; 0; 0; 0; 0;
   0; 0; 0; 0; 0; 0; 0; 0; 0; 0; 0; 0; 0; 0; 0; 0;
   _S + _SP; _P; _P; _P; _P; _P; _P; _P; _P; _P; _P; _P; _P; _P; _P; _P;
   _P; _P; _P; _P; _P; _P; _P; _P; _P; _P; _P; _P; _P; _P; _P; _P;
   _U; _U; _U; _U; _U; _U; _U; _U; _U; _U; _U; _U; _U; _U; _U; _U;
   _U; _U; _U; _U; _U; _U; _U; _P; _U; _U; _U; _U; _U; _U; _U; _L;
   _L; _L; _L; _L; _L; _L; _L; _L; _L; _L; _L; _L; _L; _L; _L; _L;
   _L; _L; _L; _L; _L; _L; _L; _P; _L; _L; _L; _L; _L; _L; _L; _L
  ].

Definition __ismask (x : Z) : Z := nth (Z.to_nat (u8 x)) _ctype 0.

Definition has_mask (c flags : Z) : bool := negb (Z.land (__ismask c) flags =? 0).

Definition isalnum (c : Z) : bool := has_mask c (Z.lor (Z.lor _U _L) _D).
Definition isalpha (c : Z) : bool := has_mask c (Z.lor _U _L).
Definition iscntrl (c : Z) : bool := has_mask c _C.
Definition isdigit (c : Z) : bool := has_mask c _D.
Definition isgraph (c : Z) : bool := has_mask c (Z.lor (Z.lor (Z.lor _P _U) _L) _D).
Definition islower (c : Z) : bool := has_mask c _L.
Definition isprint (c : Z) : bool := has_mask c (Z.lor (Z.lor (Z.lor (Z.lor _P _U) _L) _D) _SP).
Definition ispunct (c : Z) : bool := has_mask c _P.
Definition isspace (c : Z) : bool := has_mask c _S.
Definition isupper (c : Z) : bool := has_mask c _U.
Definition isxdigit (c : Z) : bool := has_mask c (Z.lor _D _X).

Definition tolower (c : Z) : Z := if isupper c then u8 (c - (65 - 97)) else c.
Definition toupper (c : Z) : Z := if islower c then u8 (c - (97 - 65)) else c.

(** ** Facts about bytes are checked on each of them *)

Lemma byte_cases (P : Z → bool) c :
  forallb P (map Z.of_nat (seq 0 256)) = true → 0 ≤ c < 256 → P c = true.
Proof.
  intros H Hc. rewrite forallb_forall in H. apply H.
  apply in_map_iff. exists (Z.to_nat c). split; [lia|]. apply in_seq. lia.
Qed.

Lemma isdigit_spec c : 0 ≤ c < 256 → isdigit c = (48 <=? c) && (c <=? 57).
Proof.
  intros Hc. apply eqb_prop.
  by apply (byte_cases (λ c, eqb (isdigit c) ((48 <=? c) && (c <=? 57)))).
Qed.

Lemma isxdigit_spec c : 0 ≤ c < 256 →
  isxdigit c = (48 <=? c) && (c <=? 57) || (65 <=? c) && (c <=? 70) || (97 <=? c) && (c <=? 102).
Proof.
  intros Hc. apply eqb_prop.
  by apply (byte_cases (λ c, eqb (isxdigit c)
    ((48 <=? c) && (c <=? 57) || (65 <=? c) && (c <=? 70) || (97 <=? c) && (c <=? 102)))).
Qed.

Lemma islower_ascii c : 0 ≤ c < 128 → islower c = (97 <=? c) && (c <=? 122).
Proof.
  intros Hc. assert (implb (c <? 128) (eqb (islower c) ((97 <=? c) && (c <=? 122))) = true) as H.
  { by apply (byte_cases (λ c, implb (c <? 128) (eqb (islower c) ((97 <=? c) && (c <=? 122))))); [|lia]. }
  rewrite (proj2 (Z.ltb_lt _ _)) in H by lia. by apply eqb_prop.
Qed.

Lemma tolower_x c : 0 ≤ c < 256 → (tolower c =? 120) = (c =? 120) || (c =? 88).
Proof.
  intros Hc. apply eqb_prop.
  by apply (byte_cases (λ c, eqb (tolower c =? 120) ((c =? 120) || (c =? 88)))).
Qed.

Lemma tolower_idem c : 0 ≤ c < 256 → tolower (tolower c) = tolower c.
Proof.
  intros Hc. apply Z.eqb_eq.
  by apply (byte_cases (λ c, tolower (tolower c) =? tolower c)).
Qed.
