(* ===== verification/StringExt.v ===== *)
(** * StringExt: more functions of lib/string.c

    Comparison without case, tokens, copies in new memory, the exchange of bytes
    and the search for a byte that differs, which compares words of 64 bits.  The
    conventions are those of [CString]. *)

From Stdlib Require Import ZArith Lia List.
From stdpp Require Import base numbers list option gmap fin_maps.
From S2P Require Import Prelude Memory CString Ctype.

(** ** Comparison *)

Definition strncasecmp (m : mem) (s1 s2 len : Z) : option Z :=
  if len =? 0 then Some 0
  else
    '(_, _, _, c1, c2) ← loop_brk (S (size m)) (λ '(s1, s2, len, _, _),
        c1 ← load m s1; c2 ← load m s2;
        let s1 := s1 + 1 in
        let s2 := s2 + 1 in
        if c1 =? 0 then Some (Break (s1, s2, len, c1, c2))
        else if c2 =? 0 then Some (Break (s1, s2, len, c1, c2))
        else
          let (c1', c2') := if c1 =? c2 then (c1, c2) else (tolower c1, tolower c2) in
          if negb (c1' =? c2') then Some (Break (s1, s2, len, c1', c2'))
          else
            let len := len - 1 in
            Some (if len =? 0 then Break (s1, s2, len, c1', c2') else Next (s1, s2, len, c1', c2')))
      (s1, s2, len, 0, 0);
    Some (c1 - c2).

Definition strcasecmp (m : mem) (s1 s2 : Z) : option Z := strncasecmp m s1 s2 (2 ^ 32 - 1).

(** The comparison of two strings by the pointers to them that are at [p1] and
    [p2], for sorting (lib/qsort.c). *)
Definition strcmp_compar (m : mem) (p1 p2 : Z) : option Z :=
  a ← load32 m p1; b ← load32 m p2; strcmp m a b.

(** ** Tokens *)

(** [saved] is [___strtok]; the results are the token, [___strtok] and the memory. *)
Definition strtok (m : mem) (saved s ct : Z) : option (Z * Z * mem) :=
  let sbegin := if negb (s =? NULL) then s else saved in
  if sbegin =? NULL then Some (NULL, saved, m)
  else
    n ← strspn m sbegin ct;
    let sbegin := sbegin + n in
    c ← load m sbegin;
    if c =? 0 then Some (NULL, NULL, m)
    else
      send ← strpbrk m sbegin ct;
      '(send, m) ← (if negb (send =? NULL) then
                      c ← load m send;
                      if negb (c =? 0) then m ← store m send 0; Some (send + 1, m) else Some (send, m)
                    else Some (send, m));
      Some (sbegin, send, m).

(** ** Copies *)

Section malloc.
(** The allocator (common/dlmalloc.c, third-party): an address or [NULL]. *)
Context (malloc : mem → Z → Z * mem).

Definition strdup (m : mem) (s : Z) : option (Z * mem) :=
  if s =? NULL then Some (NULL, m)
  else
    n ← strlen m s;
    let '(new, m) := malloc m (u32 (n + 1)) in
    if new =? NULL then Some (NULL, m)
    else m ← strcpy m new s; Some (new, m).

Definition strndup (m : mem) (s n : Z) : option (Z * mem) :=
  if s =? NULL then Some (NULL, m)
  else
    len ← strlen m s;
    let len := if n <? len then n else len in
    let '(new, m) := malloc m (u32 (len + 1)) in
    if new =? NULL then Some (NULL, m)
    else
      m ← strncpy m new s len;
      m ← store m (new + len) 0;
      Some (new, m).
End malloc.

(** ** Exchange of bytes *)

Definition strswab (m : mem) (s : Z) : option (Z * mem) :=
  if s =? NULL then Some (NULL, m)
  else
    c ← load m s;
    if c =? 0 then Some (NULL, m)
    else
      '(m, _, _) ← loop_brk (S (size m)) (λ '(m, p, q),
          x ← load m p;
          if x =? 0 then Some (Break (m, p, q))
          else
            y ← load m q;
            if y =? 0 then Some (Break (m, p, q))
            else
              m ← store m p y;
              m ← store m q x;
              Some (Next (m, p + 2, q + 2))) (m, s, s + 1);
      Some (s, m).

(** ** Search *)

Definition check_bytes8 (m : mem) (start value bytes : Z) : option Z :=
  r ← loop (S (size m)) (λ '(start, bytes),
      if bytes =? 0 then Some (Break (start, bytes))
      else
        x ← load m start;
        if negb (x =? value) then Some (Return start) else Some (Next (start + 1, bytes - 1)))
    (start, bytes);
  Some (match r with inl _ => NULL | inr p => p end).

Definition load64 (m : mem) (a : Z) : option Z :=
  lo ← load32 m a; hi ← load32 m (a + 4); Some (lo + 2 ^ 32 * hi).

Definition memchr_inv (m : mem) (start c bytes : Z) : option Z :=
  let value := u8 c in
  if bytes <=? 16 then check_bytes8 m start value bytes
  else
    let value64 := value in
    let value64 := Z.lor value64 (u64 (Z.shiftl value64 8)) in
    let value64 := Z.lor value64 (u64 (Z.shiftl value64 16)) in
    let value64 := Z.lor value64 (u64 (Z.shiftl value64 32)) in
    let prefix := start mod 8 in
    (* the address found in front of the words, or the words and the rest *)
    '(r, start, bytes) ← (if negb (prefix =? 0) then
        let prefix := 8 - prefix in
        r ← check_bytes8 m start value prefix;
        Some (r, start + prefix, bytes - prefix)
      else Some (NULL, start, bytes));
    if negb (r =? NULL) then Some r
    else
      o ← loop (S (size m)) (λ '(start, words),
          if words =? 0 then Some (Break (start, words))
          else
            w ← load64 m start;
            if negb (w =? value64) then Some (Return start) else Some (Next (start + 8, words - 1)))
        (start, bytes / 8);
      match o with
      | inr start => check_bytes8 m start value 8
      | inl (start, _) => check_bytes8 m start value (bytes mod 8)
      end.

(** ** Comparison without case *)

Lemma tolower_char c : is_char c → is_char (tolower c).
Proof.
  intros Hc. unfold is_char in *.
  assert (H : forallb (λ c, (0 <? tolower (Z.of_nat c)) && (tolower (Z.of_nat c) <? 256)) (seq 1 255) = true) by (vm_compute; reflexivity).
  rewrite forallb_forall in H. specialize (H (Z.to_nat c)). rewrite in_seq, Z2Nat.id in H by lia.
  specialize (H ltac:(lia)). apply andb_true_iff in H. lia.
Qed.

(** The result is 0 when the first characters are the same up to their case; no
    character behind a terminator or the limit is read. *)
Theorem strncasecmp_correct m s t s1 s2 n : cstr_at m s1 s → cstr_at m s2 t → 0 < n →
  ∃ r, strncasecmp m s1 s2 n = Some r ∧
    (r = 0 ↔ tolower <$> take (Z.to_nat n) s = tolower <$> take (Z.to_nat n) t).
Proof.
  intros Hs Ht Hn. unfold strncasecmp. rewrite (proj2 (Z.eqb_neq n 0)) by lia.
  assert (Hfuel : (length s < S (size m))%nat) by (apply cstr_at_size in Hs; lia).
  revert Hfuel. generalize (S (size m)) as fuel. intros fuel Hfuel.
  match goal with |- context [loop_brk fuel ?step _] =>
    assert (H : ∀ x y, ∃ p q k c d, loop_brk fuel step (s1, s2, n, x, y) = Some (p, q, k, c, d) ∧
      (c - d = 0 ↔ tolower <$> take (Z.to_nat n) s = tolower <$> take (Z.to_nat n) t));
    [|destruct (H 0 0) as (p & q & k & c & d & -> & Hr); by eexists] end.
  revert s1 s2 n t fuel Hs Ht Hn Hfuel.
  induction s as [|c s IH]; intros s1 s2 n t [|fuel] Hs Ht Hn Hfuel x y; cbn [length] in *; try lia.
  - apply cstr_at_nil in Hs. destruct t as [|d t].
    + apply cstr_at_nil in Ht. do 5 eexists. split; [step_break; [reflexivity|unfold load; by rewrite Hs, Ht]|]. done.
    + apply cstr_at_cons in Ht as (Hd & Hdh & Ht). unfold is_char in Hdh.
      do 5 eexists. split; [step_break; [reflexivity|unfold load; by rewrite Hs, Hd]|].
      replace (Z.to_nat n) with (S (Z.to_nat (n - 1))) by lia. cbn. split; [lia|done].
  - apply cstr_at_cons in Hs as (Hc & Hch & Hs). destruct t as [|d t].
    + apply cstr_at_nil in Ht. unfold is_char in Hch. do 5 eexists. split.
      { step_break; [reflexivity|]. unfold load; rewrite Hc, Ht; reduce. by rewrite (proj2 (Z.eqb_neq c 0)) by lia. }
      replace (Z.to_nat n) with (S (Z.to_nat (n - 1))) by lia. cbn. split; [lia|done].
    + apply cstr_at_cons in Ht as (Hd & Hdh & Ht).
      pose proof (tolower_char c Hch) as Hlc. pose proof (tolower_char d Hdh) as Hld. unfold is_char in *.
      replace (Z.to_nat n) with (S (Z.to_nat (n - 1))) by lia. cbn [take fmap list_fmap].
      assert (E : ∃ c' d', (if c =? d then (c, d) else (tolower c, tolower d)) = (c', d') ∧ (c' = d' ↔ tolower c = tolower d)).
      { destruct (Z.eqb_spec c d) as [->|Hne]; eexists _, _; split; done. }
      destruct E as (c' & d' & E & Ecd). destruct (Z.eqb_spec c' d') as [Heq|Hne].
      * destruct (Z.eqb_spec (n - 1) 0) as [Hz|Hz].
        -- do 5 eexists. split.
           { step_break; [reflexivity|]. unfold load; rewrite Hc, Hd; reduce.
             rewrite (proj2 (Z.eqb_neq c 0)), (proj2 (Z.eqb_neq d 0)) by lia. rewrite E, (proj2 (Z.eqb_eq c' d')) by done. reduce.
             by rewrite (proj2 (Z.eqb_eq (n - 1) 0)) by done. }
           rewrite Hz. cbn. rewrite (proj1 Ecd Heq). split; [done|lia].
        -- edestruct (IH (s1 + 1) (s2 + 1) (n - 1) t fuel) as (p & q & k & e & f & Hr & Hef); [done|done|lia|lia|].
           exists p, q, k, e, f. split.
           { step_next; [exact Hr|]. unfold load; rewrite Hc, Hd; reduce.
             rewrite (proj2 (Z.eqb_neq c 0)), (proj2 (Z.eqb_neq d 0)) by lia. rewrite E, (proj2 (Z.eqb_eq c' d')) by done. reduce.
             by rewrite (proj2 (Z.eqb_neq (n - 1) 0)) by done. }
           rewrite Hef, (proj1 Ecd Heq). split; [by intros ->|by intros [= ->]].
      * do 5 eexists. split.
        { step_break; [reflexivity|]. unfold load; rewrite Hc, Hd; reduce.
          rewrite (proj2 (Z.eqb_neq c 0)), (proj2 (Z.eqb_neq d 0)) by lia. by rewrite E, (proj2 (Z.eqb_neq c' d')) by done. }
        split; [lia|]. intros [= Ht1 Ht2]. by apply Ecd in Ht1.
Qed.

(** ** The search over words *)

(** How many bytes are [v]. *)
Abbreviation plen v := (prefix_len (λ x, Z.eqb x v)).

(** The address of the first byte of [l], which is at [a], that is not [v]. *)
Definition found (v a : Z) (l : list Z) : Z :=
  let k := plen v l in if (k <? length l)%nat then a + Z.of_nat k else NULL.

Lemma check_bytes8_spec m a l v : bytes_at m a l → 0 < a →
  check_bytes8 m a v (Z.of_nat (length l)) =
  Some (found v a l).
Proof.
  intros Hl Ha. unfold found, check_bytes8.
  assert (Hfuel : (length l < S (size m))%nat) by (apply bytes_at_size in Hl; lia).
  revert Hfuel. generalize (S (size m)) as fuel. intros fuel Hfuel. revert a fuel Hl Ha Hfuel.
  induction l as [|x l IH]; intros a [|fuel] Hl Ha Hfuel; cbn [length prefix_len] in *; try lia.
  - by erewrite loop_break.
  - apply bytes_at_cons in Hl as [Hx Hl]. destruct (Z.eqb_spec x v) as [->|Hne].
    + erewrite loop_next.
      2:{ rewrite (proj2 (Z.eqb_neq _ 0)) by lia. unfold load; rewrite Hx; reduce. by rewrite Z.eqb_refl. }
      replace (Z.of_nat (S (length l)) - 1) with (Z.of_nat (length l)) by lia. rewrite IH by (done || lia).
      change (S ?x <? S ?y)%nat with (x <? y)%nat. f_equal. cbv zeta. destruct (_ <? _)%nat; [lia|done].
    + erewrite loop_return; [cbn; by rewrite Z.add_0_r|].
      rewrite (proj2 (Z.eqb_neq _ 0)) by lia. unfold load; rewrite Hx; reduce. by rewrite (proj2 (Z.eqb_neq x v)).
Qed.

Lemma repeat_byte v : is_byte v →
  Z.lor (Z.lor (Z.lor v (u64 (Z.shiftl v 8))) (u64 (Z.shiftl (Z.lor v (u64 (Z.shiftl v 8))) 16)))
    (u64 (Z.shiftl (Z.lor (Z.lor v (u64 (Z.shiftl v 8))) (u64 (Z.shiftl (Z.lor v (u64 (Z.shiftl v 8))) 16))) 32)) =
  v * 0x0101010101010101.
Proof.
  intros Hv. unfold is_byte in Hv.
  assert (E1 : Z.lor v (u64 (Z.shiftl v 8)) = v * 257).
  { rewrite Z.shiftl_mul_pow2, wrap_small, Z.lor_comm, lor_low_high by lia. lia. }
  rewrite E1. assert (E2 : Z.lor (v * 257) (u64 (Z.shiftl (v * 257) 16)) = v * 0x01010101).
  { rewrite Z.shiftl_mul_pow2, wrap_small, Z.lor_comm, lor_low_high by lia. lia. }
  rewrite E2, Z.shiftl_mul_pow2, wrap_small, Z.lor_comm, lor_low_high by lia. lia.
Qed.

Lemma digit x y v z : x + 256 * y = v + 256 * z → 0 ≤ x < 256 → 0 ≤ v < 256 → x = v ∧ y = z.
Proof. lia. Qed.

(** A word is the repeated byte when all of its bytes are the byte. *)
Lemma load64_spec m a b l v : length b = 8%nat → bytes_at m a (b ++ l) → Forall is_byte b → is_byte v →
  ∃ w, load64 m a = Some w ∧ (w = v * 0x0101010101010101 ↔ b = replicate 8 v).
Proof.
  intros Hlen Hb Hbytes Hv. do 8 (destruct b as [|? b]; [done|]). destruct b; [|done]. cbn [app] in Hb.
  unfold load64. rewrite (load32_bytes _ _ _ _ _ _ _ Hb). do 4 apply bytes_at_cons in Hb as [_ Hb].
  replace (a + 1 + 1 + 1 + 1) with (a + 4) in Hb by lia. rewrite (load32_bytes _ _ _ _ _ _ _ Hb).
  eexists. split; [reflexivity|]. repeat (apply Forall_cons_iff in Hbytes as [? Hbytes]). unfold is_byte in *. cbn [replicate].
  split; [|intros [= -> -> -> -> -> -> -> ->]; lia]. intros E.
  match type of E with ?b0 + _ * ?b1 + _ * ?b2 + _ * ?b3 + _ * (?b4 + _ * ?b5 + _ * ?b6 + _ * ?b7) = _ =>
    assert (E0 : b0 + 256 * (b1 + 256 * (b2 + 256 * (b3 + 256 * (b4 + 256 * (b5 + 256 * (b6 + 256 * b7)))))) =
      v + 256 * (v + 256 * (v + 256 * (v + 256 * (v + 256 * (v + 256 * (v + 256 * v))))))) by lia end.
  clear E. do 7 (apply digit in E0 as [-> E0]; [|done..]). by rewrite E0.
Qed.

Lemma prefix_len_app f l k : prefix_len f (l ++ k) = if (prefix_len f l <? length l)%nat then prefix_len f l else (length l + prefix_len f k)%nat.
Proof.
  induction l as [|x l IH]; [done|]. cbn [app prefix_len length]. destruct (f x); [|done]. rewrite IH.
  change (S ?x <? S ?y)%nat with (x <? y)%nat. by destruct (_ <? _)%nat.
Qed.

Lemma prefix_len_same v n : plen v (replicate n v) = n.
Proof. induction n as [|n IH]; [done|]. cbn. by rewrite Z.eqb_refl, IH. Qed.

Lemma prefix_len_full v l : plen v l = length l → l = replicate (length l) v.
Proof.
  induction l as [|x l IH]; [done|]. cbn. destruct (Z.eqb_spec x v) as [->|]; [|done]. intros [= E]. f_equal. by apply IH.
Qed.

(** The loop over the words: they are all the byte, or one of them is not. *)
Lemma memchr_words m v n : ∀ a l k fuel, length l = (8 * n)%nat → bytes_at m a (l ++ k) → Forall is_byte l → is_byte v → (n < fuel)%nat →
  (∃ l1 b l2, l = l1 ++ b ++ l2 ∧ l1 = replicate (length l1) v ∧ length b = 8%nat ∧ b ≠ replicate 8 v ∧
    loop fuel (λ '(start, words),
      if words =? 0 then Some (Break (start, words))
      else
        w ← load64 m start;
        if negb (w =? v * 0x0101010101010101) then Some (Return start) else Some (Next (start + 8, words - 1)))
      (a, Z.of_nat n) = Some (inr (a + Z.of_nat (length l1)))) ∨
  l = replicate (length l) v ∧
    loop fuel (λ '(start, words),
      if words =? 0 then Some (Break (start, words))
      else
        w ← load64 m start;
        if negb (w =? v * 0x0101010101010101) then Some (Return start) else Some (Next (start + 8, words - 1)))
      (a, Z.of_nat n) = Some (inl (a + Z.of_nat (length l), 0)).
Proof.
  induction n as [|n IH]; intros a l k [|fuel] Hlen Hb Hl Hv Hf; try lia.
  - destruct l; [|done]. right. split; [done|]. erewrite loop_break; [|reflexivity]. cbn. by rewrite Z.add_0_r.
  - rewrite <-(take_drop 8 l) in Hb, Hl |- *. set (b := take 8 l) in *. set (l' := drop 8 l) in *.
    assert (Hb8 : length b = 8%nat) by (subst b; rewrite length_take; lia).
    assert (Hl' : length l' = (8 * n)%nat) by (subst l'; rewrite length_drop; lia). clearbody b l'.
    apply Forall_app in Hl as [Hbb Hl]. rewrite <-app_assoc in Hb.
    destruct (load64_spec m a b (l' ++ k) v Hb8 Hb Hbb Hv) as (w & Hw & Hwv). apply bytes_at_app in Hb as [_ Hb]. rewrite Hb8 in Hb.
    destruct (decide (b = replicate 8 v)) as [Eb|Nb].
    + erewrite (loop_next _ _ (a, Z.of_nat (S n))); [|rewrite (proj2 (Z.eqb_neq _ 0)) by lia; rewrite Hw; reduce;
        rewrite (proj2 (Z.eqb_eq w _)) by (by apply Hwv); reflexivity].
      replace (Z.of_nat (S n) - 1) with (Z.of_nat n) by lia.
      destruct (IH (a + 8) l' k fuel) as [(l1 & c & l2 & El & E1 & Hc & Nc & Hr)|[El Hr]]; [done..|lia| |].
      * left. exists (b ++ l1), c, l2. split_and!; [by rewrite El, <-!app_assoc| |done|done|].
        -- by rewrite length_app, replicate_add, <-E1, Hb8, <-Eb.
        -- rewrite Hr, length_app, Hb8, Nat2Z.inj_add, Z.add_assoc. done.
      * right. split; [by rewrite length_app, replicate_add, <-El, Hb8, <-Eb|]. rewrite Hr, length_app, Hb8, Nat2Z.inj_add, Z.add_assoc. done.
    + left. exists [], b, l'. split_and!; [done..|]. rewrite (loop_return _ _ _ a); [cbn; by rewrite Z.add_0_r|].
      rewrite (proj2 (Z.eqb_neq _ 0)) by lia. rewrite Hw. reduce.
      rewrite (proj2 (Z.eqb_neq w _)); [done|]. intros E. by apply Nb, Hwv.
Qed.

Lemma found_app v a l k : found v a (l ++ k) =
  if (plen v l <? length l)%nat then found v a l else found v (a + Z.of_nat (length l)) k.
Proof.
  unfold found. rewrite prefix_len_app, length_app. cbv zeta. destruct (Nat.ltb_spec (plen v l) (length l)) as [H|H].
  - by rewrite (proj2 (Nat.ltb_lt _ _)) by lia.
  - destruct (Nat.ltb_spec (plen v k) (length k)) as [H1|H1].
    + rewrite (proj2 (Nat.ltb_lt _ _)) by lia. lia.
    + by rewrite (proj2 (Nat.ltb_ge _ _)) by lia.
Qed.

Lemma found_same v a n k : found v a (replicate n v ++ k) = found v (a + Z.of_nat n) k.
Proof. rewrite found_app, prefix_len_same, length_replicate. by rewrite Nat.ltb_irrefl. Qed.

(** The bytes before the first aligned address; all of them are [v] when nothing is found. *)
Lemma found_null v a l : 0 < a → found v a l = NULL → l = replicate (length l) v.
Proof.
  intros Ha. unfold found. cbv zeta. destruct (Nat.ltb_spec (plen v l) (length l)) as [H|H]; [unfold NULL; lia|].
  intros _. apply prefix_len_full. pose proof (prefix_len_le (λ x, x =? v) l). lia.
Qed.

Lemma found_some v b : b ≠ replicate (length b) v → (plen v b < length b)%nat.
Proof.
  intros Hb. pose proof (prefix_len_le (λ x, x =? v) b). destruct (decide (plen v b = length b)) as [E|]; [|lia].
  by apply prefix_len_full in E.
Qed.

(** The part of [memchr_inv] behind the aligned address. *)
Lemma memchr_aligned m v l a : bytes_at m a l → Forall is_byte l → is_byte v → 0 < a →
  (o ← loop (S (size m)) (λ '(start, words),
      if words =? 0 then Some (Break (start, words))
      else
        w ← load64 m start;
        if negb (w =? v * 0x0101010101010101) then Some (Return start) else Some (Next (start + 8, words - 1)))
    (a, Z.of_nat (length l) / 8);
  match o with
  | inr start => check_bytes8 m start v 8
  | inl (start, _) => check_bytes8 m start v (Z.of_nat (length l) mod 8)
  end) = Some (found v a l).
Proof.
  intros Hb Hl Hv Ha. pose proof (bytes_at_size m a l Hb) as Hsize. set (n := (length l / 8)%nat).
  assert (Hn : Z.of_nat (length l) / 8 = Z.of_nat n) by (subst n; by rewrite Nat2Z.inj_div). rewrite Hn.
  assert (Hsplit : ∃ lw lr, l = lw ++ lr ∧ length lw = (8 * n)%nat ∧ Z.of_nat (length l) mod 8 = Z.of_nat (length lr)).
  { exists (take (8 * n) l), (drop (8 * n) l). rewrite take_drop, length_take, length_drop. clearbody n.
    pose proof (Z.div_mod (Z.of_nat (length l)) 8 ltac:(lia)) as Hdm. rewrite Hn in Hdm.
    pose proof (Z.mod_pos_bound (Z.of_nat (length l)) 8 ltac:(lia)). split; [done|]. lia. }
  destruct Hsplit as (lw & lr & El0 & Hlen & Hr). rewrite Hr. clear Hr Hn. clearbody n. subst l.
  rewrite length_app in Hsize. assert (Hf : (n < S (size m))%nat) by lia.
  apply Forall_app in Hl as [Hlw Hlr].
  destruct (memchr_words m v n a lw lr (S (size m)) Hlen Hb Hlw Hv Hf) as [(l1 & b & l2 & El & E1 & Hb8 & Nb & ->)|[El ->]]; reduce.
  - rewrite El in Hb |- *. rewrite <-!app_assoc in Hb |- *. apply bytes_at_app in Hb as [_ Hb]. apply bytes_at_app in Hb as [Hb _].
    rewrite E1, found_same, length_replicate, found_app. rewrite <-Hb8 in Nb. pose proof (found_some v b Nb) as Hk.
    rewrite (proj2 (Nat.ltb_lt _ _)) by done. change 8 with (Z.of_nat 8). rewrite <-Hb8. apply check_bytes8_spec; [done|lia].
  - apply bytes_at_app in Hb as [_ Hb]. rewrite El at 2. rewrite found_same. apply check_bytes8_spec; [done|lia].
Qed.

(** The search by words finds what the search byte by byte finds: the first byte
    of the area that is not [c]. *)
Theorem memchr_inv_correct m start c l : bytes_at m start l → Forall is_byte l → 0 < start →
  memchr_inv m start c (Z.of_nat (length l)) = Some (found (u8 c) start l).
Proof.
  intros Hb Hl Ha. unfold memchr_inv. assert (Hv : is_byte (u8 c)) by (by apply (wrap_range 8)).
  destruct (Z.leb_spec (Z.of_nat (length l)) 16) as [H16|H16]; [by apply check_bytes8_spec|].
  cbv zeta. rewrite (repeat_byte _ Hv). destruct (Z.eqb_spec (start mod 8) 0) as [H0|H0].
  - cbn [negb]. reduce. cbn [negb]. by apply memchr_aligned.
  - cbn [negb]. pose proof (Z.mod_pos_bound start 8 ltac:(lia)) as Hp. set (p := 8 - start mod 8) in *.
    assert (Hsplit : ∃ k r, l = k ++ r ∧ p = Z.of_nat (length k) ∧ Z.of_nat (length l) - p = Z.of_nat (length r)).
    { exists (take (Z.to_nat p) l), (drop (Z.to_nat p) l). rewrite take_drop, length_take, length_drop. split; [done|]. lia. }
    destruct Hsplit as (k & r & -> & Ek & Ed). apply bytes_at_app in Hb as [Hb1 Hb2]. apply Forall_app in Hl as [Hl1 Hl2].
    rewrite Ed, Ek, (check_bytes8_spec m start k) by done. reduce. rewrite found_app.
    destruct (Z.eqb_spec (found (u8 c) start k) NULL) as [E|E].
    + cbn [negb]. apply found_null in E as E'; [|done]. assert (Hnot : (plen (u8 c) k <? length k)%nat = false).
      { rewrite E' at 1. by rewrite prefix_len_same, Nat.ltb_irrefl. }
      rewrite Hnot. apply memchr_aligned; [done|done|done|lia].
    + cbn [negb]. unfold found in E at 1. cbv zeta in E. by destruct (_ <? _)%nat.
Qed.

(** ** Tokens *)

(** Behind the delimiters [strtok] is [strsep], and it ends at the terminator. *)
Lemma strtok_strsep m saved s ct t u : cstr_at m s t → cstr_at m ct u → 0 < s →
  let k := prefix_len (in_set u) t in
  strtok m saved s ct =
  if (k <? length t)%nat then strsep m (s + Z.of_nat k) ct else Some (NULL, NULL, m).
Proof.
  intros Ht Hu Hs k. pose proof (prefix_len_le (in_set u) t) as Hk. fold k in Hk.
  unfold strtok. rewrite (proj2 (Z.eqb_neq s NULL)) by (unfold NULL; lia). cbn [negb].
  rewrite (proj2 (Z.eqb_neq s NULL)) by (unfold NULL; lia). rewrite (strspn_spec _ _ _ _ Ht _ Hu). reduce. fold k.
  assert (Hrest : cstr_at m (s + Z.of_nat k) (drop k t)).
  { replace k with (length (take k t)) at 1 by (rewrite length_take; lia). apply cstr_at_drop. by rewrite take_drop. }
  destruct (Nat.ltb_spec k (length t)) as [Hlt|Hge].
  - destruct (drop k t) as [|c r] eqn:Ed; [apply (f_equal length) in Ed; rewrite length_drop in Ed; cbn in Ed; lia|].
    pose proof Hrest as (Hc & Hch & _)%cstr_at_cons. unfold load. rewrite Hc. reduce. unfold is_char in Hch.
    rewrite (proj2 (Z.eqb_neq c 0)) by lia. unfold strsep. rewrite (proj2 (Z.eqb_neq _ NULL)) by (unfold NULL; lia).
    rewrite (strpbrk_spec _ _ _ _ _ Hrest Hu). reduce. set (j := cut_at u (c :: r)).
    destruct (Nat.ltb_spec j (length (c :: r))) as [Hj|Hj]; [|done].
    rewrite (proj2 (Z.eqb_neq _ NULL)) by (unfold NULL; lia). cbn [negb].
    destruct (lookup_lt_is_Some_2 _ _ Hj) as [d Hd]. destruct Hrest as [Hb Hf].
    rewrite (Hb j d) by (by apply lookup_app_l_Some). reduce.
    assert (Hd0 : d ≠ 0) by (rewrite list_relations.list.Forall_lookup in Hf; specialize (Hf _ _ Hd); unfold is_char in Hf; lia).
    rewrite (proj2 (Z.eqb_neq d 0)) by done. cbn [negb]. by destruct (store m _ 0).
  - rewrite drop_ge in Hrest by lia. apply cstr_at_nil in Hrest. unfold load. by rewrite Hrest.
Qed.

(** The token is the part between the delimiters at the beginning and the next
    one, which is overwritten; [___strtok] is behind it. *)
Theorem strtok_correct m saved s ct t u : cstr_at m s t → cstr_at m ct u → 0 < s →
  ct + Z.of_nat (length u) < s ∨ s + Z.of_nat (length t) < ct →
  let k := prefix_len (in_set u) t in
  let r := drop k t in
  let j := cut_at u r in
  ∃ p rest m', strtok m saved s ct = Some (p, rest, m') ∧
    if (k <? length t)%nat then
      p = s + Z.of_nat k ∧ cstr_at m' p (take j r) ∧ cstr_at m' ct u ∧ (∀ a, a ≠ p + Z.of_nat j → m' !! a = m !! a) ∧
      (if (j <? length r)%nat then rest = p + Z.of_nat j + 1 ∧ cstr_at m' rest (drop (S j) r) else rest = NULL ∧ m' = m)
    else p = NULL ∧ rest = NULL ∧ m' = m.
Proof.
  intros Ht Hu Hs Hdis k r j. pose proof (prefix_len_le (in_set u) t) as Hk. fold k in Hk.
  rewrite (strtok_strsep m saved s ct t u Ht Hu Hs). fold k. destruct (Nat.ltb_spec k (length t)) as [Hlt|Hge].
  - assert (Hrest : cstr_at m (s + Z.of_nat k) r).
    { replace k with (length (take k t)) at 1 by (rewrite length_take; lia). apply cstr_at_drop. unfold r. by rewrite take_drop. }
    assert (Hlr : length r = (length t - k)%nat) by apply length_drop.
    destruct (strsep_correct m (s + Z.of_nat k) ct r u Hrest Hu) as (rest & m' & Hr & H1 & H2 & H3 & H4); [lia|lia|].
    exists (s + Z.of_nat k), rest, m'. by split_and!.
  - eexists _, _, _. by split.
Qed.

(** ** Copies *)

Section copies.
Context (malloc : mem → Z → Z * mem).
(** New memory is apart from the old one, which is kept. *)
Context (malloc_ok : ∀ m n p m', 0 ≤ n → malloc m n = (p, m') →
  m ⊆ m' ∧ (p ≠ NULL → mapped m' p n ∧ ∀ a, p ≤ a < p + n → m !! a = None)).

(** The bytes of a string are not in new memory. *)
Lemma apart m p n s l : bytes_at m s l → (∀ a, p ≤ a < p + n → m !! a = None) → 0 < n →
  l ≠ [] → p + n ≤ s ∨ s + Z.of_nat (length l) ≤ p.
Proof.
  intros Hl Hnone Hn Hne. destruct (Z.le_gt_cases (p + n) s); [by left|]. right.
  destruct (Z.le_gt_cases (s + Z.of_nat (length l)) p); [done|]. exfalso.
  destruct (lookup_lt_is_Some_2 l (Z.to_nat (Z.max s p - s))) as [x Hx]; [destruct l; [done|]; cbn in *; lia|].
  pose proof (Hl _ _ Hx) as E. rewrite Hnone in E; [done|]. lia.
Qed.

Lemma new_subseteq m m1 p l : m ⊆ m1 → (∀ a, p ≤ a < p + Z.of_nat (length l) → m !! a = None) → m ⊆ set_bytes m1 p l.
Proof.
  intros Hm Hnone. apply map_subseteq_spec. intros b x Hb.
  destruct (decide (p ≤ b < p + Z.of_nat (length l))) as [Hin|Hout]; [by rewrite Hnone in Hb|].
  rewrite lookup_set_bytes_out by lia. by eapply lookup_weaken.
Qed.

Lemma bytes_at_weaken m m' a l : m ⊆ m' → bytes_at m a l → bytes_at m' a l.
Proof. intros Hm Hl i x Hi. eapply lookup_weaken; [by apply Hl|done]. Qed.

(** A copy is the string in new memory, or [NULL]; nothing else is changed. *)
Theorem strdup_correct m s t : cstr_at m s t → 0 < s → Z.of_nat (length t) < 2 ^ 31 →
  ∃ p m', strdup malloc m s = Some (p, m') ∧ m ⊆ m' ∧ (p = NULL ∨ cstr_at m' p t).
Proof.
  intros Ht Hs Hlen. unfold strdup. rewrite (proj2 (Z.eqb_neq s NULL)) by (unfold NULL; lia).
  rewrite (strlen_spec _ _ _ Ht). reduce. rewrite wrap_small by lia. set (n := Z.of_nat (length t) + 1).
  destruct (malloc m n) as [p m1] eqn:E. destruct (malloc_ok m n p m1 ltac:(lia) E) as [Hm Hp].
  destruct (Z.eqb_spec p NULL) as [->|Hne]; [eexists _, _; split; [done|]; by split; [|left]|].
  destruct (Hp Hne) as [Hmap Hnone]. pose proof Ht as [Hb Hch].
  pose proof (apart m p n s _ Hb Hnone ltac:(lia) ltac:(by destruct t)) as Hap. rewrite length_app in Hap. cbn [length] in Hap.
  rewrite (strcpy_spec m1 p s t); [|split; [by apply (bytes_at_weaken m)|done]|done|unfold fwd_ok; lia]. reduce.
  eexists _, _. split; [done|]. split.
  - apply new_subseteq; [done|]. intros a Ha. apply Hnone. rewrite length_app in Ha. cbn in Ha. lia.
  - right. split; [apply bytes_at_set_same|done].
Qed.

Theorem strndup_correct m s t n : cstr_at m s t → 0 < s → Z.of_nat (length t) < 2 ^ 31 → 0 ≤ n →
  ∃ p m', strndup malloc m s n = Some (p, m') ∧ m ⊆ m' ∧ (p = NULL ∨ cstr_at m' p (take (Z.to_nat n) t)).
Proof.
  intros Ht Hs Hlen Hn. unfold strndup. rewrite (proj2 (Z.eqb_neq s NULL)) by (unfold NULL; lia).
  rewrite (strlen_spec _ _ _ Ht). reduce. set (len := if n <? _ then n else _).
  assert (Hl : len = Z.of_nat (length (take (Z.to_nat n) t))) by (subst len; rewrite length_take; bools; lia).
  assert (Hle : (length (take (Z.to_nat n) t) ≤ length t)%nat) by (rewrite length_take; lia).
  set (c := take (Z.to_nat n) t) in *. clearbody len. subst len. rewrite wrap_small by lia. set (k := Z.of_nat (length c) + 1).
  destruct (malloc m k) as [p m1] eqn:E. destruct (malloc_ok m k p m1 ltac:(lia) E) as [Hm Hp].
  destruct (Z.eqb_spec p NULL) as [->|Hne]; [eexists _, _; split; [done|]; by split; [|left]|].
  destruct (Hp Hne) as [Hmap Hnone]. pose proof Ht as [Hb Hch].
  assert (Hc : take (length c) (t ++ [0]) = c).
  { rewrite take_app_le by lia. subst c. rewrite length_take. destruct (decide (Z.to_nat n ≤ length t)%nat).
    - by rewrite Nat.min_l.
    - rewrite Nat.min_r, !take_ge by lia. done. }
  pose proof (apart m p k s _ Hb Hnone ltac:(lia) ltac:(by destruct t)) as Hap. rewrite length_app in Hap. cbn [length] in Hap.
  rewrite (strncpy_spec m1 p s t); [|split; [by apply (bytes_at_weaken m)|done]|lia|eapply mapped_sub; [done|lia|lia]|unfold fwd_ok; lia].
  reduce. rewrite Nat2Z.id, Hc. rewrite (store_mapped _ _ _ p k) by (first [by apply mapped_set_bytes|lia]). reduce.
  change (u8 0) with 0. rewrite <-set_bytes_snoc. eexists _, _. split; [done|]. split.
  - apply new_subseteq; [done|]. intros a Ha. apply Hnone. rewrite length_app in Ha. cbn in Ha. lia.
  - right. split; [apply bytes_at_set_same|]. by apply Forall_take.
Qed.
End copies.

(** ** Exchange of bytes *)

Fixpoint swap_pairs (t : list Z) : list Z :=
  match t with x :: y :: t => y :: x :: swap_pairs t | _ => t end.

Lemma swap_loop n : ∀ t m p fuel, (length t ≤ n)%nat → cstr_at m p t → (length t < fuel)%nat →
  ∃ q1 q2, loop_brk fuel (λ '(m, p, q),
      x ← load m p;
      if x =? 0 then Some (Break (m, p, q))
      else
        y ← load m q;
        if y =? 0 then Some (Break (m, p, q))
        else
          m ← store m p y;
          m ← store m q x;
          Some (Next (m, p + 2, q + 2))) (m, p, p + 1) = Some (set_bytes m p (swap_pairs t), q1, q2).
Proof.
  induction n as [|n IH]; intros t m p [|fuel] Hn Ht Hf; try lia.
  - destruct t; [|cbn in Hn; lia]. apply cstr_at_nil in Ht. do 2 eexists. step_break; [reflexivity|]. unfold load. by rewrite Ht.
  - destruct t as [|x [|y t]].
    + apply cstr_at_nil in Ht. do 2 eexists. step_break; [reflexivity|]. unfold load. by rewrite Ht.
    + apply cstr_at_cons in Ht as (Hx & Hxc & Ht). apply cstr_at_nil in Ht. unfold is_char in Hxc. do 2 eexists.
      step_break; [cbn [swap_pairs set_bytes]; by rewrite insert_id|]. unfold load. rewrite Hx. reduce.
      rewrite (proj2 (Z.eqb_neq x 0)) by lia. by rewrite Ht.
    + apply cstr_at_cons in Ht as (Hx & Hxc & Ht). apply cstr_at_cons in Ht as (Hy & Hyc & Ht). unfold is_char in Hxc, Hyc.
      cbn [length] in *. set (m' := <[p + 1:=x]> (<[p:=y]> m)).
      destruct (IH t m' (p + 2) fuel) as (q1 & q2 & Hr); [lia| |lia|].
      { replace (p + 2) with (p + 1 + 1) by lia. destruct Ht as [Hb Hc]. split; [|done]. subst m'.
        apply (bytes_at_set_other _ (p + 1) [x]); [cbn; lia|]. by apply (bytes_at_set_other _ p [y]); [cbn; lia|]. }
      exists q1, q2. step_next.
      * replace (p + 2 + 1) with (p + 1 + 2) in Hr by lia. rewrite Hr. cbn [swap_pairs set_bytes].
        replace (p + 1 + 1) with (p + 2) by lia. done.
      * unfold load. rewrite Hx. reduce. rewrite (proj2 (Z.eqb_neq x 0)) by lia. rewrite Hy. reduce.
        rewrite (proj2 (Z.eqb_neq y 0)) by lia. rewrite store_ok by (by eexists). reduce.
        rewrite store_ok by (rewrite lookup_insert_ne by lia; by eexists). reduce.
        rewrite !wrap_small by lia. reflexivity.
Qed.

(** The characters are exchanged in pairs; a last one without partner stays. *)
Theorem strswab_correct m s t : cstr_at m s t → 0 < s →
  ∃ m', strswab m s = Some (if (length t =? 0)%nat then NULL else s, m') ∧ m' = set_bytes m s (swap_pairs t).
Proof.
  intros Ht Hs. unfold strswab. rewrite (proj2 (Z.eqb_neq s NULL)) by (unfold NULL; lia).
  destruct t as [|x t].
  - apply cstr_at_nil in Ht. unfold load. rewrite Ht. reduce. by eexists.
  - pose proof Ht as (Hx & Hxc & _)%cstr_at_cons. unfold is_char in Hxc. rewrite (Hx : load m s = Some x). reduce.
    rewrite (proj2 (Z.eqb_neq x 0)) by lia.
    destruct (swap_loop (length (x :: t)) (x :: t) m s (S (size m))) as (q1 & q2 & ->); [done|done|apply cstr_at_size in Ht; lia|].
    reduce. by eexists.
Qed.

(** ** Examples *)

(** "Ab", "aB," and twenty bytes of which the last one differs. *)
Definition ext_demo : mem :=
  set_bytes (set_bytes (mem_of 100 [65; 98; 0]) 200 [97; 66; 44; 0]) 301 (replicate 19 7 ++ [8]).

Ltac demo_cstr := split; [rewrite <-get_bytes_spec; vm_compute; reflexivity|repeat apply List.Forall_cons; try apply List.Forall_nil; unfold is_char; lia].

Lemma ext_first : cstr_at ext_demo 100 [65; 98].
Proof. demo_cstr. Qed.

Lemma ext_second : cstr_at ext_demo 200 [97; 66; 44].
Proof. demo_cstr. Qed.

Lemma strncasecmp_correct_witness :
  ∃ r, strncasecmp ext_demo 100 200 2 = Some r ∧ (r = 0 ↔ tolower <$> [65; 98] = tolower <$> [97; 66]).
Proof. apply (strncasecmp_correct ext_demo [65; 98] [97; 66; 44] 100 200 2 ext_first ext_second). lia. Defined.

Example compared : (strncasecmp ext_demo 100 200 2, strcasecmp ext_demo 100 200) = (Some 0, Some (-44)).
Proof. vm_compute. reflexivity. Qed.

Lemma memchr_inv_correct_witness : memchr_inv ext_demo 301 0x107 20 = Some 320.
Proof.
  assert (H : bytes_at ext_demo 301 (replicate 19 7 ++ [8])) by (rewrite <-get_bytes_spec; vm_compute; reflexivity).
  pose proof (memchr_inv_correct ext_demo 301 0x107 _ H) as E. apply E; [|lia].
  repeat apply List.Forall_cons; try apply List.Forall_nil; unfold is_byte; lia.
Defined.

(** The string "Ab" cut at "B," has no delimiter, "aB," is cut at B. *)
Lemma ext_delim : cstr_at ext_demo 201 [66; 44].
Proof. demo_cstr. Qed.

Lemma strtok_correct_witness :
  ∃ p rest m', strtok ext_demo 0 100 201 = Some (p, rest, m') ∧
    p = 100 ∧ cstr_at m' p [65; 98] ∧ cstr_at m' 201 [66; 44] ∧ (∀ a, a ≠ p + 2 → m' !! a = ext_demo !! a) ∧ rest = NULL ∧ m' = ext_demo.
Proof. apply (strtok_correct ext_demo 0 100 201 [65; 98] [66; 44] ext_first ext_delim); [lia|cbn; lia]. Defined.

(** An allocator with one place, which must be free. *)
Definition one_place (m : mem) (n : Z) : Z * mem :=
  if bool_decide (Forall (λ a, m !! a = None) (seqZ 1000 n)) then (1000, set_bytes m 1000 (replicate (Z.to_nat n) 0)) else (NULL, m).

Lemma one_place_ok m n p m' : 0 ≤ n → one_place m n = (p, m') →
  m ⊆ m' ∧ (p ≠ NULL → mapped m' p n ∧ ∀ a, p ≤ a < p + n → m !! a = None).
Proof.
  intros Hn. unfold one_place. case_bool_decide as H; intros [= <- <-]; [|by split].
  rewrite list_relations.list.Forall_forall in H. assert (Hnone : ∀ a, 1000 ≤ a < 1000 + n → m !! a = None).
  { intros a Ha. apply H, elem_of_seqZ. lia. }
  split; [apply set_bytes_subseteq; rewrite length_replicate; intros b Hb; apply Hnone; lia|].
  intros _. split; [|done]. apply (bytes_at_mapped _ _ (replicate (Z.to_nat n) 0)); [apply bytes_at_set_same|rewrite length_replicate; lia].
Qed.

Lemma strdup_correct_witness :
  ∃ p m', strdup one_place ext_demo 100 = Some (p, m') ∧ ext_demo ⊆ m' ∧ (p = NULL ∨ cstr_at m' p [65; 98]).
Proof. apply (strdup_correct one_place one_place_ok ext_demo 100 [65; 98] ext_first); (lia || (cbn; lia)). Defined.

Lemma strndup_correct_witness :
  ∃ p m', strndup one_place ext_demo 200 2 = Some (p, m') ∧ ext_demo ⊆ m' ∧ (p = NULL ∨ cstr_at m' p [97; 66]).
Proof. apply (strndup_correct one_place one_place_ok ext_demo 200 [97; 66; 44] 2 ext_second); (lia || (cbn; lia)). Defined.

Example copied : fst <$> strdup one_place ext_demo 100 = Some 1000 ∧
  ('(p, m) ← strndup one_place ext_demo 200 2; get_bytes m p 3) = Some [97; 66; 0].
Proof. by vm_compute. Qed.

Lemma strswab_correct_witness : ∃ m', strswab ext_demo 200 = Some (200, m') ∧ m' = set_bytes ext_demo 200 [66; 97; 44].
Proof. apply (strswab_correct ext_demo 200 [97; 66; 44] ext_second). lia. Defined.

(** Pointers to the two strings. *)
Example compared_pointers :
  strcmp_compar (set_bytes (set_bytes ext_demo 400 [100; 0; 0; 0]) 404 [200; 0; 0; 0]) 400 404 = Some (-32).
Proof. vm_compute. reflexivity. Qed.
