(* ===== verification/Strto.v ===== *)
(** * Strto: the number parsers of lib/strto.c

    Strings are in memory.  A parser returns the value and the address that
    the C function stores in [*endp]. *)

From Stdlib Require Import ZArith Lia List.
From stdpp Require Import base numbers list option gmap fin_maps.
From S2P Require Import Prelude Memory Ctype CString.

Definition EINVAL : Z := 22.

(** ** Operations *)

Definition _parse_integer_fixup_radix (m : mem) (s base : Z) : option (Z * Z) :=
  base ← (if base =? 0 then
            c0 ← load m s;
            if c0 =? 48 then
              c1 ← load m (s + 1);
              if tolower c1 =? 120 then
                c2 ← load m (s + 2);
                if isxdigit c2 then Some 16 else Some 8
              else Some 8
            else Some 10
          else Some base);
  if base =? 16 then
    c0 ← load m s;
    if c0 =? 48 then
      c1 ← load m (s + 1);
      if tolower c1 =? 120 then Some (s + 2, base) else Some (s, base)
    else Some (s, base)
  else Some (s, base).

(** The value of the character [c] that the loops compute. *)
Definition digit_value (c : Z) : Z :=
  if isdigit c then c - 48 else (if islower c then toupper c else c) - 65 + 10.

(** The same code parses an [unsigned long] and an [unsigned long long]. *)
Definition simple_strtou (w : Z) (m : mem) (cp base : Z) : option (Z * Z) :=
  '(cp, base) ← _parse_integer_fixup_radix m cp base;
  '(cp, result) ← loop_brk (S (size m)) (λ '(cp, result),
      c ← load m cp;
      if isxdigit c && (wrap w (digit_value c) <? base)
      then Some (Next (cp + 1, wrap w (result * base + wrap w (digit_value c))))
      else Some (Break (cp, result)))
    (cp, 0);
  Some (result, cp).

Definition simple_strtoul : mem → Z → Z → option (Z * Z) := simple_strtou 32.
Definition simple_strtoull : mem → Z → Z → option (Z * Z) := simple_strtou 64.

(** The results are the return value and [*res]. *)
Definition strict_strtoul (m : mem) (cp base : Z) : option (Z * Z) :=
  len ← strlen m cp;
  if len =? 0 then Some (- EINVAL, 0)
  else
    '(val, tail) ← simple_strtoul m cp base;
    if tail =? cp then Some (- EINVAL, 0)
    else
      c ← load m tail;
      if (c =? 0) || ((len =? (tail - cp) + 1) && (c =? 10)) then Some (0, val)
      else Some (- EINVAL, 0).

Definition simple_strtol (m : mem) (cp base : Z) : option (Z * Z) :=
  c ← load m cp;
  if c =? 45 then
    '(v, endp) ← simple_strtoul m (cp + 1) base; Some (s32 (- v), endp)
  else
    '(v, endp) ← simple_strtoul m cp base; Some (s32 v, endp).

(** The suffixes of [ustrtoul] and [ustrtoull]. *)
Definition ustrto_suffix (w : Z) (m : mem) (r : Z * Z) : option (Z * Z) :=
  let '(result, endp) := r in
  c ← load m endp;
  let c := tolower c in
  let result := if c =? 103 then wrap w (result * 1024) else result in
  let result := if (c =? 103) || (c =? 109) then wrap w (result * 1024) else result in
  if (c =? 103) || (c =? 109) || (c =? 107) then
    let result := wrap w (result * 1024) in
    let endp := endp + 1 in
    c ← load m endp;
    let endp := if c =? 105 then endp + 1 else endp in
    c ← load m endp;
    Some (result, if c =? 66 then endp + 1 else endp)
  else Some (result, endp).

Definition ustrtoul (m : mem) (cp base : Z) : option (Z * Z) :=
  r ← simple_strtoul m cp base; ustrto_suffix 32 m r.

Definition ustrtoull (m : mem) (cp base : Z) : option (Z * Z) :=
  r ← simple_strtoull m cp base; ustrto_suffix 64 m r.

Definition trailing_strtoln (m : mem) (str end_ : Z) : option Z :=
  end_ ← (if end_ =? NULL then len ← strlen m str; Some (str + len) else Some end_);
  c ← load m (end_ - 1);
  if isdigit c then
    o ← loop (S (size m)) (λ p,
        if str <? p then
          c ← load m p;
          if negb (isdigit c) then
            '(v, _) ← simple_strtoul m (p + 1) 10; Some (Return (s32 v))
          else Some (Next (p - 1))
        else Some (Break p))
      (end_ - 1);
    Some (match o with inl _ => -1 | inr v => v end)
  else Some (-1).

Definition trailing_strtol (m : mem) (str : Z) : option Z := trailing_strtoln m str NULL.

(** ** The numbers in strings *)

Definition has_0x (s : list Z) : bool :=
  match s with c0 :: c1 :: _ => (c0 =? 48) && (tolower c1 =? 120) | _ => false end.

(** The base that is used, and the length of the prefix that is skipped. *)
Definition radix (base : Z) (s : list Z) : Z :=
  if base =? 0 then
    match s with
    | 48 :: _ =>
        if has_0x s && match drop 2 s with c :: _ => isxdigit c | [] => false end then 16 else 8
    | _ => 10
    end
  else base.

Definition prefix (base : Z) (s : list Z) : nat :=
  if (radix base s =? 16) && has_0x s then 2%nat else O.

Definition is_digit_of (base c : Z) : bool := isxdigit c && (digit_value c <? base).

(** The number that a sequence of digits denotes, most significant first. *)
Definition number_of (base : Z) (ds : list Z) : Z :=
  fold_left (λ r c, r * base + digit_value c) ds 0.

(** The characters of the number at the start of [s]. *)
Definition digits_of (base : Z) (s : list Z) : list Z :=
  let t := drop (prefix base s) s in
  take (prefix_len (is_digit_of (radix base s)) t) t.

(** ** Lemmas *)

Lemma cstr_head m a s : cstr_at m a s → load m a = Some (hd 0 s).
Proof. destruct s; [by intros ?%cstr_at_nil|by intros (? & _)%cstr_at_cons]. Qed.

Lemma cstr_tail m a c s : cstr_at m a (c :: s) → is_char c ∧ cstr_at m (a + 1) s.
Proof. by intros (_ & ? & ?)%cstr_at_cons. Qed.

(** Reads the characters of the strings of the context. *)
Ltac cstr_read :=
  repeat match goal with
  | H : cstr_at ?m ?a _ |- context [load ?m ?a] => rewrite (cstr_head m a _ H); cbn [hd mbind option_bind]
  end.

Lemma wrap_add_l w a b : wrap w (wrap w a + b) = wrap w (a + b).
Proof. unfold wrap. apply Zplus_mod_idemp_l. Qed.

Lemma wrap_mul_l w a b : wrap w (wrap w a * b) = wrap w (a * b).
Proof. unfold wrap. apply Zmult_mod_idemp_l. Qed.

Lemma xdigit_value c : 0 ≤ c < 256 → isxdigit c = true → 0 ≤ digit_value c < 16.
Proof.
  intros Hc Hx.
  assert (implb (isxdigit c) ((0 <=? digit_value c) && (digit_value c <? 16)) = true) as H.
  { by apply (byte_cases (λ c, implb (isxdigit c) ((0 <=? digit_value c) && (digit_value c <? 16)))). }
  rewrite Hx in H. cbn in H. lia.
Qed.

Lemma fixup_spec m cp base s :
  cstr_at m cp s →
  _parse_integer_fixup_radix m cp base = Some (cp + Z.of_nat (prefix base s), radix base s).
Proof.
  intros Hs. unfold _parse_integer_fixup_radix, prefix, radix, has_0x.
  destruct s as [|c0 s]; [cstr_read|].
  { destruct (base =? 0); cbn; [by rewrite Z.add_0_r|].
    rewrite andb_false_r. destruct (base =? 16); cbn; by rewrite Z.add_0_r. }
  cstr_read. pose proof (cstr_tail _ _ _ _ Hs) as [Hc0 Hs1].
  destruct (Z.eqb_spec c0 48) as [->|Hne]; cycle 1.
  { assert (E : ∀ X Y : Z, match c0 with 48 => X | _ => Y end = Y) by (intros; repeat (destruct c0 as [|c0|c0]; try done)).
    rewrite E. destruct s as [|c1 s]; cbn; rewrite ?andb_false_r; destruct (base =? 0); cbn; rewrite ?Z.add_0_r; try done;
    destruct (base =? 16); by rewrite ?Z.add_0_r. }
  destruct s as [|c1 s]; cstr_read.
  { change (tolower 0 =? 120) with false. cbn. rewrite andb_false_r, Z.add_0_r.
    destruct (base =? 0); cbn; [done|]. by destruct (base =? 16). }
  pose proof (cstr_tail _ _ _ _ Hs1) as [Hc1 Hs2].
  replace (cp + 1 + 1) with (cp + 2) in Hs2 by lia.
  destruct (tolower c1 =? 120); cbn; rewrite ?andb_false_r, ?andb_true_r; cycle 1.
  { destruct (base =? 0); cbn; [by rewrite Z.add_0_r|]. destruct (base =? 16); cbn; by rewrite ?Z.add_0_r. }
  destruct s as [|c2 s]; cstr_read; cbn.
  { destruct (base =? 0); cbn; [by rewrite Z.add_0_r|]. destruct (base =? 16); cbn; by rewrite ?Z.add_0_r. }
  destruct (base =? 0); cbn; [destruct (isxdigit c2); cbn; by rewrite ?Z.add_0_r|].
  destruct (base =? 16); cbn; by rewrite ?Z.add_0_r.
Qed.

Lemma cstr_prefix m cp base s :
  cstr_at m cp s → cstr_at m (cp + Z.of_nat (prefix base s)) (drop (prefix base s) s).
Proof.
  intros Hs. unfold prefix. destruct (_ && has_0x s) eqn:E; cbn; [|by rewrite Z.add_0_r].
  apply andb_prop in E as [_ E]. destruct s as [|c0 [|c1 s]]; [done..|].
  apply (cstr_at_drop m cp [c0; c1] s Hs).
Qed.

Lemma digits_loop w m base s cp r fuel :
  4 ≤ w → cstr_at m cp s → (length s < fuel)%nat →
  loop_brk fuel (λ '(cp, result),
      c ← load m cp;
      if isxdigit c && (wrap w (digit_value c) <? base)
      then Some (Next (cp + 1, wrap w (result * base + wrap w (digit_value c))))
      else Some (Break (cp, result))) (cp, wrap w r)
  = let ds := take (prefix_len (is_digit_of base) s) s in
    Some (cp + Z.of_nat (length ds), wrap w (fold_left (λ r c, r * base + digit_value c) ds r)).
Proof.
  intros Hw. assert (Hw16 : 2 ^ 4 ≤ 2 ^ w) by (apply Z.pow_le_mono_r; lia).
  revert cp r fuel. induction s as [|c s IH]; intros cp r [|fuel] Hs Hf; cbn [length] in *; try lia.
  - step_break; [|cstr_read; reflexivity]. cbn. by rewrite Z.add_0_r.
  - pose proof (cstr_tail _ _ _ _ Hs) as [Hc Hs']. unfold is_char in Hc. cbn [prefix_len].
    unfold is_digit_of at 1 3. destruct (isxdigit c) eqn:Hx; cbn [andb].
    + pose proof (xdigit_value c ltac:(lia) Hx).
      destruct (digit_value c <? base) eqn:Hd.
      * step_next; [|cstr_read; rewrite Hx, wrap_small, Hd by lia; reflexivity].
        rewrite <-wrap_add_l, wrap_mul_l, wrap_add_l, IH by (done || lia).
        cbn [firstn length fold_left]. f_equal. f_equal. lia.
      * step_break; [|cstr_read; rewrite Hx, wrap_small, Hd by lia; reflexivity].
        cbn. by rewrite Z.add_0_r.
    + step_break; [|cstr_read; rewrite Hx; reflexivity]. cbn. by rewrite Z.add_0_r.
Qed.

Lemma simple_strtou_spec w m cp base s :
  4 ≤ w → cstr_at m cp s →
  simple_strtou w m cp base =
  Some (wrap w (number_of (radix base s) (digits_of base s)),
        cp + Z.of_nat (prefix base s) + Z.of_nat (length (digits_of base s))).
Proof.
  intros Hw Hs. unfold simple_strtou. rewrite (fixup_spec _ _ _ _ Hs). reduce.
  pose proof (cstr_prefix m cp base s Hs) as Hs'.
  replace 0 with (wrap w 0) at 1 by (apply wrap_small; pose proof (Z.pow_pos_nonneg 2 w); lia).
  rewrite (digits_loop w m (radix base s) (drop (prefix base s) s) _ 0); [done|done|done|].
  pose proof (cstr_at_size _ _ _ Hs'). lia.
Qed.

Lemma digit_of_10 c : 0 ≤ c < 256 → is_digit_of 10 c = isdigit c.
Proof.
  intros Hc. apply eqb_prop. by apply (byte_cases (λ c, eqb (is_digit_of 10 c) (isdigit c))).
Qed.

Lemma prefix_len_forall f s : Forall (λ c, f c = true) s → prefix_len f s = length s.
Proof. induction 1 as [|c s Hc _ IH]; cbn; [done|]. by rewrite Hc, IH. Qed.

Lemma digits_of_10 s :
  Forall is_char s → Forall (λ c, isdigit c = true) s → digits_of 10 s = s.
Proof.
  intros Hc Hd. unfold digits_of, prefix, radix. cbn [Z.eqb andb Pos.eqb drop].
  rewrite prefix_len_forall; [apply take_ge; done|].
  rewrite Forall_forall in *. intros c Hin. pose proof (Hc c Hin) as Hch. unfold is_char in Hch.
  rewrite digit_of_10 by lia. by apply Hd.
Qed.

Lemma cstr_get m a s i c : cstr_at m a s → s !! i = Some c → load m (a + Z.of_nat i) = Some c.
Proof. intros [H _] Hi. apply H. by rewrite lookup_app_l by (by eapply lookup_lt_Some). Qed.

(** The loop of [trailing_strtoln], from the last character of [a ++ ds1]. *)
Lemma trailing_loop m str a ds1 ds2 fuel :
  cstr_at m str (a ++ ds1 ++ ds2) → Forall (λ c, isdigit c = true) (ds1 ++ ds2) →
  (∀ c, last a = Some c → isdigit c = false) →
  (length ds1 < fuel)%nat →
  ∃ o, loop fuel (λ p,
        if str <? p then
          c ← load m p;
          if negb (isdigit c) then
            '(v, _) ← simple_strtoul m (p + 1) 10; Some (Return (s32 v))
          else Some (Next (p - 1))
        else Some (Break p)) (str + Z.of_nat (length (a ++ ds1)) - 1) = Some o ∧
    match o with inl _ => -1 | inr v => v end =
    if (2 <=? length a)%nat then s32 (u32 (number_of 10 (ds1 ++ ds2))) else -1.
Proof.
  revert ds2 fuel. induction ds1 as [|d ds1 IH] using rev_ind; intros ds2 fuel Hs Hd Ha Hf.
  - rewrite app_nil_r. cbn [app] in *. destruct fuel as [|fuel]; [cbn in Hf; lia|].
    destruct (Nat.leb_spec 2 (length a)) as [H2|H2].
    + destruct (last a) as [c|] eqn:Hl; [|apply last_None in Hl as ->; cbn in H2; lia].
      apply last_Some in Hl as [a' ->]. rewrite length_app in H2. cbn [length] in H2.
      eexists. split.
      * erewrite loop_return; [reflexivity|]. rewrite length_app. cbn [length].
        rewrite (proj2 (Z.ltb_lt _ _)) by lia.
        replace (str + Z.of_nat (length a' + 1) - 1) with (str + Z.of_nat (length a')) by lia.
        rewrite (cstr_get _ _ _ (length a') c Hs) by (rewrite <-app_assoc; by apply list_lookup_middle).
        cbn [mbind option_bind]. rewrite (Ha c eq_refl). cbn [negb].
        pose proof (cstr_at_drop _ _ _ _ Hs) as Hs'. rewrite length_app in Hs'. cbn [length] in Hs'.
        replace (str + Z.of_nat (length a') + 1) with (str + Z.of_nat (length a' + 1)) by lia.
        unfold simple_strtoul. rewrite (simple_strtou_spec 32 m _ 10 ds2) by (lia || done).
        rewrite digits_of_10 by (destruct Hs'; done). cbn [mbind option_bind]. reflexivity.
      * done.
    + eexists. split.
      * erewrite loop_break; [reflexivity|]. by rewrite (proj2 (Z.ltb_ge _ _)) by lia.
      * done.
  - rewrite length_app in Hf. cbn [length] in Hf. destruct fuel as [|fuel]; [lia|].
    rewrite <-app_assoc in *. cbn [app] in *.
    replace (str + Z.of_nat (length (a ++ ds1 ++ [d])) - 1) with (str + Z.of_nat (length (a ++ ds1)))
      by (rewrite !length_app; cbn; lia).
    destruct (Z.ltb_spec str (str + Z.of_nat (length (a ++ ds1)))) as [Hlt|Hge].
    + destruct (IH (d :: ds2) fuel Hs Hd Ha ltac:(lia)) as (o & Ho & Hm).
      exists o. split; [|done]. rewrite <-Ho. erewrite loop_next; [reflexivity|].
      rewrite (proj2 (Z.ltb_lt _ _)) by lia.
      rewrite (cstr_get _ _ _ (length (a ++ ds1)) d Hs) by (rewrite app_assoc; by apply list_lookup_middle).
      cbn [mbind option_bind]. rewrite Forall_forall in Hd. rewrite Hd by set_solver. done.
    + rewrite length_app in *. eexists. split.
      * erewrite loop_break; [reflexivity|]. by rewrite (proj2 (Z.ltb_ge _ _)) by lia.
      * by rewrite (proj2 (Nat.leb_gt _ _)) by lia.
Qed.

(** ** Properties *)

(** [strict_strtoul] succeeds exactly when digits of the base (after a
    prefix 0x in base 16, and with the base found from the prefix when it is 0)
    make up the string, but for one newline at its end; the result is their
    value modulo 2^32. A prefix 0x alone passes for the number 0 in base 16. *)
Theorem strict_strtoul_correct (m : mem) (cp base : Z) (s : list Z) (Hs : cstr_at m cp s) :
  let n := (prefix base s + length (digits_of base s))%nat in
  strict_strtoul m cp base =
  Some (if (n =? 0)%nat then (- EINVAL, 0)
        else if bool_decide (drop n s = []) || bool_decide (drop n s = [10])
        then (0, u32 (number_of (radix base s) (digits_of base s)))
        else (- EINVAL, 0)).
Proof.
  intros n. unfold strict_strtoul, simple_strtoul.
  rewrite (strlen_spec _ _ _ Hs), (simple_strtou_spec 32 m cp base s) by (done || lia). reduce.
  assert (Hn : (n ≤ length s)%nat).
  { unfold n, digits_of. rewrite length_take, length_drop.
    assert (prefix base s ≤ length s)%nat; [|lia].
    unfold prefix, has_0x. destruct s as [|? [|? ?]]; rewrite ?andb_false_r; cbn; try lia.
    destruct (_ && _); lia. }
  replace (cp + Z.of_nat (prefix base s) + Z.of_nat (length (digits_of base s)))
    with (cp + Z.of_nat n) by lia.
  destruct (Nat.eqb_spec n 0) as [Hz|Hz].
  - destruct (Z.eqb_spec (Z.of_nat (length s)) 0); [done|].
    by rewrite (proj2 (Z.eqb_eq _ _)) by lia.
  - rewrite !(proj2 (Z.eqb_neq _ _)) by lia.
    pose proof Hs as Hd. rewrite <-(take_drop n s) in Hd. apply cstr_at_drop in Hd.
    rewrite length_take, Nat.min_l in Hd by lia. cstr_read.
    assert (Hlen : length s = (n + length (drop n s))%nat) by (rewrite length_drop; lia).
    destruct (drop n s) as [|c [|c' t]]; cbn [hd length] in *.
    + done.
    + apply cstr_tail in Hd as [Hc _]. unfold is_char in Hc.
      rewrite (proj2 (Z.eqb_neq c 0)) by lia. rewrite (proj2 (Z.eqb_eq _ _)) by lia. cbn [orb andb].
      destruct (Z.eqb_spec c 10) as [->|Hne]; [done|].
      rewrite bool_decide_eq_false_2 by congruence. by rewrite bool_decide_eq_false_2 by congruence.
    + apply cstr_tail in Hd as [Hc _]. unfold is_char in Hc.
      rewrite (proj2 (Z.eqb_neq c 0)) by lia. rewrite (proj2 (Z.eqb_neq (Z.of_nat (length s)) _)) by lia.
      by rewrite !bool_decide_eq_false_2 by congruence.
Qed.

(** [trailing_strtol] returns the number of the digits at the end of the
    string provided at least two characters come before them, and -1
    otherwise. *)
Theorem trailing_strtol_correct (m : mem) (str : Z) (a ds : list Z)
    (Hs : cstr_at m str (a ++ ds)) (Hds : Forall (λ c, isdigit c = true) ds)
    (Ha : ∀ c, last a = Some c → isdigit c = false) (Hne : a ++ ds ≠ []) :
  trailing_strtol m str =
  Some (if (2 <=? length a)%nat && negb (bool_decide (ds = []))
        then s32 (u32 (number_of 10 ds)) else -1).
Proof.
  unfold trailing_strtol, trailing_strtoln, NULL. cbn [Z.eqb].
  rewrite (strlen_spec _ _ _ Hs). reduce.
  destruct (exists_last_or_nil (a ++ ds)) as [|(t & c & E)]; [done|].
  assert (Hc : load m (str + Z.of_nat (length (a ++ ds)) - 1) = Some c).
  { replace (_ - 1) with (str + Z.of_nat (length t)) by (rewrite E, length_app; cbn; lia).
    apply (cstr_get _ _ _ _ _ Hs). rewrite E. by apply list_lookup_middle. }
  rewrite Hc. reduce. destruct (decide (ds = [])) as [->|Hdn].
  - rewrite app_nil_r in E. rewrite (Ha c) by (rewrite E; apply last_snoc).
    by rewrite bool_decide_eq_true_2, andb_false_r.
  - rewrite bool_decide_eq_false_2, andb_true_r by done.
    assert (isdigit c = true) as ->.
    { rewrite Forall_forall in Hds. apply Hds.
      assert (last (a ++ ds) = Some c) as Hl by (rewrite E; apply last_snoc).
      rewrite last_app in Hl. destruct (last ds) as [d|] eqn:Hld; [|by apply last_None in Hld].
      injection Hl as ->. by apply last_Some_elem_of. }
    destruct (trailing_loop m str a ds [] (S (size m))) as (o & Ho & Hm).
    { by rewrite app_nil_r. } { by rewrite app_nil_r. } { done. }
    { apply cstr_at_size in Hs. rewrite length_app in Hs. lia. }
    rewrite Ho. reduce. rewrite Hm, app_nil_r. done.
Qed.

(** ** Witnesses and examples *)

(** "0x12ab\n" and "mmc0p12". *)
Definition ex_hex : mem := mem_of 16 [48; 120; 49; 50; 97; 98; 10; 0].
Definition ex_part : mem := mem_of 16 [109; 109; 99; 48; 112; 49; 50; 0].

Lemma strict_strtoul_correct_witness :
  strict_strtoul ex_hex 16 0 = Some (0, 0x12ab).
Proof.
  assert (Hs : cstr_at ex_hex 16 [48; 120; 49; 50; 97; 98; 10]).
  { split; [apply bytes_at_mem_of|repeat constructor; done]. }
  exact (strict_strtoul_correct ex_hex 16 0 _ Hs).
Defined.

Lemma trailing_strtol_correct_witness : trailing_strtol ex_part 16 = Some 12.
Proof.
  refine (trailing_strtol_correct ex_part 16 [109; 109; 99; 48; 112] [49; 50] _ _ _ _).
  - split; [apply bytes_at_mem_of|repeat constructor; done].
  - by repeat constructor.
  - by intros c [= <-].
  - done.
Defined.

(** A number at the start of the string, or after its first character, is not
    found; the documentation promises "trailing number if found". *)
Example trailing_strtol_start :
  trailing_strtol (mem_of 16 [49; 50; 51; 0]) 16 = Some (-1) ∧
  trailing_strtol (mem_of 16 [97; 49; 50; 51; 0]) 16 = Some (-1) ∧
  trailing_strtol (mem_of 16 [97; 98; 49; 50; 51; 0]) 16 = Some 123.
Proof. by vm_compute. Qed.

(** [trailing_strtoln] of the five characters "abc12" of "abc1234" looks at the
    digits after the end. *)
Example trailing_strtoln_beyond :
  trailing_strtoln (mem_of 16 [97; 98; 99; 49; 50; 51; 52; 0]) 16 21 = Some 1234.
Proof. by vm_compute. Qed.

(** [trailing_strtol] reads the byte before an empty string. *)
Example trailing_strtol_empty : trailing_strtol (mem_of 16 [0]) 16 = None.
Proof. by vm_compute. Qed.

(** In base 16, "0x" is accepted as the number 0. *)
Example strict_strtoul_prefix : strict_strtoul (mem_of 16 [48; 120; 0]) 16 16 = Some (0, 0).
Proof. by vm_compute. Qed.
