(* ===== verification/Number.v ===== *)
(** * Number: the output of numbers in lib/vsprintf.c

    [vsnprintf] and its helpers write through the macro [ADDCH]: a character
    is stored if the position is below [end], and the position, an address of 32
    bits, advances in any case.  The position and the memory are the state of
    the output. *)

From Stdlib Require Import ZArith Lia List.
From stdpp Require Import base numbers list option gmap fin_maps.
From S2P Require Import Prelude Memory Ctype CString Strto.

Abbreviation out := (mem * Z)%type.

Definition ADDCH (end_ ch : Z) (o : out) : option out :=
  let '(m, str) := o in
  if str <? end_ then m ← store m str ch; Some (m, u32 (str + 1)) else Some (m, u32 (str + 1)).

Definition ZEROPAD : Z := 1.
Definition SIGN : Z := 2.
Definition PLUS : Z := 4.
Definition SPACE : Z := 8.
Definition LEFT : Z := 16.
Definition SMALL : Z := 32.
Definition SPECIAL : Z := 64.

(** The test [type & FLAG]. *)
Definition flag (type f : Z) : bool := negb (Z.land type f =? 0).

(** ** Decimal digits, least significant first, appended to [buf] *)

Definition put_dec_trunc (buf : list Z) (q : Z) : list Z :=
  let d1 := Z.land (Z.shiftr q 4) 0xf in
  let d2 := Z.land (Z.shiftr q 8) 0xf in
  let d3 := Z.shiftr q 12 in
  let d0 := 6 * (d3 + d2 + d1) + Z.land q 0xf in
  let q := Z.shiftr (d0 * 0xcd) 11 in
  let d0 := d0 - 10 * q in
  let buf := buf ++ [d0 + 48] in
  let d1 := q + 9 * d3 + 5 * d2 + d1 in
  if negb (d1 =? 0) then
    let q := Z.shiftr (d1 * 0xcd) 11 in
    let d1 := d1 - 10 * q in
    let buf := buf ++ [d1 + 48] in
    let d2 := q + 2 * d2 in
    if negb (d2 =? 0) || negb (d3 =? 0) then
      let q := Z.shiftr (d2 * 0xd) 7 in
      let d2 := d2 - 10 * q in
      let buf := buf ++ [d2 + 48] in
      let d3 := q + 4 * d3 in
      if negb (d3 =? 0) then
        let q := Z.shiftr (d3 * 0xcd) 11 in
        let d3 := d3 - 10 * q in
        let buf := buf ++ [d3 + 48] in
        if negb (q =? 0) then buf ++ [q + 48] else buf
      else buf
    else buf
  else buf.

Definition put_dec_full (buf : list Z) (q : Z) : list Z :=
  let d1 := Z.land (Z.shiftr q 4) 0xf in
  let d2 := Z.land (Z.shiftr q 8) 0xf in
  let d3 := Z.shiftr q 12 in
  let d0 := 6 * (d3 + d2 + d1) + Z.land q 0xf in
  let q := Z.shiftr (d0 * 0xcd) 11 in
  let d0 := d0 - 10 * q in
  let buf := buf ++ [d0 + 48] in
  let d1 := q + 9 * d3 + 5 * d2 + d1 in
  let q := Z.shiftr (d1 * 0xcd) 11 in
  let d1 := d1 - 10 * q in
  let buf := buf ++ [d1 + 48] in
  let d2 := q + 2 * d2 in
  let q := Z.shiftr (d2 * 0xd) 7 in
  let d2 := d2 - 10 * q in
  let buf := buf ++ [d2 + 48] in
  let d3 := q + 4 * d3 in
  let q := Z.shiftr (d3 * 0xcd) 11 in
  let d3 := d3 - 10 * q in
  let buf := buf ++ [d3 + 48] in
  buf ++ [q + 48].

(** 64 iterations are more than a 64-bit number needs. *)
Definition put_dec (buf : list Z) (num : Z) : option (list Z) :=
  o ← loop 64 (λ '(buf, num),
      if num <? 100000 then Some (Return (put_dec_trunc buf num))
      else
        let rem := num mod 100000 in
        Some (Next (put_dec_full buf rem, num / 100000)))
    (buf, num);
  Some (match o with inl (buf, _) => buf | inr buf => buf end).

Definition digits : list Z :=
  [48; 49; 50; 51; 52; 53; 54; 55; 56; 57; 65; 66; 67; 68; 69; 70].

(** The digits of [num] in base 8 or 16, least significant first. *)
Definition put_hex (num base locase : Z) : option (list Z) :=
  let mask := base - 1 in
  let shift := if base =? 16 then 4 else 3 in
  '(tmp, _) ← loop_brk 64 (λ '(tmp, num),
      d ← arr_get digits (Z.land (u8 num) mask);
      let tmp := tmp ++ [Z.lor d locase] in
      let num := Z.shiftr num shift in
      if num =? 0 then Some (Break (tmp, num)) else Some (Next (tmp, num)))
    ([], num);
  Some tmp.

(** [while (--size >= 0) ADDCH(buf, c)]. *)
Definition pad (end_ c : Z) (o : out) (size_ : Z) : option (out * Z) :=
  loop_brk (S (Z.to_nat size_)) (λ '(o, size_),
      let size_ := size_ - 1 in
      if 0 <=? size_ then o ← ADDCH end_ c o; Some (Next (o, size_))
      else Some (Break (o, size_)))
    (o, size_).

Definition number (end_ num base size_ precision type : Z) (o : out) : option out :=
  let need_pfx := flag type SPECIAL && negb (base =? 10) in
  let locase := Z.land type SMALL in
  let type := if flag type LEFT then Z.land type (Z.lnot ZEROPAD) else type in
  let '(sign, num, size_) :=
    if flag type SIGN then
      if swrap 64 num <? 0 then (45, u64 (- swrap 64 num), size_ - 1)
      else if flag type PLUS then (43, num, size_ - 1)
      else if flag type SPACE then (32, num, size_ - 1)
      else (0, num, size_)
    else (0, num, size_) in
  let size_ :=
    if need_pfx then if base =? 16 then size_ - 1 - 1 else size_ - 1 else size_ in
  tmp ← (if num =? 0 then Some [48]
         else if negb (base =? 10) then put_hex num base locase
         else put_dec [] num);
  let i := Z.of_nat (length tmp) in
  let precision := if precision <? i then i else precision in
  let size_ := size_ - precision in
  '(o, size_) ← (if negb (flag type (ZEROPAD + LEFT)) then pad end_ 32 o size_
                 else Some (o, size_));
  o ← (if negb (sign =? 0) then ADDCH end_ sign o else Some o);
  o ← (if need_pfx then
         o ← ADDCH end_ 48 o;
         if base =? 16 then ADDCH end_ (Z.lor 88 locase) o else Some o
       else Some o);
  '(o, size_) ← (if negb (flag type LEFT)
                 then pad end_ (if flag type ZEROPAD then 48 else 32) o size_
                 else Some (o, size_));
  '(o, _) ← loop_brk (S (Z.to_nat precision)) (λ '(o, precision),
      let precision := precision - 1 in
      if i <=? precision then o ← ADDCH end_ 48 o; Some (Next (o, precision))
      else Some (Break (o, precision)))
    (o, precision);
  '(o, _) ← loop_brk (S (length tmp)) (λ '(o, i),
      let i := i - 1 in
      if 0 <=? i then c ← arr_get tmp i; o ← ADDCH end_ c o; Some (Next (o, i))
      else Some (Break (o, i)))
    (o, i);
  '(o, _) ← pad end_ 32 o size_;
  Some o.

(** [while (len < field_width--) ADDCH(buf, ' ')]. *)
Definition pad_to (end_ len : Z) (o : out) (field_width : Z) : option (out * Z) :=
  loop_brk (S (Z.to_nat (field_width - len))) (λ '(o, field_width),
      if len <? field_width then o ← ADDCH end_ 32 o; Some (Next (o, field_width - 1))
      else Some (Break (o, field_width - 1)))
    (o, field_width).

(** ** What is written *)

(** The characters [l], one [ADDCH] after the other. *)
Fixpoint puts (end_ : Z) (l : list Z) (o : out) : option out :=
  match l with
  | [] => Some o
  | c :: l => o ← ADDCH end_ c o; puts end_ l o
  end.

Lemma puts_app end_ l k o : puts end_ (l ++ k) o = o ← puts end_ l o; puts end_ k o.
Proof.
  revert o. induction l as [|c l IH]; intros o; cbn; [done|]. destruct (ADDCH end_ c o); [apply IH|done].
Qed.

Lemma puts_one end_ c o : puts end_ [c] o = ADDCH end_ c o.
Proof. cbn. by destruct (ADDCH end_ c o). Qed.

(** The output after the text [l]: the part of it that fits is in memory. *)
Definition emit (end_ : Z) (l : list Z) (o : out) : out :=
  (set_bytes (fst o) (snd o) (take (Z.to_nat (end_ - snd o)) (map u8 l)), snd o + Z.of_nat (length l)).

(** The position does not wrap around in the next [n] characters, and the
    places below [end_] that they take exist. *)
Definition no_wrap (n : Z) (o : out) : Prop := 0 ≤ snd o ∧ snd o + n < 2 ^ 32.
Definition out_ok (end_ n : Z) (o : out) : Prop :=
  mapped (fst o) (snd o) (Z.min n (end_ - snd o)) ∧ no_wrap n o.

Lemma puts_emit end_ l o :
  out_ok end_ (Z.of_nat (length l)) o → puts end_ l o = Some (emit end_ l o).
Proof.
  revert o. induction l as [|c l IH]; intros [m str] Ho.
  - cbn. unfold emit. cbn [fst snd length map]. by rewrite take_nil, Z.add_0_r.
  - cbn [puts]. unfold ADDCH, out_ok, no_wrap, emit in *. cbn [fst snd length map] in *.
    destruct Ho as (Ho & Hp & Hw). rewrite (wrap_small 32 (str + 1)) by lia. destruct (Z.ltb_spec str end_).
    + rewrite (store_mapped m _ _ _ _ Ho) by lia. reduce. rewrite IH; cbn [fst snd].
      * replace (Z.to_nat (end_ - str)) with (S (Z.to_nat (end_ - (str + 1)))) by lia.
        cbn [firstn set_bytes]. f_equal. f_equal. lia.
      * split; [|lia]. apply mapped_insert. eapply mapped_sub; [exact Ho|lia|lia].
    + reduce. rewrite IH; cbn [fst snd].
      * replace (Z.to_nat (end_ - str)) with O by lia.
        replace (Z.to_nat (end_ - (str + 1))) with O by lia. cbn [firstn set_bytes]. f_equal. f_equal. lia.
      * split; [|lia]. intros a Ha. lia.
Qed.

(** The position behind the text. *)
Lemma puts_position end_ l o o' : no_wrap (Z.of_nat (length l)) o → puts end_ l o = Some o' →
  snd o' = snd o + Z.of_nat (length l).
Proof.
  revert o. induction l as [|c l IH]; intros [m str] [Hp Hw]; cbn [puts length snd fst] in *; [intros [= <-]; cbn; lia|].
  unfold ADDCH. rewrite (wrap_small 32 (str + 1)) by lia. destruct (str <? end_).
  - destruct (store m str c) as [m1|]; cbn [mbind option_bind]; [|done].
    intros H. rewrite (IH (m1, str + 1)); [cbn [snd]; lia|split; cbn [snd]; lia|done].
  - cbn [mbind option_bind]. intros H. rewrite (IH (m, str + 1)); [cbn [snd]; lia|split; cbn [snd]; lia|done].
Qed.

Lemma map_u8 l : Forall is_byte l → map u8 l = l.
Proof. induction 1 as [|c l Hc _ IH]; cbn; [done|]. by rewrite IH, wrap_small. Qed.

(** Both sides write the same text first. *)
Ltac same_puts :=
  match goal with |- context [puts ?e ?l ?o] =>
    let o' := fresh "o" in destruct (puts e l o) as [o'|]; cbn [mbind option_bind]; [|done] end.
Ltac adv := repeat (rewrite ?puts_app; same_puts).
Ltac same_addch :=
  match goal with |- context [ADDCH ?e ?c ?o] =>
    let o' := fresh "o" in let H := fresh "Hadd" in
    destruct (ADDCH e c o) as [o'|] eqn:H; cbn [mbind option_bind] end.

(** ** Padding *)

Definition spaces (c n : Z) : list Z := replicate (Z.to_nat n) c.

Lemma spaces_nonpos c n : n ≤ 0 → spaces c n = [].
Proof. intros H. unfold spaces. by replace (Z.to_nat n) with O by lia. Qed.

Lemma spaces_cons c n : 0 < n → spaces c n = c :: spaces c (n - 1).
Proof. intros H. unfold spaces. by replace (Z.to_nat n) with (S (Z.to_nat (n - 1))) by lia. Qed.

Lemma pad_spec end_ c o n :
  pad end_ c o n = o ← puts end_ (spaces c n) o; Some (o, Z.min n 0 - 1).
Proof.
  unfold pad. remember (Z.to_nat n) as k eqn:Hk. revert o n Hk.
  induction k as [|k IH]; intros o n Hk.
  - step_break; [|by rewrite (proj2 (Z.leb_gt _ _)) by lia].
    rewrite spaces_nonpos by lia. cbn. do 2 f_equal. lia.
  - rewrite (spaces_cons c n) by lia. cbn [puts]. same_addch.
    + step_next; [|rewrite (proj2 (Z.leb_le _ _)) by lia; rewrite Hadd; reduce; reflexivity].
      rewrite IH by lia. same_puts. do 2 f_equal. lia.
    + apply loop_brk_none. cbv zeta. rewrite (proj2 (Z.leb_le _ _)) by lia. by rewrite Hadd.
Qed.

Lemma pad_to_spec end_ len o n :
  pad_to end_ len o n = o ← puts end_ (spaces 32 (n - len)) o; Some (o, Z.min n len - 1).
Proof.
  unfold pad_to. remember (Z.to_nat (n - len)) as k eqn:Hk. revert o n Hk.
  induction k as [|k IH]; intros o n Hk.
  - step_break; [|by rewrite (proj2 (Z.ltb_ge _ _)) by lia].
    rewrite spaces_nonpos by lia. cbn. do 2 f_equal. lia.
  - rewrite (spaces_cons 32 (n - len)) by lia. cbn [puts]. same_addch.
    + step_next; [|rewrite (proj2 (Z.ltb_lt _ _)) by lia; rewrite Hadd; reduce; reflexivity].
      rewrite IH by lia. replace (n - 1 - len) with (n - len - 1) by lia. same_puts. do 2 f_equal. lia.
    + apply loop_brk_none. rewrite (proj2 (Z.ltb_lt _ _)) by lia. by rewrite Hadd.
Qed.

(** ** The digits of a number *)

Definition is_case (locase : Z) : Prop := locase = 0 ∨ locase = 32.

Definition dchar (locase d : Z) : Z := if d <? 10 then 48 + d else Z.lor (55 + d) locase.

(** At most [fuel] digits of [n], least significant first; 0 has one digit. *)
Fixpoint rev_digits (fuel : nat) (base locase n : Z) : list Z :=
  match fuel with
  | O => []
  | S fuel =>
      dchar locase (n mod base) ::
      (if n / base =? 0 then [] else rev_digits fuel base locase (n / base))
  end.

Definition to_digits (base locase n : Z) : list Z := rev (rev_digits 64 base locase n).

Lemma dchar_value lc d : is_case lc → 0 ≤ d < 16 →
  isxdigit (dchar lc d) = true ∧ digit_value (dchar lc d) = d ∧ 48 ≤ dchar lc d < 128 ∧
  ((dchar lc d =? 48) = (d =? 0)).
Proof.
  intros Hlc Hd.
  assert (d = 0 ∨ d = 1 ∨ d = 2 ∨ d = 3 ∨ d = 4 ∨ d = 5 ∨ d = 6 ∨ d = 7 ∨ d = 8 ∨ d = 9 ∨
          d = 10 ∨ d = 11 ∨ d = 12 ∨ d = 13 ∨ d = 14 ∨ d = 15) as Hcases by lia.
  destruct Hlc as [->| ->]; repeat (destruct Hcases as [->|Hcases]; [by vm_compute|]);
    subst; by vm_compute.
Qed.

Lemma number_of_snoc base l c : number_of base (l ++ [c]) = number_of base l * base + digit_value c.
Proof. unfold number_of. by rewrite fold_left_app. Qed.

Lemma rev_digits_value fuel base lc n :
  is_case lc → 2 ≤ base ≤ 16 → 0 ≤ n < base ^ Z.of_nat fuel →
  number_of base (rev (rev_digits fuel base lc n)) = n.
Proof.
  intros Hlc Hb. revert n. induction fuel as [|fuel IH]; intros n Hn; [cbn in *; lia|].
  cbn [rev_digits rev]. rewrite number_of_snoc.
  pose proof (Z.mod_pos_bound n base ltac:(lia)) as Hm.
  pose proof (Z.div_mod n base ltac:(lia)) as Hdm.
  destruct (dchar_value lc (n mod base)) as (_ & -> & _); [done|lia|].
  destruct (Z.eqb_spec (n / base) 0) as [Hz|Hz]; [cbn; lia|].
  rewrite IH; [lia|]. split; [apply Z.div_pos; lia|].
  rewrite Nat2Z.inj_succ, Z.pow_succ_r in Hn by lia. apply Z.div_lt_upper_bound; lia.
Qed.

Lemma rev_digits_chars fuel base lc n :
  is_case lc → 2 ≤ base ≤ 16 → 0 ≤ n →
  Forall (λ c, is_digit_of base c = true ∧ is_char c) (rev_digits fuel base lc n).
Proof.
  intros Hlc Hb. revert n. induction fuel as [|fuel IH]; intros n Hn; [constructor|].
  cbn [rev_digits]. pose proof (Z.mod_pos_bound n base ltac:(lia)) as Hm. constructor.
  - destruct (dchar_value lc (n mod base)) as (Hx & Hv & Hr & _); [done|lia|].
    unfold is_digit_of, is_char. rewrite Hx, Hv. cbn. lia.
  - destruct (n / base =? 0); [constructor|]. apply IH. apply Z.div_pos; lia.
Qed.

Lemma rev_digits_length fuel base lc n k :
  2 ≤ base → 0 ≤ n < base ^ Z.of_nat k → (1 ≤ k)%nat → (length (rev_digits fuel base lc n) ≤ k)%nat.
Proof.
  intros Hb. revert n k. induction fuel as [|fuel IH]; intros n k Hn Hk; cbn; [lia|].
  destruct (Z.eqb_spec (n / base) 0) as [Hz|Hz]; cbn; [lia|].
  destruct k as [|[|k]]; [lia| |].
  - exfalso. apply Hz. rewrite Z.pow_1_r in Hn. by apply Z.div_small.
  - apply le_n_S, IH; [|lia]. split; [apply Z.div_pos; lia|].
    rewrite (Nat2Z.inj_succ (S k)), Z.pow_succ_r in Hn by lia. apply Z.div_lt_upper_bound; lia.
Qed.

(** The digits written do not depend on the fuel, once it is enough. *)
Lemma rev_digits_fuel f1 f2 base lc n :
  2 ≤ base → 0 ≤ n < base ^ Z.of_nat f1 → (1 ≤ f1 ≤ f2)%nat →
  rev_digits f1 base lc n = rev_digits f2 base lc n.
Proof.
  intros Hb. revert f2 n. induction f1 as [|f1 IH]; intros [|f2] n Hn Hf; try lia. cbn.
  destruct (Z.eqb_spec (n / base) 0) as [Hz|Hz]; [done|]. f_equal.
  destruct f1 as [|f1].
  - exfalso. apply Hz. change (Z.of_nat 1) with 1 in Hn. rewrite Z.pow_1_r in Hn. by apply Z.div_small.
  - apply IH; [|lia]. split; [apply Z.div_pos; lia|].
    rewrite (Nat2Z.inj_succ (S f1)), Z.pow_succ_r in Hn by lia. apply Z.div_lt_upper_bound; lia.
Qed.

(** [x * 205 / 2048] and [x * 13 / 128] divide small numbers by ten. *)
Lemma shift_div_cd x : 0 ≤ x < 1029 → Z.shiftr (x * 0xcd) 11 = x / 10.
Proof. intros Hx. rewrite Z.shiftr_div_pow2 by lia. change (2 ^ 11) with 2048.
  Z.to_euclidean_division_equations. lia.
Qed.

Lemma shift_div_0d x : 0 ≤ x < 69 → Z.shiftr (x * 0xd) 7 = x / 10.
Proof. intros Hx. rewrite Z.shiftr_div_pow2 by lia. change (2 ^ 7) with 128.
  Z.to_euclidean_division_equations. lia.
Qed.

Lemma nibbles q : 0 ≤ q < 100000 →
  Z.land q 0xf = q mod 16 ∧ Z.land (Z.shiftr q 4) 0xf = q / 16 mod 16 ∧
  Z.land (Z.shiftr q 8) 0xf = q / 256 mod 16 ∧ Z.shiftr q 12 = q / 4096.
Proof.
  intros Hq. change 0xf with (Z.ones 4).
  rewrite !Z.land_ones, !Z.shiftr_div_pow2 by lia. done.
Qed.

Lemma div_mod_10 a r q : a = r + 10 * q → 0 ≤ r < 10 → a / 10 = q ∧ a mod 10 = r.
Proof. intros. Z.to_euclidean_division_equations. lia. Qed.

Lemma split_10 a : 0 ≤ a → ∃ r q, a / 10 = q ∧ a mod 10 = r ∧ a = r + 10 * q ∧ 0 ≤ r < 10 ∧ 0 ≤ q.
Proof. intros. exists (a mod 10), (a / 10). Z.to_euclidean_division_equations. lia. Qed.

(** The digits that the nibbles of [q] give, carry after carry. *)
Lemma dec_step q : 0 ≤ q < 100000 ->
  let d1 := q / 16 mod 16 in let d2 := q / 256 mod 16 in let d3 := q / 4096 in
  let e0 := 6 * (d3 + d2 + d1) + q mod 16 in
  let e1 := e0 / 10 + 9 * d3 + 5 * d2 + d1 in
  let e2 := e1 / 10 + 2 * d2 in
  let e3 := e2 / 10 + 4 * d3 in
  (0 ≤ e0 < 1029 ∧ 0 ≤ e1 < 1029 ∧ 0 ≤ e2 < 69 ∧ 0 ≤ e3 < 1029) ∧
  e0 - 10 * (e0 / 10) = q mod 10 ∧ q / 10 = e1 + 20 * d2 + 400 * d3 ∧
  e1 - 10 * (e1 / 10) = q / 10 mod 10 ∧ q / 10 / 10 = e2 + 40 * d3 ∧
  e2 - 10 * (e2 / 10) = q / 10 / 10 mod 10 ∧ q / 10 / 10 / 10 = e3 ∧
  e3 - 10 * (e3 / 10) = e3 mod 10.
Proof.
  intros Hq d1 d2 d3 e0 e1 e2 e3.
  assert (Hd : ∃ d0, q mod 16 = d0 ∧ q = d0 + 16 * d1 + 256 * d2 + 4096 * d3 ∧
     0 ≤ d0 < 16 ∧ 0 ≤ d1 < 16 ∧ 0 ≤ d2 < 16 ∧ 0 ≤ d3 ≤ 24).
  { exists (q mod 16). split; [done|].
    pose proof (Z.div_mod q 16 ltac:(lia)). pose proof (Z.div_mod (q / 16) 16 ltac:(lia)).
    pose proof (Z.div_mod (q / 16 / 16) 16 ltac:(lia)). rewrite !Z.div_div in * by lia.
    pose proof (Z.mod_pos_bound q 16). pose proof (Z.mod_pos_bound (q / 16) 16). pose proof (Z.mod_pos_bound (q / 256) 16).
    change (16 * 16) with 256 in *. change (256 * 16) with 4096 in *.
    subst d1 d2 d3.
    assert (0 ≤ q / 4096 ≤ 24) by (Z.to_euclidean_division_equations; lia). lia. }
  destruct Hd as (d0 & E0 & Hsum & R0 & R1 & R2 & R3).
  subst e0 e1 e2 e3. rewrite E0. clearbody d1 d2 d3. clear E0.
  set (e0 := 6 * (d3 + d2 + d1) + d0).
  destruct (split_10 e0) as (r0 & c0 & -> & Hm0 & Hs0 & Hr0 & Hc0); [lia|].
  set (e1 := c0 + 9 * d3 + 5 * d2 + d1).
  destruct (split_10 e1) as (r1 & c1 & -> & Hm1 & Hs1 & Hr1 & Hc1); [lia|].
  set (e2 := c1 + 2 * d2).
  destruct (split_10 e2) as (r2 & c2 & -> & Hm2 & Hs2 & Hr2 & Hc2); [lia|].
  set (e3 := c2 + 4 * d3).
  destruct (split_10 e3) as (r3 & c3 & -> & Hm3 & Hs3 & Hr3 & Hc3); [lia|].
  destruct (div_mod_10 q r0 (e1 + 20 * d2 + 400 * d3)) as [-> ->]; [lia..|].
  destruct (div_mod_10 (e1 + 20 * d2 + 400 * d3) r1 (e2 + 40 * d3)) as [-> ->]; [lia..|].
  destruct (div_mod_10 (e2 + 40 * d3) r2 e3) as [-> ->]; [lia..|].
  rewrite Hm3. lia.
Qed.

Ltac nibble q :=
  let H := fresh in
  pose proof (nibbles q ltac:(lia)) as H; destruct H as (-> & -> & -> & ->);
  pose proof (dec_step q ltac:(lia)) as H; cbv zeta in H;
  destruct H as ((? & ? & ? & ?) & E0 & D1 & E1 & D2 & E2 & D3 & E3);
  cbv zeta;
  set (d1 := q / 16 mod 16) in *; set (d2 := q / 256 mod 16) in *; set (d3 := q / 4096) in *;
  set (e0 := 6 * (d3 + d2 + d1) + q mod 16) in *; rewrite (shift_div_cd e0) by lia;
  set (e1 := e0 / 10 + 9 * d3 + 5 * d2 + d1) in *; rewrite (shift_div_cd e1) by lia;
  set (e2 := e1 / 10 + 2 * d2) in *; rewrite (shift_div_0d e2) by lia;
  set (e3 := e2 / 10 + 4 * d3) in *; rewrite (shift_div_cd e3) by lia.

Lemma dchar_10 lc n : dchar lc (n mod 10) = n mod 10 + 48.
Proof.
  unfold dchar. pose proof (Z.mod_pos_bound n 10). rewrite (proj2 (Z.ltb_lt _ _)) by lia. lia.
Qed.

Lemma put_dec_full_spec buf q lc : 0 ≤ q < 100000 →
  put_dec_full buf q =
  buf ++ [dchar lc (q mod 10); dchar lc (q / 10 mod 10); dchar lc (q / 10 / 10 mod 10);
          dchar lc (q / 10 / 10 / 10 mod 10); dchar lc (q / 10 / 10 / 10 / 10 mod 10)].
Proof.
  intros Hq. unfold put_dec_full. nibble q.
  rewrite !dchar_10, D3, <-E0, <-E1, <-E2, <-E3, <-!app_assoc. cbn [app].
  rewrite (Z.mod_small (e3 / 10)); [done|]. Z.to_euclidean_division_equations. lia.
Qed.

Lemma put_dec_trunc_spec buf q lc : 0 ≤ q < 100000 →
  put_dec_trunc buf q = buf ++ rev_digits 5 10 lc q.
Proof.
  intros Hq. unfold put_dec_trunc. nibble q.
  assert (0 ≤ d1 ∧ 0 ≤ d2 ∧ 0 ≤ d3 ∧ 0 ≤ e0 / 10 ∧ 0 ≤ e1 / 10 ∧ 0 ≤ e2 / 10) as (? & ? & ? & ? & ? & ?).
  { subst d1 d2 d3. split_and!; [| | |apply Z.div_pos; lia..]; Z.to_euclidean_division_equations; lia. }
  assert (e1 = 0 → d2 = 0 ∧ d3 = 0 ∧ e2 = 0) as Hz1.
  { intros Hz. assert (d2 = 0 ∧ d3 = 0) as [? ?] by (subst e1; lia).
    subst e2. rewrite Hz. change (0 / 10) with 0. lia. }
  assert (e2 = 0 ∧ d3 = 0 → e3 = 0) as Hz2 by (intros [Hz ?]; subst e3; rewrite Hz; change (0 / 10) with 0; lia).
  assert (e3 = 0 → d3 = 0) as Hz3 by (subst e3; lia).
  assert (e3 / 10 / 10 = 0) as Hz4 by (rewrite <-D3, !Z.div_div by lia; apply Z.div_small; lia).
  assert (e3 / 10 mod 10 = e3 / 10) as Hz5 by (revert Hz4; generalize (e3 / 10); intros; Z.to_euclidean_division_equations; lia).
  cbn [rev_digits]. rewrite !dchar_10, D3, <-E0, <-E1, <-E2, <-E3, Hz5, <-!app_assoc. cbn [app].
  destruct (Z.eqb_spec e1 0), (Z.eqb_spec (q / 10) 0); cbn [negb]; try lia; [done|].
  destruct (Z.eqb_spec e2 0), (Z.eqb_spec d3 0), (Z.eqb_spec (q / 10 / 10) 0); cbn [negb orb]; try lia;
    try done; destruct (Z.eqb_spec e3 0); cbn [negb]; try lia; try done;
    destruct (Z.eqb_spec (e3 / 10) 0); try done; by rewrite Hz4.
Qed.

Lemma rev_digits_block fuel lc n : 100000 ≤ n →
  rev_digits (5 + fuel) 10 lc n =
  let q := n mod 100000 in
  [dchar lc (q mod 10); dchar lc (q / 10 mod 10); dchar lc (q / 10 / 10 mod 10);
   dchar lc (q / 10 / 10 / 10 mod 10); dchar lc (q / 10 / 10 / 10 / 10 mod 10)] ++
  rev_digits fuel 10 lc (n / 100000).
Proof.
  intros Hn. cbn [Nat.add rev_digits]. cbv zeta.
  rewrite !Z.div_div by lia.
  change (10 * 10) with 100. change (100 * 10) with 1000. change (1000 * 10) with 10000.
  change (10000 * 10) with 100000.
  rewrite !(proj2 (Z.eqb_neq _ 0)) by (Z.to_euclidean_division_equations; lia).
  cbn [app].
  assert (n = n mod 100000 + 100000 * (n / 100000)) as E by (Z.to_euclidean_division_equations; lia).
  revert E. generalize (n mod 100000), (n / 100000). intros q r ->.
  assert (H10 : (q + 100000 * r) mod 10 = q mod 10) by (Z.to_euclidean_division_equations; lia).
  assert (H1 : (q + 100000 * r) / 10 = q / 10 + 10000 * r) by (Z.to_euclidean_division_equations; lia).
  assert (H2 : (q + 100000 * r) / 100 = q / 100 + 1000 * r) by (Z.to_euclidean_division_equations; lia).
  assert (H3 : (q + 100000 * r) / 1000 = q / 1000 + 100 * r) by (Z.to_euclidean_division_equations; lia).
  assert (H4 : (q + 100000 * r) / 10000 = q / 10000 + 10 * r) by (Z.to_euclidean_division_equations; lia).
  assert (Hm : ∀ a b k, b = 10 * k → (a + b) mod 10 = a mod 10)
    by (intros a b k ->; Z.to_euclidean_division_equations; lia).
  rewrite H10, H1, H2, H3, H4, (Hm _ _ (1000 * r)), (Hm _ _ (100 * r)), (Hm _ _ (10 * r)), (Hm _ _ r) by lia.
  done.
Qed.

Lemma put_dec_loop fuel buf n lc :
  (1 ≤ fuel)%nat → 0 ≤ n < 10 ^ (5 * Z.of_nat fuel) →
  loop fuel (λ '(buf, num),
      if num <? 100000 then Some (Return (put_dec_trunc buf num))
      else Some (Next (put_dec_full buf (num mod 100000), num / 100000))) (buf, n)
  = Some (inr (buf ++ rev_digits (5 * fuel) 10 lc n)).
Proof.
  revert buf n. induction fuel as [|fuel IH]; intros buf n Hf Hn; [lia|].
  destruct (Z.ltb_spec n 100000) as [Hlt|Hge].
  - erewrite loop_return; [|by rewrite (proj2 (Z.ltb_lt _ _)) by done].
    rewrite (put_dec_trunc_spec buf n lc) by lia. do 3 f_equal. apply rev_digits_fuel; cbn; lia.
  - assert (1 ≤ fuel)%nat.
    { destruct fuel; [|lia]. change (10 ^ (5 * Z.of_nat 1)) with 100000 in Hn. lia. }
    erewrite loop_next; [|by rewrite (proj2 (Z.ltb_ge _ _)) by done].
    assert (Hm : 0 ≤ n mod 100000 < 100000) by (apply Z.mod_pos_bound; lia).
    rewrite (put_dec_full_spec buf _ lc Hm), IH; [|done|].
    + replace (5 * S fuel)%nat with (5 + 5 * fuel)%nat by lia.
      rewrite rev_digits_block by done. cbv zeta. by rewrite <-app_assoc.
    + split; [apply Z.div_pos; lia|]. apply Z.div_lt_upper_bound; [lia|].
      replace (5 * Z.of_nat (S fuel)) with (5 + 5 * Z.of_nat fuel) in Hn by lia.
      rewrite Z.pow_add_r in Hn by lia. exact (proj2 Hn).
Qed.

Lemma put_dec_spec buf n lc : 0 ≤ n < 2 ^ 64 → put_dec buf n = Some (buf ++ rev_digits 64 10 lc n).
Proof.
  intros Hn. assert (E : rev_digits 64 10 lc n = rev_digits (5 * 64) 10 lc n).
  { apply rev_digits_fuel; [lia| |lia]. split; [lia|]. eapply Z.lt_trans; [apply Hn|]. reflexivity. }
  rewrite E. unfold put_dec. cbv zeta. rewrite (put_dec_loop 64 buf n lc); [reflexivity|lia|].
  split; [lia|]. eapply Z.lt_trans; [apply Hn|]. reflexivity.
Qed.

Lemma digits_get lc d : is_case lc → 0 ≤ d < 16 →
  ∃ c, arr_get digits d = Some c ∧ Z.lor c lc = dchar lc d.
Proof.
  intros Hlc Hd.
  assert (d = 0 ∨ d = 1 ∨ d = 2 ∨ d = 3 ∨ d = 4 ∨ d = 5 ∨ d = 6 ∨ d = 7 ∨ d = 8 ∨ d = 9 ∨
          d = 10 ∨ d = 11 ∨ d = 12 ∨ d = 13 ∨ d = 14 ∨ d = 15) as Hcases by lia.
  destruct Hlc as [->| ->]; repeat (destruct Hcases as [->|Hcases]; [by eexists|]);
    subst; by eexists.
Qed.

Lemma put_hex_spec n base lc :
  is_case lc → base = 8 ∨ base = 16 → 0 ≤ n < 2 ^ 64 →
  put_hex n base lc = Some (rev_digits 64 base lc n).
Proof.
  intros Hlc Hb Hn. unfold put_hex. cbv zeta.
  assert (Hn' : n < base ^ Z.of_nat 64).
  { eapply Z.lt_trans; [apply Hn|]. destruct Hb; subst base; reflexivity. }
  clear Hn'. enough (H : ∀ fuel tmp n, 0 ≤ n < base ^ Z.of_nat fuel → (1 ≤ fuel)%nat →
    loop_brk fuel (λ '(tmp, num),
      d ← arr_get digits (Z.land (u8 num) (base - 1));
      if Z.shiftr num (if base =? 16 then 4 else 3) =? 0
      then Some (Break (tmp ++ [Z.lor d lc], Z.shiftr num (if base =? 16 then 4 else 3)))
      else Some (Next (tmp ++ [Z.lor d lc], Z.shiftr num (if base =? 16 then 4 else 3)))) (tmp, n)
    = Some (tmp ++ rev_digits fuel base lc n, 0)).
  { rewrite H; [done| |lia]. split; [lia|]. eapply Z.lt_trans; [apply Hn|].
    destruct Hb; subst base; reflexivity. }
  clear n Hn. intros fuel. induction fuel as [|fuel IH]; intros tmp n Hn Hf; [lia|].
  assert (Hd : Z.land (u8 n) (base - 1) = n mod base).
  { unfold wrap. destruct Hb; subst base.
    - change (8 - 1) with (Z.ones 3). rewrite Z.land_ones by lia. Z.to_euclidean_division_equations. lia.
    - change (16 - 1) with (Z.ones 4). rewrite Z.land_ones by lia. Z.to_euclidean_division_equations. lia. }
  assert (Hs : Z.shiftr n (if base =? 16 then 4 else 3) = n / base).
  { destruct Hb; subst base; cbn; by rewrite Z.shiftr_div_pow2 by lia. }
  destruct (digits_get lc (n mod base) Hlc) as (c & Hc & Hcd).
  { pose proof (Z.mod_pos_bound n base). lia. }
  destruct (Z.eqb_spec (n / base) 0) as [Hz|Hz].
  - step_break; [|rewrite Hd, Hc, Hs, Hz; reduce; reflexivity].
    cbn [rev_digits]. by rewrite Hz, Hcd.
  - step_next; [|rewrite Hd, Hc, Hs, (proj2 (Z.eqb_neq _ _) Hz); reduce; reflexivity].
    destruct fuel as [|fuel].
    { exfalso. change (Z.of_nat 1) with 1 in Hn. rewrite Z.pow_1_r in Hn. apply Hz. by apply Z.div_small. }
    rewrite IH; [|split; [apply Z.div_pos; lia|]|lia].
    + cbn [rev_digits]. rewrite (proj2 (Z.eqb_neq _ _) Hz), Hcd, <-app_assoc. done.
    + rewrite (Nat2Z.inj_succ (S fuel)), Z.pow_succ_r in Hn by lia. apply Z.div_lt_upper_bound; lia.
Qed.

(** ** Flags *)

Lemma flag_bit t k : 0 ≤ k → flag t (2 ^ k) = Z.testbit t k.
Proof.
  intros Hk. unfold flag. destruct (Z.testbit t k) eqn:Hb.
  - apply negb_true_iff, Z.eqb_neq. intros H.
    apply (f_equal (λ z, Z.testbit z k)) in H.
    by rewrite Z.land_spec, Hb, Z.pow2_bits_true, Z.bits_0 in H by done.
  - apply negb_false_iff, Z.eqb_eq. apply Z.bits_inj'. intros n Hn.
    rewrite Z.land_spec, Z.bits_0, Z.pow2_bits_eqb by done.
    destruct (Z.eqb_spec k n) as [->|]; [by rewrite Hb|apply andb_false_r].
Qed.

Lemma flag_or t f g : flag t (Z.lor f g) = flag t f || flag t g.
Proof.
  unfold flag. rewrite Z.land_lor_distr_r. apply eq_true_iff_eq.
  rewrite orb_true_iff, !negb_true_iff, !Z.eqb_neq, Z.lor_eq_0_iff.
  destruct (decide (Z.land t f = 0)), (decide (Z.land t g = 0)); tauto.
Qed.

Lemma flag_clear t k f : 0 ≤ k → 0 ≤ f →
  flag (Z.land t (Z.lnot (2 ^ f))) (2 ^ k) = flag t (2 ^ k) && negb (k =? f).
Proof.
  intros Hk Hf. rewrite !flag_bit, Z.land_spec, Z.lnot_spec, Z.pow2_bits_eqb by done.
  by rewrite (Z.eqb_sym f k).
Qed.

Lemma flag_case t : is_case (Z.land t SMALL).
Proof.
  unfold is_case. pose proof (flag_bit t 5 ltac:(lia)) as H. unfold flag in H.
  change (2 ^ 5) with SMALL in H. destruct (Z.testbit t 5) eqn:Hb.
  - right. apply Z.bits_inj'. intros n Hn. change 32 with (2 ^ 5). change SMALL with (2 ^ 5).
    rewrite Z.land_spec, Z.pow2_bits_eqb by lia.
    destruct (Z.eqb_spec 5 n) as [<-|]; [by rewrite Hb|apply andb_false_r].
  - left. apply negb_false_iff, Z.eqb_eq in H. done.
Qed.

(** ** The text of a number *)

(** The sign character, or none, and the magnitude. *)
Definition number_sign (num type : Z) : list Z * Z :=
  if flag type SIGN then
    if swrap 64 num <? 0 then ([45], u64 (- swrap 64 num))
    else ((if flag type PLUS then [43] else if flag type SPACE then [32] else []), num)
  else ([], num).

Definition number_prefix (base type : Z) : list Z :=
  if flag type SPECIAL && negb (base =? 10)
  then if base =? 16 then [48; Z.lor 88 (Z.land type SMALL)] else [48] else [].

Definition number_text (num base size_ precision type : Z) : list Z :=
  let '(sign, num) := number_sign num type in
  let ds := to_digits base (Z.land type SMALL) num in
  let body := spaces 48 (precision - Z.of_nat (length ds)) ++ ds in
  let lead := sign ++ number_prefix base type in
  let w := size_ - Z.of_nat (length lead) - Z.of_nat (length body) in
  if flag type LEFT then lead ++ body ++ spaces 32 w
  else if flag type ZEROPAD then lead ++ spaces 48 w ++ body
  else spaces 32 w ++ lead ++ body.

(** The digits as the code has them, before they are reversed. *)
Lemma digits_spec num base type :
  base = 8 ∨ base = 10 ∨ base = 16 → 0 ≤ num < 2 ^ 64 →
  (if num =? 0 then Some [48]
   else if negb (base =? 10) then put_hex num base (Z.land type SMALL)
   else put_dec [] num) = Some (rev (to_digits base (Z.land type SMALL) num)).
Proof.
  intros Hb Hn. unfold to_digits. rewrite rev_involutive.
  pose proof (flag_case type) as Hlc. destruct (Z.eqb_spec num 0) as [->|Hnz].
  - cbn [rev_digits]. rewrite Z.mod_0_l, Z.div_0_l by lia. done.
  - destruct (Z.eqb_spec base 10) as [->|Hb10]; cbn [negb].
    + by rewrite (put_dec_spec [] num (Z.land type SMALL) Hn).
    + apply put_hex_spec; [done|lia|done].
Qed.

Lemma to_digits_bytes base lc n :
  is_case lc → 2 ≤ base ≤ 16 → 0 ≤ n → Forall is_char (to_digits base lc n).
Proof.
  intros Hlc Hb Hn. unfold to_digits. rewrite Forall_forall. intros c Hc.
  apply list_elem_of_In, in_rev, list_elem_of_In in Hc.
  pose proof (rev_digits_chars 64 base lc n Hlc Hb Hn) as H. rewrite Forall_forall in H.
  by apply H.
Qed.

Lemma digit_loop end_ tmp k o :
  (k ≤ length tmp)%nat →
  loop_brk (S k) (λ '(o, i),
      let i := i - 1 in
      if 0 <=? i then c ← arr_get tmp i; o ← ADDCH end_ c o; Some (Next (o, i))
      else Some (Break (o, i))) (o, Z.of_nat k)
  = o ← puts end_ (rev (take k tmp)) o; Some (o, -1).
Proof.
  revert o. induction k as [|k IH]; intros o Hk; [by step_break|].
  destruct (lookup_lt_is_Some_2 tmp k) as [c Hc]; [lia|].
  assert (Hget : arr_get tmp (Z.of_nat k) = Some c) by (apply arr_get_Some; rewrite Nat2Z.id; split; [lia|done]).
  rewrite (take_S_r _ _ c Hc), rev_app_distr. cbn [rev app puts].
  assert (Hi : Z.of_nat (S k) - 1 = Z.of_nat k) by lia. same_addch.
  - step_next; [|rewrite Hi, (proj2 (Z.leb_le _ _)), Hget by lia; reduce; rewrite Hadd; reduce; reflexivity].
    apply IH. lia.
  - apply loop_brk_none. cbv zeta. rewrite Hi, (proj2 (Z.leb_le _ _)), Hget by lia. reduce. by rewrite Hadd.
Qed.

Lemma zeros_loop end_ i p o :
  0 ≤ i →
  loop_brk (S (Z.to_nat p)) (λ '(o, precision),
      let precision := precision - 1 in
      if i <=? precision then o ← ADDCH end_ 48 o; Some (Next (o, precision))
      else Some (Break (o, precision))) (o, p)
  = o ← puts end_ (spaces 48 (p - i)) o; Some (o, Z.min p i - 1).
Proof.
  intros Hi. remember (Z.to_nat p) as k eqn:Hk. revert o p Hk.
  induction k as [|k IH]; intros o p Hk.
  - step_break; [|by rewrite (proj2 (Z.leb_gt _ _)) by lia].
    rewrite spaces_nonpos by lia. cbn. do 2 f_equal. lia.
  - destruct (Z.leb_spec i (p - 1)).
    + rewrite (spaces_cons 48 (p - i)) by lia. cbn [puts]. same_addch.
      * step_next; [|rewrite (proj2 (Z.leb_le _ _)) by lia; rewrite Hadd; reduce; reflexivity].
        rewrite IH by lia. replace (p - 1 - i) with (p - i - 1) by lia. same_puts. do 2 f_equal. lia.
      * apply loop_brk_none. cbv zeta. rewrite (proj2 (Z.leb_le _ _)) by lia. by rewrite Hadd.
    + step_break; [|by rewrite (proj2 (Z.leb_gt _ _)) by lia].
      rewrite spaces_nonpos by lia. cbn. do 2 f_equal. lia.
Qed.

(** The flags after [ZEROPAD] is cleared when [LEFT] is set. *)
Definition eff (type : Z) : Z := if flag type LEFT then Z.land type (Z.lnot ZEROPAD) else type.

Lemma eff_flag type k : 0 < k → flag (eff type) (2 ^ k) = flag type (2 ^ k).
Proof.
  intros Hk. unfold eff. destruct (flag type LEFT); [|done].
  change ZEROPAD with (2 ^ 0). rewrite flag_clear by lia.
  rewrite (proj2 (Z.eqb_neq k 0)) by lia. apply andb_true_r.
Qed.

Lemma eff_zeropad type : flag (eff type) ZEROPAD = flag type ZEROPAD && negb (flag type LEFT).
Proof.
  unfold eff. destruct (flag type LEFT); [|by rewrite andb_true_r].
  change ZEROPAD with (2 ^ 0). by rewrite flag_clear by lia.
Qed.

Lemma eff_pad type : flag (eff type) (ZEROPAD + LEFT) = flag type ZEROPAD || flag type LEFT.
Proof.
  change (ZEROPAD + LEFT) with (Z.lor ZEROPAD LEFT). rewrite flag_or, eff_zeropad.
  change LEFT with (2 ^ 4). rewrite eff_flag by lia.
  destruct (flag type ZEROPAD), (flag type (2 ^ 4)); done.
Qed.

Lemma sign_spec num size_ type :
  let '(text, n) := number_sign num type in
  ∃ sign, (if flag (eff type) SIGN then
      if swrap 64 num <? 0 then (45, u64 (- swrap 64 num), size_ - 1)
      else if flag (eff type) PLUS then (43, num, size_ - 1)
      else if flag (eff type) SPACE then (32, num, size_ - 1)
      else (0, num, size_)
    else (0, num, size_)) = (sign, n, size_ - Z.of_nat (length text)) ∧
  ∀ end_ o, (if negb (sign =? 0) then ADDCH end_ sign o else Some o) = puts end_ text o.
Proof.
  unfold number_sign. change SIGN with (2 ^ 1). change PLUS with (2 ^ 2). change SPACE with (2 ^ 3).
  rewrite !eff_flag by lia.
  destruct (flag type (2 ^ 1)); [destruct (_ <? 0); [|destruct (flag type (2 ^ 2)); [|destruct (flag type (2 ^ 3))]]|];
    cbv iota beta; eexists; (split; [rewrite ?Z.sub_0_r; reflexivity|]); intros; cbn [Z.eqb negb];
    by rewrite ?puts_one.
Qed.

Lemma number_sign_range num type : 0 ≤ num < 2 ^ 64 → 0 ≤ snd (number_sign num type) < 2 ^ 64.
Proof.
  intros Hn. unfold number_sign. destruct (flag type SIGN); [destruct (_ <? 0)|]; cbn; try done.
  by apply wrap_range.
Qed.

Lemma prefix_spec end_ base type o :
  (if flag type SPECIAL && negb (base =? 10) then
     o ← ADDCH end_ 48 o;
     if base =? 16 then ADDCH end_ (Z.lor 88 (Z.land type SMALL)) o else Some o
   else Some o) = puts end_ (number_prefix base type) o.
Proof.
  unfold number_prefix. destruct (flag type SPECIAL && negb (base =? 10)); [|done].
  destruct (base =? 16); cbn [puts]; same_addch; try done; by same_addch.
Qed.

(** [number] adds exactly the text of the number. *)
Lemma number_spec end_ num base size_ precision type o :
  base = 8 ∨ base = 10 ∨ base = 16 → 0 ≤ num < 2 ^ 64 →
  number end_ num base size_ precision type o =
  puts end_ (number_text num base size_ precision type) o.
Proof.
  intros Hb Hn. unfold number, number_text. cbv zeta. fold (eff type).
  pose proof (sign_spec num size_ type) as Hs. pose proof (number_sign_range num type Hn) as Hr.
  destruct (number_sign num type) as [sg n]. cbn [snd] in Hr. destruct Hs as (sign & -> & Hsign).
  rewrite digits_spec by done. reduce. set (ds := to_digits _ _ _). rewrite length_rev.
  set (i := Z.of_nat (length ds)). set (prec := if precision <? i then i else precision).
  assert (Hprec : prec = Z.max precision i) by (unfold prec; bools; lia).
  set (sz := if flag type SPECIAL && negb (base =? 10) then _ else _).
  assert (Hsz : sz = size_ - Z.of_nat (length (sg ++ number_prefix base type))).
  { unfold sz, number_prefix. rewrite length_app.
    destruct (flag type SPECIAL && negb (base =? 10)); [destruct (base =? 16)|]; cbn [length]; lia. }
  set (body := spaces 48 (precision - i) ++ ds).
  assert (Hbody : Z.of_nat (length body) = prec) by (unfold body, spaces; rewrite length_app, length_replicate; lia).
  assert (Hz : spaces 48 (precision - i) = spaces 48 (prec - i)) by (unfold spaces; f_equal; lia).
  replace (size_ - _ - Z.of_nat (length body)) with (sz - prec) by lia. set (w := sz - prec).
  unfold body. rewrite Hz, eff_pad, eff_zeropad.
  change LEFT with (2 ^ 4). rewrite eff_flag by lia. change (2 ^ 4) with LEFT.
  assert (Hneg : ∀ x, puts end_ (spaces 32 (Z.min x 0 - 1)) = puts end_ []) by (intros; by rewrite spaces_nonpos by lia).
  destruct (flag type LEFT), (flag type ZEROPAD); cbn [orb andb negb]; reduce; rewrite ?pad_spec; adv;
    rewrite Hsign; adv; rewrite prefix_spec; adv; rewrite ?pad_spec, ?Hneg; cbn [puts mbind option_bind]; adv;
    rewrite zeros_loop by lia; adv;
    rewrite (digit_loop end_ (rev ds) (length ds)) by (rewrite length_rev; lia);
    rewrite take_ge, rev_involutive by (rewrite length_rev; lia); adv;
    rewrite pad_spec, ?Hneg; fold w; cbn [puts mbind option_bind]; adv; done.
Qed.

(** ** Reading a number back *)

Lemma digit_char_not_x base c : is_digit_of base c = true → is_char c → (tolower c =? 120) = false.
Proof.
  intros Hd Hc. unfold is_char in Hc. unfold is_digit_of in Hd. apply andb_prop in Hd as [Hx _].
  rewrite tolower_x by lia. rewrite isxdigit_spec in Hx by lia. bools; lia.
Qed.

Lemma digits_of_plain base ds :
  base = 8 ∨ base = 10 ∨ base = 16 →
  Forall (λ c, is_digit_of base c = true ∧ is_char c) ds →
  prefix base ds = O ∧ radix base ds = base ∧ digits_of base ds = ds.
Proof.
  intros Hb Hds. assert (Hr : radix base ds = base).
  { unfold radix. by rewrite (proj2 (Z.eqb_neq base 0)) by lia. }
  assert (Hp : prefix base ds = O).
  { unfold prefix, has_0x. destruct ds as [|c0 [|c1 ds]]; rewrite ?andb_false_r; try done.
    inversion Hds as [|? ? _ H]; subst. inversion H as [|? ? [H1 H2] _]; subst.
    by rewrite (digit_char_not_x base c1 H1 H2), !andb_false_r. }
  split_and!; [done|done|]. unfold digits_of. rewrite Hp, Hr. cbn [drop].
  rewrite prefix_len_forall; [by apply take_ge|]. eapply Forall_impl; [exact Hds|]. by intros c [].
Qed.

Lemma zero_digit base : 2 ≤ base → is_digit_of base 48 = true ∧ is_char 48 ∧ digit_value 48 = 0.
Proof.
  intros Hb. unfold is_digit_of. change (isxdigit 48) with true. change (digit_value 48) with 0.
  rewrite (proj2 (Z.ltb_lt 0 base)) by lia. unfold is_char. split_and!; (done || lia).
Qed.

Lemma number_of_zeros base k ds : number_of base (replicate k 48 ++ ds) = number_of base ds.
Proof.
  unfold number_of. rewrite fold_left_app. f_equal. induction k as [|k IH]; [done|].
  cbn [replicate fold_left]. change (0 * base + digit_value 48) with 0. exact IH.
Qed.

(** The text of an unsigned number with zeros before its digits. *)
Lemma number_text_unsigned num base size_ precision type :
  flag type SIGN = false → flag type LEFT = false →
  flag type ZEROPAD = true ∨ size_ ≤ 0 →
  ∃ k, number_text num base size_ precision type =
       number_prefix base type ++ replicate k 48 ++ to_digits base (Z.land type SMALL) num.
Proof.
  intros Hs Hl Hz. unfold number_text, number_sign. rewrite Hs, Hl. cbn [app length].
  set (ds := to_digits _ _ _). set (z := spaces 48 (precision - Z.of_nat (length ds))).
  destruct (flag type ZEROPAD) eqn:Hzf.
  - set (w := spaces 48 _). unfold w, z, spaces.
    eexists (_ + _)%nat. rewrite replicate_add, <-app_assoc. reflexivity.
  - destruct Hz as [?|Hz]; [done|]. rewrite spaces_nonpos by lia. by eexists.
Qed.

Definition parse_text_ok (base type num : Z) (l : list Z) : Prop :=
  Forall is_char l ∧ number_of base (digits_of base l) = num ∧ radix base l = base ∧
  (prefix base l + length (digits_of base l))%nat = length l.

Lemma number_text_parses num base k type :
  base = 8 ∨ base = 10 ∨ base = 16 → 0 ≤ num < 2 ^ 64 →
  parse_text_ok base type num
    (number_prefix base type ++ replicate k 48 ++ to_digits base (Z.land type SMALL) num).
Proof.
  intros Hb Hn. pose proof (flag_case type) as Hlc.
  set (ds := replicate k 48 ++ _).
  assert (Hds : Forall (λ c, is_digit_of base c = true ∧ is_char c) ds).
  { apply Forall_app. split.
    - apply Forall_replicate. destruct (zero_digit base) as (? & ? & _); [lia|done].
    - unfold to_digits. apply Forall_rev. apply rev_digits_chars; [done|lia|lia]. }
  assert (Hval : number_of base ds = num).
  { unfold ds. rewrite number_of_zeros. unfold to_digits. apply rev_digits_value; [done|lia|].
    split; [lia|]. eapply Z.lt_trans; [apply Hn|]. destruct Hb as [-> | [-> | ->]]; reflexivity. }
  destruct (digits_of_plain base ds Hb Hds) as (Hp & Hr & Hdo).
  assert (Hch : Forall is_char ds) by (eapply Forall_impl; [exact Hds|]; by intros c []).
  unfold number_prefix. destruct (flag type SPECIAL && negb (base =? 10)) eqn:Hpf.
  2:{ cbn [app]. unfold parse_text_ok. by rewrite Hdo, Hp. }
  destruct (Z.eqb_spec base 16) as [->|Hb16].
  - cbn [app]. set (x := Z.lor 88 _).
    assert (Hx : x = 88 ∨ x = 120) by (unfold x; destruct Hlc as [-> | ->]; [by left|by right]).
    assert (H0x : has_0x (48 :: x :: ds) = true) by (destruct Hx as [-> | ->]; done).
    unfold parse_text_ok, digits_of, prefix. change (radix 16 (48 :: x :: ds)) with 16. rewrite H0x. cbn [Z.eqb andb Pos.eqb drop].
    rewrite prefix_len_forall, take_ge by (done || (eapply Forall_impl; [exact Hds|]; by intros c [])).
    split_and!; [|done|done|done]. constructor; [done|]. constructor; [|done].
    destruct Hx as [-> | ->]; unfold is_char; lia.
  - change ([48] ++ ds) with (replicate 1 48 ++ ds).
    assert (Hds' : Forall (λ c, is_digit_of base c = true ∧ is_char c) (replicate 1 48 ++ ds)).
    { constructor; [|done]. destruct (zero_digit base) as (? & ? & _); [lia|done]. }
    destruct (digits_of_plain base _ Hb Hds') as (Hp' & Hr' & Hdo').
    unfold parse_text_ok. rewrite Hdo', Hp', number_of_zeros. split_and!; try done.
    eapply Forall_impl; [exact Hds'|]; by intros c [].
Qed.

Lemma puts_fits end_ l o :
  Forall is_byte l → snd o + Z.of_nat (length l) ≤ end_ → no_wrap (Z.of_nat (length l)) o →
  mapped (fst o) (snd o) (Z.of_nat (length l)) →
  puts end_ l o = Some (set_bytes (fst o) (snd o) l, snd o + Z.of_nat (length l)).
Proof.
  intros Hl Hf Hw Hm. rewrite puts_emit; [|split; [by rewrite Z.min_l by lia|done]].
  unfold emit. rewrite map_u8 by done. by rewrite take_ge by lia.
Qed.

(** ** Properties *)

Lemma rev_digits_last base lc n fuel :
  is_case lc → 2 ≤ base ≤ 16 → 0 < n < base ^ Z.of_nat fuel →
  ∃ l c, rev_digits fuel base lc n = l ++ [c] ∧ c ≠ 48.
Proof.
  intros Hlc Hb. revert n. induction fuel as [|fuel IH]; intros n Hn; [cbn in *; lia|]. cbn [rev_digits].
  pose proof (Z.mod_pos_bound n base ltac:(lia)) as Hm. pose proof (Z.div_mod n base ltac:(lia)) as Hdm.
  destruct (Z.eqb_spec (n / base) 0) as [Hz|Hz].
  - exists [], (dchar lc (n mod base)). split; [done|].
    destruct (dchar_value lc (n mod base)) as (_ & _ & _ & H0); [done|lia|].
    rewrite (proj2 (Z.eqb_neq (n mod base) 0)) in H0 by lia. by apply Z.eqb_neq.
  - destruct (IH (n / base)) as (l & c & -> & Hc).
    { assert (0 ≤ n / base) by (apply Z.div_pos; lia). split; [lia|].
      rewrite Nat2Z.inj_succ, Z.pow_succ_r in Hn by lia. apply Z.div_lt_upper_bound; lia. }
    by exists (dchar lc (n mod base) :: l), c.
Qed.

(** [put_dec], which divides by shifts and multiplications and by blocks of
    five digits, gives the decimal digits of every 64-bit number: their value
    is the number and only 0 starts with a zero. *)
Theorem put_dec_correct (num : Z) (Hn : 0 ≤ num < 2 ^ 64) :
  ∃ tmp, put_dec [] num = Some tmp ∧
    Forall (λ c, isdigit c = true) tmp ∧ (length tmp ≤ 20)%nat ∧
    number_of 10 (rev tmp) = num ∧ (num = 0 ∨ hd 0 (rev tmp) ≠ 48).
Proof.
  exists (rev_digits 64 10 0 num).
  assert (H64 : num < 10 ^ Z.of_nat 64) by (eapply Z.lt_trans; [apply Hn|reflexivity]).
  split_and!.
  - by rewrite (put_dec_spec [] num 0 Hn).
  - eapply Forall_impl; [apply (rev_digits_chars 64 10 0); [by left|lia|lia]|].
    intros c [Hd Hc]. unfold is_char in Hc. rewrite <-(digit_of_10 c) by lia. done.
  - apply (rev_digits_length 64 10 0 num 20); [lia| |lia]. split; [lia|].
    eapply Z.lt_trans; [apply Hn|reflexivity].
  - apply rev_digits_value; [by left|lia|lia].
  - destruct (decide (num = 0)) as [->|Hnz]; [by left|right].
    destruct (rev_digits_last 10 0 num 64) as (l & c & -> & Hc); [by left|lia|lia|].
    by rewrite rev_app_distr.
Qed.

(** C33. What number writes, simple_strtoull reads back: with room for the
    text and its terminator below end, in base 8, 10 or 16, in upper or lower
    case, with or without the prefix and with any padding by zeros, the number
    is returned and all of the text is consumed; the addresses are those of 32
    bits. *)
Theorem number_roundtrip (m : mem) (str end_ num base size_ precision type : Z)
    (Hstr : 0 ≤ str) (Hend : end_ < 2 ^ 32) (Hm : mapped m str (end_ - str)) (Hb : base = 8 ∨ base = 10 ∨ base = 16)
    (Hn : 0 ≤ num < 2 ^ 64) (Hs : flag type SIGN = false) (Hl : flag type LEFT = false)
    (Hz : flag type ZEROPAD = true ∨ size_ ≤ 0)
    (Hroom : str + Z.of_nat (length (number_text num base size_ precision type)) < end_) :
  ∃ m1 p m2, number end_ num base size_ precision type (m, str) = Some (m1, p) ∧
    ADDCH end_ 0 (m1, p) = Some (m2, p + 1) ∧
    simple_strtoull m2 str base = Some (num, p).
Proof.
  rewrite (number_spec end_ num base size_ precision type (m, str)) by done.
  destruct (number_text_unsigned num base size_ precision type Hs Hl Hz) as [k E].
  pose proof (number_text_parses num base k type Hb Hn) as (Hch & Hval & Hr & Hlen). rewrite <-E in *.
  set (t := number_text _ _ _ _ _) in *.
  rewrite puts_fits; [|eapply Forall_impl; [exact Hch|exact is_char_byte]|cbn; lia|split; cbn; lia
    |eapply mapped_sub; [exact Hm|cbn; lia|cbn; lia]].
  do 3 eexists. split; [done|]. split.
  { rewrite <-puts_one, puts_fits; cbn [fst snd length]; [reflexivity|by repeat constructor|lia|split; cbn; lia|].
    apply mapped_set_bytes. eapply mapped_sub; [exact Hm|lia|lia]. }
  cbn [fst snd]. rewrite <-set_bytes_app.
  assert (Hc : cstr_at (set_bytes m str (t ++ [0])) str t) by (split; [apply bytes_at_set_same|done]).
  unfold simple_strtoull. rewrite (simple_strtou_spec 64 _ _ base t) by (lia || done).
  rewrite Hr, Hval, wrap_small by done. f_equal. f_equal. lia.
Qed.

(** ** Witnesses and examples *)

Lemma put_dec_correct_witness :
  ∃ tmp, put_dec [] 18446744073709551615 = Some tmp ∧
    Forall (λ c, isdigit c = true) tmp ∧ (length tmp ≤ 20)%nat ∧
    number_of 10 (rev tmp) = 18446744073709551615 ∧
    (18446744073709551615 = 0 ∨ hd 0 (rev tmp) ≠ 48).
Proof. apply put_dec_correct. lia. Defined.

(** 0xbeef with the prefix, padded to ten characters: "0x0000beef". *)
Lemma number_roundtrip_witness :
  let m := mem_of 16 (replicate 12 7) in
  ∃ m1 p m2, number 28 0xbeef 16 10 (-1) (SPECIAL + SMALL + ZEROPAD) (m, 16) = Some (m1, p) ∧
    ADDCH 28 0 (m1, p) = Some (m2, p + 1) ∧ simple_strtoull m2 16 16 = Some (0xbeef, p).
Proof.
  apply (number_roundtrip (mem_of 16 (replicate 12 7)) 16 28 0xbeef 16 10 (-1) (SPECIAL + SMALL + ZEROPAD)).
  - done.
  - done.
  - by eapply bytes_at_mapped; [apply bytes_at_mem_of|].
  - by right; right.
  - done.
  - done.
  - done.
  - by left.
  - by vm_compute.
Defined.

Example number_text_example :
  number_text 0xbeef 16 10 (-1) (SPECIAL + SMALL + ZEROPAD) =
    [48; 120; 48; 48; 48; 48; 98; 101; 101; 102] ∧
  number_text (u64 (-42)) 10 6 4 SIGN = [32; 45; 48; 48; 52; 50].
Proof. by vm_compute. Qed.

(** The most negative number has its own magnitude. *)
Example number_text_min :
  number_text (2 ^ 63) 10 (-1) (-1) SIGN =
    45 :: to_digits 10 0 9223372036854775808.
Proof. by vm_compute. Qed.
