(* ===== verification/Vsprintf.v ===== *)
(** * Vsprintf: the formatted output of lib/vsprintf.c

    The arguments of a call are the list of the values that [va_arg] gives,
    one element each, whatever their types.  The [switch] of
    [vsnprintf_internal] is in two steps: [next_directive] reads the format and
    the arguments, [exec] writes.  The conversions %ls, %pD and %pU of the EFI
    and UUID configurations have no result. *)

From Stdlib Require Import ZArith Lia List.
From stdpp Require Import base numbers list option gmap fin_maps.
From S2P Require Import Prelude Memory Ctype CString Strto Number.

Definition INT_MAX : Z := 2 ^ 31 - 1.

(** The last addresses stand for errors (include/linux/err.h). *)
Definition MAX_ERRNO : Z := 4095.
Definition IS_ERR (ptr : Z) : bool := u32 (- MAX_ERRNO) <=? ptr.
Definition PTR_ERR (ptr : Z) : Z := s32 ptr.

(** ** Strings and addresses *)

(** The characters that [read] gives, [len] of them, in their field. *)
Definition put_string (end_ : Z) (read : mem → Z → option Z) (len field_width flags : Z) (o : out)
    : option out :=
  '(o, field_width) ← (if negb (flag flags LEFT) then pad_to end_ len o field_width
                       else Some (o, field_width));
  '(o, _) ← loop_brk (S (Z.to_nat len)) (λ '(o, i),
      if i <? len then
        c ← read (fst o) i;
        o ← ADDCH end_ c o;
        Some (Next (o, i + 1))
      else Some (Break (o, i)))
    (o, 0);
  '(o, _) ← pad_to end_ len o field_width;
  Some o.

Definition null_text : list Z := [60; 78; 85; 76; 76; 62].

(** A string that the function has in an array of its own. *)
Definition local_string (end_ : Z) (s : list Z) (field_width precision flags : Z) (o : out) : option out :=
  put_string end_ (λ _ i, arr_get s i) (Z.min (Z.of_nat (length s)) (u32 precision)) field_width flags o.

(** The precision is converted to [size_t] by the call of [strnlen]. *)
Definition string (end_ s field_width precision flags : Z) (o : out) : option out :=
  if s =? NULL then local_string end_ null_text field_width precision flags o
  else
    len ← strnlen (fst o) s (u32 precision);
    put_string end_ (λ m i, load m (s + i)) len field_width flags o.

Definition hex_asc : list Z :=
  [48; 49; 50; 51; 52; 53; 54; 55; 56; 57; 97; 98; 99; 100; 101; 102].

Definition hex_byte_pack (buf : list Z) (byte : Z) : option (list Z) :=
  hi ← arr_get hex_asc (Z.shiftr (Z.land byte 0xf0) 4);
  lo ← arr_get hex_asc (Z.land byte 0x0f);
  Some (buf ++ [hi; lo]).

Definition mac_address_chars (m : mem) (addr flags : Z) : option (list Z) :=
  '(p, _) ← loop_brk 7 (λ '(p, i),
      if i <? 6 then
        b ← load m (addr + i);
        p ← hex_byte_pack p b;
        Some (Next (if negb (flag flags SPECIAL) && negb (i =? 5) then p ++ [58] else p, i + 1))
      else Some (Break (p, i)))
    ([], 0);
  Some p.

Definition ip6_addr_chars (m : mem) (addr flags : Z) : option (list Z) :=
  '(p, _) ← loop_brk 9 (λ '(p, i),
      if i <? 8 then
        b ← load m (addr + 2 * i);
        p ← hex_byte_pack p b;
        b ← load m (addr + (2 * i + 1));
        p ← hex_byte_pack p b;
        Some (Next (if negb (flag flags SPECIAL) && negb (i =? 7) then p ++ [58] else p, i + 1))
      else Some (Break (p, i)))
    ([], 0);
  Some p.

Definition ip4_addr_chars (m : mem) (addr : Z) : option (list Z) :=
  '(p, _) ← loop_brk 5 (λ '(p, i),
      if i <? 4 then
        b ← load m (addr + i);
        let temp := put_dec_trunc [] b in
        let p := p ++ rev temp in
        Some (Next (if negb (i =? 3) then p ++ [46] else p, i + 1))
      else Some (Break (p, i)))
    ([], 0);
  Some p.

Definition mac_address_string (end_ addr field_width precision flags : Z) (o : out) : option out :=
  l ← mac_address_chars (fst o) addr flags;
  local_string end_ l field_width precision (Z.land flags (Z.lnot SPECIAL)) o.

Definition ip6_addr_string (end_ addr field_width precision flags : Z) (o : out) : option out :=
  l ← ip6_addr_chars (fst o) addr flags;
  local_string end_ l field_width precision (Z.land flags (Z.lnot SPECIAL)) o.

Definition ip4_addr_string (end_ addr field_width precision flags : Z) (o : out) : option out :=
  l ← ip4_addr_chars (fst o) addr;
  local_string end_ l field_width precision (Z.land flags (Z.lnot SPECIAL)) o.

Definition pointer (fmt end_ ptr field_width precision flags : Z) (o : out) : option out :=
  let num := ptr in
  c ← load (fst o) fmt;
  let default num field_width flags :=
    let flags := Z.lor flags SMALL in
    let '(field_width, flags) :=
      if field_width =? -1 then (2 * 4, Z.lor flags ZEROPAD) else (field_width, flags) in
    number end_ num 16 field_width precision flags o in
  if c =? 97 then                                   (* 'a' *)
    num ← load32 (fst o) ptr;
    default num (4 * 2 + 2) (Z.lor flags (Z.lor SPECIAL ZEROPAD))
  else if c =? 109 then                             (* 'm' *)
    mac_address_string end_ ptr field_width precision (Z.lor flags SPECIAL) o
  else if c =? 77 then                              (* 'M' *)
    mac_address_string end_ ptr field_width precision flags o
  else if (c =? 105) || (c =? 73) then              (* 'i', 'I' *)
    let flags := if c =? 105 then Z.lor flags SPECIAL else flags in
    c1 ← load (fst o) (fmt + 1);
    if c1 =? 54 then ip6_addr_string end_ ptr field_width precision flags o
    else if c1 =? 52 then ip4_addr_string end_ ptr field_width precision flags o
    else default num field_width (Z.land flags (Z.lnot SPECIAL))
  else if (c =? 68) || (c =? 85) then None          (* 'D', 'U' *)
  else default num field_width flags.

(** ** The format *)

Inductive directive :=
| DText (l : list Z)
| DChar (flags field_width c : Z)
| DString (flags field_width precision s : Z)
| DPointer (fmt flags field_width precision ptr : Z)
| DCount (ip : Z)
| DNumber (flags base field_width precision num : Z).

Definition va_arg (args : list Z) : option (Z * list Z) :=
  match args with a :: args => Some (a, args) | [] => None end.

(** Arithmetic on [int] that overflows has no result. *)
Definition int (x : Z) : option Z := if (- 2 ^ 31 <=? x) && (x <? 2 ^ 31) then Some x else None.

Definition is_digit (c : Z) : bool := (48 <=? c) && (c <=? 57).

Definition skip_atoi (m : mem) (s : Z) : option (Z * Z) :=
  '(s, i) ← loop_brk (S (size m)) (λ '(s, i),
      c ← load m s;
      if is_digit c then i ← int (i * 10 + c); Some (Next (s + 1, i - 48))
      else Some (Break (s, i)))
    (s, 0);
  Some (i, s).

(** The flags after the '%' at [fmt]. *)
Definition parse_flags (m : mem) (fmt : Z) : option (Z * Z) :=
  loop_brk (S (size m)) (λ '(fmt, flags),
    let fmt := fmt + 1 in
    c ← load m fmt;
    if c =? 45 then Some (Next (fmt, Z.lor flags LEFT))
    else if c =? 43 then Some (Next (fmt, Z.lor flags PLUS))
    else if c =? 32 then Some (Next (fmt, Z.lor flags SPACE))
    else if c =? 35 then Some (Next (fmt, Z.lor flags SPECIAL))
    else if c =? 48 then Some (Next (fmt, Z.lor flags ZEROPAD))
    else Some (Break (fmt, flags)))
  (fmt, 0).

Definition parse_width (m : mem) (fmt flags : Z) (args : list Z) : option (Z * Z * Z * list Z) :=
  c ← load m fmt;
  if is_digit c then '(w, fmt) ← skip_atoi m fmt; Some (w, fmt, flags, args)
  else if c =? 42 then
    '(w, args) ← va_arg args;
    let w := s32 w in
    if w <? 0 then w ← int (- w); Some (w, fmt + 1, Z.lor flags LEFT, args)
    else Some (w, fmt + 1, flags, args)
  else Some (-1, fmt, flags, args).

Definition parse_precision (m : mem) (fmt : Z) (args : list Z) : option (Z * Z * list Z) :=
  c ← load m fmt;
  if c =? 46 then
    let fmt := fmt + 1 in
    c ← load m fmt;
    '(p, fmt, args) ← (if is_digit c then '(p, fmt) ← skip_atoi m fmt; Some (p, fmt, args)
                       else if c =? 42 then
                         '(p, args) ← va_arg args; Some (s32 p, fmt + 1, args)
                       else Some (-1, fmt, args));
    Some (if p <? 0 then 0 else p, fmt, args)
  else Some (-1, fmt, args).

Definition parse_qualifier (m : mem) (fmt : Z) : option (Z * Z) :=
  c ← load m fmt;
  if (c =? 104) || (c =? 108) || (c =? 76) || (c =? 90) || (c =? 122) || (c =? 116) then
    c1 ← load m (fmt + 1);
    if (c =? 108) && (c1 =? 108) then Some (76, fmt + 2) else Some (c, fmt + 1)
  else Some (-1, fmt).

(** The value of an integer argument. *)
Definition num_arg (qualifier flags a : Z) : Z :=
  if qualifier =? 76 then u64 a
  else if qualifier =? 108 then if flag flags SIGN then u64 (s32 a) else u32 a
  else if (qualifier =? 90) || (qualifier =? 122) then u32 a
  else if qualifier =? 116 then u64 (s32 a)
  else if qualifier =? 104 then if flag flags SIGN then u64 (swrap 16 a) else u16 a
  else if flag flags SIGN then u64 (s32 a) else u32 a.

(** [while (isalnum(fmt[1])) fmt++]. *)
Definition skip_alnum (m : mem) (fmt : Z) : option Z :=
  loop_brk (S (size m)) (λ fmt,
    c ← load m (fmt + 1);
    if isalnum c then Some (Next (fmt + 1)) else Some (Break fmt)) fmt.

(** One turn of the loop on the format, from the character at [fmt]: what to
    write, the last character that was used, and the arguments left. *)
Definition next_directive (m : mem) (fmt : Z) (args : list Z)
    : option (directive * Z * list Z) :=
  c ← load m fmt;
  if negb (c =? 37) then Some (DText [c], fmt, args)
  else
    '(fmt, flags) ← parse_flags m fmt;
    '(field_width, fmt, flags, args) ← parse_width m fmt flags args;
    '(precision, fmt, args) ← parse_precision m fmt args;
    '(qualifier, fmt) ← parse_qualifier m fmt;
    let integer flags base :=
      '(a, args) ← va_arg args;
      Some (DNumber flags base field_width precision (num_arg qualifier flags a), fmt, args) in
    c ← load m fmt;
    if c =? 99 then                                 (* 'c' *)
      '(a, args) ← va_arg args; Some (DChar flags field_width (u8 a), fmt, args)
    else if c =? 115 then                           (* 's' *)
      '(a, args) ← va_arg args;
      if qualifier =? 108 then None
      else Some (DString flags field_width precision (u32 a), fmt, args)
    else if c =? 112 then                           (* 'p' *)
      '(a, args) ← va_arg args;
      fmt' ← skip_alnum m fmt;
      Some (DPointer (fmt + 1) flags field_width precision (u32 a), fmt', args)
    else if c =? 110 then                           (* 'n' *)
      '(a, args) ← va_arg args; Some (DCount (u32 a), fmt, args)
    else if c =? 37 then Some (DText [37], fmt, args)
    else if c =? 111 then integer flags 8           (* 'o' *)
    else if c =? 120 then integer (Z.lor flags SMALL) 16   (* 'x' *)
    else if c =? 88 then integer flags 16           (* 'X' *)
    else if (c =? 100) || (c =? 105) then integer (Z.lor flags SIGN) 10   (* 'd', 'i' *)
    else if c =? 117 then integer flags 10          (* 'u' *)
    else if c =? 0 then Some (DText [37], fmt - 1, args)
    else Some (DText [37; c], fmt, args).

(** [while (--field_width > 0) ADDCH(str, ' ')]. *)
Definition pad_char (end_ : Z) (o : out) (field_width : Z) : option (out * Z) :=
  loop_brk (S (Z.to_nat field_width)) (λ '(o, field_width),
    let field_width := field_width - 1 in
    if 0 <? field_width then o ← ADDCH end_ 32 o; Some (Next (o, field_width))
    else Some (Break (o, field_width)))
  (o, field_width).

(** The state after the directive, or the memory and the number that the function
    returns early. *)
Definition exec (end_ buf : Z) (d : directive) (o : out) : option (out + mem * Z) :=
  match d with
  | DText l => o ← puts end_ l o; Some (inl o)
  | DChar flags field_width c =>
      '(o, field_width) ← (if negb (flag flags LEFT) then pad_char end_ o field_width
                           else Some (o, field_width));
      o ← ADDCH end_ c o;
      '(o, _) ← pad_char end_ o field_width;
      Some (inl o)
  | DString flags field_width precision s =>
      o ← string end_ s field_width precision flags o; Some (inl o)
  | DPointer fmt flags field_width precision ptr =>
      '(m, str) ← pointer fmt end_ ptr field_width precision flags o;
      Some (if IS_ERR str then inr (m, PTR_ERR str) else inl (m, str))
  | DCount ip => m ← store32 (fst o) ip (snd o - buf); Some (inl (m, snd o))
  | DNumber flags base field_width precision num =>
      o ← number end_ num base field_width precision flags o; Some (inl o)
  end.

(** The loop on the format. *)
Definition vformat (end_ buf fmt : Z) (args : list Z) (o : out) : option (out + mem * Z) :=
  r ← loop (S (size (fst o))) (λ '(o, fmt, args),
      c ← load (fst o) fmt;
      if c =? 0 then Some (Break (o, fmt, args))
      else
        '(d, fmt, args) ← next_directive (fst o) fmt args;
        r ← exec end_ buf d o;
        Some (match r with inl o => Next (o, fmt + 1, args) | inr r => Return r end))
    (o, fmt, args);
  Some (match r with inl (o, _, _) => inl o | inr r => inr r end).

Definition vsnprintf_internal (m : mem) (buf size_ fmt : Z) (args : list Z) : option (mem * Z) :=
  let end_ := u32 (buf + size_) in
  let '(end_, size_) := if end_ <? buf then (2 ^ 32 - 1, 2 ^ 32 - 1 - buf) else (end_, size_) in
  r ← vformat end_ buf fmt args (m, buf);
  match r with
  | inr r => Some r
  | inl o =>
      '(m, str) ← (if 0 <? size_ then
                     '(m, str) ← ADDCH end_ 0 o;
                     m ← (if end_ <? str then store m (end_ - 1) 0 else Some m);
                     Some (m, u32 (str - 1))
                   else Some o);
      Some (m, s32 (str - buf))
  end.

Definition vsnprintf : mem → Z → Z → Z → list Z → option (mem * Z) := vsnprintf_internal.

Definition vscnprintf (m : mem) (buf size_ fmt : Z) (args : list Z) : option (mem * Z) :=
  '(m, i) ← vsnprintf m buf size_ fmt args;
  Some (m, if u32 i <? size_ then i else if negb (size_ =? 0) then s32 (size_ - 1) else 0).

Definition snprintf : mem → Z → Z → Z → list Z → option (mem * Z) := vsnprintf.
Definition scnprintf : mem → Z → Z → Z → list Z → option (mem * Z) := vscnprintf.

Definition vsprintf (m : mem) (buf fmt : Z) (args : list Z) : option (mem * Z) :=
  vsnprintf_internal m buf INT_MAX fmt args.
Definition sprintf : mem → Z → Z → list Z → option (mem * Z) := vsprintf.

(** The 22 characters of the static array, from its end. *)
Definition simple_itoa (i : Z) : option (list Z) :=
  '(p, _) ← loop_brk 22 (λ '(p, i),
      let p := (48 + i mod 10) :: p in
      let i := i / 10 in
      if 0 <? i then Some (Next (p, i)) else Some (Break (p, i)))
    ([], i);
  Some p.

Definition str2off (m : mem) (p : Z) : option (bool * Z) :=
  '(num, endptr) ← simple_strtoull m p 16;
  c ← load m p;
  e ← load m endptr;
  Some (negb (c =? 0) && (e =? 0), num).

Definition str2long (m : mem) (p : Z) : option (bool * Z) :=
  '(num, endptr) ← simple_strtoul m p 16;
  c ← load m p;
  e ← load m endptr;
  Some (negb (c =? 0) && (e =? 0), num).

(** ** The text of a format

    The text depends on the memory [m0] that the format and its arguments are
    in, not on the buffer. *)

Definition field (chars : list Z) (field_width flags : Z) : list Z :=
  let sp := spaces 32 (field_width - Z.of_nat (length chars)) in
  if flag flags LEFT then chars ++ sp else sp ++ chars.

Definition local_text (chars : list Z) (field_width precision flags : Z) : list Z :=
  field (take (Z.to_nat (Z.min (Z.of_nat (length chars)) (u32 precision))) chars) field_width flags.

Definition string_text (m0 : mem) (s field_width precision flags : Z) : option (list Z) :=
  if s =? NULL then Some (local_text null_text field_width precision flags)
  else
    len ← strnlen m0 s (u32 precision);
    chars ← get_bytes m0 s (Z.to_nat len);
    Some (field chars field_width flags).

Definition hex_text (num field_width precision flags : Z) : list Z :=
  let flags := Z.lor flags SMALL in
  let '(field_width, flags) :=
    if field_width =? -1 then (2 * 4, Z.lor flags ZEROPAD) else (field_width, flags) in
  number_text num 16 field_width precision flags.

Definition pointer_text (m0 : mem) (fmt flags field_width precision ptr : Z) : option (list Z) :=
  let unspecial := Z.land flags (Z.lnot SPECIAL) in
  c ← load m0 fmt;
  if c =? 97 then
    num ← load32 m0 ptr;
    if (0 <=? num) && (num <? 2 ^ 64)
    then Some (hex_text num 10 precision (Z.lor flags (Z.lor SPECIAL ZEROPAD))) else None
  else if c =? 109 then
    let flags := Z.lor flags SPECIAL in
    l ← mac_address_chars m0 ptr flags;
    Some (local_text l field_width precision (Z.land flags (Z.lnot SPECIAL)))
  else if c =? 77 then
    l ← mac_address_chars m0 ptr flags; Some (local_text l field_width precision unspecial)
  else if (c =? 105) || (c =? 73) then
    let flags := if c =? 105 then Z.lor flags SPECIAL else flags in
    let unspecial := Z.land flags (Z.lnot SPECIAL) in
    c1 ← load m0 (fmt + 1);
    if c1 =? 54 then
      l ← ip6_addr_chars m0 ptr flags; Some (local_text l field_width precision unspecial)
    else if c1 =? 52 then
      l ← ip4_addr_chars m0 ptr; Some (local_text l field_width precision unspecial)
    else Some (hex_text ptr field_width precision unspecial)
  else if (c =? 68) || (c =? 85) then None
  else Some (hex_text ptr field_width precision flags).

Definition directive_text (m0 : mem) (d : directive) : option (list Z) :=
  match d with
  | DText l => Some l
  | DChar flags field_width c =>
      let sp := spaces 32 (field_width - 1) in
      Some (if flag flags LEFT then c :: sp else sp ++ [c])
  | DString flags field_width precision s => string_text m0 s field_width precision flags
  | DPointer fmt flags field_width precision ptr =>
      pointer_text m0 fmt flags field_width precision ptr
  | DCount _ => None
  | DNumber flags base field_width precision num =>
      Some (number_text num base field_width precision flags)
  end.

Fixpoint format_text (fuel : nat) (m0 : mem) (fmt : Z) (args : list Z) : option (list Z) :=
  match fuel with
  | O => None
  | S fuel =>
      c ← load m0 fmt;
      if c =? 0 then Some []
      else
        '(d, fmt, args) ← next_directive m0 fmt args;
        t ← directive_text m0 d;
        r ← format_text fuel m0 (fmt + 1) args;
        Some (t ++ r)
  end.

(** ** Reading the format *)

Lemma mono_skip_atoi s : mono (λ m, skip_atoi m s).
Proof. unfold skip_atoi. mono_tac. Qed.

Lemma mono_next_directive fmt args : mono (λ m, next_directive m fmt args).
Proof.
  unfold next_directive, parse_flags, parse_width, parse_precision, parse_qualifier, skip_alnum.
  repeat (mono_step || apply mono_skip_atoi).
Qed.

Lemma mono_strnlen s n : mono (λ m, strnlen m s n).
Proof. unfold strnlen. mono_tac. Qed.

Lemma mono_load32 a : mono (λ m, load32 m a).
Proof. unfold load32. mono_tac. Qed.

Lemma mono_mac addr flags : mono (λ m, mac_address_chars m addr flags).
Proof. unfold mac_address_chars. mono_tac. Qed.

Lemma mono_ip6 addr flags : mono (λ m, ip6_addr_chars m addr flags).
Proof. unfold ip6_addr_chars. mono_tac. Qed.

Lemma mono_ip4 addr : mono (λ m, ip4_addr_chars m addr).
Proof. unfold ip4_addr_chars. mono_tac. Qed.

(** [m0] is a part of the memory that writing [l] does not reach, and the text
    ends below the addresses that stand for errors. *)
Definition safe (m0 : mem) (end_ : Z) (l : list Z) (o : out) : Prop :=
  m0 ⊆ fst o ∧ (∀ a, snd o ≤ a < end_ → a < snd o + Z.of_nat (length l) → m0 !! a = None) ∧
  no_wrap (Z.of_nat (length l) + MAX_ERRNO) o.

Lemma safe_cons m0 end_ c l o o' : safe m0 end_ (c :: l) o → ADDCH end_ c o = Some o' →
  safe m0 end_ l o' ∧ size (fst o') = size (fst o).
Proof.
  destruct o as [m str]. unfold safe, no_wrap, ADDCH, MAX_ERRNO. cbn [fst snd length]. intros (Hm & Hn & Hp & Hw).
  rewrite (wrap_small 32 (str + 1)) by lia. destruct (Z.ltb_spec str end_).
  - unfold store. destruct (m !! str) as [x|] eqn:Hx; cbn [mbind option_bind]; [|done].
    intros [= <-]. cbn [fst snd]. split; [split; [|split; [|lia]]|].
    + apply insert_subseteq_r; [apply Hn; lia|done].
    + intros a Ha Hl. apply Hn; lia.
    + rewrite map_size_insert_Some; [done|by eexists].
  - intros [= <-]. cbn [fst snd]. split; [split; [done|split; [|lia]]|done]. intros a Ha Hl. lia.
Qed.

Lemma safe_app_l m0 end_ l k o : safe m0 end_ (l ++ k) o → safe m0 end_ l o.
Proof.
  intros (Hm & Hn & Hp & Hw). rewrite length_app in Hn, Hw. split; [done|]. split; [|split; [done|lia]].
  intros a Ha Hl. apply Hn; [done|lia].
Qed.

Lemma safe_app_r m0 end_ l k o o' : safe m0 end_ (l ++ k) o → puts end_ l o = Some o' →
  safe m0 end_ k o' ∧ size (fst o') = size (fst o).
Proof.
  revert o. induction l as [|c l IH]; intros o Ho; cbn [puts app].
  - by intros [= <-].
  - destruct (ADDCH end_ c o) as [o1|] eqn:E; cbn; [|done]. intros H.
    destruct (safe_cons _ _ _ _ _ _ Ho E) as [Ho1 Hs1]. destruct (IH o1 Ho1 H) as [? Hs2].
    split; [done|congruence].
Qed.

(** *** Each directive *)

Lemma put_string_loop m0 end_ (read : mem → Z → option Z) chars o :
  (∀ m i x, m0 ⊆ m → chars !! i = Some x → read m (Z.of_nat i) = Some x) →
  ∀ k, (k ≤ length chars)%nat → safe m0 end_ (drop k chars) o →
  loop_brk (S (length chars - k)) (λ '(o, i),
      if i <? Z.of_nat (length chars) then
        c ← read (fst o) i; o ← ADDCH end_ c o; Some (Next (o, i + 1))
      else Some (Break (o, i))) (o, Z.of_nat k)
  = o ← puts end_ (drop k chars) o; Some (o, Z.of_nat (length chars)).
Proof.
  intros Hread k Hk Ho. remember (length chars - k)%nat as n eqn:Hn. revert k o Ho Hk Hn.
  induction n as [|n IH]; intros k o Ho Hk Hn.
  - step_break; [|by rewrite (proj2 (Z.ltb_ge _ _)) by lia].
    rewrite drop_ge by lia. cbn. do 3 f_equal. lia.
  - destruct (lookup_lt_is_Some_2 chars k) as [c Hc]; [lia|].
    rewrite (drop_S _ c k Hc) in *. cbn [puts]. same_addch.
    + step_next; [|rewrite (proj2 (Z.ltb_lt _ _)) by lia;
        rewrite (Hread _ _ c (proj1 Ho) Hc); reduce; rewrite Hadd; reduce; reflexivity].
      replace (Z.of_nat k + 1) with (Z.of_nat (S k)) by lia.
      apply IH; [by eapply safe_cons|lia|lia].
    + apply loop_brk_none. rewrite (proj2 (Z.ltb_lt _ _)) by lia.
      rewrite (Hread _ _ c (proj1 Ho) Hc). reduce. by rewrite Hadd.
Qed.

Lemma put_string_spec m0 end_ (read : mem → Z → option Z) chars fw flags o :
  safe m0 end_ (field chars fw flags) o →
  (∀ m i x, m0 ⊆ m → chars !! i = Some x → read m (Z.of_nat i) = Some x) →
  put_string end_ read (Z.of_nat (length chars)) fw flags o = puts end_ (field chars fw flags) o.
Proof.
  intros Ho Hread. unfold put_string, field in *.
  set (n := Z.of_nat (length chars)). assert (En : Z.to_nat n = length chars) by lia. rewrite En.
  pose proof (put_string_loop m0 end_ read chars) as Hloop.
  assert (Hz : ∀ o, safe m0 end_ chars o → loop_brk (S (length chars)) (λ '(o, i),
      if i <? n then c ← read (fst o) i; o ← ADDCH end_ c o; Some (Next (o, i + 1))
      else Some (Break (o, i))) (o, 0) = o ← puts end_ chars o; Some (o, n)).
  { intros o1 Ho1. specialize (Hloop o1 Hread O ltac:(lia) Ho1). by rewrite Nat.sub_0_r in Hloop. }
  destruct (flag flags LEFT); cbn [negb]; reduce.
  - rewrite Hz by (by eapply safe_app_l). adv. rewrite pad_to_spec. by adv.
  - rewrite pad_to_spec, puts_app. destruct (puts end_ (spaces 32 (fw - n)) o) as [o1|] eqn:E; reduce; [|done].
    rewrite Hz by (by eapply safe_app_r). adv. rewrite pad_to_spec.
    rewrite spaces_nonpos by lia. done.
Qed.

Lemma local_string_spec m0 end_ s fw precision flags o :
  safe m0 end_ (local_text s fw precision flags) o →
  local_string end_ s fw precision flags o = puts end_ (local_text s fw precision flags) o.
Proof.
  intros Ho. unfold local_string, local_text in *.
  set (n := Z.min (Z.of_nat (length s)) (u32 precision)) in *.
  assert (En : n = Z.of_nat (length (take (Z.to_nat n) s)))
    by (rewrite length_take; pose proof (wrap_range 32 precision); lia).
  rewrite En at 1. apply (put_string_spec m0); [done|]. intros m i x _ Hx.
  rewrite lookup_take_Some in Hx. apply arr_get_Some. rewrite Nat2Z.id. split; [lia|naive_solver].
Qed.

Lemma strnlen_nonneg m s n k : strnlen m s n = Some k → 0 ≤ k.
Proof.
  unfold strnlen. intros H.
  destruct (loop_brk _ _ _) as [[sc c]|] eqn:E; cbn in H; [|done]. injection H as <-.
  assert (s ≤ sc); [|lia].
  refine (loop_brk_inv _ (λ '(sc, _), s ≤ sc) (λ '(sc, _), s ≤ sc) _ _ _ _ _ E); [|lia].
  intros [p q] c0 Hp. destruct (q =? 0); [by intros [= <-]|].
  destruct (load m p) as [v|]; cbn; [|done]. destruct (v =? 0); intros [= <-]; lia.
Qed.

Lemma get_bytes_at m a n l : get_bytes m a n = Some l → length l = n ∧ bytes_at m a l.
Proof.
  revert a l. induction n as [|n IH]; intros a l; cbn.
  - intros [= <-]. split; [done|apply bytes_at_nil].
  - destruct (m !! a) as [x|] eqn:Hx; cbn; [|done].
    destruct (get_bytes m (a + 1) n) as [k|] eqn:Hk; cbn; [|done]. intros [= <-].
    destruct (IH _ _ Hk) as [<- ?]. split; [done|]. by apply bytes_at_cons.
Qed.

Lemma string_spec m0 end_ s fw precision flags o l :
  safe m0 end_ l o → string_text m0 s fw precision flags = Some l →
  string end_ s fw precision flags o = puts end_ l o.
Proof.
  intros Ho. unfold string, string_text. destruct (s =? NULL).
  - intros [= <-]. by apply (local_string_spec m0).
  - revert Ho. destruct (strnlen m0 s (u32 precision)) as [len|] eqn:Hlen; cbn; [|done].
    destruct (get_bytes m0 s (Z.to_nat len)) as [chars|] eqn:Hc; cbn; [|done]. intros Ho [= <-].
    rewrite (mono_strnlen _ _ _ _ _ (proj1 Ho) Hlen). reduce.
    apply strnlen_nonneg in Hlen. apply get_bytes_at in Hc as [Hl Hat].
    replace len with (Z.of_nat (length chars)) by lia.
    apply (put_string_spec m0); [done|]. intros m i x Hm Hi.
    unfold load. eapply lookup_weaken; [by apply Hat|done].
Qed.

Lemma hex_spec end_ num fw precision flags o :
  0 ≤ num < 2 ^ 64 →
  (let flags := Z.lor flags SMALL in
   let '(fw, flags) := if fw =? -1 then (2 * 4, Z.lor flags ZEROPAD) else (fw, flags) in
   number end_ num 16 fw precision flags o) = puts end_ (hex_text num fw precision flags) o.
Proof.
  intros Hn. unfold hex_text. cbv zeta. destruct (fw =? -1); apply number_spec; (done || by right; right).
Qed.

Lemma pointer_spec m0 end_ fmt flags fw precision ptr o l :
  safe m0 end_ l o → 0 ≤ ptr < 2 ^ 64 →
  pointer_text m0 fmt flags fw precision ptr = Some l →
  pointer fmt end_ ptr fw precision flags o = puts end_ l o.
Proof.
  intros Ho Hp. unfold pointer, pointer_text. cbv zeta.
  destruct (load m0 fmt) as [c|] eqn:Hc; cbn [mbind option_bind]; [|done].
  rewrite (mono_load _ _ _ _ (proj1 Ho) Hc). reduce.
  destruct (c =? 97).
  { destruct (load32 m0 ptr) as [num|] eqn:Hn; cbn [mbind option_bind]; [|done].
    rewrite (mono_load32 _ _ _ _ (proj1 Ho) Hn). reduce.
    destruct ((0 <=? num) && (num <? 2 ^ 64)) eqn:Hr; [|done]. intros [= <-].
    apply (hex_spec end_ num 10). lia. }
  unfold mac_address_string, ip6_addr_string, ip4_addr_string.
  repeat match goal with
  | |- (if ?b then _ else _) = _ → _ => destruct b
  | |- (_ ← load m0 ?a; _) = _ → _ => let H := fresh in destruct (load m0 a) eqn:H; cbn [mbind option_bind]; [rewrite (mono_load _ _ _ _ (proj1 Ho) H); reduce|done]
  | |- (_ ← mac_address_chars m0 ?a ?f; _) = _ → _ => let H := fresh in destruct (mac_address_chars m0 a f) eqn:H; cbn [mbind option_bind]; [rewrite (mono_mac _ _ _ _ _ (proj1 Ho) H); reduce|done]
  | |- (_ ← ip6_addr_chars m0 ?a ?f; _) = _ → _ => let H := fresh in destruct (ip6_addr_chars m0 a f) eqn:H; cbn [mbind option_bind]; [rewrite (mono_ip6 _ _ _ _ _ (proj1 Ho) H); reduce|done]
  | |- (_ ← ip4_addr_chars m0 ?a; _) = _ → _ => let H := fresh in destruct (ip4_addr_chars m0 a) eqn:H; cbn [mbind option_bind]; [rewrite (mono_ip4 _ _ _ _ (proj1 Ho) H); reduce|done]
  | |- None = _ → _ => done
  | |- Some (local_text _ _ _ _) = _ → _ => intros [= <-]; by apply (local_string_spec m0)
  | |- Some (hex_text _ _ _ _) = _ → _ => intros [= <-]; by apply hex_spec
  end.
Qed.

Lemma pad_char_spec end_ o n :
  pad_char end_ o n = o ← puts end_ (spaces 32 (n - 1)) o; Some (o, Z.min n 1 - 1).
Proof.
  unfold pad_char. remember (Z.to_nat n) as k eqn:Hk. revert o n Hk.
  induction k as [|k IH]; intros o n Hk.
  - step_break; [|by rewrite (proj2 (Z.ltb_ge _ _)) by lia].
    rewrite spaces_nonpos by lia. cbn. do 2 f_equal. lia.
  - destruct (Z.ltb_spec 0 (n - 1)).
    + rewrite (spaces_cons 32 (n - 1)) by lia. cbn [puts]. same_addch.
      * step_next; [|rewrite (proj2 (Z.ltb_lt _ _)) by lia; rewrite Hadd; reduce; reflexivity].
        rewrite IH by lia. same_puts. do 2 f_equal. lia.
      * apply loop_brk_none. cbv zeta. rewrite (proj2 (Z.ltb_lt _ _)) by lia. by rewrite Hadd.
    + step_break; [|by rewrite (proj2 (Z.ltb_ge _ _)) by lia].
      rewrite spaces_nonpos by lia. cbn. do 2 f_equal. lia.
Qed.

(** The directives that [next_directive] gives have their numbers in range. *)
Definition directive_ok (d : directive) : Prop :=
  match d with
  | DPointer _ _ _ _ ptr => 0 ≤ ptr < 2 ^ 64
  | DNumber _ base _ _ num => (base = 8 ∨ base = 10 ∨ base = 16) ∧ 0 ≤ num < 2 ^ 64
  | _ => True
  end.

Lemma wrap_64 w x : 0 ≤ w ≤ 64 → 0 ≤ wrap w x < 2 ^ 64.
Proof.
  intros Hw. pose proof (wrap_range w x ltac:(lia)).
  assert (2 ^ w ≤ 2 ^ 64) by (apply Z.pow_le_mono_r; lia). lia.
Qed.

Lemma num_arg_range q flags a : 0 ≤ num_arg q flags a < 2 ^ 64.
Proof. unfold num_arg. repeat case_match; apply wrap_64; lia. Qed.

Ltac bind_inv :=
  repeat match goal with
  | H : (_ ← ?e; _) = Some _ |- _ => let E := fresh "E" in destruct e eqn:E; cbn [mbind option_bind] in H; [|done]
  | p : (_ * _)%type |- _ => destruct p
  end.

Lemma next_directive_ok m fmt args d fmt' args' :
  next_directive m fmt args = Some (d, fmt', args') → directive_ok d.
Proof.
  unfold next_directive. intros H. bind_inv.
  destruct (z =? 37); cbn [negb] in H; [|by injection H as <- <- <-].
  bind_inv. cbv zeta in H.
  repeat match type of H with (if ?b then _ else _) = Some _ => destruct b end;
    bind_inv; repeat match type of H with (if ?b then _ else _) = Some _ => destruct b end;
    bind_inv; try done; injection H as <- <- <-; cbn [directive_ok]; try done; try (apply wrap_64; lia);
    (split; [|apply num_arg_range]); tauto.
Qed.

Lemma exec_spec m0 end_ buf d o l :
  safe m0 end_ l o → directive_ok d → directive_text m0 d = Some l →
  exec end_ buf d o = (o ← puts end_ l o; Some (inl o)).
Proof.
  intros Ho Hd. destruct d as [t|flags fw c|flags fw p s|fmt flags fw p ptr|ip|flags base fw p num]; cbn.
  - by intros [= <-].
  - intros [= <-]. destruct (flag flags LEFT); cbn [negb]; reduce.
    + cbn [puts]. same_addch; [|done]. rewrite pad_char_spec. by adv.
    + rewrite pad_char_spec. adv. rewrite puts_one. same_addch; [|done].
      rewrite pad_char_spec, spaces_nonpos by lia. done.
  - intros Hl. by rewrite (string_spec m0 _ _ _ _ _ _ l).
  - intros Hl. rewrite (pointer_spec m0 _ _ _ _ _ _ _ l) by done.
    destruct (puts end_ l o) as [[m' str]|] eqn:E; [|done]. cbn [mbind option_bind].
    destruct Ho as (_ & _ & Hp & Hw). unfold no_wrap, MAX_ERRNO in *.
    pose proof (puts_position end_ l o _ ltac:(split; [done|lia]) E) as Hpos. cbn [snd] in Hpos.
    assert (Hne : IS_ERR str = false) by (apply Z.leb_gt; change (u32 (- MAX_ERRNO)) with (2 ^ 32 - 4095); lia).
    by rewrite Hne.
  - done.
  - intros [= <-]. destruct Hd. by rewrite number_spec.
Qed.

(** The loop writes the text of the format. *)
Lemma vformat_loop m0 end_ buf fuel fuel' fmt args o l :
  safe m0 end_ l o → format_text fuel m0 fmt args = Some l → (fuel ≤ fuel')%nat →
  (∃ fmt' args', loop fuel' (λ '(o, fmt, args),
      c ← load (fst o) fmt;
      if c =? 0 then Some (Break (o, fmt, args))
      else
        '(d, fmt, args) ← next_directive (fst o) fmt args;
        r ← exec end_ buf d o;
        Some (match r with inl o => Next (o, fmt + 1, args) | inr r => Return r end)) (o, fmt, args)
    = o ← puts end_ l o; Some (inl (o, fmt', args'))) .
Proof.
  revert fuel' fmt args o l. induction fuel as [|fuel IH]; intros [|fuel'] fmt args o l Ho; try done; [lia|].
  cbn [format_text]. destruct (load m0 fmt) as [c|] eqn:Hc; cbn [mbind option_bind]; [|done].
  pose proof (mono_load _ _ _ _ (proj1 Ho) Hc) as Hc'. destruct (c =? 0) eqn:Hz.
  { intros [= <-] _. exists fmt, args. cbn [loop]. rewrite Hc'. reduce. by rewrite Hz. }
  destruct (next_directive m0 fmt args) as [[[d fmt1] args1]|] eqn:Hd; cbn [mbind option_bind]; [|done].
  pose proof (mono_next_directive _ _ _ _ _ (proj1 Ho) Hd) as Hd'.
  destruct (directive_text m0 d) as [t|] eqn:Ht; cbn [mbind option_bind]; [|done].
  destruct (format_text fuel m0 (fmt1 + 1) args1) as [r|] eqn:Hr; cbn [mbind option_bind]; [|done].
  intros [= <-] Hf. pose proof (exec_spec m0 end_ buf d o t (safe_app_l _ _ _ _ _ Ho) (next_directive_ok _ _ _ _ _ _ Hd) Ht) as He.
  cbn [loop]. rewrite Hc'. reduce. rewrite Hz, Hd'. reduce. rewrite He, puts_app.
  destruct (puts end_ t o) as [o1|] eqn:Ep; cbn [mbind option_bind]; [|by exists fmt, args].
  destruct (IH fuel' (fmt1 + 1) args1 o1 r) as (fmt' & args' & Hl); [by eapply safe_app_r|done|lia|].
  by exists fmt', args'.
Qed.

Lemma vformat_spec m0 end_ buf fuel fmt args o l :
  safe m0 end_ l o → format_text fuel m0 fmt args = Some l → (fuel ≤ S (size (fst o)))%nat →
  vformat end_ buf fmt args o = (o ← puts end_ l o; Some (inl o)).
Proof.
  intros Ho Hl Hf. unfold vformat.
  destruct (vformat_loop m0 end_ buf fuel _ fmt args o l Ho Hl Hf) as (? & ? & ->). by adv.
Qed.

(** ** Properties *)

(** What a buffer of [size_] bytes holds of the text [l]: as much as fits, and
    a terminator. *)
Definition clipped (l : list Z) (size_ : Z) : list Z :=
  if size_ =? 0 then [] else take (Z.to_nat (size_ - 1)) (map u8 l) ++ [0].

Lemma vsnprintf_spec m0 m buf size_ fmt args l fuel :
  m0 ⊆ m → format_text fuel m0 fmt args = Some l → (fuel ≤ S (size m))%nat →
  0 ≤ buf → 0 ≤ size_ → buf + size_ < 2 ^ 32 → buf + Z.of_nat (length l) < 2 ^ 32 - MAX_ERRNO → Z.of_nat (length l) < 2 ^ 31 →
  (∀ a, buf ≤ a < buf + Z.min size_ (Z.of_nat (length l)) → m0 !! a = None) →
  mapped m buf (Z.of_nat (length (clipped l size_))) →
  vsnprintf_internal m buf size_ fmt args =
  Some (set_bytes m buf (clipped l size_), Z.of_nat (length l)).
Proof.
  intros Hm Hl Hf Hb Hs He Hw Hint Hdis Hmap. unfold vsnprintf_internal. cbv zeta. unfold MAX_ERRNO in *.
  rewrite (wrap_small 32 (buf + size_)) by lia. rewrite (proj2 (Z.ltb_ge _ _)) by lia.
  assert (Hcl : size_ = 0 ∨ 0 < size_ ∧
            Z.of_nat (length (clipped l size_)) = Z.min size_ (Z.of_nat (length l) + 1)).
  { unfold clipped. destruct (Z.eqb_spec size_ 0); [by left|right]. split; [lia|].
    rewrite length_app, length_take, length_map. cbn [length]. lia. }
  rewrite (vformat_spec m0 _ _ fuel _ _ _ l);
    [|split; [done|split; [cbn [fst snd]; intros; apply Hdis; lia|unfold no_wrap, MAX_ERRNO; cbn [snd]; lia]]|done|done].
  rewrite puts_emit by (split; [cbn [fst snd]; eapply mapped_sub; [exact Hmap|lia|lia]|unfold no_wrap; cbn [snd]; lia]).
  unfold emit. reduce. cbn [fst snd]. replace (buf + size_ - buf) with size_ by lia.
  unfold clipped in *. destruct (Z.eqb_spec size_ 0) as [->|Hz].
  { cbn [Z.ltb Z.compare mbind option_bind Z.to_nat firstn set_bytes]. f_equal. f_equal. rewrite swrap_small by lia. lia. }
  destruct Hcl as [?|[_ Hcl]]; [done|]. rewrite (proj2 (Z.ltb_lt 0 _)) by lia. unfold ADDCH.
  rewrite (wrap_small 32 (buf + Z.of_nat (length l) + 1)) by lia.
  assert (Hret : s32 (u32 (buf + Z.of_nat (length l) + 1 - 1) - buf) = Z.of_nat (length l))
    by (rewrite (wrap_small 32) by lia; rewrite swrap_small by lia; lia).
  assert (Hset : ∀ k, mapped (set_bytes m buf k) buf (Z.min size_ (Z.of_nat (length l) + 1))).
  { intros k. apply mapped_set_bytes. by rewrite <-Hcl. }
  destruct (Z.ltb_spec (buf + Z.of_nat (length l)) (buf + size_)).
  - rewrite (store_mapped _ _ _ _ _ (Hset _)) by lia. reduce. cbn [mbind option_bind].
    rewrite (proj2 (Z.ltb_ge _ _)) by lia. reduce. cbn [mbind option_bind]. f_equal. f_equal; [|exact Hret].
    rewrite !take_ge by (rewrite length_map; lia). rewrite set_bytes_snoc, length_map. done.
  - reduce. rewrite (proj2 (Z.ltb_lt _ _)) by lia.
    rewrite (store_mapped _ _ _ _ _ (Hset _)) by lia. reduce. f_equal. f_equal; [|exact Hret].
    destruct (lookup_lt_is_Some_2 (map u8 l) (Z.to_nat (size_ - 1))) as [x Hx]; [rewrite length_map; lia|].
    replace (Z.to_nat size_) with (S (Z.to_nat (size_ - 1))) by lia.
    rewrite (take_S_r _ _ x Hx), !set_bytes_snoc, length_take, length_map.
    replace (buf + size_ - 1) with (buf + Z.of_nat (Nat.min (Z.to_nat (size_ - 1)) (length l))) by lia.
    by rewrite insert_insert_eq.
Qed.

(** C13. For every size of the buffer, also 0, vsnprintf writes the text that
    the format and the arguments determine (format_text), cut to the size less
    one and terminated, writes no byte outside of the buffer (nothing for a
    size of 0), and returns the length of the whole text. The text is shorter
    than 2^31 characters and, counted from the buffer, ends below the last
    4095 addresses, so that neither the position nor the returned int wraps
    around and pointer() returns no error (position_wraps shows the other
    case); the format and the strings do not overlap the buffer, and the
    format has no %n, %ls, %pD or %pU. *)
Theorem vsnprintf_correct (m0 m : mem) (buf size_ fmt : Z) (args l : list Z)
    (Hm : m0 ⊆ m) (Hl : format_text (S (size m0)) m0 fmt args = Some l)
    (Hb : 0 ≤ buf) (Hs : 0 ≤ size_) (He : buf + size_ < 2 ^ 32)
    (Hw : buf + Z.of_nat (length l) < 2 ^ 32 - MAX_ERRNO) (Hint : Z.of_nat (length l) < 2 ^ 31)
    (Hdis : ∀ a, buf ≤ a < buf + size_ → m0 !! a = None) (Hmap : mapped m buf size_) :
  ∃ m', vsnprintf m buf size_ fmt args = Some (m', Z.of_nat (length l)) ∧
    (0 < size_ → bytes_at m' buf (take (Z.to_nat (size_ - 1)) (map u8 l) ++ [0])) ∧
    (∀ a, a < buf ∨ buf + size_ ≤ a → m' !! a = m !! a).
Proof.
  pose proof (map_subseteq_size _ _ Hm).
  assert (Hcl : Z.of_nat (length (clipped l size_)) ≤ size_).
  { unfold clipped. destruct (Z.eqb_spec size_ 0); [cbn; lia|].
    rewrite length_app, length_take. cbn [length]. lia. }
  unfold vsnprintf. rewrite (vsnprintf_spec m0 m buf size_ fmt args l (S (size m0)));
    [|done|done|lia|done|done|done|done|done|intros; apply Hdis; lia|eapply mapped_sub; [exact Hmap|lia|lia]].
  eexists. split; [done|]. split.
  - intros Hpos. unfold clipped. rewrite (proj2 (Z.eqb_neq _ _)) by lia. apply bytes_at_set_same.
  - intros a Ha. apply lookup_set_bytes_out. lia.
Qed.

(** [sprintf] with room for the text and its terminator. *)
Lemma sprintf_spec m0 m buf fmt args l fuel :
  m0 ⊆ m → format_text fuel m0 fmt args = Some l → (fuel ≤ S (size m))%nat →
  0 ≤ buf → buf + INT_MAX < 2 ^ 32 → Z.of_nat (length l) < INT_MAX - MAX_ERRNO →
  (∀ a, buf ≤ a < buf + Z.of_nat (length l) → m0 !! a = None) →
  mapped m buf (Z.of_nat (length l) + 1) → Forall is_byte l →
  sprintf m buf fmt args = Some (set_bytes m buf (l ++ [0]), Z.of_nat (length l)).
Proof.
  intros Hm Hl Hf Hb He Hlen Hdis Hmap Hby. unfold sprintf, vsprintf. unfold INT_MAX, MAX_ERRNO in *.
  assert (Hc : clipped l (2 ^ 31 - 1) = l ++ [0]).
  { unfold clipped. change (2 ^ 31 - 1 =? 0) with false. by rewrite map_u8, take_ge by (done || lia). }
  rewrite (vsnprintf_spec m0 m buf (2 ^ 31 - 1) fmt args l fuel), Hc; try (done || lia).
  - unfold MAX_ERRNO. lia.
  - intros a Ha. apply Hdis. lia.
  - rewrite Hc, length_app. cbn [length]. eapply mapped_sub; [exact Hmap|lia|lia].
Qed.

(** [vscnprintf] returns the number of characters that are in the buffer,
    less than its size, for every text shorter than 2^31. *)
Lemma vscnprintf_spec (m0 m : mem) (buf size_ fmt : Z) (args l : list Z)
    (Hm : m0 ⊆ m) (Hl : format_text (S (size m0)) m0 fmt args = Some l)
    (Hb : 0 ≤ buf) (Hs : 0 < size_ < 2 ^ 31) (He : buf + size_ < 2 ^ 32)
    (Hw : buf + Z.of_nat (length l) < 2 ^ 32 - MAX_ERRNO) (Hlen : Z.of_nat (length l) < 2 ^ 31)
    (Hdis : ∀ a, buf ≤ a < buf + size_ → m0 !! a = None) (Hmap : mapped m buf size_) :
  ∃ m' n, vscnprintf m buf size_ fmt args = Some (m', n) ∧
    0 ≤ n < size_ ∧ m' !! (buf + n) = Some 0 ∧
    n = Z.min (Z.of_nat (length l)) (size_ - 1).
Proof.
  pose proof (map_subseteq_size _ _ Hm). set (c := clipped l size_).
  assert (Hc : c = take (Z.to_nat (size_ - 1)) (map u8 l) ++ [0]).
  { unfold c, clipped. by rewrite (proj2 (Z.eqb_neq _ _)) by lia. }
  assert (Hcl : Z.of_nat (length c) = Z.min (Z.of_nat (length l)) (size_ - 1) + 1).
  { rewrite Hc, length_app, length_take, length_map. cbn [length]. lia. }
  unfold vscnprintf, vsnprintf. rewrite (vsnprintf_spec m0 m buf size_ fmt args l (S (size m0)));
    [|done|done|lia|done|lia|done|done|done|intros; apply Hdis; lia|fold c; eapply mapped_sub; [exact Hmap|lia|lia]].
  reduce. rewrite wrap_small by lia. rewrite (proj2 (Z.eqb_neq size_ 0)) by lia. cbn [negb].
  do 2 eexists. split; [done|].
  assert (Hn : (if Z.of_nat (length l) <? size_ then Z.of_nat (length l) else s32 (size_ - 1)) =
               Z.min (Z.of_nat (length l)) (size_ - 1)).
  { destruct (Z.ltb_spec (Z.of_nat (length l)) size_); [lia|]. rewrite swrap_small by lia. lia. }
  rewrite Hn. split_and!; [lia|lia| |done]. fold c.
  replace (Z.min _ _) with (Z.of_nat (length c - 1)) by lia.
  apply lookup_set_bytes_in. rewrite Hc, length_app. cbn [length].
  rewrite Nat.add_sub. by apply list_lookup_middle.
Qed.

(** ** Witness and examples *)

(** The format "%5d|%-4x|%.3s|%pI4|%c%%" at 100, "hello" at 130 and an
    internet address at 140, and a buffer of 64 bytes at 1000. *)
Definition ex_fmt : mem := mem_of 100
  ([37; 53; 100; 124; 37; 45; 52; 120; 124; 37; 46; 51; 115; 124; 37; 112; 73; 52; 124; 37; 99; 37; 37; 0] ++
   replicate 6 0 ++ [104; 101; 108; 108; 111; 0; 0; 0; 0; 0] ++ [192; 168; 0; 10]).
Definition ex_args : list Z := [-42; 0xbeef; 130; 140; 65].
Definition ex_buf : mem := set_bytes ex_fmt 1000 (replicate 64 7).

(** "  -42|beef|hel|192.168.0.10|A%" *)
Definition ex_text : list Z :=
  [32; 32; 45; 52; 50; 124; 98; 101; 101; 102; 124; 104; 101; 108; 124;
   49; 57; 50; 46; 49; 54; 56; 46; 48; 46; 49; 48; 124; 65; 37].

Lemma vsnprintf_correct_witness :
  ∃ m', vsnprintf ex_buf 1000 10 100 ex_args = Some (m', Z.of_nat (length ex_text)) ∧
    (0 < 10 → bytes_at m' 1000 (take (Z.to_nat (10 - 1)) (map u8 ex_text) ++ [0])) ∧
    (∀ a, a < 1000 ∨ 1000 + 10 ≤ a → m' !! a = ex_buf !! a).
Proof.
  assert (Hsub : ex_fmt ⊆ ex_buf).
  { apply set_bytes_subseteq. intros b Hb. apply lookup_mem_of_out. cbn in *. lia. }
  assert (Hmap : mapped ex_buf 1000 10).
  { eapply bytes_at_mapped; [apply bytes_at_set_same|cbn; lia]. }
  assert (Hdis : ∀ a, 1000 ≤ a < 1000 + 10 → ex_fmt !! a = None).
  { intros a Ha. apply lookup_mem_of_out. cbn. lia. }
  assert (Htext : format_text (S (size ex_fmt)) ex_fmt 100 ex_args = Some ex_text).
  { vm_compute. reflexivity. }
  refine (vsnprintf_correct ex_fmt ex_buf 1000 10 100 ex_args ex_text Hsub Htext _ _ _ _ _ Hdis Hmap); first [lia|vm_compute; done].
Defined.

Example vsnprintf_example :
  option_map snd (vsnprintf ex_buf 1000 10 100 ex_args) = Some 30 ∧
  (m' ← option_map fst (vsnprintf ex_buf 1000 10 100 ex_args); get_bytes m' 1000 11) =
    Some [32; 32; 45; 52; 50; 124; 98; 101; 101; 0; 7].
Proof. by vm_compute. Qed.

(** The text "abc" into the last two bytes of the address space: the position
    wraps around, and the third character goes to address 0. *)
Example position_wraps :
  let m := set_bytes (mem_of 100 [97; 98; 99; 0]) (2 ^ 32 - 2) [7] in
  option_map fst (vsnprintf (<[0 := 7]> (<[1 := 7]> m)) (2 ^ 32 - 2) 1 100 []) ≫= (λ m', m' !! 0) = Some 99.
Proof. vm_compute. reflexivity. Qed.
