(* ===== verification/Charset.v ===== *)
(** * Charset: Unicode strings (lib/charset.c)

    Code points are read from and written to strings of bytes (UTF-8) and of
    16-bit words (UTF-16).  A string is an array and a pointer into it the index,
    or [None] for NULL.  The EFI loader and the command line use these functions
    to exchange names and arguments with EFI programs. *)

From Stdlib Require Import ZArith Lia.
From stdpp Require Import base numbers list option.
From S2P Require Import Prelude.

Definition SIZE_MAX : Z := 2 ^ 32 - 1.

(** ** Reading UTF-8 *)

(** Outside of the bytes that continue a sequence. *)
Definition not_continuation (ch : Z) : bool := (ch <? 0x80) || (0xbf <? ch).

(** No code point: a surrogate or beyond the last one. *)
Definition no_code (code : Z) : bool := ((0xd800 <=? code) && (code <=? 0xdfff)) || (0x110000 <=? code).

Section get_code.
Context {D : Type} (read_u8 : D → option (Z * D)).

(** The bytes before the last one: [ch], [code] and the stream, or the stream
    where the error was found. *)
Definition get_head (ch : Z) (data : D) : option (Z * Z * D + D) :=
  if 0xe0 <=? ch then
    r ← (if 0xf0 <=? ch then
           let code := Z.shiftl (Z.land ch 0x07) 18 in
           '(ch, data) ← read_u8 data;
           Some (if not_continuation ch then inr data else inl (Z.land ch 0x3f, code, data))
         else Some (inl (Z.land ch 0x0f, 0, data)));
    match r with
    | inr data => Some (inr data)
    | inl (ch, code, data) =>
        let code := code + Z.shiftl ch 12 in
        if no_code code then Some (inr data)
        else
          '(ch, data) ← read_u8 data;
          Some (if not_continuation ch then inr data else inl (ch, code, data))
    end
  else Some (inl (ch, 0, data)).

Definition get_code (data : D) : option (Z * D) :=
  '(ch, data) ← read_u8 data;
  if ch =? 0 then Some (0, data)
  else if (0xc2 <=? ch) && (ch <=? 0xf4) then
    r ← get_head ch data;
    match r with
    | inr data => Some (63, data)
    | inl (ch, code, data) =>
        let code := code + Z.shiftl (Z.land ch 0x3f) 6 in
        '(ch, data) ← read_u8 data;
        if not_continuation ch then Some (63, data) else Some (Z.land ch 0x3f + code, data)
    end
  else if 0x80 <=? ch then Some (63, data)
  else Some (ch, data).
End get_code.

Definition read_string (s : list Z) (src : option Z) : option (Z * option Z) :=
  match src with
  | None => Some (0, None)
  | Some i => c ← arr_get s i; Some (if c =? 0 then (0, src) else (c, Some (i + 1)))
  end.

Definition utf8_get (s : list Z) : option Z → option (Z * option Z) := get_code (read_string s).

(** The input of the console. *)
Class Console := {
  console : Type;
  tstc : console → bool * console;
  getc : console → Z * console
}.

Definition read_console `{!Console} (c : console) : option (Z * console) :=
  let '(ch, c) := getc c in Some (u8 (if ch <? 0 then 0 else ch), c).

(** The result, [*code] and the console. *)
Definition console_read_unicode `{!Console} (code : Z) (c : console) : option (Z * Z * console) :=
  let '(t, c) := tstc c in
  if negb t then Some (1, code, c)
  else '(code, c) ← get_code read_console c; Some (0, code, c).

(** ** Writing *)

(** A character at the pointer, which moves on. *)
Definition put8 (d : list Z * Z) (x : Z) : option (list Z * Z) := a ← arr_set d.1 d.2 (u8 x); Some (a, d.2 + 1).
Definition put16 (d : list Z * Z) (x : Z) : option (list Z * Z) := a ← arr_set d.1 d.2 (u16 x); Some (a, d.2 + 1).

Definition utf8_put (code : Z) (a : list Z) (dst : option Z) : option (Z * list Z * option Z) :=
  match dst with
  | None => Some (-1, a, dst)
  | Some q =>
      if no_code code then Some (-1, a, dst)
      else
        let d := (a, q) in
        d ← (if code <=? 0x7f then put8 d code
             else
               d ← (if code <=? 0x7ff then put8 d (Z.lor (Z.shiftr code 6) 0xc0)
                    else
                      d ← (if code <? 0x10000 then put8 d (Z.lor (Z.shiftr code 12) 0xe0)
                           else
                             d ← put8 d (Z.lor (Z.shiftr code 18) 0xf0);
                             put8 d (Z.lor (Z.land (Z.shiftr code 12) 0x3f) 0x80));
                      put8 d (Z.lor (Z.land (Z.shiftr code 6) 0x3f) 0x80));
               put8 d (Z.lor (Z.land code 0x3f) 0x80));
        Some (0, d.1, Some d.2)
  end.

Definition utf16_put (code : Z) (a : list Z) (dst : option Z) : option (Z * list Z * option Z) :=
  match dst with
  | None => Some (-1, a, dst)
  | Some q =>
      if no_code code then Some (-1, a, dst)
      else
        let d := (a, q) in
        d ← (if code <? 0x10000 then put16 d code
             else
               let code := code - 0x10000 in
               d ← put16 d (Z.lor (Z.shiftr code 10) 0xd800);
               put16 d (Z.lor (Z.land code 0x3ff) 0xdc00));
        Some (0, d.1, Some d.2)
  end.

(** ** Reading UTF-16 *)

Definition utf16_get (s : list Z) (src : option Z) : option (Z * option Z) :=
  match src with
  | None => Some (-1, None)
  | Some i =>
      code ← arr_get s i;
      if code =? 0 then Some (0, src)
      else
        let i := i + 1 in
        if (0xdc00 <=? code) && (code <=? 0xdfff) then Some (-1, Some i)
        else if (0xd800 <=? code) && (code <=? 0xdbff) then
          code2 ← arr_get s i;
          if code2 =? 0 then Some (-1, Some i)
          else
            let code := Z.shiftl (Z.land code 0x3ff) 10 + 0x10000 in
            let i := i + 1 in
            if (code2 <=? 0xdc00) || (0xdfff <=? code2) then Some (-1, Some i)
            else Some (code + Z.land code2 0x3ff, Some i)
        else Some (code, Some i)
  end.

(** ** Lengths and conversions *)

(** One iteration of [for (; *src && count; --count)], where [body] is given the
    code point. *)
Definition code_step {S} (get : list Z → option Z → option (Z * option Z)) (body : Z → S → option (ctl S Empty_set))
    (s : list Z) : Z * Z * S → option (ctl (Z * Z * S) Empty_set) :=
  λ '(i, count, st),
  c ← arr_get s i;
  if (c =? 0) || (count =? 0) then Some (Break (i, count, st))
  else
    '(code, p) ← get s (Some i);
    match p with
    | None => None
    | Some i =>
        o ← body code st;
        match o with
        | Next st => Some (Next (i, count - 1, st))
        | Break st => Some (Break (i, count, st))
        | Return e => match e in Empty_set with end
        end
    end.

(** The loop; an iteration reads a character at least. *)
Definition for_codes {S} (get : list Z → option Z → option (Z * option Z)) (body : Z → S → option (ctl S Empty_set))
    (s : list Z) (src count : Z) (st : S) : option S :=
  r ← loop_brk (Datatypes.S (length s)) (code_step get body s) (src, count, st); Some r.2.

(** The words that a code point needs, and the bytes. *)
Definition units16 (code : Z) : Z := if code <? 0 then 1 else if code <? 0x10000 then 1 else 2.
Definition bytes8 (code : Z) : Z :=
  if code <? 0 then 1 else if code <? 0x80 then 1 else if code <? 0x800 then 2 else if code <? 0x10000 then 3 else 4.

(** [if (!code) break;] and the length. *)
Definition add_length (n : Z → Z) (code len : Z) : option (ctl Z Empty_set) :=
  Some (if code =? 0 then Break len else Next (u32 (len + n code))).

Definition utf8_utf16_strnlen (s : list Z) (src count : Z) : option Z :=
  for_codes utf8_get (add_length units16) s src count 0.

Definition utf16_strnlen (s : list Z) (src count : Z) : option Z :=
  for_codes utf16_get (add_length (λ _, 1)) s src count 0.

Definition utf16_utf8_strnlen (s : list Z) (src count : Z) : option Z :=
  for_codes utf16_get (add_length bytes8) s src count 0.

(** [if (code < 0) code = '?';] and the character. *)
Definition copy_code (put : Z → list Z → option Z → option (Z * list Z * option Z)) (code : Z)
    (d : list Z * option Z) : option (ctl (list Z * option Z) Empty_set) :=
  '(_, a, q) ← put (if code <? 0 then 63 else code) d.1 d.2; Some (Next (a, q)).

(** The terminator is written at the pointer, which stays there. *)
Definition strncpy_with (get : list Z → option Z → option (Z * option Z))
    (put : Z → list Z → option Z → option (Z * list Z * option Z))
    (a : list Z) (dst : option Z) (s : list Z) (src : option Z) (count : Z) : option (Z * list Z * option Z) :=
  match src, dst with
  | Some src, Some dst =>
      '(a, q) ← for_codes get (copy_code put) s src count (a, Some dst);
      match q with
      | None => None
      | Some q => a ← arr_set a q 0; Some (0, a, Some q)
      end
  | _, _ => Some (-1, a, dst)
  end.

Definition utf8_utf16_strncpy := strncpy_with utf8_get utf16_put.
Definition utf16_utf8_strncpy := strncpy_with utf16_get utf8_put.

(** ** Words *)

Definition u16_strncmp (s1 s2 : list Z) (p1 p2 n : Z) : option Z :=
  r ← loop_brk (Datatypes.S (length s1)) (λ '(p1, p2, n, ret),
        if n =? 0 then Some (Break (p1, p2, n, ret))
        else
          x ← arr_get s1 p1; y ← arr_get s2 p2;
          let ret := x - y in
          if negb (ret =? 0) || (x =? 0) then Some (Break (p1, p2, n, ret))
          else Some (Next (p1 + 1, p2 + 1, n - 1, ret))) (p1, p2, n, 0);
  Some r.2.

(** The two bytes of a word are zero when the word is. *)
Definition u16_strlen (s : list Z) (p : Z) : option Z :=
  pos ← loop_brk (Datatypes.S (length s)) (λ pos,
          x ← arr_get s pos; Some (if x =? 0 then Break pos else Next (pos + 1))) p;
  Some (pos - p).

Definition u16_strnlen (s : list Z) (p count : Z) : option Z :=
  r ← loop_brk (Datatypes.S (length s)) (λ '(i, count),
        if count =? 0 then Some (Break (i, count))
        else x ← arr_get s (p + i); Some (if x =? 0 then Break (i, count) else Next (i + 1, count - 1))) (0, count);
  Some r.1.

Definition u16_strcpy (a : list Z) (dest : Z) (s : list Z) (src : Z) : option (list Z * Z) :=
  r ← loop_brk (Datatypes.S (length s)) (λ '(a, q, i),
        x ← arr_get s i; a ← arr_set a q x;
        Some (if x =? 0 then Break (a, q, i) else Next (a, q + 1, i + 1))) (a, dest, src);
  Some (r.1.1, dest).

(** The new string, or NULL; [malloc] says whether there is memory. *)
Definition u16_strdup (malloc : Z → bool) (s : list Z) (src : option Z) : option (option (list Z)) :=
  match src with
  | None => Some None
  | Some src =>
      n ← u16_strlen s src;
      let len := u32 ((n + 1) * 2) in
      if negb (malloc len) then Some None
      else if src + len / 2 <=? Z.of_nat (length s)
           then Some (Some (take (Z.to_nat (len / 2)) (drop (Z.to_nat src) s)))
           else None
  end.

(** ** The older conversion *)

(** What one word writes: the bytes, the pointer to the source and [code_high]. *)
Definition utf16_to_utf8_word (code code_high i : Z) : list Z * Z * Z :=
  let low := Z.lor (Z.land code 0x3f) 0x80 in
  let mid := Z.lor (Z.land (Z.shiftr code 6) 0x3f) 0x80 in
  if negb (code_high =? 0) then
    if (0xdc00 <=? code) && (code <=? 0xdfff) then
      let code := u32 (Z.shiftl (code_high - 0xd800) 10 + (code - 0xdc00) + 0x10000) in
      ([Z.lor (Z.shiftr code 18) 0xf0; Z.lor (Z.land (Z.shiftr code 12) 0x3f) 0x80;
        Z.lor (Z.land (Z.shiftr code 6) 0x3f) 0x80; Z.lor (Z.land code 0x3f) 0x80], i, 0)
    else ([63], i - 1, 0)
  else if code <=? 0x7f then ([code], i, 0)
  else if code <=? 0x7ff then ([Z.lor (Z.shiftr code 6) 0xc0; low], i, 0)
  else if (0xd800 <=? code) && (code <=? 0xdbff) then ([], i, code)
  else if (0xdc00 <=? code) && (code <=? 0xdfff) then ([63], i, 0)
  else if code <? 0x10000 then ([Z.lor (Z.shiftr code 12) 0xe0; mid; low], i, 0)
  else ([Z.lor (Z.shiftr code 18) 0xf0; Z.lor (Z.land (Z.shiftr code 12) 0x3f) 0x80; mid; low], i, 0).

Fixpoint put_all (d : list Z * Z) (bs : list Z) : option (list Z * Z) :=
  match bs with
  | [] => Some d
  | b :: bs => d ← put8 d b; put_all d bs
  end.

Definition utf16_to_utf8_step (s : list Z) : list Z * Z * Z * Z * Z → option (ctl (list Z * Z * Z * Z * Z) Empty_set) :=
  λ '(d, i, size, code_high),
  if size =? 0 then Some (Break (d, i, size, code_high))
  else
    code ← arr_get s i;
    let '(bs, i, code_high) := utf16_to_utf8_word code code_high (i + 1) in
    d ← put_all d bs;
    Some (Next (d, i, size - 1, code_high)).

Definition utf16_to_utf8 (a : list Z) (dest : Z) (s : list Z) (src size : Z) : option (list Z * Z) :=
  r ← loop_brk (Datatypes.S (Z.to_nat size)) (utf16_to_utf8_step s) ((a, dest), src, size, 0);
  Some r.1.1.1.

(** ** The encodings *)

(** A character that is no zero and no surrogate. *)
Definition scalar (c : Z) : Prop := 0 < c < 0xd800 ∨ 0xdfff < c < 0x110000.

Definition utf8 (c : Z) : list Z :=
  if c <=? 0x7f then [c]
  else if c <=? 0x7ff then [0xc0 + c / 64; 0x80 + c mod 64]
  else if c <? 0x10000 then [0xe0 + c / 4096; 0x80 + c / 64 mod 64; 0x80 + c mod 64]
  else [0xf0 + c / 262144; 0x80 + c / 4096 mod 64; 0x80 + c / 64 mod 64; 0x80 + c mod 64].

Definition utf16 (c : Z) : list Z :=
  if c <? 0x10000 then [c] else [0xd800 + (c - 0x10000) / 1024; 0xdc00 + (c - 0x10000) mod 1024].

Lemma low_bits x k : 0 ≤ k → Z.land x (Z.ones k) = x mod 2 ^ k.
Proof. apply Z.land_ones. Qed.

Lemma tail_byte x : Z.lor (Z.land x 0x3f) 0x80 = 0x80 + x mod 64.
Proof.
  change 0x3f with (Z.ones 6). rewrite Z.land_ones by lia. change 0x80 with (2 * 2 ^ 6).
  rewrite Z.lor_comm, lor_low_high by (pose proof (Z.mod_pos_bound x (2 ^ 6)); lia). done.
Qed.

(** A head byte: the low bits of the marker are free. *)
Lemma head_byte x a k : 0 ≤ k → 0 ≤ x < 2 ^ k → Z.lor x (a * 2 ^ k) = a * 2 ^ k + x.
Proof. intros. by rewrite Z.lor_comm, lor_low_high. Qed.

Lemma put8_at a l1 x l2 q b : a = l1 ++ x :: l2 → q = Z.of_nat (length l1) → 0 ≤ b < 256 →
  put8 (a, q) b = Some (l1 ++ b :: l2, q + 1).
Proof.
  intros -> Hq Hb. unfold put8. cbn [fst snd]. rewrite (wrap_small 8 b) by lia.
  by rewrite (arr_set_middle l1 l2 q x b Hq).
Qed.

Lemma put16_at a l1 x l2 q b : a = l1 ++ x :: l2 → q = Z.of_nat (length l1) → 0 ≤ b < 65536 →
  put16 (a, q) b = Some (l1 ++ b :: l2, q + 1).
Proof.
  intros -> Hq Hb. unfold put16. cbn [fst snd]. rewrite (wrap_small 16 b) by lia.
  by rewrite (arr_set_middle l1 l2 q x b Hq).
Qed.

Lemma put_all_at bs : ∀ l1 old l2 q, length old = length bs → q = Z.of_nat (length l1) → Forall (λ b, 0 ≤ b < 256) bs →
  put_all (l1 ++ old ++ l2, q) bs = Some (l1 ++ bs ++ l2, q + Z.of_nat (length bs)).
Proof.
  induction bs as [|b bs IH]; intros l1 [|x old] l2 q Hlen Hq Hbs; try done; cbn [put_all].
  - cbn. by rewrite Z.add_0_r.
  - apply Forall_cons_iff in Hbs as [Hb Hbs]. cbn [app]. rewrite (put8_at _ l1 x (old ++ l2)) by done.
    cbn [mbind option_bind]. replace (l1 ++ b :: old ++ l2) with ((l1 ++ [b]) ++ old ++ l2) by list_eq.
    rewrite IH; [|cbn in Hlen; lia|rewrite length_app; cbn; lia|done]. f_equal. f_equal; [list_eq|cbn [length]; lia].
Qed.

Lemma scalar_code c : scalar c → no_code c = false ∧ 0 < c < 0x110000.
Proof.
  intros Hc. unfold scalar in Hc. split; [|lia]. unfold no_code.
  destruct (Z.leb_spec 0xd800 c), (Z.leb_spec c 0xdfff), (Z.leb_spec 0x110000 c); try done; lia.
Qed.

Lemma utf8_length c : 0 ≤ c → Z.of_nat (length (utf8 c)) = bytes8 c.
Proof. intros Hc. unfold utf8, bytes8. bools; try lia; reflexivity. Qed.

Lemma utf16_length c : 0 ≤ c → Z.of_nat (length (utf16 c)) = units16 c.
Proof. intros Hc. unfold utf16, units16. bools; try lia; reflexivity. Qed.

Lemma utf8_range c : 0 ≤ c < 0x110000 → Forall (λ b, 0 ≤ b < 256) (utf8 c).
Proof.
  intros Hc. unfold utf8. bools; repeat apply List.Forall_cons; try apply List.Forall_nil; Z.to_euclidean_division_equations; lia.
Qed.

Lemma utf16_range c : scalar c → Forall (λ x, 0 < x < 65536) (utf16 c).
Proof.
  intros Hc. unfold scalar in Hc. unfold utf16. bools; repeat apply List.Forall_cons; try apply List.Forall_nil;
    Z.to_euclidean_division_equations; lia.
Qed.

Lemma shifted_tail c k : 0 ≤ k → Z.lor (Z.land (Z.shiftr c k) 0x3f) 0x80 = 0x80 + c / 2 ^ k mod 64.
Proof. intros Hk. by rewrite tail_byte, Z.shiftr_div_pow2. Qed.

Lemma head2 c : 0 ≤ c ≤ 0x7ff → Z.lor (Z.shiftr c 6) 0xc0 = 0xc0 + c / 64.
Proof.
  intros Hc. rewrite Z.shiftr_div_pow2 by lia. apply (head_byte _ 6 5); [lia|]. change (2 ^ 6) with 64.
  Z.to_euclidean_division_equations. lia.
Qed.

Lemma head3 c : 0 ≤ c < 0x10000 → Z.lor (Z.shiftr c 12) 0xe0 = 0xe0 + c / 4096.
Proof.
  intros Hc. rewrite Z.shiftr_div_pow2 by lia. apply (head_byte _ 14 4); [lia|]. change (2 ^ 12) with 4096.
  Z.to_euclidean_division_equations. lia.
Qed.

Lemma head4 c : 0 ≤ c < 0x110000 → Z.lor (Z.shiftr c 18) 0xf0 = 0xf0 + c / 262144.
Proof.
  intros Hc. rewrite Z.shiftr_div_pow2 by lia. apply (head_byte _ 30 3); [lia|]. change (2 ^ 18) with 262144.
  Z.to_euclidean_division_equations. lia.
Qed.

(** The first surrogate of a code point behind the basic ones. *)
Lemma high_surrogate c : 0 ≤ c < 0x100000 → Z.lor (Z.shiftr c 10) 0xd800 = 0xd800 + c / 1024.
Proof.
  intros Hc. rewrite Z.shiftr_div_pow2 by lia. apply (head_byte _ 54 10); [lia|]. change (2 ^ 10) with 1024.
  Z.to_euclidean_division_equations. lia.
Qed.

Lemma low_surrogate c : Z.lor (Z.land c 0x3ff) 0xdc00 = 0xdc00 + c mod 1024.
Proof.
  change 0x3ff with (Z.ones 10). rewrite Z.land_ones by lia. change (2 ^ 10) with 1024.
  apply (head_byte _ 55 10); [lia|]. apply Z.mod_pos_bound. lia.
Qed.

(** Successive characters are one list of them. *)
Lemma utf8_put_all c a q : scalar c →
  utf8_put c a (Some q) = d ← put_all (a, q) (utf8 c); Some (0, d.1, Some d.2).
Proof.
  intros Hc. destruct (scalar_code c Hc) as [Hn Hr]. unfold utf8_put, utf8. rewrite Hn.
  destruct (Z.leb_spec c 0x7f) as [H1|H1]; [cbn [put_all]; by destruct (put8 (a, q) c)|].
  rewrite tail_byte. destruct (Z.leb_spec c 0x7ff) as [H2|H2].
  { rewrite head2 by lia. cbn [put_all]. destruct (put8 (a, q) _) as [d|]; [cbn [mbind option_bind]|done]. by destruct (put8 d _). }
  rewrite !shifted_tail by lia. change (c / 2 ^ 6) with (c / 64). change (c / 2 ^ 12) with (c / 4096).
  destruct (Z.ltb_spec c 0x10000) as [H3|H3].
  - rewrite head3 by lia. cbn [put_all]. destruct (put8 (a, q) _) as [d|]; [cbn [mbind option_bind]|done].
    destruct (put8 d _) as [d1|]; [cbn [mbind option_bind]|done]. by destruct (put8 d1 _).
  - rewrite head4 by lia. cbn [put_all]. destruct (put8 (a, q) _) as [d|]; [cbn [mbind option_bind]|done].
    destruct (put8 d _) as [d1|]; [cbn [mbind option_bind]|done]. destruct (put8 d1 _) as [d2|]; [cbn [mbind option_bind]|done].
    by destruct (put8 d2 _).
Qed.

Lemma utf8_put_spec c l1 old l2 q : scalar c → length old = length (utf8 c) → q = Z.of_nat (length l1) →
  utf8_put c (l1 ++ old ++ l2) (Some q) = Some (0, l1 ++ utf8 c ++ l2, Some (q + bytes8 c)).
Proof.
  intros Hc Hlen Hq. destruct (scalar_code c Hc) as [_ Hr].
  rewrite utf8_put_all, put_all_at by (first [done|apply utf8_range; lia]).
  cbn. by rewrite utf8_length by lia.
Qed.

Lemma utf16_put_spec c l1 old l2 q : scalar c → length old = length (utf16 c) → q = Z.of_nat (length l1) →
  utf16_put c (l1 ++ old ++ l2) (Some q) = Some (0, l1 ++ utf16 c ++ l2, Some (q + units16 c)).
Proof.
  intros Hc Hlen Hq. destruct (scalar_code c Hc) as [Hn Hr]. pose proof (utf16_range c Hc) as Hw. revert Hlen Hw.
  unfold utf16_put, utf16, units16. rewrite Hn, (proj2 (Z.ltb_ge c 0)) by lia.
  destruct (Z.ltb_spec c 0x10000) as [H1|H1].
  - intros Hlen _. destruct old as [|x [|]]; try done. rewrite (put16_at _ l1 x l2) by (done || lia). done.
  - intros Hlen Hw. destruct old as [|x [|y [|]]]; try done.
    apply Forall_cons_iff in Hw as [Hw1 Hw]. apply Forall_cons_iff in Hw as [Hw2 _].
    rewrite high_surrogate, low_surrogate by lia.
    rewrite (put16_at _ l1 x (y :: l2)) by (done || lia). cbn [mbind option_bind].
    set (h := 0xd800 + _) in *. set (w := 0xdc00 + _) in *.
    rewrite (put16_at _ (l1 ++ [h]) y l2) by (first [list_eq|lia|rewrite length_app; cbn; lia]).
    cbn [mbind option_bind fst snd]. f_equal. f_equal; [f_equal; list_eq|f_equal; lia].
Qed.

(** ** Reading what was written *)

Lemma read_string_at s l1 x l2 i : s = l1 ++ x :: l2 → i = Z.of_nat (length l1) → x ≠ 0 →
  read_string s (Some i) = Some (x, Some (i + 1)).
Proof.
  intros Hs Hi Hx. unfold read_string. rewrite (arr_get_at s l1 x l2 i Hs Hi). cbn [mbind option_bind].
  by rewrite (proj2 (Z.eqb_neq x 0)).
Qed.

Lemma land_head a k x : 0 ≤ k → 0 ≤ x < 2 ^ k → a mod 2 ^ k = 0 → Z.land (a + x) (Z.ones k) = x.
Proof.
  intros Hk Hx Ha. rewrite Z.land_ones by lia. rewrite <-Z.add_mod_idemp_l, Ha by lia. by apply Z.mod_small.
Qed.

Lemma continuation x : 0 ≤ x < 64 → not_continuation (0x80 + x) = false.
Proof. intros Hx. unfold not_continuation. by rewrite (proj2 (Z.ltb_ge _ _)), (proj2 (Z.ltb_ge _ _)) by lia. Qed.

Section get_spec.
Context {D : Type} (read_u8 : D → option (Z * D)).

(** The streams that begin with given bytes. *)
Fixpoint reads (d : D) (bs : list Z) (d' : D) : Prop :=
  match bs with
  | [] => d' = d
  | b :: bs => ∃ d1, read_u8 d = Some (b, d1) ∧ reads d1 bs d'
  end.

Lemma get_two d d' a b : reads d [0xc0 + a; 0x80 + b] d' → 2 ≤ a < 32 → 0 ≤ b < 64 →
  get_code read_u8 d = Some (a * 64 + b, d').
Proof.
  intros (d1 & R1 & d2 & R2 & ->) Ha Hb. unfold get_code, get_head. rewrite R1. cbn [mbind option_bind].
  rewrite (proj2 (Z.eqb_neq _ _)), (proj2 (Z.leb_le 0xc2 _)), (proj2 (Z.leb_le _ 0xf4)) by lia. cbn [andb].
  rewrite (proj2 (Z.leb_gt 0xe0 _)) by lia. cbn [mbind option_bind]. rewrite R2. cbn [mbind option_bind].
  rewrite continuation by done. change 0x3f with (Z.ones 6). rewrite !land_head by (done || lia).
  rewrite Z.shiftl_mul_pow2 by lia. do 2 f_equal. lia.
Qed.

Lemma get_three d d' a b c : reads d [0xe0 + a; 0x80 + b; 0x80 + c] d' → 0 ≤ a < 16 → 0 ≤ b < 64 → 0 ≤ c < 64 →
  get_code read_u8 d = Some (a * 4096 + b * 64 + c, d').
Proof.
  intros (d1 & R1 & d2 & R2 & d3 & R3 & ->) Ha Hb Hc. unfold get_code, get_head. rewrite R1. cbn [mbind option_bind].
  rewrite (proj2 (Z.eqb_neq _ _)), (proj2 (Z.leb_le 0xc2 _)), (proj2 (Z.leb_le _ 0xf4)) by lia. cbn [andb].
  rewrite (proj2 (Z.leb_le 0xe0 _)), (proj2 (Z.leb_gt 0xf0 _)) by lia. cbn [mbind option_bind].
  change 0x0f with (Z.ones 4). rewrite land_head by (done || lia). rewrite !Z.shiftl_mul_pow2 by lia.
  assert (E : no_code (0 + a * 2 ^ 12) = false).
  { unfold no_code. rewrite (proj2 (Z.leb_gt 0x110000 _)) by lia. rewrite orb_false_r.
    destruct (Z.leb_spec 0xd800 (0 + a * 2 ^ 12)), (Z.leb_spec (0 + a * 2 ^ 12) 0xdfff); try done. lia. }
  rewrite E, R2. cbn [mbind option_bind]. rewrite continuation by done. rewrite R3. cbn [mbind option_bind].
  rewrite continuation by done. change 0x3f with (Z.ones 6). rewrite !land_head by (done || lia).
  rewrite Z.shiftl_mul_pow2 by lia. do 2 f_equal. lia.
Qed.

Lemma get_four d d' a b c e : reads d [0xf0 + a; 0x80 + b; 0x80 + c; 0x80 + e] d' →
  0 ≤ a → 0 ≤ b < 64 → 0 ≤ c < 64 → 0 ≤ e < 64 → 0x10 ≤ a * 64 + b < 0x110 →
  get_code read_u8 d = Some (a * 262144 + b * 4096 + c * 64 + e, d').
Proof.
  intros (d1 & R1 & d2 & R2 & d3 & R3 & d4 & R4 & ->) Ha Hb Hc He Hab. unfold get_code, get_head. rewrite R1. cbn [mbind option_bind].
  rewrite (proj2 (Z.eqb_neq _ _)), (proj2 (Z.leb_le 0xc2 _)), (proj2 (Z.leb_le _ 0xf4)) by lia. cbn [andb].
  rewrite (proj2 (Z.leb_le 0xe0 _)), (proj2 (Z.leb_le 0xf0 _)) by lia. rewrite R2. cbn [mbind option_bind].
  rewrite continuation by done. cbn [mbind option_bind].
  change 0x07 with (Z.ones 3). change 0x3f with (Z.ones 6). rewrite !land_head by (done || lia).
  rewrite !Z.shiftl_mul_pow2 by lia.
  assert (E : no_code (a * 2 ^ 18 + b * 2 ^ 12) = false).
  { unfold no_code. rewrite (proj2 (Z.leb_gt 0x110000 _)) by lia. rewrite orb_false_r.
    destruct (Z.leb_spec 0xd800 (a * 2 ^ 18 + b * 2 ^ 12)), (Z.leb_spec (a * 2 ^ 18 + b * 2 ^ 12) 0xdfff); try done. lia. }
  rewrite E, R3. cbn [mbind option_bind]. rewrite continuation by done. rewrite R4. cbn [mbind option_bind].
  rewrite continuation by done. rewrite !land_head by (done || lia).
  rewrite Z.shiftl_mul_pow2 by lia. do 2 f_equal. lia.
Qed.

Lemma get_one d d' c : reads d [c] d' → 0 < c < 0x80 → get_code read_u8 d = Some (c, d').
Proof.
  intros (d1 & R1 & ->) Hc. unfold get_code. rewrite R1. cbn [mbind option_bind].
  rewrite (proj2 (Z.eqb_neq _ _)), (proj2 (Z.leb_gt 0xc2 _)), (proj2 (Z.leb_gt 0x80 _)) by lia. done.
Qed.

(** Every stream that begins with the bytes of a code point gives it. *)
Lemma get_code_spec d d' c : scalar c → reads d (utf8 c) d' → get_code read_u8 d = Some (c, d').
Proof.
  intros Hc. destruct (scalar_code c Hc) as [_ Hr]. unfold utf8.
  destruct (Z.leb_spec c 0x7f); [intros R; apply get_one; [done|lia]|].
  destruct (Z.leb_spec c 0x7ff).
  { intros R. apply get_two in R; [|Z.to_euclidean_division_equations; lia..]. rewrite R. do 2 f_equal.
    Z.to_euclidean_division_equations. lia. }
  destruct (Z.ltb_spec c 0x10000).
  { intros R. apply get_three in R; [|Z.to_euclidean_division_equations; lia..]. rewrite R. do 2 f_equal.
    Z.to_euclidean_division_equations. lia. }
  intros R. apply get_four in R; [|Z.to_euclidean_division_equations; lia..]. rewrite R. do 2 f_equal.
  Z.to_euclidean_division_equations. lia.
Qed.
End get_spec.

Lemma string_reads bs : ∀ s l1 l2 i, s = l1 ++ bs ++ l2 → i = Z.of_nat (length l1) → Forall (λ b, b ≠ 0) bs →
  reads (read_string s) (Some i) bs (Some (i + Z.of_nat (length bs))).
Proof.
  induction bs as [|b bs IH]; intros s l1 l2 i -> -> Hbs; cbn [reads]; [f_equal; cbn; lia|].
  apply Forall_cons_iff in Hbs as [Hb Hbs]. exists (Some (Z.of_nat (length l1) + 1)).
  split; [by apply (read_string_at _ l1 b (bs ++ l2))|].
  replace (Z.of_nat (length l1) + Z.of_nat (length (b :: bs))) with (Z.of_nat (length l1) + 1 + Z.of_nat (length bs)) by (cbn [length]; lia).
  apply (IH _ (l1 ++ [b]) l2); [list_eq|rewrite length_app; cbn; lia|done].
Qed.

Lemma utf8_nonzero c : scalar c → Forall (λ b, 0 < b < 256) (utf8 c).
Proof.
  intros Hc. destruct (scalar_code c Hc) as [_ Hr]. unfold utf8.
  bools; repeat apply List.Forall_cons; try apply List.Forall_nil; Z.to_euclidean_division_equations; lia.
Qed.

Lemma utf8_get_spec s l1 c l2 i : scalar c → s = l1 ++ utf8 c ++ l2 → i = Z.of_nat (length l1) →
  utf8_get s (Some i) = Some (c, Some (i + bytes8 c)).
Proof.
  intros Hc Hs Hi. destruct (scalar_code c Hc) as [_ Hr]. rewrite <-utf8_length by lia. unfold utf8_get. apply get_code_spec; [done|].
  apply (string_reads _ s l1 l2); [done..|]. eapply Forall_impl; [|by apply utf8_nonzero]. cbn. lia.
Qed.

(** The code points that [utf16_get] reads: not those whose second word is the
    first or the last of its range. *)
Definition readable (c : Z) : Prop := c < 0x10000 ∨ 0 < c mod 1024 < 1023.

Lemma utf16_get_spec s l1 c l2 i : scalar c → readable c → s = l1 ++ utf16 c ++ l2 → i = Z.of_nat (length l1) →
  utf16_get s (Some i) = Some (c, Some (i + units16 c)).
Proof.
  intros Hc Hd Hs Hi. destruct (scalar_code c Hc) as [_ Hr]. unfold utf16 in Hs. unfold units16, utf16_get.
  rewrite (proj2 (Z.ltb_ge c 0)) by lia. destruct (Z.ltb_spec c 0x10000) as [H1|H1].
  - rewrite (arr_get_at s l1 c l2 i Hs Hi). cbn [mbind option_bind].
    rewrite (proj2 (Z.eqb_neq c 0)) by lia. unfold scalar in Hc.
    destruct (Z.leb_spec 0xdc00 c), (Z.leb_spec c 0xdfff), (Z.leb_spec 0xd800 c), (Z.leb_spec c 0xdbff); cbn [andb]; try lia; done.
  - set (x := (c - 0x10000) / 1024) in *. set (y := (c - 0x10000) mod 1024) in *.
    assert (Hx : 0 ≤ x < 1024 ∧ 0 < y < 1023 ∧ c = x * 1024 + y + 0x10000).
    { destruct Hd as [?|Hd]; [lia|]. subst x y. Z.to_euclidean_division_equations. lia. }
    cbn [app] in Hs. rewrite (arr_get_at s l1 (0xd800 + x) _ i Hs Hi). cbn [mbind option_bind].
    rewrite (proj2 (Z.eqb_neq _ 0)), (proj2 (Z.leb_gt 0xdc00 _)), (proj2 (Z.leb_le 0xd800 _)), (proj2 (Z.leb_le _ 0xdbff)) by lia.
    cbn [andb]. rewrite (arr_get_at s (l1 ++ [0xd800 + x]) (0xdc00 + y) l2 (i + 1)) by (first [rewrite Hs; list_eq|rewrite length_app; cbn; lia]).
    cbn [mbind option_bind]. rewrite (proj2 (Z.eqb_neq _ 0)), (proj2 (Z.leb_gt _ 0xdc00)), (proj2 (Z.leb_gt 0xdfff _)) by lia. cbn [orb].
    change 0x3ff with (Z.ones 10). rewrite !land_head by (done || lia). rewrite Z.shiftl_mul_pow2 by lia.
    f_equal. f_equal; [lia|f_equal; lia].
Qed.

(** ** Conversions *)

Definition getter : Type := list Z → option Z → option (Z * option Z).

Definition collect (code : Z) (l : list Z) : option (ctl (list Z) Empty_set) := Some (Next (l ++ [code])).

(** The code points that the loop over a string reads. *)
Definition codes (get : getter) (s : list Z) (src count : Z) : option (list Z) :=
  for_codes get collect s src count [].

(** A body that is given one code point after another. *)
Fixpoint run {S} (body : Z → S → option (ctl S Empty_set)) (cs : list Z) (st : S) : option S :=
  match cs with
  | [] => Some st
  | c :: cs =>
      match body c st with
      | Some (Next st) => run body cs st
      | Some (Break st) => Some st
      | Some (Return e) => match e with end
      | None => None
      end
  end.

Section for_codes.
Context (get : getter) (s : list Z).

Lemma code_step_end {S} (body : Z → S → option (ctl S Empty_set)) i count c st : arr_get s i = Some c →
  (c =? 0) || (count =? 0) = true → code_step get body s (i, count, st) = Some (Break (i, count, st)).
Proof. intros Hc E. unfold code_step. rewrite Hc. cbn [mbind option_bind]. by rewrite E. Qed.

Lemma code_step_next {S} (body : Z → S → option (ctl S Empty_set)) i count c code i' st st' : arr_get s i = Some c →
  (c =? 0) || (count =? 0) = false → get s (Some i) = Some (code, Some i') → body code st = Some (Next st') →
  code_step get body s (i, count, st) = Some (Next (i', count - 1, st')).
Proof.
  intros Hc E Hg Hb. unfold code_step. rewrite Hc. cbn [mbind option_bind]. rewrite E, Hg. cbn [mbind option_bind]. by rewrite Hb.
Qed.

(** The list only grows. *)
Lemma collect_extends fuel : ∀ i count acc r,
  loop_brk fuel (code_step get collect s) (i, count, acc) = Some r → ∃ cs, r.2 = acc ++ cs.
Proof.
  intros i count acc r. apply (loop_brk_inv _ (λ st, ∃ cs, st.2 = acc ++ cs) (λ st, ∃ cs, st.2 = acc ++ cs)); [|by exists []; rewrite app_nil_r].
  intros [[i1 n1] l1] c [k Hk] Hstep. cbn [snd] in Hk. subst l1. unfold code_step in Hstep.
  destruct (arr_get s i1) as [x|]; [cbn [mbind option_bind] in Hstep|done].
  destruct ((x =? 0) || (n1 =? 0)); [injection Hstep as <-; by exists k|].
  destruct (get s (Some i1)) as [[code [i2|]]|]; cbn in Hstep; [|done..]. injection Hstep as <-.
  exists (k ++ [code]). cbn [snd]. by rewrite app_assoc.
Qed.

Lemma collect_run {S} (body : Z → S → option (ctl S Empty_set)) fuel : ∀ i count acc r cs st,
  loop_brk fuel (code_step get collect s) (i, count, acc) = Some r → r.2 = acc ++ cs →
  (r ← loop_brk fuel (code_step get body s) (i, count, st); Some r.2) = run body cs st.
Proof.
  induction fuel as [|fuel IH]; intros i count acc r cs st Hl Hr; [done|].
  destruct (arr_get s i) as [c|] eqn:Ec; [|by rewrite loop_brk_none in Hl by (unfold code_step; by rewrite Ec)].
  destruct ((c =? 0) || (count =? 0)) eqn:E.
  { rewrite (loop_brk_break _ _ _ _ (code_step_end collect _ _ _ _ Ec E)) in Hl. injection Hl as <-.
    rewrite (loop_brk_break _ _ _ _ (code_step_end body _ _ _ st Ec E)). cbn [snd] in Hr |- *.
    rewrite <-(app_nil_r acc) in Hr at 1. apply app_inv_head in Hr as <-. done. }
  destruct (get s (Some i)) as [[code [i'|]]|] eqn:Eg;
    [|by rewrite loop_brk_none in Hl by (unfold code_step; rewrite Ec; cbn [mbind option_bind]; by rewrite E, Eg)..].
  rewrite (loop_brk_next _ _ _ _ (code_step_next collect _ _ _ _ _ acc _ Ec E Eg eq_refl)) in Hl.
  destruct (collect_extends _ _ _ _ _ Hl) as [cs' Hcs]. rewrite Hcs in Hr. rewrite <-app_assoc in Hr. apply app_inv_head in Hr as <-.
  cbn [app run]. destruct (body code st) as [[st'|st'|[]]|] eqn:Eb.
  - rewrite (loop_brk_next _ _ _ _ (code_step_next body _ _ _ _ _ st _ Ec E Eg Eb)). by apply (IH _ _ _ _ _ _ Hl).
  - rewrite (loop_brk_break _ _ _ (i', count, st')); [done|]. unfold code_step. rewrite Ec. cbn [mbind option_bind].
    rewrite E, Eg. cbn [mbind option_bind]. by rewrite Eb.
  - rewrite loop_brk_none; [done|]. unfold code_step. rewrite Ec. cbn [mbind option_bind].
    rewrite E, Eg. cbn [mbind option_bind]. by rewrite Eb.
Qed.

(** Every loop is its body on the code points that are read. *)
Lemma for_codes_run {S} (body : Z → S → option (ctl S Empty_set)) src count cs st :
  codes get s src count = Some cs → for_codes get body s src count st = run body cs st.
Proof.
  unfold codes, for_codes. intros H. destruct (loop_brk _ (code_step get collect s) _) as [r|] eqn:E; [|done].
  injection H as Hr. by apply (collect_run body _ src count [] r).
Qed.
End for_codes.

(** *** Texts of code points *)

Section encoded.
Context (get : getter) (enc : Z → list Z) (good : Z → Prop).
Context (get_enc : ∀ s l1 c l2 i, good c → s = l1 ++ enc c ++ l2 → i = Z.of_nat (length l1) →
  get s (Some i) = Some (c, Some (i + Z.of_nat (length (enc c))))).
Context (enc_head : ∀ c, good c → ∃ x r, enc c = x :: r ∧ x ≠ 0).

Lemma enc_length cs : Forall good cs → (length cs ≤ length (cs ≫= enc))%nat.
Proof.
  induction 1 as [|c cs Hc _ IH]; [done|]. destruct (enc_head c Hc) as (x & r & E & _).
  rewrite bind_cons, E, length_app. cbn. lia.
Qed.

Lemma collect_encoded s l2 cs : Forall good cs → ∀ l1 count acc fuel, s = l1 ++ (cs ≫= enc) ++ 0 :: l2 → 0 ≤ count →
  (length cs < fuel)%nat → ∃ r, loop_brk fuel (code_step get collect s) (Z.of_nat (length l1), count, acc) = Some r ∧
    r.2 = acc ++ take (Z.to_nat count) cs.
Proof.
  induction 1 as [|c cs Hc Hcs IH]; intros l1 count acc [|fuel] Hs Hn Hf; try lia.
  - eexists. split; [eapply loop_brk_break, code_step_end|by rewrite take_nil, app_nil_r].
    + apply (arr_get_at s l1 0 l2); done.
    + done.
  - destruct (enc_head c Hc) as (x & r & E & Hx).
    assert (Ha : arr_get s (Z.of_nat (length l1)) = Some x).
    { apply (arr_get_at s l1 x (r ++ (cs ≫= enc) ++ 0 :: l2)); [|done]. rewrite Hs, bind_cons, E. list_eq. }
    destruct (Z.eqb_spec count 0) as [->|Hn0].
    { eexists. split; [eapply loop_brk_break, code_step_end; [exact Ha|by rewrite orb_true_r]|]. cbn. by rewrite app_nil_r. }
    erewrite loop_brk_next by (eapply code_step_next;
      [exact Ha|rewrite (proj2 (Z.eqb_neq x 0)), (proj2 (Z.eqb_neq count 0)) by done; done| |reflexivity];
      apply (get_enc s l1 c ((cs ≫= enc) ++ 0 :: l2)); [done| |done]; rewrite Hs, bind_cons; list_eq).
    destruct (IH (l1 ++ enc c) (count - 1) (acc ++ [c]) fuel) as (r' & Hr & Hr2);
      [rewrite Hs, bind_cons; list_eq|lia|cbn in Hf; lia|].
    rewrite length_app, Nat2Z.inj_add in Hr. exists r'. split; [exact Hr|]. rewrite Hr2, <-app_assoc.
    by replace (Z.to_nat count) with (S (Z.to_nat (count - 1))) by lia.
Qed.

Lemma codes_encoded l1 cs l2 count : Forall good cs → 0 ≤ count →
  codes get (l1 ++ (cs ≫= enc) ++ 0 :: l2) (Z.of_nat (length l1)) count = Some (take (Z.to_nat count) cs).
Proof.
  intros Hcs Hn. unfold codes, for_codes. set (s := l1 ++ _).
  destruct (collect_encoded s l2 cs Hcs l1 count [] (S (length s))) as (r & -> & Hr); [done..| |].
  - pose proof (enc_length cs Hcs). subst s. rewrite !length_app. lia.
  - cbn [mbind option_bind]. by rewrite Hr.
Qed.
End encoded.

(** *** Lengths and copies of the code points that were read *)

(** What is written for an error is a question mark. *)
Definition shown (c : Z) : Z := if c <? 0 then 63 else c.
Definition read_ok (c : Z) : Prop := c = -1 ∨ scalar c.

Lemma shown_scalar c : read_ok c → scalar (shown c).
Proof. unfold read_ok, shown, scalar. intros Hc. destruct (Z.ltb_spec c 0); lia. Qed.

Section text.
Context (n : Z → Z) (put : Z → list Z → option Z → option (Z * list Z * option Z)) (enc : Z → list Z).
Context (n_enc : ∀ c, read_ok c → n c = Z.of_nat (length (enc (shown c)))).
Context (put_enc : ∀ c l1 old l2 q, scalar c → length old = length (enc c) → q = Z.of_nat (length l1) →
  put c (l1 ++ old ++ l2) (Some q) = Some (0, l1 ++ enc c ++ l2, Some (q + Z.of_nat (length (enc c))))).

Definition text (cs : list Z) : list Z := cs ≫= λ c, enc (shown c).

Lemma run_length cs : Forall read_ok cs → ∀ len, 0 ≤ len → len + Z.of_nat (length (text cs)) < 2 ^ 32 →
  run (add_length n) cs len = Some (len + Z.of_nat (length (text cs))).
Proof.
  induction 1 as [|c cs Hc Hcs IH]; intros len Hl Hlt; [cbn; f_equal; lia|].
  unfold text in *. rewrite bind_cons, length_app, Nat2Z.inj_add in *. cbn [run]. unfold add_length at 1.
  rewrite (proj2 (Z.eqb_neq c 0)) by (unfold read_ok, scalar in Hc; lia).
  rewrite n_enc by done. rewrite wrap_small by lia. rewrite IH by lia. f_equal. lia.
Qed.

Lemma copy_codes_run cs : Forall read_ok cs → ∀ l1 old l2, length old = length (text cs) →
  run (copy_code put) cs (l1 ++ old ++ l2, Some (Z.of_nat (length l1))) =
  Some (l1 ++ text cs ++ l2, Some (Z.of_nat (length l1) + Z.of_nat (length (text cs)))).
Proof.
  induction 1 as [|c cs Hc Hcs IH]; intros l1 old l2 Hlen.
  - destruct old; [|done]. cbn. by rewrite Z.add_0_r.
  - unfold text in *. rewrite bind_cons, length_app in *. cbn [run]. unfold copy_code at 1. fold (shown c). cbn [fst snd].
    rewrite <-(take_drop (length (enc (shown c))) old), <-app_assoc.
    rewrite put_enc; [|by apply shown_scalar|rewrite length_take; lia|done]. cbn [mbind option_bind].
    rewrite app_assoc, <-Nat2Z.inj_add, <-length_app, IH by (rewrite length_drop; lia).
    f_equal. f_equal; [list_eq|f_equal; rewrite !length_app; lia].
Qed.

Lemma copy_codes_spec get s src count cs l1 old l2 : codes get s src count = Some cs → Forall read_ok cs →
  length old = S (length (text cs)) →
  strncpy_with get put (l1 ++ old ++ l2) (Some (Z.of_nat (length l1))) s (Some src) count =
  Some (0, l1 ++ text cs ++ 0 :: l2, Some (Z.of_nat (length l1) + Z.of_nat (length (text cs)))).
Proof.
  intros Hcs Hok Hlen. unfold strncpy_with. rewrite (for_codes_run _ _ _ _ _ _ _ Hcs).
  destruct (exists_last_or_nil old) as [->|(old' & x & ->)]; [done|]. rewrite length_app in Hlen. cbn in Hlen.
  replace (l1 ++ (old' ++ [x]) ++ l2) with (l1 ++ old' ++ x :: l2) by list_eq.
  rewrite copy_codes_run by (done || lia). cbn [mbind option_bind].
  rewrite (arr_set_at _ (l1 ++ text cs) x l2) by (first [list_eq|rewrite length_app; lia]). cbn [mbind option_bind].
  do 2 f_equal. f_equal. list_eq.
Qed.

Lemma count_codes_spec get s src count cs : codes get s src count = Some cs → Forall read_ok cs →
  Z.of_nat (length (text cs)) < 2 ^ 32 →
  for_codes get (add_length n) s src count 0 = Some (Z.of_nat (length (text cs))).
Proof. intros Hcs Hok Hlt. rewrite (for_codes_run _ _ _ _ _ _ _ Hcs). by rewrite run_length by (done || lia). Qed.
End text.

(** *** Any words *)

(** Words with a terminator at [z], behind which nothing is read. *)
Definition words (s : list Z) (z : Z) : Prop := arr_get s z = Some 0 ∧ Forall (λ x, 0 ≤ x < 0x10000) s.

Lemma words_get s z i : words s z → 0 ≤ i ≤ z → ∃ c, arr_get s i = Some c ∧ 0 ≤ c < 0x10000 ∧ (c ≠ 0 → i < z).
Proof.
  intros [Hz Hw] Hi. assert (Hlen : z < Z.of_nat (length s)) by (apply arr_get_is_Some; by eexists).
  destruct (arr_get_ex s i) as [c Hc]; [lia|]. exists c. split; [done|]. split.
  - apply arr_get_Some in Hc as [_ Hc]. rewrite list_relations.list.Forall_lookup in Hw. by apply (Hw (Z.to_nat i)).
  - intros Hne. destruct (decide (i = z)) as [->|]; [congruence|lia].
Qed.

Lemma utf16_get_inside s z i c : words s z → 0 ≤ i ≤ z → arr_get s i = Some c → c ≠ 0 →
  ∃ code i', utf16_get s (Some i) = Some (code, Some i') ∧ read_ok code ∧ i < i' ≤ z.
Proof.
  intros Hw Hi Hc Hne. destruct (words_get s z i Hw Hi) as (c' & Hc' & Hr & Hlt). rewrite Hc in Hc'. injection Hc' as <-.
  specialize (Hlt Hne). unfold utf16_get. rewrite Hc. cbn [mbind option_bind]. rewrite (proj2 (Z.eqb_neq c 0)) by done.
  unfold read_ok, scalar. destruct (decide (0xdc00 ≤ c ≤ 0xdfff)) as [H1|H1].
  { rewrite (proj2 (Z.leb_le 0xdc00 c)), (proj2 (Z.leb_le c 0xdfff)) by lia. eexists _, _. split; [done|lia]. }
  assert (E1 : (0xdc00 <=? c) && (c <=? 0xdfff) = false) by (bools; done || lia). rewrite E1.
  destruct (decide (0xd800 ≤ c ≤ 0xdbff)) as [H2|H2].
  2: { assert (E2 : (0xd800 <=? c) && (c <=? 0xdbff) = false) by (bools; done || lia). rewrite E2. eexists _, _. split; [done|lia]. }
  rewrite (proj2 (Z.leb_le 0xd800 c)), (proj2 (Z.leb_le c 0xdbff)) by lia. cbn [andb].
  destruct (words_get s z (i + 1) Hw) as (c2 & -> & Hr2 & Hlt2); [lia|]. cbn [mbind option_bind].
  destruct (Z.eqb_spec c2 0) as [->|Hne2]; [eexists _, _; split; [done|lia]|]. specialize (Hlt2 Hne2).
  destruct (Z.leb_spec c2 0xdc00), (Z.leb_spec 0xdfff c2); cbn [orb]; eexists _, _; (split; [done|]); try lia.
  change 0x3ff with (Z.ones 10). rewrite !Z.land_ones, Z.shiftl_mul_pow2 by lia. change (2 ^ 10) with 1024.
  Z.to_euclidean_division_equations. lia.
Qed.

Lemma codes_utf16 s z src count : words s z → 0 ≤ src ≤ z →
  ∃ cs, codes utf16_get s src count = Some cs ∧ Forall read_ok cs ∧ Z.of_nat (length cs) ≤ z - src.
Proof.
  intros Hw Hsrc. unfold codes, for_codes.
  assert (Hlen : z < Z.of_nat (length s)) by (apply arr_get_is_Some; destruct Hw as [Hz _]; by eexists).
  destruct (loop_brk_total_ix (code_step utf16_get collect s)
    (λ n '(i, _, cs), 0 ≤ i ≤ z ∧ n = Z.to_nat (z - i) ∧ Forall read_ok cs ∧ Z.of_nat (length cs) ≤ i - src)
    (λ '(_, _, cs), Forall read_ok cs ∧ Z.of_nat (length cs) ≤ z - src)) with (fuel := S (length s))
    (n := Z.to_nat (z - src)) (s := ((src, count), @nil Z)) as ([[i k] cs] & -> & Hok & Hl);
    [|split_and!; [lia|lia|done|constructor|cbn; lia]|lia|exists cs; by split_and!].
  intros n [[i k] cs] (Hi & -> & Hok & Hl). destruct (words_get s z i Hw Hi) as (c & Hc & _ & _).
  destruct ((c =? 0) || (k =? 0)) eqn:E.
  - eexists. split; [by apply (code_step_end _ _ _ _ _ c)|]. split; [done|lia].
  - apply orb_false_iff in E as E'. destruct E' as [E1%Z.eqb_neq _].
    destruct (utf16_get_inside s z i c Hw Hi Hc E1) as (code & i' & Hg & Hcode & Hi').
    eexists. split; [by apply (code_step_next _ _ _ _ _ c code i' cs (cs ++ [code]))|].
    exists (Z.to_nat (z - i')). split; [lia|]. split_and!; [lia|lia|done| |].
    + apply Forall_app. split; [done|]. by apply List.Forall_cons.
    + rewrite length_app. cbn. lia.
Qed.

Lemma bytes8_enc c : read_ok c → bytes8 c = Z.of_nat (length (utf8 (shown c))).
Proof.
  intros Hc. rewrite utf8_length by (apply shown_scalar in Hc; unfold scalar in Hc; lia).
  unfold shown. by destruct Hc as [->|Hc]; [|rewrite (proj2 (Z.ltb_ge c 0)) by (unfold scalar in Hc; lia)].
Qed.

Lemma units16_enc c : read_ok c → units16 c = Z.of_nat (length (utf16 (shown c))).
Proof.
  intros Hc. rewrite utf16_length by (apply shown_scalar in Hc; unfold scalar in Hc; lia).
  unfold shown. by destruct Hc as [->|Hc]; [|rewrite (proj2 (Z.ltb_ge c 0)) by (unfold scalar in Hc; lia)].
Qed.

Lemma put8_enc c l1 old l2 q : scalar c → length old = length (utf8 c) → q = Z.of_nat (length l1) →
  utf8_put c (l1 ++ old ++ l2) (Some q) = Some (0, l1 ++ utf8 c ++ l2, Some (q + Z.of_nat (length (utf8 c)))).
Proof. intros Hc ? ?. rewrite utf8_put_spec by done. rewrite utf8_length; [done|]. unfold scalar in Hc. lia. Qed.

Lemma put16_enc c l1 old l2 q : scalar c → length old = length (utf16 c) → q = Z.of_nat (length l1) →
  utf16_put c (l1 ++ old ++ l2) (Some q) = Some (0, l1 ++ utf16 c ++ l2, Some (q + Z.of_nat (length (utf16 c)))).
Proof. intros Hc ? ?. rewrite utf16_put_spec by done. rewrite utf16_length; [done|]. unfold scalar in Hc. lia. Qed.

Lemma text8_bound cs : Forall read_ok cs → Forall (λ b, 0 < b < 256) (text utf8 cs) ∧ (length (text utf8 cs) ≤ 4 * length cs)%nat.
Proof.
  induction 1 as [|c cs Hc Hcs [IH1 IH2]]; [by split|]. unfold text in *. rewrite bind_cons, length_app. split.
  - apply Forall_app. split; [|done]. by apply utf8_nonzero, shown_scalar.
  - pose proof (bytes8_enc c Hc) as E. assert (bytes8 c ≤ 4) by (unfold bytes8; bools; lia). cbn [length]. lia.
Qed.

(** C28. Whatever words a string has before its terminator, surrogates without
    partner included, its conversion to UTF-8 ends for every bound on the number of
    code points, reads nothing behind the terminator, and writes exactly the bytes
    that [utf16_utf8_strnlen] counts and a terminator, none of them zero before: a
    buffer of that size is filled and nothing around it is changed. *)
Theorem utf16_utf8_fits s z src count : words s z → 0 ≤ src ≤ z → z < 2 ^ 29 →
  ∃ bytes, utf16_utf8_strnlen s src count = Some (Z.of_nat (length bytes)) ∧ Forall (λ b, 0 < b < 256) bytes ∧
    ∀ l1 buf l2, length buf = S (length bytes) →
      utf16_utf8_strncpy (l1 ++ buf ++ l2) (Some (Z.of_nat (length l1))) s (Some src) count =
      Some (0, l1 ++ bytes ++ 0 :: l2, Some (Z.of_nat (length l1) + Z.of_nat (length bytes))).
Proof.
  intros Hw Hsrc Hz. destruct (codes_utf16 s z src count Hw Hsrc) as (cs & Hcs & Hok & Hlen).
  destruct (text8_bound cs Hok) as [Hb Hl]. exists (text utf8 cs). split.
  - apply count_codes_spec; [apply bytes8_enc|done|done|lia].
  - split; [done|]. intros l1 buf l2 Hbuf. by apply (copy_codes_spec _ _ put8_enc).
Qed.

(** *** Round trip *)

Lemma text_scalar (enc : Z → list Z) cs : Forall scalar cs → text enc cs = cs ≫= enc.
Proof.
  induction 1 as [|c cs Hc Hcs IH]; [done|]. unfold text in *. rewrite !bind_cons, IH. f_equal.
  unfold shown. by rewrite (proj2 (Z.ltb_ge c 0)) by (unfold scalar in Hc; lia).
Qed.

Lemma get8_enc s l1 c l2 i : scalar c → s = l1 ++ utf8 c ++ l2 → i = Z.of_nat (length l1) →
  utf8_get s (Some i) = Some (c, Some (i + Z.of_nat (length (utf8 c)))).
Proof. intros Hc ? ?. rewrite utf8_length by (unfold scalar in Hc; lia). by apply (utf8_get_spec s l1 c l2). Qed.

Lemma get16_enc s l1 c l2 i : scalar c ∧ readable c → s = l1 ++ utf16 c ++ l2 → i = Z.of_nat (length l1) →
  utf16_get s (Some i) = Some (c, Some (i + Z.of_nat (length (utf16 c)))).
Proof. intros [Hc Hd] ? ?. rewrite utf16_length by (unfold scalar in Hc; lia). by apply (utf16_get_spec s l1 c l2). Qed.

Lemma head_enc (enc : Z → list Z) c : Forall (λ b, 0 < b) (enc c) → enc c ≠ [] → ∃ x r, enc c = x :: r ∧ x ≠ 0.
Proof. destruct (enc c) as [|x r]; [done|]. intros [H _]%Forall_cons_iff _. exists x, r. split; [done|lia]. Qed.

Lemma head8 c : scalar c → ∃ x r, utf8 c = x :: r ∧ x ≠ 0.
Proof.
  intros Hc. apply head_enc; [eapply Forall_impl; [|by apply utf8_nonzero]; cbn; lia|].
  unfold utf8. by repeat destruct (_ <=? _); try destruct (_ <? _).
Qed.

Lemma head16 c : scalar c → ∃ x r, utf16 c = x :: r ∧ x ≠ 0.
Proof.
  intros Hc. apply head_enc; [eapply Forall_impl; [|by apply utf16_range]; cbn; lia|].
  unfold utf16. by destruct (_ <? _).
Qed.

Lemma text16_bound cs : Forall scalar cs → (length (cs ≫= utf16) ≤ length (cs ≫= utf8))%nat.
Proof.
  induction 1 as [|c cs Hc Hcs IH]; [done|]. rewrite !bind_cons, !length_app.
  assert (length (utf16 c) ≤ length (utf8 c))%nat; [|lia]. unfold scalar in Hc. unfold utf8, utf16. bools; cbn; lia.
Qed.

Lemma take_all cs : Forall scalar cs → Z.of_nat (length (cs ≫= utf8)) < 2 ^ 31 → take (Z.to_nat SIZE_MAX) cs = cs.
Proof. intros Hcs Hl. apply take_ge. pose proof (enc_length utf8 scalar head8 cs Hcs). unfold SIZE_MAX. lia. Qed.

(** The text in UTF-8 is read as the code points, and so is the one in UTF-16. *)
Lemma codes_text8 cs : Forall scalar cs → Z.of_nat (length (cs ≫= utf8)) < 2 ^ 31 →
  codes utf8_get ((cs ≫= utf8) ++ [0]) 0 SIZE_MAX = Some cs.
Proof.
  intros Hcs Hl. pose proof (codes_encoded utf8_get utf8 scalar get8_enc head8 [] cs [] SIZE_MAX Hcs) as H.
  rewrite take_all in H by done. apply H. done.
Qed.

Lemma codes_text16 cs : Forall scalar cs → Forall readable cs → Z.of_nat (length (cs ≫= utf8)) < 2 ^ 31 →
  codes utf16_get ((cs ≫= utf16) ++ [0]) 0 SIZE_MAX = Some cs.
Proof.
  intros Hcs Hd Hl. pose proof (codes_encoded utf16_get utf16 (λ c, scalar c ∧ readable c) get16_enc
    (λ c Hc, head16 c (proj1 Hc)) [] cs [] SIZE_MAX) as H.
  rewrite take_all in H by done. apply H; [|done]. by apply list_relations.list.Forall_and.
Qed.

Lemma read_ok_scalar cs : Forall scalar cs → Forall read_ok cs.
Proof. apply Forall_impl. by right. Qed.

(** C27. A text of characters in UTF-8 needs the words that [utf8_utf16_strnlen]
    counts, its copy is the text in UTF-16, and the copy of that is the text again,
    unless a character has the first or the last word as its second surrogate. *)
Theorem utf_roundtrip cs : Forall scalar cs → Forall readable cs → Z.of_nat (length (cs ≫= utf8)) < 2 ^ 31 →
  let text8 := (cs ≫= utf8) ++ [0] in
  let text16 := (cs ≫= utf16) ++ [0] in
  (utf8_utf16_strnlen text8 0 SIZE_MAX = Some (Z.of_nat (length (cs ≫= utf16))) ∧
   ∀ buf, length buf = length text16 →
     utf8_utf16_strncpy buf (Some 0) text8 (Some 0) SIZE_MAX = Some (0, text16, Some (Z.of_nat (length (cs ≫= utf16))))) ∧
  (utf16_utf8_strnlen text16 0 SIZE_MAX = Some (Z.of_nat (length (cs ≫= utf8))) ∧
   ∀ buf, length buf = length text8 →
     utf16_utf8_strncpy buf (Some 0) text16 (Some 0) SIZE_MAX = Some (0, text8, Some (Z.of_nat (length (cs ≫= utf8))))).
Proof.
  intros Hcs Hd Hl. cbv zeta. pose proof (text16_bound cs Hcs). pose proof (read_ok_scalar cs Hcs) as Hok.
  pose proof (codes_text8 cs Hcs Hl) as H8. pose proof (codes_text16 cs Hcs Hd Hl) as H16.
  rewrite !length_app. split; split.
  - rewrite <-(text_scalar utf16 cs Hcs). apply (count_codes_spec units16 utf16 units16_enc _ _ _ _ _ H8 Hok).
    rewrite text_scalar by done. lia.
  - intros buf Hbuf. rewrite <-(text_scalar utf16 cs Hcs) in *.
    pose proof (copy_codes_spec _ _ put16_enc _ _ _ _ _ [] buf [] H8 Hok) as Hcpy. rewrite app_nil_r in Hcpy.
    apply Hcpy. cbn [length] in Hbuf. lia.
  - rewrite <-(text_scalar utf8 cs Hcs). apply (count_codes_spec bytes8 utf8 bytes8_enc _ _ _ _ _ H16 Hok).
    rewrite text_scalar by done. lia.
  - intros buf Hbuf. rewrite <-(text_scalar utf8 cs Hcs) in *.
    pose proof (copy_codes_spec _ _ put8_enc _ _ _ _ _ [] buf [] H16 Hok) as Hcpy. rewrite app_nil_r in Hcpy.
    apply Hcpy. cbn [length] in Hbuf. lia.
Qed.

(** ** The older conversion *)

Lemma older_step_next s d i size h code bs i' h' d' : size ≠ 0 → arr_get s i = Some code →
  utf16_to_utf8_word code h (i + 1) = (bs, i', h') → put_all d bs = Some d' →
  utf16_to_utf8_step s (d, i, size, h) = Some (Next (d', i', size - 1, h')).
Proof.
  intros Hs Hc Hw Hp. unfold utf16_to_utf8_step. rewrite (proj2 (Z.eqb_neq size 0)) by done. rewrite Hc. cbn [mbind option_bind].
  rewrite Hw. by rewrite Hp.
Qed.

Lemma older_word c i : scalar c → c < 0x10000 → utf16_to_utf8_word c 0 i = (utf8 c, i, 0).
Proof.
  intros Hc Hlt. unfold scalar in Hc. unfold utf16_to_utf8_word, utf8. cbn [Z.eqb negb].
  destruct (Z.leb_spec c 0x7f); [done|]. rewrite tail_byte. destruct (Z.leb_spec c 0x7ff); [by rewrite head2 by lia|].
  assert (E1 : (0xd800 <=? c) && (c <=? 0xdbff) = false) by (bools; done || lia).
  assert (E2 : (0xdc00 <=? c) && (c <=? 0xdfff) = false) by (bools; done || lia).
  rewrite E1, E2, (proj2 (Z.ltb_lt c 0x10000)), shifted_tail, head3 by lia. done.
Qed.

Lemma older_pair c i : scalar c → 0x10000 ≤ c →
  ∃ h l, utf16 c = [h; l] ∧ (∀ j, utf16_to_utf8_word h 0 j = ([], j, h)) ∧ utf16_to_utf8_word l h i = (utf8 c, i, 0).
Proof.
  intros Hc Hle. destruct (scalar_code c Hc) as [_ Hr]. unfold utf16, utf8.
  rewrite (proj2 (Z.ltb_ge c 0x10000)), (proj2 (Z.leb_gt c 0x7f)), (proj2 (Z.leb_gt c 0x7ff)) by lia.
  set (x := (c - 0x10000) / 1024). set (y := (c - 0x10000) mod 1024).
  assert (Hx : 0 ≤ x < 1024 ∧ 0 ≤ y < 1024 ∧ c = x * 1024 + y + 0x10000) by (subst x y; Z.to_euclidean_division_equations; lia).
  eexists _, _. split; [reflexivity|]. unfold utf16_to_utf8_word. split.
  - intros j. cbn [Z.eqb negb]. rewrite (proj2 (Z.leb_gt _ 0x7f)), (proj2 (Z.leb_gt _ 0x7ff)), (proj2 (Z.leb_le 0xd800 _)),
      (proj2 (Z.leb_le _ 0xdbff)) by lia. done.
  - rewrite (proj2 (Z.eqb_neq (0xd800 + x) 0)), (proj2 (Z.leb_le 0xdc00 _)), (proj2 (Z.leb_le _ 0xdfff)) by lia. cbn [negb andb].
    rewrite Z.shiftl_mul_pow2 by lia. assert (E : u32 ((0xd800 + x - 0xd800) * 2 ^ 10 + (0xdc00 + y - 0xdc00) + 0x10000) = c)
      by (rewrite wrap_small; lia).
    rewrite E, !shifted_tail, tail_byte, head4 by lia. done.
Qed.

Lemma older_loop cs : Forall scalar cs → ∀ fuel s l1 l2 d1 old d2 q i n, s = l1 ++ (cs ≫= utf16) ++ l2 →
  length old = length (cs ≫= utf8) → q = Z.of_nat (length d1) → i = Z.of_nat (length l1) →
  n = Z.of_nat (length (cs ≫= utf16)) → (length (cs ≫= utf16) < fuel)%nat →
  ∃ i', loop_brk fuel (utf16_to_utf8_step s) ((d1 ++ old ++ d2, q), i, n, 0) =
    Some ((d1 ++ (cs ≫= utf8) ++ d2, q + Z.of_nat (length (cs ≫= utf8))), i', 0, 0).
Proof.
  induction 1 as [|c cs Hc Hcs IH]; intros fuel s l1 l2 d1 old d2 q i n Hs Hold Hq Hi Hn Hf.
  - destruct old; [|done]. destruct fuel as [|fuel]; [lia|]. subst n. eexists. erewrite loop_brk_break by reflexivity.
    cbn. by rewrite Z.add_0_r.
  - rewrite !bind_cons in *. rewrite !length_app in *. set (t8 := cs ≫= utf8) in *. set (t16 := cs ≫= utf16) in *.
    assert (Hput : put_all (d1 ++ old ++ d2, q) (utf8 c) =
      Some ((d1 ++ utf8 c) ++ drop (length (utf8 c)) old ++ d2, q + Z.of_nat (length (utf8 c)))).
    { rewrite <-(take_drop (length (utf8 c)) old) at 1. rewrite <-!app_assoc. apply put_all_at; [rewrite length_take; lia|done|].
      eapply Forall_impl; [|by apply utf8_nonzero]. cbn. lia. }
    assert (Hend : d1 ++ (utf8 c ++ t8) ++ d2 = (d1 ++ utf8 c) ++ t8 ++ d2) by list_eq. rewrite Hend. clear Hend.
    assert (Hq' : q + Z.of_nat (length (utf8 c) + length t8) = q + Z.of_nat (length (utf8 c)) + Z.of_nat (length t8)) by lia.
    rewrite Hq'. clear Hq'.
    destruct (Z.lt_ge_cases c 0x10000) as [Hlt|Hge].
    + assert (E : utf16 c = [c]) by (unfold utf16; by rewrite (proj2 (Z.ltb_lt _ _))). rewrite E in Hs, Hn, Hf. cbn [length] in Hn, Hf.
      destruct fuel as [|fuel]; [lia|].
      erewrite loop_brk_next by (eapply older_step_next; [lia|apply (arr_get_at s l1 c (t16 ++ l2)); [rewrite Hs; list_eq|done]|
        by apply older_word|exact Hput]).
      apply (IH fuel s (l1 ++ [c]) l2); [rewrite Hs; list_eq|rewrite length_drop; lia|rewrite length_app; lia|
        rewrite length_app; cbn; lia|lia|lia].
    + destruct (older_pair c (i + 1 + 1) Hc Hge) as (h & l & E & Eh & El). rewrite E in Hs, Hn, Hf. cbn [length] in Hn, Hf.
      destruct fuel as [|[|fuel]]; [lia..|].
      erewrite loop_brk_next by (eapply older_step_next; [lia|apply (arr_get_at s l1 h (l :: t16 ++ l2)); [rewrite Hs; list_eq|done]|
        apply Eh|reflexivity]).
      erewrite loop_brk_next by (eapply older_step_next; [lia|apply (arr_get_at s (l1 ++ [h]) l (t16 ++ l2));
        [rewrite Hs; list_eq|rewrite length_app; cbn; lia]|exact El|exact Hput]).
      apply (IH fuel s (l1 ++ [h; l]) l2); [rewrite Hs; list_eq|rewrite length_drop; lia|rewrite length_app; lia|
        rewrite length_app; cbn; lia|lia|lia].
Qed.

(** The conversion of a text writes what the other functions write, for all
    characters. *)
Theorem utf16_to_utf8_correct cs s l1 l2 d1 old d2 : Forall scalar cs → s = l1 ++ (cs ≫= utf16) ++ l2 →
  length old = length (cs ≫= utf8) →
  utf16_to_utf8 (d1 ++ old ++ d2) (Z.of_nat (length d1)) s (Z.of_nat (length l1)) (Z.of_nat (length (cs ≫= utf16))) =
  Some (d1 ++ (cs ≫= utf8) ++ d2, Z.of_nat (length d1) + Z.of_nat (length (cs ≫= utf8))).
Proof.
  intros Hcs Hs Hold. unfold utf16_to_utf8. rewrite Nat2Z.id.
  destruct (older_loop cs Hcs (S (length (cs ≫= utf16))) s l1 l2 d1 old d2 _ _ _ Hs Hold eq_refl eq_refl eq_refl) as [i' ->]; [lia|done].
Qed.

(** ** Words *)

Lemma u16_strlen_spec s l1 x l2 p : s = l1 ++ x ++ 0 :: l2 → p = Z.of_nat (length l1) → Forall (λ w, w ≠ 0) x →
  u16_strlen s p = Some (Z.of_nat (length x)).
Proof.
  intros Hs Hp Hx. unfold u16_strlen.
  assert (H : ∀ fuel l1, s = l1 ++ x ++ 0 :: l2 → (length x < fuel)%nat → loop_brk fuel (λ pos, w ← arr_get s pos;
    Some (if w =? 0 then Break pos else Next (pos + 1))) (Z.of_nat (length l1)) = Some (Z.of_nat (length l1) + Z.of_nat (length x))).
  { clear Hs Hp l1. induction Hx as [|w x Hw Hx IH]; intros [|fuel] l1 Hs Hf; try lia.
    - rewrite (loop_brk_break _ _ _ (Z.of_nat (length l1))); [cbn; f_equal; lia|]. by rewrite (arr_get_at s l1 0 l2).
    - rewrite (loop_brk_next _ _ _ (Z.of_nat (length (l1 ++ [w])))).
      + rewrite IH by (first [rewrite Hs; list_eq|cbn in Hf; lia]). f_equal. rewrite length_app. cbn [length]. lia.
      + rewrite (arr_get_at s l1 w (x ++ 0 :: l2)) by done. cbn [mbind option_bind]. rewrite (proj2 (Z.eqb_neq w 0)) by done.
        do 2 f_equal. rewrite length_app. cbn. lia. }
  subst p. rewrite (H _ l1 Hs) by (subst s; rewrite !length_app; cbn; lia). cbn. f_equal. lia.
Qed.

(** A copy has the words and the terminator, or there is no memory. *)
Theorem u16_strdup_correct malloc s l1 x l2 : s = l1 ++ x ++ 0 :: l2 → Forall (λ w, w ≠ 0) x → Z.of_nat (length x) < 2 ^ 30 →
  u16_strdup malloc s (Some (Z.of_nat (length l1))) =
  Some (if malloc ((Z.of_nat (length x) + 1) * 2) then Some (x ++ [0]) else None).
Proof.
  intros Hs Hx Hl. unfold u16_strdup. rewrite (u16_strlen_spec s l1 x l2) by done. cbn [mbind option_bind].
  rewrite wrap_small by lia. destruct (malloc _); [|done]. cbn [negb]. rewrite Z.div_mul by lia.
  rewrite (proj2 (Z.leb_le _ _)) by (rewrite Hs, !length_app; cbn; lia). do 2 f_equal.
  rewrite Hs, Nat2Z.id, drop_app_length. replace (x ++ 0 :: l2) with ((x ++ [0]) ++ l2) by list_eq.
  apply take_app_length'. rewrite length_app. cbn. lia.
Qed.

(** ** Examples *)

(** A, e with acute accent, the euro sign and a smiling face. *)
Definition smile : list Z := [0x41; 0xe9; 0x20ac; 0x1f600].

Ltac each_scalar := repeat apply List.Forall_cons; try apply List.Forall_nil; unfold scalar, readable; vm_compute; intuition congruence.

Lemma utf_roundtrip_witness :
  let text8 := (smile ≫= utf8) ++ [0] in
  let text16 := (smile ≫= utf16) ++ [0] in
  (utf8_utf16_strnlen text8 0 SIZE_MAX = Some (Z.of_nat (length (smile ≫= utf16))) ∧
   ∀ buf, length buf = length text16 →
     utf8_utf16_strncpy buf (Some 0) text8 (Some 0) SIZE_MAX = Some (0, text16, Some (Z.of_nat (length (smile ≫= utf16))))) ∧
  (utf16_utf8_strnlen text16 0 SIZE_MAX = Some (Z.of_nat (length (smile ≫= utf8))) ∧
   ∀ buf, length buf = length text8 →
     utf16_utf8_strncpy buf (Some 0) text16 (Some 0) SIZE_MAX = Some (0, text8, Some (Z.of_nat (length (smile ≫= utf8))))).
Proof. apply (utf_roundtrip smile); [each_scalar|each_scalar|vm_compute; done]. Defined.

Example smile_text : (smile ≫= utf8, smile ≫= utf16) =
  ([0x41; 0xc3; 0xa9; 0xe2; 0x82; 0xac; 0xf0; 0x9f; 0x98; 0x80], [0x41; 0xe9; 0x20ac; 0xd83d; 0xde00]).
Proof. vm_compute. reflexivity. Qed.

(** A second surrogate alone, and a first one in front of the terminator. *)
Definition broken : list Z := [0x41; 0xdead; 0xd800; 0].

Lemma utf16_utf8_fits_witness :
  ∃ bytes, utf16_utf8_strnlen broken 0 SIZE_MAX = Some (Z.of_nat (length bytes)) ∧ Forall (λ b, 0 < b < 256) bytes ∧
    ∀ l1 buf l2, length buf = S (length bytes) →
      utf16_utf8_strncpy (l1 ++ buf ++ l2) (Some (Z.of_nat (length l1))) broken (Some 0) SIZE_MAX =
      Some (0, l1 ++ bytes ++ 0 :: l2, Some (Z.of_nat (length l1) + Z.of_nat (length bytes))).
Proof.
  apply (utf16_utf8_fits broken 3 0 SIZE_MAX); [|lia|lia].
  split; [reflexivity|]. repeat apply List.Forall_cons; try apply List.Forall_nil; lia.
Defined.

Example broken_copy : utf16_utf8_strncpy (replicate 5 7) (Some 0) broken (Some 0) SIZE_MAX = Some (0, [0x41; 63; 63; 0; 7], Some 3).
Proof. vm_compute. reflexivity. Qed.

Lemma utf16_to_utf8_correct_witness :
  utf16_to_utf8 ([] ++ replicate 10 7 ++ [8]) 0 ([] ++ (smile ≫= utf16) ++ []) 0 5 = Some ([] ++ (smile ≫= utf8) ++ [8], 0 + 10).
Proof. apply (utf16_to_utf8_correct smile _ [] [] []); [each_scalar|done|done]. Defined.

Lemma u16_strdup_correct_witness : u16_strdup (λ n, n <? 100) ([7] ++ [1; 2] ++ 0 :: [3]) (Some 1) = Some (Some ([1; 2] ++ [0])).
Proof. apply (u16_strdup_correct (λ n, n <? 100) _ [7] [1; 2] [3]); [done|by repeat constructor|done]. Defined.

(** The first character behind the basic ones is written and not read. *)
Example first_pair :
  (utf16_put 0x10000 [0; 0; 0] (Some 0), utf16_get [0xd800; 0xdc00; 0] (Some 0)) = (Some (0, [0xd800; 0xdc00; 0], Some 2), Some (-1, Some 2)).
Proof. vm_compute. reflexivity. Qed.

(** A surrogate and a zero of three bytes are read. *)
Example bad_codes :
  (utf8_get [0xed; 0xa0; 0x80; 0] (Some 0), utf8_get [0xe0; 0x80; 0x80; 0] (Some 0)) = (Some (0xd800, Some 3), Some (0, Some 3)).
Proof. vm_compute. reflexivity. Qed.

(** Such a zero ends the counting and not the copying, which writes behind a
    buffer of the size that was counted. *)
Example long_zero :
  (utf8_utf16_strnlen [0xe0; 0x80; 0x80; 0x41; 0x42; 0] 0 SIZE_MAX,
   utf8_utf16_strncpy [7; 7; 7; 7] (Some 0) [0xe0; 0x80; 0x80; 0x41; 0x42; 0] (Some 0) SIZE_MAX,
   utf8_utf16_strncpy [7] (Some 0) [0xe0; 0x80; 0x80; 0x41; 0x42; 0] (Some 0) SIZE_MAX) =
  (Some 0, Some (0, [0; 0x41; 0x42; 0], Some 3), None).
Proof. vm_compute. reflexivity. Qed.

(** An error is a question mark and not -1, and the byte behind it is lost. *)
Example error_is_shown : utf8_get [0xc3; 0x41; 0] (Some 0) = Some (63, Some 2).
Proof. vm_compute. reflexivity. Qed.

(** The word behind a surrogate without partner is not skipped, but counted. *)
Example last_word_lost : utf16_to_utf8 (replicate 4 0) 0 [0xd800; 0x41; 0x42; 0] 0 3 = Some ([63; 0x41; 0; 0], 2).
Proof. vm_compute. reflexivity. Qed.

Example compare : (u16_strncmp [1; 2; 0] [1; 3; 0] 0 0 5, u16_strncmp [1; 2; 0] [1; 2; 0] 0 0 5, u16_strncmp [1; 2; 0] [1; 3; 0] 0 0 1,
  u16_strnlen [1; 2; 0] 0 1, u16_strcpy [7; 7; 7; 7] 1 [1; 0] 0) = (Some (-1), Some 0, Some 0, Some 1, Some ([7; 1; 0; 7], 1)).
Proof. vm_compute. reflexivity. Qed.

(** A console with a list of keys. *)
#[local] Instance keys : Console := {|
  console := list Z; tstc := λ c, (match c with [] => false | _ => true end, c);
  getc := λ c, match c with [] => (-1, []) | k :: c => (k, c) end |}.

Example euro_key : (console_read_unicode 5 [0xe2; 0x82; 0xac; 0x41], console_read_unicode 5 []) =
  (Some (0, 0x20ac, [0x41]), Some (1, 5, [])).
Proof. vm_compute. reflexivity. Qed.
