(* ===== verification/Uuid.v ===== *)
(** * Uuid: UUIDs and internet addresses as text (lib/uuid.c, lib/net_utils.c)

    The configuration has no named partition types (PARTITION_TYPE_GUID). *)

From Stdlib Require Import ZArith Lia List.
From stdpp Require Import base numbers list option gmap fin_maps.
From S2P Require Import Prelude Memory Ctype CString Strto Number Vsprintf.

Definition UUID_STR_FORMAT_STD : Z := 0.
Definition UUID_STR_FORMAT_GUID : Z := 1.
Definition UUID_STR_UPPER_CASE : Z := 2.
Definition UUID_STR_LEN : Z := 36.

(** ** Words as bytes *)

(** The bytes of an [n]-byte word in memory. *)
Fixpoint le_bytes (n : nat) (x : Z) : list Z :=
  match n with O => [] | S n => u8 x :: le_bytes n (x / 256) end.

Fixpoint of_le (l : list Z) : Z :=
  match l with [] => 0 | b :: l => b + 256 * of_le l end.

Definition cpu_to_be (n : nat) (x : Z) : Z := of_le (rev (le_bytes n x)).

Fixpoint store_bytes (m : mem) (a : Z) (l : list Z) : option mem :=
  match l with
  | [] => Some m
  | b :: l => m ← store m a b; store_bytes m (a + 1) l
  end.

(** ** Operations *)

Definition uuid_str_valid (m : mem) (uuid : Z) : option bool :=
  if uuid =? NULL then Some false
  else
    '(i, valid) ← loop_brk (S (size m)) (λ '(i, valid),
        c ← load m (uuid + i);
        if negb (c =? 0) && valid then
          if (i =? 8) || (i =? 13) || (i =? 18) || (i =? 23)
          then Some (Next (i + 1, c =? 45))
          else Some (Next (i + 1, isxdigit c))
        else Some (Break (i, valid)))
      (0, true);
    Some (negb (negb (i =? UUID_STR_LEN) || negb valid)).

(** The results are the return value and the memory. *)
Definition uuid_str_to_bin (m : mem) (uuid_str uuid_bin str_format : Z) : option (Z * mem) :=
  valid ← uuid_str_valid m uuid_str;
  if negb valid then Some (- EINVAL, m)
  else
    let conv n x := if str_format =? UUID_STR_FORMAT_STD then cpu_to_be n x else x in
    '(v, _) ← simple_strtoul m uuid_str 16;
    m ← store_bytes m uuid_bin (le_bytes 4 (conv 4%nat v));
    '(v, _) ← simple_strtoul m (uuid_str + 9) 16;
    m ← store_bytes m (uuid_bin + 4) (le_bytes 2 (conv 2%nat v));
    '(v, _) ← simple_strtoul m (uuid_str + 14) 16;
    m ← store_bytes m (uuid_bin + 6) (le_bytes 2 (conv 2%nat v));
    '(v, _) ← simple_strtoul m (uuid_str + 19) 16;
    m ← store_bytes m (uuid_bin + 8) (le_bytes 2 (cpu_to_be 2 v));
    '(v, _) ← simple_strtoull m (uuid_str + 24) 16;
    m ← store_bytes m (uuid_bin + 10) (drop 2 (le_bytes 8 (cpu_to_be 8 v)));
    Some (0, m).

Definition uuid_char_order : list Z := [0; 1; 2; 3; 4; 5; 6; 7; 8; 9; 10; 11; 12; 13; 14; 15].
Definition guid_char_order : list Z := [3; 2; 1; 0; 5; 4; 7; 6; 8; 9; 10; 11; 12; 13; 14; 15].

(** [upper] and [lower] are the addresses of the formats "%02X" and "%02x". *)
Definition uuid_bin_to_str (upper lower : Z) (m : mem) (uuid_bin uuid_str str_format : Z)
    : option mem :=
  let char_order := if flag str_format UUID_STR_FORMAT_GUID then guid_char_order else uuid_char_order in
  let format := if flag str_format UUID_STR_UPPER_CASE then upper else lower in
  '(m, _, _) ← loop_brk 17 (λ '(m, uuid_str, i),
      if i <? 16 then
        k ← arr_get char_order i;
        b ← load m (uuid_bin + k);
        '(m, _) ← sprintf m uuid_str format [b];
        let uuid_str := uuid_str + 2 in
        if (i =? 3) || (i =? 5) || (i =? 7) || (i =? 9) then
          m ← store m uuid_str 45;
          Some (Next (m, uuid_str + 1, i + 1))
        else Some (Next (m, uuid_str, i + 1))
      else Some (Break (m, uuid_str, i)))
    (m, uuid_str, 0);
  Some m.

(** The address in network byte order: the first number is the first byte in
    memory. *)
Definition string_to_ip (m : mem) (s : Z) : option Z :=
  if s =? NULL then Some 0
  else
    o ← loop 5 (λ '(s_addr, s, i),
        if i <? 4 then
          '(val, e) ← simple_strtoul m s 10;
          if 255 <? val then Some (Return 0)
          else
            c ← load m e;
            if negb (i =? 3) && negb (c =? 46) then Some (Return 0)
            else
              Some (Next (Z.lor (u32 (Z.shiftl s_addr 8)) (Z.land val 0xff),
                          (if negb (c =? 0) then e + 1 else e), i + 1))
        else Some (Break (s_addr, s, i)))
      (0, s, 0);
    Some (match o with inl (s_addr, _, _) => cpu_to_be 4 s_addr | inr r => r end).

(** ** Bytes *)

Definition be_value (bs : list Z) : Z := fold_left (λ r b, r * 256 + b) bs 0.

Lemma length_le_bytes n x : length (le_bytes n x) = n.
Proof. revert x. induction n as [|n IH]; intros x; cbn; [done|]. by rewrite IH. Qed.

Lemma le_bytes_of_le l : Forall is_byte l → le_bytes (length l) (of_le l) = l.
Proof.
  unfold is_byte. induction 1 as [|b l Hb _ IH]; cbn [length le_bytes of_le]; [done|].
  f_equal; [unfold wrap; change (2 ^ 8) with 256; rewrite (Z.mul_comm 256), Z_mod_plus_full; by apply Z.mod_small|].
  rewrite (Z.mul_comm 256), Z.div_add, Z.div_small, Z.add_0_l by lia. exact IH.
Qed.

Lemma le_bytes_byte n x : Forall is_byte (le_bytes n x).
Proof.
  revert x. induction n as [|n IH]; intros x; constructor; [|apply IH].
  unfold is_byte. apply (wrap_range 8). lia.
Qed.

Lemma be_value_rev l : be_value (rev l) = of_le l.
Proof.
  induction l as [|b l IH]; [done|]. cbn [rev of_le]. unfold be_value in *.
  rewrite fold_left_app. cbn [fold_left]. rewrite IH. lia.
Qed.

(** The bytes in memory of a word that was swapped, and of one that was not. *)
Lemma be_bytes_swapped bs :
  Forall is_byte bs → le_bytes (length bs) (cpu_to_be (length bs) (be_value bs)) = bs.
Proof.
  intros Hb. assert (Hr : Forall is_byte (rev bs)) by by apply Forall_rev.
  rewrite <-(rev_involutive bs) at 3. rewrite be_value_rev. unfold cpu_to_be.
  rewrite <-(length_rev bs), le_bytes_of_le, rev_involutive, length_rev by done.
  by rewrite le_bytes_of_le.
Qed.

Lemma le_bytes_be bs : Forall is_byte bs → le_bytes (length bs) (be_value bs) = rev bs.
Proof.
  intros Hb. rewrite <-(rev_involutive bs) at 2. rewrite be_value_rev, <-(length_rev bs).
  apply le_bytes_of_le. by apply Forall_rev.
Qed.

Lemma be_value_range bs : Forall is_byte bs → 0 ≤ be_value bs < 256 ^ Z.of_nat (length bs).
Proof.
  intros Hb. rewrite <-(rev_involutive bs), be_value_rev, !length_rev.
  assert (Hr : Forall is_byte (rev bs)) by by apply Forall_rev. rewrite <-(length_rev bs).
  revert Hr. generalize (rev bs). clear. intros l. unfold is_byte.
  induction 1 as [|b l Hb _ IH]; cbn [length of_le]; [cbn; lia|].
  rewrite Nat2Z.inj_succ, Z.pow_succ_r by lia. lia.
Qed.

Lemma store_bytes_spec m a l :
  Forall is_byte l → mapped m a (Z.of_nat (length l)) → store_bytes m a l = Some (set_bytes m a l).
Proof.
  intros Hl. revert m a. induction Hl as [|b l Hb _ IH]; intros m a Hm; cbn [store_bytes set_bytes length] in *; [done|].
  rewrite (store_mapped m _ _ _ _ Hm) by lia. unfold is_byte in Hb. rewrite wrap_small by lia. reduce.
  apply IH. apply mapped_insert. eapply mapped_sub; [exact Hm|lia|lia].
Qed.

(** ** Bytes as hexadecimal digits *)

Definition hex2 (lc b : Z) : list Z := [dchar lc (b / 16); dchar lc (b mod 16)].

Definition hex_of (lc : Z) (bs : list Z) : list Z := concat (map (hex2 lc) bs).

Lemma hex2_digits lc b : is_case lc → is_byte b →
  Forall (λ c, is_digit_of 16 c = true ∧ is_char c) (hex2 lc b).
Proof.
  intros Hlc Hb. unfold is_byte in Hb.
  assert (H1 : 0 ≤ b / 16 < 16) by (Z.to_euclidean_division_equations; lia).
  assert (H2 : 0 ≤ b mod 16 < 16) by (apply Z.mod_pos_bound; lia).
  destruct (dchar_value lc _ Hlc H1) as (X1 & V1 & R1 & _).
  destruct (dchar_value lc _ Hlc H2) as (X2 & V2 & R2 & _).
  unfold hex2, is_digit_of, is_char. repeat constructor; rewrite ?X1, ?X2, ?V1, ?V2; cbn; lia.
Qed.

Lemma hex_of_digits lc bs : is_case lc → Forall is_byte bs →
  Forall (λ c, is_digit_of 16 c = true ∧ is_char c) (hex_of lc bs).
Proof.
  intros Hlc. induction 1 as [|b bs Hb _ IH]; [constructor|].
  apply Forall_app. split; [by apply hex2_digits|done].
Qed.

Lemma hex_of_value lc bs r : is_case lc → Forall is_byte bs →
  fold_left (λ r c, r * 16 + digit_value c) (hex_of lc bs) r = fold_left (λ r b, r * 256 + b) bs r.
Proof.
  intros Hlc Hb. revert r. induction Hb as [|b bs Hb _ IH]; intros r; [done|].
  unfold is_byte in Hb.
  assert (H1 : 0 ≤ b / 16 < 16) by (Z.to_euclidean_division_equations; lia).
  assert (H2 : 0 ≤ b mod 16 < 16) by (apply Z.mod_pos_bound; lia).
  destruct (dchar_value lc _ Hlc H1) as (_ & V1 & _). destruct (dchar_value lc _ Hlc H2) as (_ & V2 & _).
  cbn [hex_of concat map hex2 app fold_left]. fold (hex_of lc bs). rewrite IH, V1, V2. f_equal.
  pose proof (Z.div_mod b 16 ltac:(lia)). lia.
Qed.

(** The number at the start of a string of digits and something else. *)
Lemma digits_of_app base ds rest :
  base = 8 ∨ base = 10 ∨ base = 16 → (2 ≤ length ds)%nat ∨ base ≠ 16 →
  Forall (λ c, is_digit_of base c = true ∧ is_char c) ds →
  match rest with [] => True | c :: _ => is_digit_of base c = false end →
  prefix base (ds ++ rest) = O ∧ radix base (ds ++ rest) = base ∧ digits_of base (ds ++ rest) = ds.
Proof.
  intros Hb Hlen Hds Hrest. assert (Hr : radix base (ds ++ rest) = base).
  { unfold radix. by rewrite (proj2 (Z.eqb_neq base 0)) by lia. }
  assert (Hp : prefix base (ds ++ rest) = O).
  { unfold prefix. rewrite Hr. destruct (Z.eqb_spec base 16) as [->|]; [|done]. destruct Hlen as [Hlen|]; [|done].
    destruct ds as [|c0 [|c1 ds]]; cbn in Hlen; try lia.
    inversion Hds as [|? ? _ H]; subst. inversion H as [|? ? [H1 H2] _]; subst.
    cbn [app has_0x]. by rewrite (digit_char_not_x 16 c1 H1 H2), !andb_false_r. }
  split_and!; [done|done|]. unfold digits_of. rewrite Hp, Hr. cbv zeta. cbn [drop].
  assert (E : prefix_len (is_digit_of base) (ds ++ rest) = length ds).
  { clear Hr Hp Hlen. induction Hds as [|c ds [Hc _] _ IH]; cbn.
    - destruct rest as [|c rest]; cbn; [done|]. by rewrite Hrest.
    - by rewrite Hc, IH. }
  rewrite drop_0, E. by apply take_app_length.
Qed.

Lemma strtou_app w m a base ds rest :
  4 ≤ w → base = 8 ∨ base = 10 ∨ base = 16 → (2 ≤ length ds)%nat ∨ base ≠ 16 →
  Forall (λ c, is_digit_of base c = true ∧ is_char c) ds →
  match rest with [] => True | c :: _ => is_digit_of base c = false end →
  cstr_at m a (ds ++ rest) →
  simple_strtou w m a base = Some (wrap w (number_of base ds), a + Z.of_nat (length ds)).
Proof.
  intros Hw Hb Hlen Hds Hrest Hc. destruct (digits_of_app base ds rest Hb Hlen Hds Hrest) as (E1 & E2 & E3).
  rewrite (simple_strtou_spec w m a base _ Hw Hc), E1, E2, E3. f_equal. f_equal. lia.
Qed.

Lemma length_hex_of lc bs : length (hex_of lc bs) = (2 * length bs)%nat.
Proof. unfold hex_of. induction bs as [|b bs IH]; cbn; [done|]. cbn in IH. rewrite IH. lia. Qed.

(** A group of bytes followed by another character, read back. *)
Lemma strtou_hex w m a lc bs rest :
  4 ≤ w → is_case lc → Forall is_byte bs → bs ≠ [] →
  256 ^ Z.of_nat (length bs) ≤ 2 ^ w →
  match rest with [] => True | c :: _ => c = 45 end →
  cstr_at m a (hex_of lc bs ++ rest) →
  simple_strtou w m a 16 = Some (be_value bs, a + 2 * Z.of_nat (length bs)).
Proof.
  intros Hw Hlc Hb Hne Hfit Hrest Hc. pose proof (be_value_range bs Hb).
  rewrite (strtou_app w m a 16 (hex_of lc bs) rest); try done.
  - unfold number_of. rewrite (hex_of_value lc bs 0 Hlc Hb). fold (be_value bs).
    rewrite wrap_small by lia. rewrite length_hex_of. f_equal. f_equal. lia.
  - by right; right.
  - left. rewrite length_hex_of. destruct bs; cbn; [done|lia].
  - by apply hex_of_digits.
  - destruct rest; [done|]. by subst.
Qed.

(** ** The text of a UUID *)

Definition uuid_text (lc : Z) (g1 g2 g3 g4 g5 : list Z) : list Z :=
  hex_of lc g1 ++ 45 :: hex_of lc g2 ++ 45 :: hex_of lc g3 ++ 45 :: hex_of lc g4 ++ 45 :: hex_of lc g5.

Definition dash (i : Z) : bool := (i =? 8) || (i =? 13) || (i =? 18) || (i =? 23).

Fixpoint uuid_ok (i : Z) (s : list Z) : bool :=
  match s with
  | [] => true
  | c :: s => (if dash i then c =? 45 else isxdigit c) && uuid_ok (i + 1) s
  end.

Lemma uuid_ok_digits i l rest :
  Forall (λ c, isxdigit c = true) l →
  (∀ j, i ≤ j < i + Z.of_nat (length l) → dash j = false) →
  uuid_ok i (l ++ rest) = uuid_ok (i + Z.of_nat (length l)) rest.
Proof.
  intros Hl. revert i. induction Hl as [|c l Hc _ IH]; intros i Hd; cbn [app uuid_ok length].
  - by rewrite Z.add_0_r.
  - cbn [length] in Hd. rewrite Hd, Hc by lia. cbn [andb]. rewrite IH by (intros; apply Hd; lia). f_equal. lia.
Qed.

Lemma uuid_valid_loop m str i s fuel :
  cstr_at m (str + i) s → uuid_ok i s = true → (length s < fuel)%nat →
  loop_brk fuel (λ '(i, valid),
        c ← load m (str + i);
        if negb (c =? 0) && valid then
          if (i =? 8) || (i =? 13) || (i =? 18) || (i =? 23)
          then Some (Next (i + 1, c =? 45))
          else Some (Next (i + 1, isxdigit c))
        else Some (Break (i, valid))) (i, true) = Some (i + Z.of_nat (length s), true).
Proof.
  revert i fuel. induction s as [|c s IH]; intros i [|fuel] Hs Hok Hf; cbn [length] in *; try lia.
  - step_break; [|cstr_read; reflexivity]. by rewrite Z.add_0_r.
  - pose proof (cstr_tail _ _ _ _ Hs) as [Hc Hs']. unfold is_char in Hc.
    cbn [uuid_ok] in Hok. apply andb_prop in Hok as [Hc' Hok].
    step_next; [|cstr_read; rewrite (proj2 (Z.eqb_neq c 0)) by lia; cbn [negb andb]; fold (dash i)].
    2:{ instantiate (1 := (i + 1, true)). destruct (dash i); by rewrite Hc'. }
    rewrite IH; [f_equal; f_equal; lia| |done|lia]. by rewrite Z.add_assoc.
Qed.

Lemma digits_xdigit lc bs : is_case lc → Forall is_byte bs → Forall (λ c, isxdigit c = true) (hex_of lc bs).
Proof.
  intros Hlc Hb. eapply Forall_impl; [by apply (hex_of_digits lc)|]. intros c [H _].
  unfold is_digit_of in H. by destruct (andb_prop _ _ H).
Qed.

Section groups.
Context (lc : Z) (g1 g2 g3 g4 g5 : list Z).
Context (Hlc : is_case lc).
Context (H1 : length g1 = 4%nat) (H2 : length g2 = 2%nat) (H3 : length g3 = 2%nat).
Context (H4 : length g4 = 2%nat) (H5 : length g5 = 6%nat).
Context (B1 : Forall is_byte g1) (B2 : Forall is_byte g2) (B3 : Forall is_byte g3).
Context (B4 : Forall is_byte g4) (B5 : Forall is_byte g5).

Lemma uuid_text_length : length (uuid_text lc g1 g2 g3 g4 g5) = 36%nat.
Proof.
  unfold uuid_text. repeat (rewrite length_app; cbn [length]). rewrite !length_hex_of, H1, H2, H3, H4, H5. done.
Qed.

Lemma uuid_text_chars : Forall is_char (uuid_text lc g1 g2 g3 g4 g5).
Proof.
  assert (Hh : ∀ g, Forall is_byte g → Forall is_char (hex_of lc g)).
  { intros g Hg. eapply Forall_impl; [by apply (hex_of_digits lc)|]. by intros c []. }
  unfold uuid_text. repeat (apply Forall_app; split; [by apply Hh|]; constructor; [done|]). by apply Hh.
Qed.

Lemma uuid_text_ok : uuid_ok 0 (uuid_text lc g1 g2 g3 g4 g5) = true.
Proof.
  assert (Hd : ∀ i n, (∀ j, i ≤ j < i + n → j ≠ 8 ∧ j ≠ 13 ∧ j ≠ 18 ∧ j ≠ 23) →
                 ∀ j, i ≤ j < i + n → dash j = false).
  { intros i n H j Hj. destruct (H j Hj) as (? & ? & ? & ?). unfold dash.
    by rewrite !(proj2 (Z.eqb_neq j _)). }
  pose proof (digits_xdigit lc) as Hx.
  assert (Hstep : ∀ i n g rest, Forall is_byte g → Z.of_nat (2 * length g) = n →
    (∀ j, i ≤ j < i + n → j ≠ 8 ∧ j ≠ 13 ∧ j ≠ 18 ∧ j ≠ 23) → dash (i + n) = true →
    uuid_ok i (hex_of lc g ++ 45 :: rest) = uuid_ok (i + n + 1) rest).
  { intros i n g rest Hg Hn Hj Hdash.
    rewrite uuid_ok_digits; [|by apply Hx|rewrite length_hex_of, Hn; by apply Hd].
    rewrite length_hex_of, Hn. cbn [uuid_ok]. by rewrite Hdash. }
  unfold uuid_text.
  rewrite (Hstep 0 8 g1), (Hstep 9 4 g2), (Hstep 14 4 g3), (Hstep 19 4 g4) by (done || lia).
  rewrite <-(app_nil_r (hex_of lc g5)), uuid_ok_digits; [done|by apply Hx|].
  apply Hd; rewrite length_hex_of, H5; intros; lia.
Qed.

Lemma uuid_valid m str : 0 < str → cstr_at m str (uuid_text lc g1 g2 g3 g4 g5) →
  uuid_str_valid m str = Some true.
Proof.
  intros Hp Hs. unfold uuid_str_valid. rewrite (proj2 (Z.eqb_neq _ _)) by (unfold NULL; lia).
  rewrite (uuid_valid_loop m str 0 (uuid_text lc g1 g2 g3 g4 g5)).
  - reduce. by rewrite uuid_text_length.
  - by rewrite Z.add_0_r.
  - apply uuid_text_ok.
  - apply cstr_at_size in Hs. lia.
Qed.

(** The fields after a number of characters. *)
Lemma uuid_fields m str : cstr_at m str (uuid_text lc g1 g2 g3 g4 g5) →
  ∃ r1 r2 r3 r4, cstr_at m str (hex_of lc g1 ++ 45 :: r1) ∧ cstr_at m (str + 9) (hex_of lc g2 ++ 45 :: r2) ∧
    cstr_at m (str + 14) (hex_of lc g3 ++ 45 :: r3) ∧ cstr_at m (str + 19) (hex_of lc g4 ++ 45 :: r4) ∧
    cstr_at m (str + 24) (hex_of lc g5 ++ []).
Proof.
  intros Hs. unfold uuid_text in Hs. do 4 eexists. split; [exact Hs|].
  assert (Hnext : ∀ a g r n, cstr_at m a (hex_of lc g ++ 45 :: r) → Z.of_nat (2 * length g) + 1 = n →
                    cstr_at m (a + n) r).
  { intros a g r n H Hn. apply (cstr_at_drop m a (hex_of lc g ++ [45]) r) in H || (rewrite cons_middle, app_assoc in H; apply cstr_at_drop in H).
    rewrite length_app, length_hex_of in H. cbn [length] in H.
    by replace (a + n) with (a + Z.of_nat (2 * length g + 1)) by lia. }
  apply (Hnext _ _ _ 9) in Hs; [|by rewrite H1]. split; [exact Hs|].
  apply (Hnext _ _ _ 5) in Hs; [|by rewrite H2]. rewrite <-Z.add_assoc in Hs. split; [exact Hs|].
  apply (Hnext _ _ _ 5) in Hs; [|by rewrite H3]. rewrite <-Z.add_assoc in Hs. split; [exact Hs|].
  apply (Hnext _ _ _ 5) in Hs; [|by rewrite H4]. rewrite <-Z.add_assoc in Hs. by rewrite app_nil_r.
Qed.

Definition in_order (format : Z) (g : list Z) : list Z :=
  if format =? UUID_STR_FORMAT_STD then g else rev g.

Definition uuid_bytes (format : Z) : list Z :=
  in_order format g1 ++ in_order format g2 ++ in_order format g3 ++ g4 ++ g5.

Lemma conv_bytes format n g : length g = n → Forall is_byte g →
  le_bytes n (if format =? UUID_STR_FORMAT_STD then cpu_to_be n (be_value g) else be_value g) =
  in_order format g.
Proof.
  intros <- Hg. unfold in_order. destruct (format =? UUID_STR_FORMAT_STD); [by apply be_bytes_swapped|by apply le_bytes_be].
Qed.

Lemma in_order_props format g : length (in_order format g) = length g ∧ (Forall is_byte g → Forall is_byte (in_order format g)).
Proof.
  unfold in_order. destruct (_ =? _); [done|]. split; [apply length_rev|]. intros H. by apply Forall_rev.
Qed.

Lemma uuid_str_to_bin_spec m str out format :
  0 < str → cstr_at m str (uuid_text lc g1 g2 g3 g4 g5) → mapped m out 16 →
  str + 37 ≤ out ∨ out + 16 ≤ str →
  uuid_str_to_bin m str out format = Some (0, set_bytes m out (uuid_bytes format)).
Proof.
  intros Hp Hs Hm Hd. unfold uuid_str_to_bin.
  rewrite (uuid_valid m str) by done. cbn [mbind option_bind negb]. cbv zeta.
  assert (Hrd : ∀ k, (length k ≤ 16)%nat → cstr_at (set_bytes m out k) str (uuid_text lc g1 g2 g3 g4 g5)).
  { intros k Hk. apply cstr_set_other; [rewrite uuid_text_length; lia|done]. }
  destruct (in_order_props format g1) as [L1 P1]. destruct (in_order_props format g2) as [L2 P2].
  destruct (in_order_props format g3) as [L3 P3].
  assert (Hread : ∀ w k a g r, 64 ≤ w ∨ (w = 32 ∧ (length g ≤ 4)%nat) → Forall is_byte g → (0 < length g ≤ 6)%nat →
      match r with [] => True | c :: _ => c = 45 end →
      cstr_at (set_bytes m out k) a (hex_of lc g ++ r) →
      simple_strtou w (set_bytes m out k) a 16 = Some (be_value g, a + 2 * Z.of_nat (length g))).
  { intros w k a g r Hw Hg Hl Hr Hc. apply (strtou_hex w _ a lc g r); try done; [lia|by destruct g; cbn in *; [lia|]|].
    destruct Hw as [Hw|[-> Hl4]].
    - eapply Z.le_trans; [apply (Z.pow_le_mono_r 256 _ 6); lia|].
      change (256 ^ 6) with (2 ^ 48). apply Z.pow_le_mono_r; lia.
    - change (2 ^ 32) with (256 ^ 4). apply Z.pow_le_mono_r; lia. }
  assert (Hstore : ∀ k l a, a = out + Z.of_nat (length k) → (length k + length l ≤ 16)%nat → Forall is_byte l →
      store_bytes (set_bytes m out k) a l = Some (set_bytes m out (k ++ l))).
  { intros k l a -> Hl Hb. rewrite set_bytes_app. apply store_bytes_spec; [done|].
    apply mapped_set_bytes. eapply mapped_sub; [exact Hm|lia|lia]. }
  unfold simple_strtoul, simple_strtoull. change m with (set_bytes m out []) at 1 2.
  set (k1 := in_order format g1). set (k2 := k1 ++ in_order format g2). set (k3 := k2 ++ in_order format g3).
  set (k4 := k3 ++ g4).
  assert (N1 : length k1 = 4%nat) by (unfold k1; lia).
  assert (N2 : length k2 = 6%nat) by (unfold k2; rewrite length_app; lia).
  assert (N3 : length k3 = 8%nat) by (unfold k3; rewrite length_app; lia).
  assert (N4 : length k4 = 10%nat) by (unfold k4; rewrite length_app; lia).
  assert (E4 : le_bytes 2 (cpu_to_be 2 (be_value g4)) = g4) by (rewrite <-H4; by apply be_bytes_swapped).
  destruct (uuid_fields _ _ (Hrd [] ltac:(cbn; lia))) as (r1 & _ & _ & _ & F1 & _).
  destruct (uuid_fields _ _ (Hrd k1 ltac:(lia))) as (_ & r2 & _ & _ & _ & F2 & _).
  destruct (uuid_fields _ _ (Hrd k2 ltac:(lia))) as (_ & _ & r3 & _ & _ & _ & F3 & _).
  destruct (uuid_fields _ _ (Hrd k3 ltac:(lia))) as (_ & _ & _ & r4 & _ & _ & _ & F4 & _).
  destruct (uuid_fields _ _ (Hrd k4 ltac:(lia))) as (_ & _ & _ & _ & _ & _ & _ & _ & F5).
  rewrite (Hread 32 [] str g1 (45 :: r1)) by (done || lia). reduce.
  rewrite conv_bytes, (Hstore [] (in_order format g1)) by (first [by apply P1 | done | cbn; lia]). reduce. cbn [app]. fold k1.
  rewrite (Hread 32 k1 (str + 9) g2 (45 :: r2)) by (done || lia). reduce.
  rewrite conv_bytes, Hstore by (first [by apply P2 | done | lia]). reduce. fold k2.
  rewrite (Hread 32 k2 (str + 14) g3 (45 :: r3)) by (done || lia). reduce.
  rewrite conv_bytes, Hstore by (first [by apply P3 | done | lia]). reduce. fold k3.
  rewrite (Hread 32 k3 (str + 19) g4 (45 :: r4)) by (done || lia). reduce.
  rewrite E4, Hstore by (done || lia). reduce. fold k4.
  rewrite (Hread 64 k4 (str + 24) g5 []) by (done || lia). reduce.
  assert (E : drop 2 (le_bytes 8 (cpu_to_be 8 (be_value g5))) = g5).
  { pose proof (be_bytes_swapped (0 :: 0 :: g5)) as E. cbn [length] in E. rewrite H5 in E.
    change (be_value (0 :: 0 :: g5)) with (be_value g5) in E. rewrite E; [done|]. repeat constructor; try done; lia. }
  rewrite E, Hstore by (done || lia). reduce. unfold uuid_bytes, k4, k3, k2, k1. by rewrite <-!app_assoc.
Qed.
End groups.

(** ** Writing the text *)

(** The format "%02x" or "%02X" gives two digits of a byte. *)
Definition hex_format (lc c : Z) : Prop := (lc = 32 ∧ c = 120) ∨ (lc = 0 ∧ c = 88).

Lemma number_text_hex2 lc c b : hex_format lc c → is_byte b →
  number_text (num_arg (-1) (Z.lor ZEROPAD lc) b) 16 2 (-1) (Z.lor ZEROPAD lc) = hex2 lc b.
Proof.
  intros Hf Hb. unfold is_byte in Hb. destruct Hf as [[-> _]|[-> _]];
    match goal with |- number_text (num_arg _ ?f _) _ _ _ _ = hex2 ?l _ =>
      pose proof (byte_cases (λ b, bool_decide (number_text (num_arg (-1) f b) 16 2 (-1) f = hex2 l b)) b) as H
    end; apply bool_decide_eq_true in H; try done; by vm_compute.
Qed.

Ltac eqb_closed :=
  repeat match goal with |- context [?a =? ?b] =>
    let v := eval vm_compute in (a =? b) in
    match v with true => idtac | false => idtac end; change (a =? b) with v
  end; cbn [andb orb negb].

Lemma format_hex2 m lit lc c b fuel :
  hex_format lc c → is_byte b → cstr_at m lit [37; 48; 50; c] →
  format_text (S (S fuel)) m lit [b] = Some (hex2 lc b).
Proof.
  intros Hf Hb H0. pose proof (cstr_at_size _ _ _ H0) as Hsz. cbn [length] in Hsz.
  destruct (cstr_tail _ _ _ _ H0) as [_ H1]. destruct (cstr_tail _ _ _ _ H1) as [_ H2].
  destruct (cstr_tail _ _ _ _ H2) as [_ H3]. destruct (cstr_tail _ _ _ _ H3) as [Hc H4].
  cbn [format_text]. cstr_read. cbn [Z.eqb Pos.eqb negb].
  assert (E : next_directive m lit [b] =
              Some (DNumber (Z.lor ZEROPAD lc) 16 2 (-1) (num_arg (-1) (Z.lor ZEROPAD lc) b), lit + 1 + 1 + 1, [])).
  { unfold next_directive. cstr_read. cbn [Z.eqb Pos.eqb negb]. unfold parse_flags.
    assert (∃ n, size m = S (S n)) as [n En] by (exists (size m - 2)%nat; lia). rewrite En.
    step_next; [|cstr_read; reflexivity]. step_break; [|cstr_read; reflexivity]. reduce.
    unfold parse_width. cstr_read. cbn [is_digit Z.leb Z.compare Pos.compare Pos.compare_cont andb].
    unfold skip_atoi. rewrite En.
    step_next; [|cstr_read; reflexivity].
    destruct Hf as [[-> ->]|[-> ->]];
      (step_break; [|cstr_read; reflexivity]); reduce; unfold parse_precision, parse_qualifier;
      repeat (cstr_read; eqb_closed; reduce); reflexivity. }
  rewrite E. cbn [mbind option_bind directive_text]. cstr_read. cbn [Z.eqb].
  cbn [mbind option_bind]. rewrite (number_text_hex2 lc c) by done. by rewrite app_nil_r.
Qed.

Definition dash_after (i : Z) : bool := (i =? 3) || (i =? 5) || (i =? 7) || (i =? 9).

(** The text of the bytes from number [i] on. *)
Fixpoint utext (lc i : Z) (ps : list Z) : list Z :=
  match ps with
  | [] => []
  | b :: ps => hex2 lc b ++ (if dash_after i then [45] else []) ++ utext lc (i + 1) ps
  end.

Lemma utext_chars lc i ps : is_case lc → Forall is_byte ps → Forall is_char (utext lc i ps).
Proof.
  intros Hlc Hb. revert i. induction Hb as [|b ps Hb _ IH]; intros i; [constructor|]. cbn [utext].
  apply Forall_app. split; [eapply Forall_impl; [by apply (hex2_digits lc)|]; by intros c []|].
  apply Forall_app. split; [destruct (dash_after i); by repeat constructor|apply IH].
Qed.

(** One call of [sprintf] in the loop. *)
Lemma sprintf_hex2 m p lit lc c b :
  hex_format lc c → is_byte b → cstr_at m lit [37; 48; 50; c] →
  0 ≤ p → p + INT_MAX < 2 ^ 32 → mapped m p 3 → lit + 5 ≤ p ∨ p + 2 ≤ lit →
  sprintf m p lit [b] = Some (set_bytes m p (hex2 lc b ++ [0]), 2).
Proof.
  intros Hf Hb Hlit Hp Hi Hm Hd. pose proof (cstr_at_size _ _ _ Hlit) as Hsz.
  assert (Hlc : is_case lc) by (destruct Hf as [[-> _]|[-> _]]; [by right|by left]).
  assert (Hlit0 : cstr_at (mem_of lit ([37; 48; 50; c] ++ [0])) lit [37; 48; 50; c]).
  { destruct Hlit. split; [apply bytes_at_mem_of|done]. }
  change 2 with (Z.of_nat (length (hex2 lc b))).
  apply (sprintf_spec (mem_of lit ([37; 48; 50; c] ++ [0])) m p lit [b] (hex2 lc b) 2); try done.
  - apply mem_of_subseteq, Hlit.
  - by apply (format_hex2 _ _ _ c).
  - lia.
  - intros a Ha. cbn [hex2 length] in Ha. apply lookup_mem_of_out. cbn [app length]. lia.
  - eapply Forall_impl; [by apply (hex2_digits lc)|]. intros x [_ Hx]. by apply is_char_byte.
Qed.

Section bin_to_str.
Context (uuid_bin str lit lc c : Z) (bs order : list Z).
Context (Hf : hex_format lc c) (Hbs : Forall is_byte bs).
Context (Hstr : 0 ≤ str) (Hi : str + 37 + INT_MAX < 2 ^ 32).
Context (Hdl : lit + 5 ≤ str ∨ str + 37 ≤ lit).
Context (Hdb : uuid_bin + Z.of_nat (length bs) ≤ str ∨ str + 37 ≤ uuid_bin).

Lemma bin_to_str_loop ps m p i fuel :
  ps ≠ [] → (length ps < fuel)%nat → i + Z.of_nat (length ps) = 16 → 0 ≤ i →
  (∀ j b, ps !! j = Some b → ∃ k, arr_get order (i + Z.of_nat j) = Some (Z.of_nat k) ∧ bs !! k = Some b) →
  cstr_at m lit [37; 48; 50; c] → bytes_at m uuid_bin bs → mapped m str 37 →
  str ≤ p → p + Z.of_nat (length (utext lc i ps)) + 1 ≤ str + 37 →
  ∃ p', loop_brk fuel (λ '(m, uuid_str, i),
      if i <? 16 then
        k ← arr_get order i;
        b ← load m (uuid_bin + k);
        '(m, _) ← sprintf m uuid_str lit [b];
        let uuid_str := uuid_str + 2 in
        if (i =? 3) || (i =? 5) || (i =? 7) || (i =? 9) then
          m ← store m uuid_str 45;
          Some (Next (m, uuid_str + 1, i + 1))
        else Some (Next (m, uuid_str, i + 1))
      else Some (Break (m, uuid_str, i))) (m, p, i)
  = Some (set_bytes m p (utext lc i ps ++ [0]), p', 16).
Proof.
  revert m p i fuel. induction ps as [|b ps IH]; intros m p i [|fuel] Hne Hfuel Hn Hi0 Hps Hl Hb Hm Hp He;
    cbn [length] in *; try done; [lia|].
  destruct (Hps O b eq_refl) as (k & Hk & Hbk). rewrite Z.add_0_r in Hk.
  assert (Hby : is_byte b) by (rewrite Forall_forall in Hbs; by apply Hbs; eapply list_elem_of_lookup_2).
  cbn [utext] in *. rewrite !length_app in He. cbn [hex2 length] in He.
  assert (Hload : load m (uuid_bin + Z.of_nat k) = Some b) by by apply Hb.
  assert (Hsp : sprintf m p lit [b] = Some (set_bytes m p (hex2 lc b ++ [0]), 2)).
  { apply (sprintf_hex2 m p lit lc c b); try done; [lia|lia|eapply mapped_sub; [exact Hm|lia|lia]|lia]. }
  set (h := hex2 lc b) in *. assert (Hh : Z.of_nat (length h) = 2) by done. clearbody h.
  set (dash := if dash_after i then [45] else []).
  set (m' := set_bytes m p (h ++ if dash_after i then [45] else [0])).
  set (p' := p + 2 + Z.of_nat (length dash)).
  assert (Hstep : (k ← arr_get order i;
        b ← load m (uuid_bin + k);
        '(m, _) ← sprintf m p lit [b];
        if (i =? 3) || (i =? 5) || (i =? 7) || (i =? 9) then
          m ← store m (p + 2) 45; Some (Next (m, p + 2 + 1, i + 1))
        else Some (Next (m, p + 2, i + 1))) = Some (@Next _ Empty_set (m', p', i + 1))).
  { rewrite Hk. reduce. rewrite Hload. reduce. rewrite Hsp. reduce. fold (dash_after i). unfold m', p', dash in *.
    destruct (dash_after i); cbn [length] in *; [|do 3 f_equal; f_equal; lia].
    rewrite (store_mapped _ _ _ str 37); [|by apply mapped_set_bytes|lia]. reduce.
    do 4 f_equal. change (u8 45) with 45. rewrite <-Hh.
    apply (set_bytes_over m p h [0] [45] (p + Z.of_nat (length h))); [done|cbn; lia]. }
  assert (Hm' : ∀ a n, mapped m a n → mapped m' a n) by (intros; by apply mapped_set_bytes).
  assert (Hlen' : length (h ++ if dash_after i then [45] else [0]) = 3%nat).
  { rewrite length_app. destruct (dash_after i); cbn [length]; lia. }
  destruct ps as [|b' ps].
  - cbn [length] in Hn. assert (i = 15) as -> by lia. cbn [utext app]. destruct fuel as [|fuel]; [cbn in Hfuel; lia|].
    exists p'. step_next; [|rewrite (proj2 (Z.ltb_lt _ _)) by lia; exact Hstep].
    step_break; [|reflexivity]. unfold m', dash in *. cbn [dash_after Z.eqb Pos.eqb orb] in *. by rewrite app_nil_r.
  - destruct (IH m' p' (i + 1) fuel) as [p2 Hloop]; try done; try lia.
    + intros j x Hj. destruct (Hps (S j) x Hj) as (k' & ? & ?). exists k'.
      by replace (i + 1 + Z.of_nat j) with (i + Z.of_nat (S j)) by lia.
    + apply cstr_set_other; [|done]. rewrite Hlen'. cbn [length]. lia.
    + apply bytes_at_set_other; [|done]. rewrite Hlen'. lia.
    + by apply Hm'.
    + unfold p'. fold dash in He. lia.
    + exists p2. erewrite loop_brk_next; [|rewrite (proj2 (Z.ltb_lt _ _)) by lia; exact Hstep].
      rewrite Hloop. do 3 f_equal. unfold m', p', dash. destruct (dash_after i).
      * rewrite <-(app_nil_r (h ++ [45])), (set_bytes_over m p (h ++ [45]) []); [by rewrite <-!app_assoc|rewrite length_app; cbn [length]; lia|cbn; lia].
      * rewrite (set_bytes_over m p h [0]); [cbn [app]; by rewrite <-!app_assoc|cbn [length]; lia|rewrite length_app; cbn [length]; lia].
Qed.
End bin_to_str.

(** ** Properties *)

Lemma uuid_text_written upper lower m bin str (guid uc : bool) bs :
  let lc := if uc then 0 else 32 in
  let lit := if uc then upper else lower in
  let fmt := (if guid then 1 else 0) + (if uc then 2 else 0) in
  length bs = 16%nat → Forall is_byte bs → bytes_at m bin bs →
  cstr_at m lit [37; 48; 50; if uc then 88 else 120] → mapped m str 37 →
  0 < str → str + 37 + INT_MAX < 2 ^ 32 →
  lit + 5 ≤ str ∨ str + 37 ≤ lit → bin + 16 ≤ str ∨ str + 37 ≤ bin →
  ∃ g1 g2 g3 g4 g5,
    (length g1 = 4 ∧ length g2 = 2 ∧ length g3 = 2 ∧ length g4 = 2 ∧ length g5 = 6)%nat ∧
    (Forall is_byte g1 ∧ Forall is_byte g2 ∧ Forall is_byte g3 ∧ Forall is_byte g4 ∧ Forall is_byte g5) ∧
    uuid_bytes g1 g2 g3 g4 g5 (if guid then 1 else 0) = bs ∧
    uuid_bin_to_str upper lower m bin str fmt =
      Some (set_bytes m str (uuid_text lc g1 g2 g3 g4 g5 ++ [0])).
Proof.
  intros lc lit fmt Hlen Hb Hat Hl Hm Hstr Hi Hdl Hdb.
  assert (Hflags : flag fmt UUID_STR_UPPER_CASE = uc ∧ flag fmt UUID_STR_FORMAT_GUID = guid)
    by (by unfold fmt; destruct uc, guid).
  destruct Hflags as [F1 F2].
  assert (Hf : hex_format lc (if uc then 88 else 120)) by (unfold lc; destruct uc; [by right|by left]).
  assert (Hlc : is_case lc) by (unfold lc; destruct uc; [by left|by right]).
  do 16 (destruct bs as [|? bs]; [done|]). destruct bs; [|done]. clear Hlen.
  set (ps := if guid then [z2; z1; z0; z; z4; z3; z6; z5; z7; z8; z9; z10; z11; z12; z13; z14]
             else [z; z0; z1; z2; z3; z4; z5; z6; z7; z8; z9; z10; z11; z12; z13; z14]).
  exists (take 4 ps), (take 2 (drop 4 ps)), (take 2 (drop 6 ps)), (take 2 (drop 8 ps)), (drop 10 ps).
  assert (Hps : Forall is_byte ps) by (rewrite !Forall_cons_iff in Hb; unfold ps; destruct guid; rewrite !Forall_cons_iff; tauto).
  destruct (bin_to_str_loop bin str lit lc (if uc then 88 else 120)
    [z; z0; z1; z2; z3; z4; z5; z6; z7; z8; z9; z10; z11; z12; z13; z14]
    (if guid then guid_char_order else uuid_char_order) Hf Hb ltac:(lia) Hi Hdl Hdb ps m str 0 17) as [p' E].
  1-3: destruct guid; first [done | cbn; lia].
  1: done.
  2-4: done.
  2: lia.
  - intros j b Hj. unfold ps in Hj. destruct guid; do 16 (destruct j as [|j]; [injection Hj as <-;
      match goal with |- ∃ k, arr_get ?o ?i = _ ∧ _ => exists (Z.to_nat (nth (Z.to_nat i) o 0)) end; split; reflexivity|]); done.
  - assert (length (utext lc 0 ps) = 36%nat) as -> by (by destruct guid). lia.
  - split_and!; try (by destruct guid); try (by repeat first [apply Forall_take | apply Forall_drop]).
    unfold uuid_bin_to_str. rewrite F1, F2. cbv zeta in E |- *. fold lit. rewrite E. reduce.
    do 2 f_equal. by destruct guid.
Qed.

(** A UUID survives the conversion to text and back, in both byte orders
    and both cases of the digits: the text is valid, and [uuid_str_to_bin] with
    the same format gives the 16 bytes again. *)
Theorem uuid_roundtrip (upper lower : Z) (m : mem) (bin str out : Z) (guid uc : bool) (bs : list Z)
    (Hlen : length bs = 16%nat) (Hb : Forall is_byte bs) (Hat : bytes_at m bin bs)
    (Hl : cstr_at m (if uc then upper else lower) [37; 48; 50; if uc then 88 else 120])
    (Hm : mapped m str 37) (Hout : mapped m out 16)
    (Hstr : 0 < str) (Hi : str + 37 + INT_MAX < 2 ^ 32)
    (Hdl : (if uc then upper else lower) + 5 ≤ str ∨ str + 37 ≤ (if uc then upper else lower))
    (Hdb : bin + 16 ≤ str ∨ str + 37 ≤ bin) (Hdo : str + 37 ≤ out ∨ out + 16 ≤ str) :
  let format := if guid then UUID_STR_FORMAT_GUID else UUID_STR_FORMAT_STD in
  ∃ m1, uuid_bin_to_str upper lower m bin str (format + (if uc then UUID_STR_UPPER_CASE else 0)) = Some m1 ∧
    uuid_str_valid m1 str = Some true ∧
    uuid_str_to_bin m1 str out format = Some (0, set_bytes m1 out bs).
Proof.
  intros format.
  destruct (uuid_text_written upper lower m bin str guid uc bs Hlen Hb Hat Hl Hm Hstr Hi Hdl Hdb)
    as (g1 & g2 & g3 & g4 & g5 & (L1 & L2 & L3 & L4 & L5) & (B1 & B2 & B3 & B4 & B5) & <- & E).
  assert (Hlc : is_case (if uc then 0 else 32)) by (destruct uc; [by left|by right]).
  set (T := uuid_text (if uc then 0 else 32) g1 g2 g3 g4 g5) in *.
  assert (Hc : cstr_at (set_bytes m str (T ++ [0])) str T).
  { split; [apply bytes_at_set_same|]. by apply uuid_text_chars. }
  eexists. split; [|split].
  - rewrite <-E. unfold format. by destruct guid, uc.
  - by apply (uuid_valid (if uc then 0 else 32) g1 g2 g3 g4 g5).
  - rewrite (uuid_str_to_bin_spec (if uc then 0 else 32) g1 g2 g3 g4 g5); try done.
    by apply mapped_set_bytes.
Qed.

(** The decimal digits of a byte. *)
Definition quad (b : Z) : list Z := rev (rev_digits 5 10 0 b).

Lemma quad_digits b : is_byte b →
  Forall (λ c, is_digit_of 10 c = true ∧ is_char c) (quad b) ∧ number_of 10 (quad b) = b.
Proof.
  unfold is_byte. intros Hb. split.
  - apply Forall_rev, rev_digits_chars; [by left|lia|lia].
  - apply rev_digits_value; [by left|lia|cbn; lia].
Qed.

Lemma ip4_chars m addr b0 b1 b2 b3 :
  bytes_at m addr [b0; b1; b2; b3] → Forall is_byte [b0; b1; b2; b3] →
  ip4_addr_chars m addr =
  Some (quad b0 ++ 46 :: quad b1 ++ 46 :: quad b2 ++ 46 :: quad b3).
Proof.
  intros Hat Hb. rewrite !Forall_cons_iff in Hb. destruct Hb as (B0 & B1 & B2 & B3 & _).
  assert (Hq : ∀ b, is_byte b → rev (put_dec_trunc [] b) = quad b).
  { unfold is_byte. intros b Hb. by rewrite (put_dec_trunc_spec [] b 0) by lia. }
  assert (Hl : ∀ i b, [b0; b1; b2; b3] !! i = Some b → load m (addr + Z.of_nat i) = Some b) by (intros; by apply Hat).
  assert (L0 : load m (addr + 0) = Some b0) by exact (Hl 0%nat b0 eq_refl).
  assert (L1 : load m (addr + (0 + 1)) = Some b1) by exact (Hl 1%nat b1 eq_refl).
  assert (L2 : load m (addr + (0 + 1 + 1)) = Some b2) by exact (Hl 2%nat b2 eq_refl).
  assert (L3 : load m (addr + (0 + 1 + 1 + 1)) = Some b3) by exact (Hl 3%nat b3 eq_refl).
  unfold ip4_addr_chars.
  step_next; [|cbn [Z.ltb Z.compare]; rewrite L0; reduce; rewrite (Hq b0 B0); reflexivity].
  step_next; [|cbn [Z.ltb Z.compare]; rewrite L1; reduce; rewrite (Hq b1 B1); reflexivity].
  step_next; [|cbn [Z.ltb Z.compare]; rewrite L2; reduce; rewrite (Hq b2 B2); reflexivity].
  step_next; [|cbn [Z.ltb Z.compare]; rewrite L3; reduce; rewrite (Hq b3 B3); reflexivity].
  step_break; [|reflexivity]. reduce. cbv [negb Z.eqb Pos.eqb Z.add Pos.add Pos.succ]. repeat (rewrite <-?app_assoc; cbn [app]). done.
Qed.

(** One number of the address and the character after it. *)
Lemma ip_step a b : 0 ≤ a < 2 ^ 24 → is_byte b →
  Z.lor (u32 (Z.shiftl a 8)) (Z.land b 0xff) = a * 256 + b.
Proof.
  unfold is_byte. intros Ha Hb. change 0xff with (Z.ones 8).
  rewrite Z.shiftl_mul_pow2, Z.land_ones, Z.mod_small, wrap_small by lia.
  by apply (lor_low_high 8).
Qed.

Lemma quad_read m a b rest :
  is_byte b → cstr_at m a (quad b ++ 46 :: rest) →
  simple_strtoul m a 10 = Some (b, a + Z.of_nat (length (quad b))) ∧
  load m (a + Z.of_nat (length (quad b))) = Some 46 ∧
  cstr_at m (a + Z.of_nat (length (quad b)) + 1) rest.
Proof.
  intros Hb Hc. destruct (quad_digits b Hb) as [Hd Hv]. unfold is_byte in Hb.
  pose proof (cstr_at_drop _ _ _ _ Hc) as Hc'. split_and!.
  - unfold simple_strtoul. rewrite (strtou_app 32 m a 10 (quad b) (46 :: rest)), Hv; try done; [by rewrite wrap_small by lia|by right; left|by right].
  - by rewrite (cstr_head _ _ _ Hc').
  - by apply cstr_tail in Hc' as [_ ?].
Qed.

(** An internet address survives the conversion to text by %pI4 and back by
    [string_to_ip]. *)
Theorem ip_roundtrip (m : mem) (addr b0 b1 b2 b3 : Z)
    (Hat : bytes_at m addr [b0; b1; b2; b3]) (Hb : Forall is_byte [b0; b1; b2; b3]) :
  ∃ text, ip4_addr_chars m addr = Some text ∧ Forall is_char text ∧
    ∀ m' s, 0 < s → cstr_at m' s text →
      ∃ ip, string_to_ip m' s = Some ip ∧ le_bytes 4 ip = [b0; b1; b2; b3].
Proof.
  eexists. split; [by apply ip4_chars|].
  pose proof Hb as Hb'. rewrite !Forall_cons_iff in Hb'. destruct Hb' as (B0 & B1 & B2 & B3 & _).
  assert (Hch : ∀ b, is_byte b → Forall is_char (quad b)).
  { intros b H. eapply Forall_impl; [apply (quad_digits b H)|]. by intros c []. }
  split; [repeat (apply Forall_app; split; [by apply Hch|]; constructor; [done|]); by apply Hch|].
  intros m' s Hs Hc. unfold string_to_ip. rewrite (proj2 (Z.eqb_neq _ _)) by (unfold NULL; lia).
  destruct (quad_read m' s b0 _ B0 Hc) as (E0 & L0 & C1).
  destruct (quad_read m' _ b1 _ B1 C1) as (E1 & L1 & C2).
  destruct (quad_read m' _ b2 _ B2 C2) as (E2 & L2 & C3).
  rewrite <-(app_nil_r (quad b3)) in C3. destruct (quad_digits b3 B3) as [D3 V3].
  pose proof (cstr_at_drop _ _ _ _ C3) as L3. apply cstr_head in L3. cbn [hd] in L3.
  assert (E3 : simple_strtoul m' (s + Z.of_nat (length (quad b0)) + 1 + Z.of_nat (length (quad b1)) + 1 +
                 Z.of_nat (length (quad b2)) + 1) 10 =
               Some (b3, s + Z.of_nat (length (quad b0)) + 1 + Z.of_nat (length (quad b1)) + 1 +
                 Z.of_nat (length (quad b2)) + 1 + Z.of_nat (length (quad b3)))).
  { unfold simple_strtoul. rewrite (strtou_app 32 m' _ 10 (quad b3) []), V3; try done; [|by right; left|by right].
    unfold is_byte in B3. by rewrite wrap_small by lia. }
  unfold is_byte in B0, B1, B2, B3.
  erewrite loop_next; [|cbn [Z.ltb Z.compare]; rewrite E0; reduce; rewrite (proj2 (Z.ltb_ge 255 b0)) by lia; rewrite L0; reduce; cbn [Z.eqb negb andb]; rewrite ip_step by (unfold is_byte; lia); reflexivity].
  erewrite loop_next; [|cbn [Z.ltb Z.compare]; rewrite E1; reduce; rewrite (proj2 (Z.ltb_ge 255 b1)) by lia; rewrite L1; reduce; cbn [Z.eqb negb andb]; rewrite ip_step by (unfold is_byte; lia); reflexivity].
  erewrite loop_next; [|cbn [Z.ltb Z.compare]; rewrite E2; reduce; rewrite (proj2 (Z.ltb_ge 255 b2)) by lia; rewrite L2; reduce; cbn [Z.eqb negb andb]; rewrite ip_step by (unfold is_byte; lia); reflexivity].
  erewrite loop_next; [|cbn [Z.ltb Z.compare]; rewrite E3; reduce; rewrite (proj2 (Z.ltb_ge 255 b3)) by lia; rewrite L3; reduce; cbn [Z.eqb negb andb]; rewrite ip_step by (unfold is_byte; lia); reflexivity].
  erewrite loop_break by reflexivity. reduce. eexists. split; [reflexivity|].
  pose proof (be_bytes_swapped [b0; b1; b2; b3] Hb) as H. cbn [length be_value fold_left] in H. exact H.
Qed.

(** ** Witnesses and examples *)

(** "%02X" at 100, "%02x" at 110, 16 bytes at 120, and room at 200. *)
Definition ex_bytes : list Z := [1; 2; 3; 4; 5; 6; 7; 8; 9; 10; 171; 205; 239; 0; 254; 255].
Definition ex_uuid : mem :=
  set_bytes (mem_of 100 ([37; 48; 50; 88; 0; 0; 0; 0; 0; 0] ++ [37; 48; 50; 120; 0; 0; 0; 0; 0; 0] ++ ex_bytes))
            200 (replicate 60 7).

Lemma uuid_ex_low l i n : bytes_at (mem_of 100 l) (100 + Z.of_nat i) (take n (drop i l)).
Proof. apply bytes_at_slice, bytes_at_mem_of. Defined.

Lemma uuid_ex_mapped n a : 200 ≤ a → a + n ≤ 260 → mapped ex_uuid a n.
Proof.
  intros H1 H2. eapply mapped_sub; [|exact H1|].
  - eapply (bytes_at_mapped ex_uuid 200 (replicate 60 7) 60); [apply bytes_at_set_same|done].
  - lia.
Defined.

Lemma uuid_roundtrip_witness :
  ∃ m1, uuid_bin_to_str 100 110 ex_uuid 120 200 (UUID_STR_FORMAT_GUID + UUID_STR_UPPER_CASE) = Some m1 ∧
    uuid_str_valid m1 200 = Some true ∧
    uuid_str_to_bin m1 200 240 UUID_STR_FORMAT_GUID = Some (0, set_bytes m1 240 ex_bytes).
Proof.
  assert (Hl : cstr_at ex_uuid 100 [37; 48; 50; 88]).
  { split; [apply bytes_at_set_other; [cbn; lia|exact (uuid_ex_low _ 0 5)]|repeat constructor; done]. }
  assert (Hat : bytes_at ex_uuid 120 ex_bytes).
  { apply bytes_at_set_other; [cbn; lia|exact (uuid_ex_low _ 20 16)]. }
  assert (Hb : Forall is_byte ex_bytes) by (repeat constructor; done).
  assert (Hm : mapped ex_uuid 200 37) by (apply uuid_ex_mapped; lia).
  assert (Ho : mapped ex_uuid 240 16) by (apply uuid_ex_mapped; lia).
  refine (uuid_roundtrip 100 110 ex_uuid 120 200 240 true true ex_bytes eq_refl Hb Hat Hl Hm Ho _ _ _ _ _);
    cbv beta iota; try lia; unfold INT_MAX; lia.
Defined.

(** "04030201-0605-0807-090A-ABCDEF00FEFF" *)
Example uuid_example :
  (m ← uuid_bin_to_str 100 110 ex_uuid 120 200 3; get_bytes m 200 13) =
  Some [48; 52; 48; 51; 48; 50; 48; 49; 45; 48; 54; 48; 53].
Proof. by vm_compute. Qed.

Lemma ip_roundtrip_witness :
  ∃ text, ip4_addr_chars (mem_of 50 [192; 168; 0; 10]) 50 = Some text ∧ Forall is_char text ∧
    ∀ m' s, 0 < s → cstr_at m' s text →
      ∃ ip, string_to_ip m' s = Some ip ∧ le_bytes 4 ip = [192; 168; 0; 10].
Proof. apply ip_roundtrip; [apply bytes_at_mem_of|repeat constructor; done]. Defined.
