(* ===== verification/Qsort.v ===== *)
(** * Qsort: the shell sort of lib/qsort.c

    The array is the list of its elements; the offsets of the source, in bytes,
    are divided by [width].  [comp] compares two elements. *)

From Stdlib Require Import ZArith Lia List Sorted Permutation.
From stdpp Require Import base numbers list option sets.
From S2P Require Import Prelude.

Section qsort.
Context {A : Type} (comp : A → A → Z).

(** ** The function *)

(** The exchange of the elements at [a] and [b]. *)
Definition exchange (base : list A) (a b : Z) : option (list A) :=
  x ← arr_get base a;
  y ← arr_get base b;
  base ← arr_set base a y;
  arr_set base b x.

(** The innermost loop, from the element at [i]. *)
Definition qsort_sift (wgap : Z) (base : list A) (i : Z) : option (list A) :=
  '(base, _) ← loop_brk (S (length base)) (λ '(base, j),
      let j := j - wgap in
      x ← arr_get base j;
      y ← arr_get base (j + wgap);
      if comp x y <=? 0 then Some (Break (base, j))
      else
        base ← exchange base j (j + wgap);
        if wgap <=? j then Some (Next (base, j)) else Some (Break (base, j)))
    (base, i);
  Some base.

(** One pass over the array with a gap. *)
Definition qsort_pass (wgap nel : Z) (base : list A) : option (list A) :=
  '(base, _) ← loop_brk (S (length base)) (λ '(base, i),
      base ← qsort_sift wgap base i;
      let i := i + 1 in
      if i <? nel then Some (Next (base, i)) else Some (Break (base, i)))
    (base, wgap);
  Some base.

Definition first_gap (nel : Z) : option Z :=
  loop_brk (S (Z.to_nat nel)) (λ wgap,
      let wgap := 3 * wgap + 1 in
      if wgap <? (nel - 1) / 3 then Some (Next wgap) else Some (Break wgap)) 0.

Definition qsort (base : list A) : option (list A) :=
  let nel := Z.of_nat (length base) in
  if 1 <? nel then
    wgap ← first_gap nel;
    '(base, _) ← loop_brk (S (Z.to_nat wgap)) (λ '(base, wgap),
        base ← qsort_pass wgap nel base;
        let wgap := (wgap - 1) / 3 in
        if negb (wgap =? 0) then Some (Next (base, wgap)) else Some (Break (base, wgap)))
      (base, wgap);
    Some base
  else Some base.

(** ** Permutation *)

Lemma exchange_spec l1 x l2 y l3 a b :
  a = Z.of_nat (length l1) → b = Z.of_nat (length (l1 ++ x :: l2)) →
  exchange (l1 ++ x :: l2 ++ y :: l3) a b = Some (l1 ++ y :: l2 ++ x :: l3).
Proof.
  intros Ha Hb. unfold exchange. rewrite (arr_get_middle l1 _ a x Ha). cbn [mbind option_bind].
  rewrite (arr_get_at _ (l1 ++ x :: l2) y l3 b) by (try done; by rewrite <-app_assoc).
  cbn [mbind option_bind]. rewrite (arr_set_middle l1 _ a x y Ha). cbn [mbind option_bind].
  rewrite (arr_set_at _ (l1 ++ y :: l2) y l3 b x); [by rewrite <-app_assoc|by rewrite <-app_assoc|].
  rewrite Hb, !length_app. done.
Qed.

Lemma split_two (l : list A) a b :
  0 ≤ a < b → b < Z.of_nat (length l) →
  ∃ l1 x l2 y l3, l = l1 ++ x :: l2 ++ y :: l3 ∧ Z.of_nat (length l1) = a ∧
    Z.of_nat (length (l1 ++ x :: l2)) = b.
Proof.
  intros Ha Hb. destruct (arr_split l b) as (k & y & l3 & -> & Hk); [lia|].
  destruct (arr_split k a) as (l1 & x & l2 & -> & Hl); [lia|].
  exists l1, x, l2, y, l3. split_and!; [by rewrite <-app_assoc|done|done].
Qed.

Lemma exchange_permutation (l1 l2 l3 : list A) x y :
  l1 ++ y :: l2 ++ x :: l3 ≡ₚ l1 ++ x :: l2 ++ y :: l3.
Proof.
  apply Permutation_app_head. rewrite !cons_middle, !app_assoc.
  change (y :: l2) with ([y] ++ l2). change (x :: l2) with ([x] ++ l2).
  rewrite <-!app_assoc. cbn [app].
  rewrite <-!Permutation_middle. apply perm_swap.
Qed.

Lemma qsort_sift_permutation wgap base i :
  0 < wgap ≤ i → i < Z.of_nat (length base) →
  ∃ base', qsort_sift wgap base i = Some base' ∧ base' ≡ₚ base.
Proof.
  intros Hg Hi. unfold qsort_sift.
  loop_ix (Z.to_nat i) (λ (n : nat) '((b, j) : list A * Z), n = Z.to_nat j ∧ wgap ≤ j < Z.of_nat (length base) ∧ b ≡ₚ base)
    (λ '((b, j) : list A * Z), b ≡ₚ base).
  - intros n [b j] (-> & Hj & Hp). pose proof (Permutation_length Hp) as Hlen. cbv zeta.
    destruct (split_two b (j - wgap) j) as (l1 & x & l2 & y & l3 & -> & H1 & H2); [lia|lia|].
    rewrite (arr_get_middle l1 _ (j - wgap) x) by lia. cbn [mbind option_bind].
    rewrite (arr_get_at _ (l1 ++ x :: l2) y l3 (j - wgap + wgap)) by (lia || by rewrite <-app_assoc).
    cbn [mbind option_bind]. destruct (comp x y <=? 0); [by eexists|].
    rewrite (exchange_spec l1 x l2 y l3) by lia. cbn [mbind option_bind].
    pose proof (exchange_permutation l1 l2 l3 x y) as He. destruct (Z.leb_spec wgap (j - wgap)).
    + eexists. split; [done|]. exists (Z.to_nat (j - wgap)). split; [lia|]. split; [done|].
      split; [lia|]. by etrans.
    + eexists. split; [done|]. cbv beta iota. by etrans.
  - split_and!; first [done | lia].
  - lia.
  - destruct st as [b j]. cbn. by eexists.
Qed.

Lemma qsort_pass_permutation wgap nel base :
  0 < wgap < nel → nel = Z.of_nat (length base) →
  ∃ base', qsort_pass wgap nel base = Some base' ∧ base' ≡ₚ base.
Proof.
  intros Hg Hn. unfold qsort_pass.
  loop_ix (Z.to_nat (nel - wgap)) (λ (n : nat) '((b, i) : list A * Z), n = Z.to_nat (nel - i) ∧ wgap ≤ i < nel ∧ b ≡ₚ base)
    (λ '((b, i) : list A * Z), b ≡ₚ base).
  - intros n [b i] (-> & Hi & Hp). pose proof (Permutation_length Hp) as Hlen.
    destruct (qsort_sift_permutation wgap b i) as (b' & -> & Hp'); [lia|lia|].
    cbn [mbind option_bind]. cbv zeta. destruct (Z.ltb_spec (i + 1) nel).
    + eexists. split; [done|]. exists (Z.to_nat (nel - (i + 1))). split; [lia|]. split; [done|].
      split; [lia|]. by etrans.
    + eexists. split; [done|]. cbv beta iota. by etrans.
  - split_and!; first [done | lia].
  - lia.
  - destruct st as [b i]. cbn. by eexists.
Qed.

(** ** The last pass, with a gap of one, is an insertion sort *)

Section sorted.
Context (Htrans : ∀ x y z, comp x y ≤ 0 → comp y z ≤ 0 → comp x z ≤ 0).
Context (Htotal : ∀ x y, comp x y ≤ 0 ∨ comp y x ≤ 0).

Abbreviation sorted := (StronglySorted (λ x y, comp x y ≤ 0)).

Lemma qsort_sift_sorted l x r :
  sorted l → l ≠ [] →
  ∃ l', qsort_sift 1 (l ++ x :: r) (Z.of_nat (length l)) = Some (l' ++ r) ∧
        sorted l' ∧ l' ≡ₚ x :: l.
Proof.
  intros Hs Hne. unfold qsort_sift.
  loop_ix (length l) (λ (n : nat) '((b, j) : list A * Z), ∃ p1 p2, b = p1 ++ x :: p2 ++ r ∧ l = p1 ++ p2 ∧ p1 ≠ [] ∧
      j = Z.of_nat (length p1) ∧ n = length p1 ∧ (∀ y, y ∈ p2 → comp x y ≤ 0))
    (λ '((b, j) : list A * Z), ∃ l', b = l' ++ r ∧ sorted l' ∧ l' ≡ₚ x :: l).
  - intros n [b j] (p1 & p2 & -> & -> & Hp1 & -> & -> & Hx). cbv zeta.
    destruct (exists_last_or_nil p1) as [->|(q & y & ->)]; [done|].
    rewrite length_app. cbn [length]. rewrite <-!app_assoc in *. cbn [app] in *.
    replace (Z.of_nat (length q + 1) - 1) with (Z.of_nat (length q)) by lia.
    rewrite (arr_get_middle q _ (Z.of_nat (length q)) y) by done. cbn [mbind option_bind].
    rewrite (arr_get_at _ (q ++ [y]) x (p2 ++ r)) by (rewrite ?length_app; cbn [length]; (lia || by rewrite <-app_assoc)).
    cbn [mbind option_bind]. rewrite StronglySorted_app_iff, StronglySorted_cons_iff in Hs.
    destruct Hs as (Sq & (Sp & Hyp) & Hqp).
    destruct (Z.leb_spec (comp y x) 0) as [Hle|Hgt].
    + eexists. split; [done|]. exists (q ++ y :: x :: p2). split; [by rewrite <-app_assoc|]. split.
      * rewrite StronglySorted_app_iff, !StronglySorted_cons_iff. split_and!; try done.
        -- intros z [->|Hz]%elem_of_cons; [done|by apply Hyp].
        -- intros z w Hz [->|[->|Hw]%elem_of_cons]%elem_of_cons.
           ++ apply Hqp; [done|set_solver].
           ++ apply (Htrans z y x); [apply Hqp; set_solver|done].
           ++ apply Hqp; [done|set_solver].
      * change (y :: x :: p2) with ([y] ++ x :: p2). change (y :: p2) with ([y] ++ p2).
        rewrite !app_assoc. symmetry. apply Permutation_middle.
    + rewrite (exchange_spec q y [] x (p2 ++ r)) by (rewrite ?length_app; cbn [length]; lia).
      cbn [mbind option_bind app].
      assert (Hxy : comp x y ≤ 0) by (destruct (Htotal x y); lia).
      assert (Hx' : ∀ z, z ∈ y :: p2 → comp x z ≤ 0) by (intros z [->|Hz]%elem_of_cons; [done|by apply Hx]).
      destruct (Z.leb_spec 1 (Z.of_nat (length q))).
      * eexists. split; [done|]. exists (length q). split; [lia|]. exists q, (y :: p2).
        split_and!; try done. by destruct q.
      * assert (q = []) as -> by (destruct q; [done|cbn in *; lia]).
        eexists. split; [done|]. exists (x :: y :: p2). split_and!; [done| |done].
        rewrite !StronglySorted_cons_iff. split_and!; done.
  - exists l, []. split_and!; [done|by rewrite app_nil_r|done|done|done|]. intros y Hy. by apply not_elem_of_nil in Hy.
  - rewrite length_app. lia.
  - destruct st as [b j], HQ as (l' & -> & ? & ?). cbn. by eexists.
Qed.

Lemma qsort_pass_sorted base :
  (1 < length base)%nat →
  ∃ base', qsort_pass 1 (Z.of_nat (length base)) base = Some base' ∧ sorted base' ∧ base' ≡ₚ base.
Proof.
  intros Hn. unfold qsort_pass.
  loop_ix (length base - 2)%nat (λ (n : nat) '((b, i) : list A * Z), ∃ l x r, b = l ++ x :: r ∧ b ≡ₚ base ∧ sorted l ∧ l ≠ [] ∧
      i = Z.of_nat (length l) ∧ n = length r)
    (λ '((b, i) : list A * Z), sorted b ∧ b ≡ₚ base).
  - intros n [b i] (l & x & r & -> & Hp & Hs & Hne & -> & ->).
    destruct (qsort_sift_sorted l x r Hs Hne) as (l' & -> & Hs' & Hp'). cbn [mbind option_bind]. cbv zeta.
    pose proof (Permutation_length Hp) as Hlen. pose proof (Permutation_length Hp') as Hlen'.
    rewrite length_app in Hlen. cbn [length] in Hlen, Hlen'.
    assert (Hpl : l' ++ r ≡ₚ base) by (rewrite Hp', <-Hp; cbn; by rewrite Permutation_middle).
    destruct r as [|y r].
    + cbn [length] in Hlen. rewrite (proj2 (Z.ltb_ge _ _)) by lia. eexists. split; [done|].
      by rewrite app_nil_r in *.
    + cbn [length] in Hlen. rewrite (proj2 (Z.ltb_lt _ _)) by lia. eexists. split; [done|].
      exists (length r). split; [cbn; lia|]. exists l', y, r. split_and!; try done; [|lia].
      intros ->. cbn in Hlen'. lia.
  - destruct base as [|x0 [|x r]]; cbn in Hn; try lia. exists [x0], x, r.
    split_and!; try done; [by repeat constructor|cbn; lia].
  - lia.
  - destruct st as [b i], HQ as [Hs Hp]. cbn. by eexists.
Qed.

(** The gaps of the sort: every one is three times the next and one more. *)
Inductive gap_ok : Z → Prop :=
| gap_one : gap_ok 1
| gap_more g : gap_ok g → gap_ok (3 * g + 1).

Lemma gap_pos g : gap_ok g → 0 < g.
Proof. induction 1; lia. Qed.

Lemma first_gap_spec nel : 1 < nel → ∃ g, first_gap nel = Some g ∧ gap_ok g ∧ g < nel.
Proof.
  intros Hn. unfold first_gap.
  loop_ix (Z.to_nat nel) (λ n g, n = Z.to_nat (nel - g) ∧ (g = 0 ∨ gap_ok g ∧ g < (nel - 1) / 3))
    (λ g, gap_ok g ∧ g < nel).
  - intros n g (-> & Hg). cbv zeta.
    assert (Hok : gap_ok (3 * g + 1)) by (destruct Hg as [->|[Hg _]]; [constructor|by constructor]).
    assert (0 ≤ g) by (destruct Hg as [->|[Hg%gap_pos _]]; lia).
    assert (3 * g + 1 < nel).
    { destruct Hg as [->|[_ Hg]]; [lia|]. Z.to_euclidean_division_equations. lia. }
    destruct (Z.ltb_spec (3 * g + 1) ((nel - 1) / 3)); (eexists; split; [done|]); [|done].
    exists (Z.to_nat (nel - (3 * g + 1))). split; [lia|]. split; [done|]. by right.
  - split; [lia|by left].
  - lia.
  - eauto.
Qed.

Lemma qsort_spec base : ∃ base', qsort base = Some base' ∧ sorted base' ∧ base' ≡ₚ base.
Proof.
  unfold qsort. set (nel := Z.of_nat (length base)). destruct (Z.ltb_spec 1 nel) as [Hn|Hn].
  - destruct (first_gap_spec nel Hn) as (g & -> & Hg & Hlt). cbn [mbind option_bind].
    loop_ix (Z.to_nat g) (λ (n : nat) '((b, g) : list A * Z), n = Z.to_nat g ∧ gap_ok g ∧ g < nel ∧ b ≡ₚ base)
      (λ '((b, g) : list A * Z), sorted b ∧ b ≡ₚ base).
    + intros n [b h] (-> & Hh & Hlth & Hp). pose proof (gap_pos h Hh).
      pose proof (Permutation_length Hp) as Hlen. cbv zeta. destruct Hh as [|h Hh].
      * destruct (qsort_pass_sorted b) as (b' & E & Hs & Hp'); [lia|].
        rewrite Hlen in E. fold nel in E. rewrite E. eexists. split; [done|]. cbv beta iota.
        split; [done|]. by etrans.
      * destruct (qsort_pass_permutation (3 * h + 1) nel b) as (b' & -> & Hp'); [lia|lia|].
        cbn [mbind option_bind]. pose proof (gap_pos h Hh).
        replace ((3 * h + 1 - 1) / 3) with h by (Z.to_euclidean_division_equations; lia).
        rewrite (proj2 (Z.eqb_neq h 0)) by lia. eexists. split; [done|]. cbv beta iota.
        exists (Z.to_nat h). split; [lia|]. split_and!; [done|done|lia|by etrans].
    + split_and!; done.
    + lia.
    + destruct st as [b h], HQ as [Hs Hp]. cbn. by eexists.
  - exists base. split_and!; [done| |done]. destruct base as [|x [|y l]]; [constructor|by repeat constructor|cbn in *; lia].
Qed.
End sorted.

(** Without any assumption on the comparison, the result is a permutation. *)
Lemma qsort_permutation base : ∃ base', qsort base = Some base' ∧ base' ≡ₚ base.
Proof.
  unfold qsort. set (nel := Z.of_nat (length base)).
  destruct (Z.ltb_spec 1 nel) as [Hn|Hn]; [|by exists base].
  destruct (first_gap_spec nel Hn) as (g & -> & Hg & Hlt). cbn [mbind option_bind].
  loop_ix (Z.to_nat g) (λ (n : nat) '((b, g) : list A * Z), n = Z.to_nat g ∧ gap_ok g ∧ g < nel ∧ b ≡ₚ base)
    (λ '((b, g) : list A * Z), b ≡ₚ base).
  - intros n [b h] (-> & Hh & Hlth & Hp). pose proof (gap_pos h Hh).
    pose proof (Permutation_length Hp) as Hlen. cbv zeta.
    destruct (qsort_pass_permutation h nel b) as (b' & -> & Hp'); [lia|lia|].
    cbn [mbind option_bind]. destruct Hh as [|h Hh].
    + eexists. split; [done|]. cbv beta iota. by etrans.
    + pose proof (gap_pos h Hh).
      replace ((3 * h + 1 - 1) / 3) with h by (Z.to_euclidean_division_equations; lia).
      rewrite (proj2 (Z.eqb_neq h 0)) by lia. eexists. split; [done|]. cbv beta iota.
      exists (Z.to_nat h). split; [lia|]. split_and!; [done|done|lia|by etrans].
  - split_and!; done.
  - lia.
  - destruct st as [b h]. cbn. by eexists.
Qed.
End qsort.

(** ** Property *)

(** C32. For every comparison that is a total preorder, [qsort] returns, and
    leaves the same elements in ascending order. *)
Theorem qsort_correct {A : Type} (comp : A → A → Z) (base : list A)
    (Htrans : ∀ x y z, comp x y ≤ 0 → comp y z ≤ 0 → comp x z ≤ 0)
    (Htotal : ∀ x y, comp x y ≤ 0 ∨ comp y x ≤ 0) :
  ∃ base', qsort comp base = Some base' ∧
    StronglySorted (λ x y, comp x y ≤ 0) base' ∧ base' ≡ₚ base.
Proof. by apply qsort_spec. Qed.

Lemma qsort_correct_witness :
  ∃ base', qsort Z.sub [5; 3; 9; 1; 4; 4; 8; 0] = Some base' ∧
    StronglySorted (λ x y, x - y ≤ 0) base' ∧ base' ≡ₚ [5; 3; 9; 1; 4; 4; 8; 0].
Proof. apply (qsort_correct Z.sub); lia. Defined.

Example qsort_example : qsort Z.sub [5; 3; 9; 1; 4; 4; 8; 0] = Some [0; 1; 3; 4; 4; 5; 8; 9].
Proof. by vm_compute. Qed.
