(* ===== verification/Hashtable.v ===== *)
(** * Hashtable: the table of environment variables (lib/hashtable.c)

    Open addressing with double hashing.  Keys and values are strings, each
    copied by [strdup] into the table, so that an entry has the list of their
    characters; NULL, and the pointers that [_hdelete] frees, are [None].  What
    the table calls - the permission check, the callbacks, the initialisation
    of an entry's callback and flags, the allocator - is the class
    [EnvHooks]. *)

From Stdlib Require Import ZArith Lia List Znumtheory.
From stdpp Require Import base numbers list option gmap sets.
From S2P Require Import Prelude.

Abbreviation str := (list Z).

Inductive env_action := ENV_FIND | ENV_ENTER.
Inductive env_op := env_op_create | env_op_delete | env_op_overwrite.

#[export] Instance env_action_eq_dec : EqDecision env_action.
Proof. solve_decision. Defined.
#[export] Instance env_op_eq_dec : EqDecision env_op.
Proof. solve_decision. Defined.

Record env_entry := { key : option str; data : option str; callback : option Z; flags : Z }.
Record env_entry_node := { used : Z; entry : env_entry }.
Record hsearch_data := { table : option (list env_entry_node); hsize : Z; filled : Z }.

Definition EPERM : Z := 1.
Definition ESRCH : Z := 3.
Definition ENOMEM : Z := 12.
Definition EINVAL : Z := 22.

Definition USED_FREE : Z := 0.
Definition USED_DELETED : Z := -1.

(** [change_ok] and the callbacks answer whether they reject a change. *)
Class EnvHooks := {
  change_ok : option (env_entry → option str → env_op → Z → bool);
  run_callback : Z → str → option str → env_op → Z → bool;
  env_callback_init : str → option Z;
  env_flags_init : str → Z;
  strdup : str → option str;
  strdup_same s s' : strdup s = Some s' → s' = s;
  calloc_ok : Z → bool;
  malloc_ok : Z → bool
}.

Definition free_entry : env_entry := {| key := None; data := None; callback := None; flags := 0 |}.
Definition free_node : env_entry_node := {| used := USED_FREE; entry := free_entry |}.

Definition set_table (htab : hsearch_data) (t : option (list env_entry_node)) (n : Z) : hsearch_data :=
  {| table := t; hsize := hsize htab; filled := n |}.

Definition set_data (e : env_entry) (d : option str) : env_entry :=
  {| key := key e; data := d; callback := callback e; flags := flags e |}.

Section operations.
Context `{!EnvHooks}.

(** ** Creation *)

Definition isprime (number : Z) : option bool :=
  div ← loop_brk (S (Z.to_nat number)) (λ div,
      if (u32 (div * div) <? number) && negb (number mod div =? 0)
      then Some (Next (u32 (div + 2))) else Some (Break div)) 3;
  Some (negb (number mod div =? 0)).

(** The results are the returned number and [errno], when it is set. *)
Definition hcreate_r (fuel : nat) (nel : Z) (htab : option hsearch_data)
    : option (Z * option hsearch_data * option Z) :=
  match htab with
  | None => Some (0, htab, Some EINVAL)
  | Some h =>
      match table h with
      | Some _ => Some (0, htab, None)
      | None =>
          nel ← loop_brk fuel (λ nel,
              p ← isprime nel;
              if negb p then Some (Next (u32 (nel + 2))) else Some (Break nel)) (Z.lor nel 1);
          if calloc_ok (u32 (nel + 1)) then
            Some (1, Some {| table := Some (replicate (Z.to_nat (u32 (nel + 1))) free_node);
                             hsize := nel; filled := 0 |}, None)
          else Some (0, Some {| table := None; hsize := nel; filled := 0 |}, None)
      end
  end.

(** The entries are freed with the table, which must be there. *)
Definition hdestroy_r (htab : option hsearch_data) : option (option hsearch_data * option Z) :=
  match htab with
  | None => Some (None, Some EINVAL)
  | Some h =>
      _ ← table h;
      Some (Some {| table := None; hsize := hsize h; filled := filled h |}, None)
  end.

(** ** Search *)

(** What [hsearch_r] and [hdelete_r] give back: the number, the entry
    [*retval] (its index), [errno], and the table. *)
Record result := { ret : Z; retval : option Z; errno : option Z; htab_after : hsearch_data }.

Definition fail (e : Z) (h : hsearch_data) : result :=
  {| ret := 0; retval := None; errno := Some e; htab_after := h |}.

(** Whether the permission check, or else the callback, rejects a change. *)
Definition rejects (e : env_entry) (k : str) (d : option str) (op : env_op) (flag : Z) : option Z :=
  match change_ok with
  | Some f => if f e d op flag then Some EPERM else None
  | None => None
  end.

Definition callback_rejects (e : env_entry) (k : str) (d : option str) (op : env_op) (flag : Z) : option Z :=
  match callback e with
  | Some cb => if run_callback cb k d op flag then Some EINVAL else None
  | None => None
  end.

Definition check_change (e : env_entry) (k : str) (d : option str) (op : env_op) (flag : Z) : option Z :=
  match rejects e k d op flag with
  | Some err => Some err
  | None => callback_rejects e k d op flag
  end.

(** What is done with the entry found in slot [idx]. *)
Definition overwrite (item_key : str) (item_data : option str) (action : env_action)
    (htab : hsearch_data) (tbl : list env_entry_node) (flag idx : Z) (n : env_entry_node)
    : option result :=
  let found h := {| ret := idx; retval := Some idx; errno := None; htab_after := h |} in
  match action, item_data with
  | ENV_ENTER, Some d =>
      match check_change (entry n) item_key item_data env_op_overwrite flag with
      | Some err => Some (fail err htab)
      | None =>
          let d' := strdup d in
          tbl' ← arr_set tbl idx {| used := used n; entry := set_data (entry n) d' |};
          let htab' := set_table htab (Some tbl') (filled htab) in
          match d' with
          | None => Some (fail ENOMEM htab')
          | Some _ => Some (found htab')
          end
      end
  | _, _ => Some (found htab)
  end.

(** [Some None] stands for the result -1, to keep searching. *)
Definition _compare_and_overwrite_entry (item_key : str) (item_data : option str)
    (action : env_action) (htab : hsearch_data) (tbl : list env_entry_node) (flag hval idx : Z)
    : option (option result) :=
  n ← arr_get tbl idx;
  if negb (used n =? hval) then Some None
  else
    k ← key (entry n);
    if negb (bool_decide (item_key = k)) then Some None
    else
      r ← overwrite item_key item_data action htab tbl flag idx n;
      Some (Some r).

Definition hash_value (k : str) : Z :=
  fold_right (λ c h, u32 (u32 (Z.shiftl h 4) + c)) (u32 (Z.of_nat (length k))) k.

Definition first_hash (k : str) (size : Z) : Z :=
  let hval := hash_value k mod size in
  if hval =? 0 then hval + 1 else hval.

Definition second_hash (hval size : Z) : Z := 1 + hval mod (u32 (size - 2)).

Definition next_slot (idx hval2 size : Z) : Z :=
  if idx <=? hval2 then u32 (size + idx - hval2) else idx - hval2.

(** The slots after the first one; the result is the last slot and the first
    deleted one on the way. *)
Definition hsearch_probe (item_key : str) (item_data : option str) (action : env_action)
    (htab : hsearch_data) (tbl : list env_entry_node) (flag hval first_deleted : Z)
    : option (Z * Z + result) :=
  let hval2 := second_hash hval (hsize htab) in
  loop (S (Z.to_nat (hsize htab))) (λ '((idx, first_deleted) : Z * Z),
      let idx := next_slot idx hval2 (hsize htab) in
      if idx =? hval then Some (Break (idx, first_deleted))
      else
        n ← arr_get tbl idx;
        let first_deleted :=
          if (used n =? USED_DELETED) && (first_deleted =? 0) then idx else first_deleted in
        r ← _compare_and_overwrite_entry item_key item_data action htab tbl flag hval idx;
        match r with
        | Some r => Some (Return r)
        | None =>
            if negb (used n =? USED_FREE) then Some (Next (idx, first_deleted))
            else Some (Break (idx, first_deleted))
        end)
    (hval, first_deleted).

(** All the slots, from the first one. *)
Definition hsearch_slot (item_key : str) (item_data : option str) (action : env_action)
    (htab : hsearch_data) (tbl : list env_entry_node) (flag hval : Z) : option (Z * Z + result) :=
  n ← arr_get tbl hval;
  if negb (used n =? 0) then
    let first_deleted := if used n =? USED_DELETED then hval else 0 in
    r ← _compare_and_overwrite_entry item_key item_data action htab tbl flag hval hval;
    match r with
    | Some r => Some (inr r)
    | None => hsearch_probe item_key item_data action htab tbl flag hval first_deleted
    end
  else Some (inl (hval, 0)).

Definition _hdelete (htab : hsearch_data) (tbl : list env_entry_node) (idx : Z) : option hsearch_data :=
  n ← arr_get tbl idx;
  tbl ← arr_set tbl idx {| used := USED_DELETED; entry := free_entry |};
  Some (set_table htab (Some tbl) (u32 (filled htab - 1))).

(** The new entry in slot [idx]. *)
Definition hsearch_create (item_key : str) (item_data : option str) (htab : hsearch_data)
    (tbl : list env_entry_node) (flag hval idx : Z) : option result :=
  let k := strdup item_key in
  let d := match item_data with Some d => strdup d | None => None end in
  match k, d with
  | Some k, Some d =>
      let e := {| key := Some k; data := Some d; callback := env_callback_init k; flags := env_flags_init k |} in
      tbl ← arr_set tbl idx {| used := hval; entry := e |};
      let htab := set_table htab (Some tbl) (u32 (filled htab + 1)) in
      match check_change e item_key item_data env_op_create flag with
      | Some err => htab ← _hdelete htab tbl idx; Some (fail err htab)
      | None => Some {| ret := 1; retval := Some idx; errno := None; htab_after := htab |}
      end
  | _, _ =>
      n ← arr_get tbl idx;
      let e := {| key := k; data := d; callback := callback (entry n); flags := flags (entry n) |} in
      tbl ← arr_set tbl idx {| used := hval; entry := e |};
      Some (fail ENOMEM (set_table htab (Some tbl) (filled htab)))
  end.

Definition hsearch_r (item_key : str) (item_data : option str) (action : env_action)
    (htab : hsearch_data) (flag : Z) : option result :=
  tbl ← table htab;
  let hval := first_hash item_key (hsize htab) in
  o ← hsearch_slot item_key item_data action htab tbl flag hval;
  match o with
  | inr r => Some r
  | inl (idx, first_deleted) =>
      match action with
      | ENV_ENTER =>
          if filled htab =? hsize htab then Some (fail ENOMEM htab)
          else
            let idx := if negb (first_deleted =? 0) then first_deleted else idx in
            hsearch_create item_key item_data htab tbl flag hval idx
      | ENV_FIND => Some (fail ESRCH htab)
      end
  end.

Definition hdelete_r (k : str) (htab : hsearch_data) (flag : Z) : option result :=
  r ← hsearch_r k None ENV_FIND htab 0;
  let idx := ret r in
  if idx =? 0 then Some (fail ESRCH (htab_after r))
  else
    tbl ← table (htab_after r);
    n ← arr_get tbl idx;
    match check_change (entry n) k None env_op_delete flag with
    | Some err => Some (fail err (htab_after r))
    | None =>
        h ← _hdelete (htab_after r) tbl idx;
        Some {| ret := 1; retval := Some idx; errno := None; htab_after := h |}
    end.

(** ** Walks *)

Definition is_prefix (p s : str) : bool := bool_decide (take (length p) s = p).

(** The result is the index, 0 when there is no further match. *)
Definition hmatch_r (match_ : str) (last_idx : Z) (htab : hsearch_data) : option Z :=
  tbl ← table htab;
  o ← loop (S (Z.to_nat (hsize htab))) (λ idx,
      if idx <? hsize htab then
        n ← arr_get tbl idx;
        if used n <=? 0 then Some (Next (idx + 1))
        else
          k ← key (entry n);
          if is_prefix match_ k then Some (Return idx) else Some (Next (idx + 1))
      else Some (Break idx))
    (last_idx + 1);
  Some (match o with inl _ => 0 | inr idx => idx end).

Definition hwalk_r (htab : hsearch_data) (f : env_entry → Z) : option Z :=
  tbl ← table htab;
  o ← loop (S (Z.to_nat (hsize htab))) (λ i,
      if i <=? hsize htab then
        n ← arr_get tbl i;
        if 0 <? used n then
          let retval := f (entry n) in
          if negb (retval =? 0) then Some (Return retval) else Some (Next (i + 1))
        else Some (Next (i + 1))
      else Some (Break i))
    1;
  Some (match o with inl _ => 0 | inr r => r end).

(** ** The table as a map

    The entries of the used slots, in the order of the slots, are the
    variables. *)

Definition used_entry (n : env_entry_node) : list (str * env_entry) :=
  if 0 <? used n then
    match key (entry n) with Some k => [(k, entry n)] | None => [] end
  else [].

Definition contents (tbl : list env_entry_node) : list (str * env_entry) := tbl ≫= used_entry.

Definition vars (htab : hsearch_data) : gmap str env_entry :=
  match table htab with Some tbl => list_to_map (contents tbl) | None => ∅ end.

(** The slot that a key of hash [hval] meets after [j] steps. *)
Definition pos (size hval j : Z) : Z := (hval - 1 - j * second_hash hval size) mod size + 1.

Definition slot_ok (size : Z) (n : env_entry_node) : Prop :=
  used n = USED_FREE ∨ used n = USED_DELETED ∨
  ∃ k, key (entry n) = Some k ∧ is_Some (data (entry n)) ∧ used n = first_hash k size.

(** The key of a used slot is found by its probes: those before it are not free. *)
Definition probes_busy (size : Z) (tbl : list env_entry_node) (hval i : Z) : Prop :=
  ∃ j, 0 ≤ j < size ∧ i = pos size hval j ∧
    ∀ j', 0 ≤ j' < j → ∃ n, arr_get tbl (pos size hval j') = Some n ∧ used n ≠ USED_FREE.

Record htab_ok (htab : hsearch_data) (tbl : list env_entry_node) : Prop := {
  ok_table : table htab = Some tbl;
  ok_prime : prime (hsize htab);
  ok_size : 5 ≤ hsize htab < 2 ^ 31;
  ok_length : Z.of_nat (length tbl) = hsize htab + 1;
  ok_zero : head tbl = Some free_node;
  ok_slots : Forall (slot_ok (hsize htab)) tbl;
  ok_probes : ∀ i n, arr_get tbl i = Some n → 0 < used n →
    probes_busy (hsize htab) tbl (used n) i;
  ok_nodup : NoDup (contents tbl).*1;
  ok_filled : filled htab = Z.of_nat (length (contents tbl))
}.

(** What the table promises: a finite map from names to entries, of bounded
    size, whose changes are subject to permission and callbacks. *)
Inductive request :=
| Find (k : str)
| Enter (k d : str) (flag : Z)
| Delete (k : str) (flag : Z).

Inductive answer := Found (e : env_entry) | Removed | Error (err : Z).

Definition new_entry (k d : str) : env_entry :=
  {| key := Some k; data := Some d; callback := env_callback_init k; flags := env_flags_init k |}.

Definition map_step (capacity : nat) (M : gmap str env_entry) (q : request)
    : gmap str env_entry * answer :=
  match q with
  | Find k => (M, match M !! k with Some e => Found e | None => Error ESRCH end)
  | Enter k d flag =>
      match M !! k with
      | Some e =>
          match check_change e k (Some d) env_op_overwrite flag with
          | Some err => (M, Error err)
          | None => (<[k := set_data e (Some d)]> M, Found (set_data e (Some d)))
          end
      | None =>
          if decide (base.size M = capacity) then (M, Error ENOMEM)
          else
            match check_change (new_entry k d) k (Some d) env_op_create flag with
            | Some err => (M, Error err)
            | None => (<[k := new_entry k d]> M, Found (new_entry k d))
            end
      end
  | Delete k flag =>
      match M !! k with
      | None => (M, Error ESRCH)
      | Some e =>
          match check_change e k None env_op_delete flag with
          | Some err => (M, Error err)
          | None => (delete k M, Removed)
          end
      end
  end.

(** The same requests to the table. *)
Definition read_result (r : result) : option answer :=
  match retval r, errno r with
  | None, Some err => Some (Error err)
  | Some i, None => tbl ← table (htab_after r); n ← arr_get tbl i; Some (Found (entry n))
  | _, _ => None
  end.

Definition table_step (htab : hsearch_data) (q : request) : option (hsearch_data * answer) :=
  match q with
  | Find k =>
      r ← hsearch_r k None ENV_FIND htab 0;
      a ← read_result r; Some (htab_after r, a)
  | Enter k d flag =>
      r ← hsearch_r k (Some d) ENV_ENTER htab flag;
      a ← read_result r; Some (htab_after r, a)
  | Delete k flag =>
      r ← hdelete_r k htab flag;
      match errno r with
      | Some err => Some (htab_after r, Error err)
      | None => Some (htab_after r, Removed)
      end
  end.

Fixpoint map_run (capacity : nat) (M : gmap str env_entry) (qs : list request)
    : gmap str env_entry * list answer :=
  match qs with
  | [] => (M, [])
  | q :: qs =>
      let '(M, a) := map_step capacity M q in
      let '(M, l) := map_run capacity M qs in (M, a :: l)
  end.

Fixpoint table_run (htab : hsearch_data) (qs : list request) : option (hsearch_data * list answer) :=
  match qs with
  | [] => Some (htab, [])
  | q :: qs =>
      '(htab, a) ← table_step htab q;
      '(htab, l) ← table_run htab qs;
      Some (htab, a :: l)
  end.

End operations.

(** ** Sizes *)

Lemma not_prime_divisor n d : 1 < d < n → n mod d = 0 → ¬ prime n.
Proof.
  intros Hd Hm [_ Hp]. apply Z.mod_divide in Hm; [|lia].
  destruct (Hp d) as [_ _ H1]; [lia|]. specialize (H1 d (Z.divide_refl d) Hm).
  apply Z.divide_1_r_nonneg in H1; lia.
Qed.

(** A number without a divisor up to its square root is prime. *)
Lemma prime_no_divisor n r : 1 < n → 0 ≤ r → n ≤ r * r →
  (∀ d, 1 < d ≤ r → d < n → n mod d ≠ 0) → prime n.
Proof.
  intros Hn Hr0 Hr Hd. apply prime_alt. split; [done|].
  intros d Hdn Hdiv. assert (E : d * (n / d) = n) by (symmetry; apply Z_div_exact_full_2; [lia|by apply Z.mod_divide; [lia|]]).
  destruct (Z.le_gt_cases d r) as [Hle|Hgt].
  - apply (Hd d); [lia..|]. apply Z.mod_divide; [lia|done].
  - generalize dependent (n / d). intros q E. assert (1 < q < n) by nia.
    apply (Hd q); [nia..|].
    rewrite <-E. apply Z.mod_mul. lia.
Qed.

Lemma odd_divisor n d : 0 < d → Z.odd n = true → n mod d = 0 → Z.odd d = true.
Proof.
  intros Hd Ho Hm%Z.mod_divide; [|lia]. destruct Hm as [q ->].
  rewrite Z.odd_mul in Ho. by apply andb_prop in Ho as [_ ->].
Qed.

Lemma isprime_correct n : 5 ≤ n < 2 ^ 31 → Z.odd n = true →
  ∃ b, isprime n = Some b ∧ (b = true ↔ prime n).
Proof.
  intros Hn Hodd. unfold isprime.
  loop_ix (Z.to_nat n) (λ (m : nat) div, Z.of_nat m = n - div + 3 ∧ Z.odd div = true ∧ 3 ≤ div ≤ n ∧
      (div = 3 ∨ (div - 2) * (div - 2) < n) ∧ (∀ d, 1 < d < div → n mod d ≠ 0))
    (λ div, 3 ≤ div < n ∧ (∀ d, 1 < d < div → n mod d ≠ 0) ∧ (n ≤ div * div ∨ n mod div = 0)).
  - intros m div (Hm & Hod & Hdiv & Hsq & Hall).
    assert (div < 2 ^ 16) by (destruct Hsq; nia). assert (div < n) by (destruct Hsq; nia). word_small.
    assert (Heven : ∀ d, 1 < d < div + 2 → d ≠ div → n mod d ≠ 0).
    { intros d Hd Hne E. destruct (Z.lt_ge_cases d div); [apply (Hall d); [lia|done]|].
      pose proof (odd_divisor n d ltac:(lia) Hodd E) as Ho. assert (d = div + 1) as -> by lia.
      rewrite Z.odd_add, Hod in Ho. done. }
    destruct (Z.ltb_spec (div * div) n), (Z.eqb_spec (n mod div) 0); cbn.
    1,3,4: eexists; split; [done|]; split; [lia|]; split; [done|]; lia.
    eexists. split; [done|]. exists (m - 2)%nat. assert (div + 2 ≤ n) by nia.
    split; [lia|]. split; [lia|]. split; [by rewrite Z.odd_add, Hod|]. split; [lia|]. split; [right; lia|].
    intros d Hd. destruct (Z.eq_dec d div) as [->|]; [done|by apply Heven].
  - split; [lia|]. split; [done|]. split; [lia|]. split; [by left|].
    intros d Hd E. assert (d = 2) as -> by lia. by apply (odd_divisor n 2) in E.
  - lia.
  - destruct HQ as (Hdiv & Hall & Hend). eexists. split; [done|]. rewrite negb_true_iff, Z.eqb_neq. split.
    + intros Hne. apply (prime_no_divisor n st); [lia|lia|lia|]. intros d Hd _.
      destruct (Z.eq_dec d st) as [->|]; [done|apply Hall; lia].
    + intros Hp E. by apply (not_prime_divisor n st) in E; [|lia].
Qed.

Lemma lor_1 n : 0 ≤ n → Z.lor n 1 = n + (if Z.odd n then 0 else 1).
Proof. by destruct n as [|[p|p|]|]. Qed.

Lemma prime_odd p : 5 ≤ p → prime p → Z.odd p = true.
Proof.
  intros Hp Hpr. destruct (Z.odd p) eqn:E; [done|].
  apply (not_prime_divisor p 2) in Hpr; [done|lia|]. by rewrite Zmod_odd, E.
Qed.

(** The search for a size ends at the first prime, with one step for each
    odd number on the way. *)
Lemma next_prime_spec nel P fuel :
  2 ≤ nel → prime P → Z.max nel 5 ≤ P < 2 ^ 31 → (Z.to_nat P < fuel)%nat →
  ∃ p, loop_brk fuel (λ nel,
      p ← isprime nel;
      if negb p then Some (Next (u32 (nel + 2))) else Some (Break nel)) (Z.lor nel 1) = Some p ∧
    (prime p ∧ Z.max nel 5 ≤ p ≤ P ∧ ∀ q, prime q → Z.max nel 5 ≤ q → p ≤ q).
Proof.
  intros Hnel HP Hmax Hfuel. pose proof (prime_odd P) as HoP.
  assert (Hodd1 : Z.odd (Z.lor nel 1) = true).
  { rewrite lor_1 by lia. destruct (Z.odd nel) eqn:E; [by rewrite Z.add_0_r|by rewrite Z.odd_add, E]. }
  pose proof (lor_1 nel) as Hlor.
  assert (Hge : nel ≤ Z.lor nel 1) by (rewrite Hlor by lia; destruct (Z.odd nel); lia).
  apply (loop_brk_total_ix _ (λ m x, Z.of_nat m = P - x ∧ Z.odd x = true ∧ 3 ≤ x ≤ P ∧ nel ≤ x ∧
      ∀ q, prime q → Z.max nel 5 ≤ q → x ≤ q)) with (n := Z.to_nat (P - Z.lor nel 1)); [| |lia].
  - intros m x (Hm & Ho & Hx & Hxn & Hall).
    destruct (Z.eq_dec x 3) as [->|].
    { change (isprime 3) with (Some false). cbn. eexists. split; [done|]. exists (m - 2)%nat.
      change (u32 (3 + 2)) with 5. split; [lia|]. split_and!; try done; lia. }
    assert (5 ≤ x) by (destruct (Z.eq_dec x 4) as [->|]; [done|lia]).
    destruct (isprime_correct x) as (b & -> & Hb); [lia|done|]. cbn.
    destruct b; cbn; (eexists; split; [done|]).
    + split; [by apply Hb|]. split; [lia|done].
    + assert (x ≠ P) by (intros ->; by apply Hb in HP).
      assert (x + 2 ≤ P).
      { destruct (Z.eq_dec (x + 1) P) as [<-|]; [|lia]. rewrite Z.odd_add, Ho in HoP.
        specialize (HoP ltac:(lia) HP). done. }
      exists (m - 2)%nat. word_small. split; [lia|]. split; [lia|].
      split; [by rewrite Z.odd_add, Ho|]. split; [lia|]. split; [lia|].
      intros q Hq Hle. specialize (Hall q Hq Hle).
      destruct (Z.eq_dec q x) as [->|]; [by apply Hb in Hq|].
      destruct (Z.eq_dec q (x + 1)) as [->|]; [|lia].
      apply prime_odd in Hq; [|lia]. by rewrite Z.odd_add, Ho in Hq.
  - assert (Hle : ∀ q, prime q → Z.max nel 5 ≤ q → Z.lor nel 1 ≤ q).
    { intros q Hq Hqn. rewrite Hlor by lia. destruct (Z.odd nel) eqn:E; [lia|].
      destruct (Z.eq_dec q nel) as [->|]; [|lia]. apply prime_odd in Hq; [|lia]. congruence. }
    pose proof (Hle P HP ltac:(lia)). split; [lia|]. split; [done|].
    split; [|by split].
    destruct (Z.eq_dec nel 2) as [->|]; [change (Z.lor 2 1) with 3 in *; lia|lia].
Qed.

(** ** The probe sequence *)

Section probes.
Context (size hval : Z) (Hprime : prime size) (Hsize : 5 ≤ size < 2 ^ 31) (Hhval : 1 ≤ hval < size).

Lemma second_hash_range : 1 ≤ second_hash hval size ≤ size - 2.
Proof. unfold second_hash. word_small. pose proof (Z.mod_pos_bound hval (size - 2)). lia. Qed.

Lemma pos_range j : 1 ≤ pos size hval j ≤ size.
Proof. unfold pos. pose proof (Z.mod_pos_bound (hval - 1 - j * second_hash hval size) size). lia. Qed.

Lemma pos_0 : pos size hval 0 = hval.
Proof. unfold pos. rewrite Z.mod_small; lia. Qed.

Lemma pos_size : pos size hval size = hval.
Proof.
  unfold pos. replace (hval - 1 - size * second_hash hval size)
    with (hval - 1 + (- second_hash hval size) * size) by lia.
  rewrite Z_mod_plus_full, Z.mod_small; lia.
Qed.

Lemma next_slot_pos j :
  next_slot (pos size hval j) (second_hash hval size) size = pos size hval (j + 1).
Proof.
  pose proof second_hash_range. pose proof (pos_range j) as Hj. unfold next_slot.
  set (h2 := second_hash hval size) in *.
  assert (E : pos size hval (j + 1) = (pos size hval j - 1 - h2) mod size + 1).
  { unfold pos. fold h2. rewrite Z.add_simpl_r, Zminus_mod_idemp_l. do 2 f_equal. lia. }
  rewrite E. destruct (Z.leb_spec (pos size hval j) h2).
  - rewrite wrap_small by lia. rewrite <-(Z_mod_plus_full _ 1), Z.mod_small; lia.
  - rewrite Z.mod_small; lia.
Qed.

Lemma pos_inj j j' :
  0 ≤ j < size → 0 ≤ j' < size → pos size hval j = pos size hval j' → j = j'.
Proof.
  pose proof second_hash_range. unfold pos. set (h2 := second_hash hval size) in *.
  intros Hj Hj' E.
  assert (D : (size | (j - j') * h2)).
  { apply Z.mod_divide; [lia|].
    replace ((j - j') * h2) with ((hval - 1 - j' * h2) - (hval - 1 - j * h2)) by lia.
    rewrite Zminus_mod. replace ((hval - 1 - j' * h2) mod size) with ((hval - 1 - j * h2) mod size) by lia.
    by rewrite Z.sub_diag, Z.mod_0_l by lia. }
  apply prime_mult in D as [D|D]; [| |done].
  - assert (Z.abs (j - j') = 0 ∨ size ≤ Z.abs (j - j')) as []; [|lia..].
    destruct (Z.eq_dec (j - j') 0) as [->|]; [by left|right].
    apply Z.divide_pos_le; [lia|]. by apply Z.divide_abs_r.
  - apply Z.divide_pos_le in D; lia.
Qed.

(** Every slot is met by the probes: an injection of a finite set. *)
Lemma probes_cover i : 1 ≤ i ≤ size → ∃ j, 0 ≤ j < size ∧ pos size hval j = i.
Proof.
  intros Hi. set (l := (λ j, pos size hval (Z.of_nat j)) <$> seq 0 (Z.to_nat size)).
  assert (Hnd : NoDup l).
  { apply NoDup_fmap_2_strong; [|apply NoDup_seq].
    intros x y [_ Hx]%elem_of_seq [_ Hy]%elem_of_seq E. apply pos_inj in E; lia. }
  assert (Hin : i ∈ l).
  { destruct (decide (i ∈ l)) as [|Hn]; [done|exfalso].
    assert (Hsub : (length (i :: l) ≤ length (Z.of_nat <$> seq 1 (Z.to_nat size)))%nat).
    { apply submseteq_length, NoDup_submseteq; [by constructor|].
      intros x [-> | (j & -> & _)%list_elem_of_fmap]%elem_of_cons; apply list_elem_of_fmap.
      - exists (Z.to_nat i). rewrite elem_of_seq. lia.
      - pose proof (pos_range (Z.of_nat j)). exists (Z.to_nat (pos size hval (Z.of_nat j))).
        rewrite elem_of_seq. lia. }
    unfold l in Hsub. cbn [length] in Hsub. rewrite !length_fmap, !length_seq in Hsub. lia. }
  apply list_elem_of_fmap in Hin as (j & -> & [_ Hj]%elem_of_seq).
  exists (Z.of_nat j). lia.
Qed.
End probes.

Lemma first_hash_range k size : 2 ≤ size → 1 ≤ first_hash k size < size.
Proof.
  intros Hs. unfold first_hash. pose proof (Z.mod_pos_bound (hash_value k) size).
  destruct (Z.eqb_spec (hash_value k mod size) 0); lia.
Qed.

(** ** The entries of a table *)

Section entries.
Implicit Types (tbl : list env_entry_node) (n : env_entry_node).

Lemma contents_app tbl1 tbl2 : contents (tbl1 ++ tbl2) = contents tbl1 ++ contents tbl2.
Proof. apply bind_app. Qed.

Lemma contents_cons n tbl : contents (n :: tbl) = used_entry n ++ contents tbl.
Proof. done. Qed.

Lemma used_entry_unused n : used n ≤ 0 → used_entry n = [].
Proof. intros H. unfold used_entry. by rewrite (proj2 (Z.ltb_ge _ _)). Qed.

Lemma used_entry_used n k : 0 < used n → key (entry n) = Some k → used_entry n = [(k, entry n)].
Proof. intros H E. unfold used_entry. by rewrite (proj2 (Z.ltb_lt _ _)), E. Qed.

Lemma elem_of_contents tbl k e :
  (k, e) ∈ contents tbl ↔
  ∃ i n, arr_get tbl i = Some n ∧ 0 < used n ∧ key (entry n) = Some k ∧ entry n = e.
Proof.
  unfold contents. rewrite list_elem_of_bind. split.
  - intros (n & Hk & Hn). apply list_elem_of_lookup_1 in Hn as [i Hi].
    exists (Z.of_nat i), n. rewrite arr_get_Some, Nat2Z.id.
    unfold used_entry in Hk. destruct (Z.ltb_spec 0 (used n)); [|set_solver].
    destruct (key (entry n)) as [k'|] eqn:E; [|set_solver].
    apply list_elem_of_singleton in Hk. naive_solver lia.
  - intros (i & n & [_ Hi]%arr_get_Some & Hu & Hk & <-). exists n.
    rewrite (used_entry_used n k) by done.
    split; [set_solver|]. by eapply list_elem_of_lookup_2.
Qed.

Lemma length_contents_slot n : (length (used_entry n) ≤ 1)%nat.
Proof. unfold used_entry. destruct (_ <? _), (key (entry n)); cbn; lia. Qed.

Lemma length_contents tbl : (length (contents tbl) ≤ length tbl)%nat.
Proof.
  induction tbl as [|n tbl IH]; [done|]. rewrite contents_cons, length_app. cbn [length].
  pose proof (length_contents_slot n). lia.
Qed.

(** As many variables as slots: every slot is used. *)
Lemma contents_full tbl n :
  length (contents tbl) = length tbl → n ∈ tbl → 0 < used n.
Proof.
  induction tbl as [|n' tbl IH]; [set_solver|].
  rewrite contents_cons, length_app. cbn [length].
  pose proof (length_contents_slot n'). pose proof (length_contents tbl).
  intros E [-> | Hn]%elem_of_cons; [|apply IH; [lia|done]].
  destruct (Z.lt_ge_cases 0 (used n')) as [|Hu]; [done|].
  apply used_entry_unused in Hu. rewrite Hu in E. cbn in E. lia.
Qed.

Lemma contents_all_used size tbl :
  Forall (slot_ok size) tbl → (∀ n, n ∈ tbl → 0 < used n) → length (contents tbl) = length tbl.
Proof.
  induction 1 as [|n tbl Hn _ IH]; intros Hu; [done|].
  rewrite contents_cons, length_app, IH by set_solver.
  assert (H : 0 < used n) by set_solver.
  destruct Hn as [?|[?|(k & Hk & _)]]; [unfold USED_FREE, USED_DELETED in *; lia..|].
  by rewrite (used_entry_used n k).
Qed.
End entries.

(** ** The search *)

Section search.
Context `{!EnvHooks} (h : hsearch_data) (tbl : list env_entry_node) (Hok : htab_ok h tbl).
Context (k : str) (d : option str) (action : env_action) (flag : Z).
Let hval := first_hash k (hsize h).
Let slot j := pos (hsize h) hval j.

Lemma vars_lookup_ok (k0 : str) e :
  vars h !! k0 = Some e ↔
  ∃ i n, arr_get tbl i = Some n ∧ 0 < used n ∧ key (entry n) = Some k0 ∧ entry n = e.
Proof.
  rewrite <-elem_of_contents. unfold vars. rewrite (ok_table _ _ Hok).
  symmetry. apply elem_of_list_to_map, (ok_nodup _ _ Hok).
Qed.

Lemma hval_range : 1 ≤ hval < hsize h.
Proof. apply first_hash_range. pose proof (ok_size _ _ Hok). lia. Qed.

Lemma slot_range j : 1 ≤ slot j ≤ hsize h.
Proof. apply pos_range. pose proof (ok_size _ _ Hok). lia. Qed.

Lemma slot_get j : ∃ n, arr_get tbl (slot j) = Some n ∧ slot_ok (hsize h) n.
Proof.
  pose proof (slot_range j). pose proof (ok_length _ _ Hok).
  destruct (arr_get_ex tbl (slot j)) as [n Hn]; [lia|]. exists n. split; [done|].
  apply arr_get_Some in Hn as [_ Hn]. eapply Forall_lookup_1; [apply Hok|done].
Qed.

(** The slot holds the key. *)
Definition matches (n : env_entry_node) : Prop := used n = hval ∧ key (entry n) = Some k.

Lemma overwrite_total i n : arr_get tbl i = Some n →
  is_Some (overwrite k d action h tbl flag i n).
Proof.
  intros Hi%mk_is_Some%arr_get_is_Some. unfold overwrite.
  destruct action, d; try by eauto. destruct (check_change _ _ _ _ _); [by eauto|].
  unfold arr_set. rewrite (proj2 (Z.leb_le _ _)), (proj2 (Z.ltb_lt _ _)) by lia. cbn.
  destruct (strdup _); eauto.
Qed.

Lemma compare_slot j n : arr_get tbl (slot j) = Some n →
  (matches n ∧ ∃ r, overwrite k d action h tbl flag (slot j) n = Some r ∧
     _compare_and_overwrite_entry k d action h tbl flag hval (slot j) = Some (Some r)) ∨
  (¬ matches n ∧ _compare_and_overwrite_entry k d action h tbl flag hval (slot j) = Some None).
Proof.
  intros Hn. unfold _compare_and_overwrite_entry, matches. rewrite Hn. cbn.
  destruct (Z.eqb_spec (used n) hval) as [E|E]; cbn; [|naive_solver].
  destruct (slot_get j) as (n' & Hn' & Hs). rewrite Hn' in Hn. injection Hn as ->.
  pose proof hval_range. unfold slot_ok, USED_FREE, USED_DELETED in Hs.
  destruct Hs as [?|[?|(k' & Hk & _)]]; [lia..|]. rewrite Hk. cbn.
  case_bool_decide; cbn; [|naive_solver]. left. subst k'. split; [done|].
  destruct (overwrite_total (slot j) n Hn') as [r Hr]. exists r. by rewrite Hr.
Qed.

(** The slots up to the [j]-th probe are taken by others, and [fd] is the
    first deleted one. *)
Definition visited (j fd : Z) : Prop :=
  0 ≤ j < hsize h ∧
  (∀ j', 0 ≤ j' ≤ j → ∃ n, arr_get tbl (slot j') = Some n ∧ used n ≠ USED_FREE ∧ ¬ matches n ∧
     (fd = 0 → used n ≠ USED_DELETED)) ∧
  (fd ≠ 0 → ∃ j' n, 0 ≤ j' ≤ j ∧ fd = slot j' ∧ arr_get tbl fd = Some n ∧ used n = USED_DELETED).

Definition search_end (o : Z * Z + result) : Prop :=
  match o with
  | inr r => ∃ i n, arr_get tbl i = Some n ∧ matches n ∧ overwrite k d action h tbl flag i n = Some r
  | inl (idx, fd) =>
      (∃ j, visited j fd ∧ j + 1 = hsize h) ∨
      (∃ n, idx = hval ∧ fd = 0 ∧ arr_get tbl (slot 0) = Some n ∧ used n = USED_FREE) ∨
      (∃ j n, visited j fd ∧ j + 1 < hsize h ∧ idx = slot (j + 1) ∧
        arr_get tbl (slot (j + 1)) = Some n ∧ used n = USED_FREE)
  end.

Lemma visited_next j fd n :
  visited j fd → j + 1 < hsize h → arr_get tbl (slot (j + 1)) = Some n →
  used n ≠ USED_FREE → ¬ matches n →
  visited (j + 1) (if (used n =? USED_DELETED) && (fd =? 0) then slot (j + 1) else fd).
Proof.
  intros (Hj & Hbusy & Hfd) Hj' Hn Hu Hm. pose proof (slot_range (j + 1)).
  destruct (Z.eqb_spec (used n) USED_DELETED), (Z.eqb_spec fd 0); cbn;
    (split; [lia|split]).
  1,3,5,7: intros j' Hr; destruct (Z.eq_dec j' (j + 1)) as [->|];
    [exists n; split_and!; try done; lia|];
    destruct (Hbusy j') as (n' & ? & ? & ? & ?); [lia|]; exists n'; split_and!; try done; try lia; auto.
  - intros _. exists (j + 1), n. split_and!; [lia|lia|done..].
  - intros Hfd0. destruct (Hfd Hfd0) as (j' & n' & ? & ? & ? & ?). exists j', n'. split_and!; [lia|lia|done..].
  - done.
  - intros Hfd0. destruct (Hfd Hfd0) as (j' & n' & ? & ? & ? & ?). exists j', n'. split_and!; [lia|lia|done..].
Qed.
Lemma next_slot_slot j : next_slot (slot j) (second_hash hval (hsize h)) (hsize h) = slot (j + 1).
Proof.
  pose proof hval_range. pose proof (ok_size _ _ Hok). by apply next_slot_pos.
Qed.

Lemma hsearch_probe_spec fd :
  visited 0 fd →
  ∃ o, hsearch_probe k d action h tbl flag hval fd = Some o ∧ search_end o.
Proof.
  intros Hv. pose proof hval_range as Hr. pose proof (ok_prime _ _ Hok) as Hp.
  pose proof (ok_size _ _ Hok) as Hs. unfold hsearch_probe.
  apply (loop_total_ix _ (λ m '((idx, fd) : Z * Z),
    ∃ j, idx = slot j ∧ visited j fd ∧ Z.of_nat m = hsize h - j))
    with (n := Z.to_nat (hsize h)); [|exists 0|lia].
  - intros m [idx fd'] (j & -> & Hvj & Hm). rewrite next_slot_slot. pose proof (proj1 Hvj).
    destruct (Z.eqb_spec (slot (j + 1)) hval) as [E|E].
    + eexists. split; [done|]. left. exists j. split; [done|].
      destruct (Z.eq_dec (j + 1) (hsize h)) as [|Hne]; [done|exfalso].
      assert (E' : slot (j + 1) = slot 0) by (rewrite E; unfold slot; by rewrite pos_0 by lia).
      apply (pos_inj _ _ Hp Hs) in E'; lia.
    + assert (j + 1 < hsize h).
      { destruct (Z.eq_dec (j + 1) (hsize h)) as [Heq|]; [|lia].
        destruct E. unfold slot. rewrite Heq. by apply pos_size. }
      destruct (slot_get (j + 1)) as (n & Hn & _). rewrite Hn. cbn.
      destruct (compare_slot (j + 1) n Hn) as [(Hma & r & Hr' & ->)|(Hma & ->)]; cbn.
      * eexists. split; [done|]. exists (slot (j + 1)), n. done.
      * destruct (Z.eqb_spec (used n) USED_FREE) as [Hu|Hu]; cbn; (eexists; split; [done|]).
        -- right. right. exists j, n. split_and!; try done.
           rewrite Hu. cbn. done.
        -- exists (m - 1)%nat. split; [lia|]. exists (j + 1). split_and!; [done| |lia].
           by apply visited_next.
  - unfold slot. rewrite pos_0 by lia. split_and!; [done|done|lia].
Qed.

Lemma hsearch_slot_end :
  ∃ o, hsearch_slot k d action h tbl flag hval = Some o ∧ search_end o.
Proof.
  unfold hsearch_slot. destruct (slot_get 0) as (n & Hn & _).
  pose proof hval_range as Hr. pose proof (ok_size _ _ Hok).
  assert (E0 : slot 0 = hval) by (unfold slot; rewrite pos_0 by lia; done).
  assert (Hn' : arr_get tbl hval = Some n) by (rewrite <-Hn; f_equal; done).
  rewrite Hn'. cbn.
  destruct (Z.eqb_spec (used n) 0) as [Hu|Hu]; cbn.
  - eexists. split; [done|]. right. left. exists n. split_and!; try done.
  - pose proof (compare_slot 0 n Hn) as Hc. rewrite E0 in Hc.
    destruct Hc as [(Hma & r & Hr' & ->)|(Hma & ->)]; cbn.
    + eexists. split; [done|]. exists (slot 0), n. rewrite E0. rewrite E0 in Hn. done.
    + apply hsearch_probe_spec. split; [lia|].
      split; [intros j' Hj'; assert (j' = 0) as -> by lia; exists n; split_and!; try done|].
      * destruct (Z.eqb_spec (used n) USED_DELETED); lia.
      * destruct (Z.eqb_spec (used n) USED_DELETED); [|done]. intros _.
        exists 0, n. rewrite E0 in Hn. rewrite E0. split_and!; [lia|lia|done..].
Qed.

(** What the end of the search means for the map. *)
Lemma matches_lookup i n : arr_get tbl i = Some n → matches n → vars h !! k = Some (entry n).
Proof.
  intros Hn [Hu Hk]. apply vars_lookup_ok. exists i, n. pose proof hval_range.
  split_and!; try done. lia.
Qed.

(** A slot of the key is found no later than the first free slot. *)
Lemma lookup_reached e : vars h !! k = Some e →
  ∃ j n, 0 ≤ j < hsize h ∧ arr_get tbl (slot j) = Some n ∧ matches n ∧ entry n = e ∧
    ∀ j', 0 ≤ j' < j → ∃ n', arr_get tbl (slot j') = Some n' ∧ used n' ≠ USED_FREE.
Proof.
  intros (i & n & Hn & Hu & Hk & <-)%vars_lookup_ok.
  assert (Hslot : slot_ok (hsize h) n).
  { apply arr_get_Some in Hn as [_ Hn]. eapply Forall_lookup_1; [apply Hok|done]. }
  unfold slot_ok, USED_FREE, USED_DELETED in Hslot.
  destruct Hslot as [?|[?|(k' & Hk' & _ & Huh)]]; [lia..|].
  assert (k' = k) as -> by congruence.
  destruct (ok_probes _ _ Hok i n Hn Hu) as (j & Hj & -> & Hb). rewrite Huh in Hn, Hb.
  exists j, n. split; [lia|]. split; [exact Hn|]. split; [by split|]. split; [done|exact Hb].
Qed.

Definition free_slot (t : Z) : Prop :=
  ∃ n, arr_get tbl t = Some n ∧ used n ≤ 0 ∧ probes_busy (hsize h) tbl hval t.

Lemma visited_busy j fd j' : visited j fd → 0 ≤ j' ≤ j →
  ∃ n, arr_get tbl (slot j') = Some n ∧ used n ≠ USED_FREE.
Proof. intros (_ & Hb & _) Hj. destruct (Hb j' Hj) as (n & ? & ? & _). eauto. Qed.

Lemma visited_deleted j fd : visited j fd → fd ≠ 0 → free_slot fd.
Proof.
  intros Hv Hfd. destruct (proj2 (proj2 Hv) Hfd) as (j' & n & Hj & -> & Hn & Hu).
  exists n. split; [done|]. split; [by rewrite Hu|]. exists j'. destruct Hv as (? & Hb & _).
  split; [lia|]. split; [done|]. intros j2 Hj2. destruct (Hb j2) as (n2 & ? & ? & _); [lia|eauto].
Qed.

Lemma search_end_absent idx fd : search_end (inl (idx, fd)) → vars h !! k = None.
Proof.
  intros Hend. destruct (vars h !! k) as [e|] eqn:E; [exfalso|done].
  apply lookup_reached in E as (j & n & Hj & Hn & Hma & _ & Hb). pose proof hval_range.
  assert (Hu : used n ≠ USED_FREE) by (destruct Hma as [-> _]; unfold USED_FREE; lia).
  assert (Hvis : ∀ j' fd', visited j' fd' → j ≤ j' → False).
  { intros j' fd' (_ & Hv & _) Hle. destruct (Hv j) as (n' & Hn' & _ & Hm' & _); [lia|].
    apply Hm'. by assert (n' = n) as -> by congruence. }
  assert (Hfree : ∀ j' n', arr_get tbl (slot j') = Some n' → used n' = USED_FREE → 0 ≤ j' ≤ j → False).
  { intros j' n' Hn' Hu' Hle. destruct (Z.eq_dec j' j) as [->|].
    - assert (n' = n) as -> by congruence. done.
    - destruct (Hb j') as (n2 & Hn2 & Hu2); [lia|]. unfold slot in *. congruence. }
  destruct Hend as [(j' & Hv & Hlast)|[(n' & _ & _ & Hn' & Hu')|(j' & n' & Hv & _ & _ & Hn' & Hu')]].
  - apply (Hvis j' fd Hv). lia.
  - apply (Hfree 0 n'); [done..|lia].
  - destruct (Z.le_gt_cases j j'); [by apply (Hvis j' fd Hv)|].
    destruct Hv as [Hj' _]. apply (Hfree (j' + 1) n'); [done..|lia].
Qed.

Lemma all_visited_full j : visited j 0 → j + 1 = hsize h → filled h = hsize h.
Proof.
  intros (_ & Hv & _) Hj. rewrite (ok_filled _ _ Hok). pose proof (ok_size _ _ Hok) as Hs.
  pose proof (ok_length _ _ Hok) as Hlen. pose proof (ok_zero _ _ Hok) as Hz.
  pose proof (ok_slots _ _ Hok) as Hso.
  destruct tbl as [|n0 tl] eqn:Et; [done|]. injection Hz as ->. cbn [length] in Hlen.
  rewrite contents_cons, used_entry_unused by done. cbn [app].
  apply Forall_cons in Hso as [_ Hso]. pose proof (length_contents tl) as Hle.
  rewrite (contents_all_used (hsize h)); [lia|done|].
  intros n Hn. apply list_elem_of_lookup_1 in Hn as [i Hi].
  assert (Hil : (i < length tl)%nat) by (by eapply lookup_lt_Some).
  assert (Hcov : ∃ j', 0 ≤ j' < hsize h ∧ slot j' = Z.of_nat i + 1).
  { apply probes_cover; [apply (ok_prime _ _ Hok)|done|lia]. }
  destruct Hcov as (j' & Hj' & Ej). destruct (Hv j') as (n' & Hn' & Hf & _ & Hd); [lia|].
  rewrite Ej in Hn'. apply arr_get_Some in Hn' as [_ Hn'].
  replace (Z.to_nat (Z.of_nat i + 1)) with (S i) in Hn' by lia.
  change (tl !! i = Some n') in Hn'. rewrite Hi in Hn'. injection Hn' as <-. specialize (Hd eq_refl).
  rewrite Forall_forall in Hso. destruct (Hso n) as [?|[?|(k' & _ & _ & ->)]]; try done.
  - by eapply list_elem_of_lookup_2.
  - pose proof (first_hash_range k' (hsize h)). lia.
Qed.

Lemma hsearch_slot_spec :
  ∃ o, hsearch_slot k d action h tbl flag hval = Some o ∧
    match o with
    | inr r => ∃ i n, arr_get tbl i = Some n ∧ matches n ∧ overwrite k d action h tbl flag i n = Some r
    | inl (idx, fd) =>
        vars h !! k = None ∧
        (filled h ≠ hsize h → free_slot (if negb (fd =? 0) then fd else idx))
    end.
Proof.
  destruct hsearch_slot_end as ([[idx fd]|r] & Ho & Hend); (eexists; split; [exact Ho|]); [|done].
  split; [by eapply search_end_absent|]. intros Hfull. pose proof (ok_size _ _ Hok) as Hs.
  destruct (Z.eqb_spec fd 0) as [->|Hfd]; cbn.
  - destruct Hend as [(j & Hv & Hlast)|[(n & -> & _ & Hn & Hu)|(j & n & Hv & Hj & -> & Hn & Hu)]].
    + by destruct Hfull; eapply all_visited_full.
    + pose proof hval_range. exists n. assert (E : slot 0 = hval) by (unfold slot; by rewrite pos_0 by lia).
      rewrite E in Hn. split; [done|]. split; [by rewrite Hu|]. exists 0.
      split; [lia|]. split; [by rewrite <-E at 1|]. lia.
    + exists n. split; [done|]. split; [by rewrite Hu|]. exists (j + 1).
      destruct (proj1 Hv). split; [lia|]. split; [done|].
      intros j' Hj'. apply (visited_busy j 0); [done|lia].
  - destruct Hend as [(j & Hv & _)|[(n & _ & -> & _)|(j & n & Hv & _)]]; [|done|];
      by eapply visited_deleted.
Qed.
End search.

(** ** Changes of one slot *)

Section update.
Context (h : hsearch_data) (tbl : list env_entry_node) (Hok : htab_ok h tbl).

Lemma contents_middle l1 n l2 :
  contents (l1 ++ n :: l2) ≡ₚ used_entry n ++ contents l1 ++ contents l2.
Proof. rewrite contents_app, contents_cons. solve_Permutation. Qed.

Lemma get_slot_ok i n : arr_get tbl i = Some n → slot_ok (hsize h) n.
Proof. intros [_ Hn]%arr_get_Some. eapply Forall_lookup_1; [apply Hok|done]. Qed.

(** A slot takes a node that is not free. *)
Lemma replace_ok l1 n l2 n' f :
  tbl = l1 ++ n :: l2 → l1 ≠ [] → used n' ≠ USED_FREE → slot_ok (hsize h) n' →
  (0 < used n' → probes_busy (hsize h) tbl (used n') (Z.of_nat (length l1))) →
  NoDup (used_entry n' ++ contents l1 ++ contents l2).*1 →
  f = Z.of_nat (length (used_entry n' ++ contents l1 ++ contents l2)) →
  htab_ok (set_table h (Some (l1 ++ n' :: l2)) f) (l1 ++ n' :: l2).
Proof.
  intros Etbl Hne Hu Hs Hb Hnd Hf. pose proof Hok as [Ht Hp Hsz Hlen Hz Hsl Hpr _ _].
  assert (Hset : arr_set tbl (Z.of_nat (length l1)) n' = Some (l1 ++ n' :: l2)).
  { rewrite Etbl. by apply arr_set_middle. }
  assert (Hmono : ∀ hv i, probes_busy (hsize h) tbl hv i → probes_busy (hsize h) (l1 ++ n' :: l2) hv i).
  { intros hv i (j & Hj & -> & Hbusy). exists j. split; [done|]. split; [done|].
    intros j' Hj'. destruct (Hbusy j' Hj') as (m & Hm & Hm'). rewrite (arr_get_set _ _ _ _ _ Hset).
    destruct (_ =? _); eauto. }
  split; cbn; try done.
  - rewrite Etbl in Hlen. by rewrite length_app in *.
  - rewrite Etbl in Hz. by destruct l1.
  - rewrite Etbl in Hsl. rewrite !Forall_app, !Forall_cons in *. naive_solver.
  - intros i m Hm Hum. apply Hmono. rewrite (arr_get_set _ _ _ _ _ Hset) in Hm.
    destruct (Z.eqb_spec i (Z.of_nat (length l1))) as [->|]; [|by apply Hpr].
    injection Hm as <-. by apply Hb.
  - by rewrite contents_middle.
  - by rewrite contents_middle.
Qed.

Lemma nonempty_before i l1 (n : env_entry_node) l2 :
  tbl = l1 ++ n :: l2 → i = Z.of_nat (length l1) → (used n ≠ USED_FREE ∨ 1 ≤ i) → l1 ≠ [].
Proof.
  intros Etbl -> Hn ->. pose proof (ok_zero _ _ Hok) as Hz. rewrite Etbl in Hz. cbn in Hz.
  injection Hz as ->. destruct Hn as [Hn|Hn]; [by destruct Hn|cbn in Hn; lia].
Qed.

Lemma lookup_contents i n k : arr_get tbl i = Some n → 0 < used n → key (entry n) = Some k →
  ∀ l1 l2, tbl = l1 ++ n :: l2 → k ∉ (contents l1 ++ contents l2).*1.
Proof.
  intros Hn Hu Hk l1 l2 Etbl. pose proof (ok_nodup _ _ Hok) as Hnd.
  rewrite Etbl, contents_middle, (used_entry_used n k) in Hnd by done.
  by inversion Hnd.
Qed.

Lemma list_to_map_contents l1 n l2 f :
  NoDup (contents (l1 ++ n :: l2)).*1 →
  vars (set_table h (Some (l1 ++ n :: l2)) f) =
  list_to_map (used_entry n ++ contents l1 ++ contents l2).
Proof. intros Hnd. apply list_to_map_proper; [done|]. apply contents_middle. Qed.

Lemma vars_table : vars h = list_to_map (contents tbl).
Proof. unfold vars. by rewrite (ok_table _ _ Hok). Qed.

Lemma size_vars : Z.of_nat (base.size (vars h)) = filled h.
Proof.
  rewrite vars_table, (ok_filled _ _ Hok). f_equal. apply map_size_list_to_map, Hok.
Qed.

Lemma filled_range : 0 ≤ filled h ≤ hsize h.
Proof.
  rewrite (ok_filled _ _ Hok). pose proof (ok_length _ _ Hok) as Hlen. pose proof (ok_zero _ _ Hok) as Hz.
  destruct tbl as [|n tl]; [done|]. injection Hz as ->. rewrite contents_cons.
  rewrite used_entry_unused by done. pose proof (length_contents tl). cbn in *. lia.
Qed.

(** The three changes: a new variable, a new value, a removal. *)
Lemma insert_ok t k e :
  free_slot h tbl k t → filled h ≠ hsize h → vars h !! k = None →
  key e = Some k → is_Some (data e) →
  ∃ tbl', arr_set tbl t {| used := first_hash k (hsize h); entry := e |} = Some tbl' ∧
    htab_ok (set_table h (Some tbl') (u32 (filled h + 1))) tbl' ∧
    vars (set_table h (Some tbl') (u32 (filled h + 1))) = <[k := e]> (vars h).
Proof.
  intros (n & Hn & Hu & Hb) Hfull Hk Hke Hd. pose proof filled_range. pose proof (ok_size _ _ Hok).
  pose proof (first_hash_range k (hsize h)) as Hr.
  assert (Ht : 1 ≤ t) by (destruct Hb as (j & _ & -> & _); apply pos_range; lia).
  set (n' := {| used := first_hash k (hsize h); entry := e |}).
  destruct (arr_set_ex tbl t n') as (l1 & y & l2 & Etbl & Et & Hy & ->).
  { apply arr_get_is_Some. by rewrite Hn. }
  assert (y = n) as -> by congruence. exists (l1 ++ n' :: l2). split; [done|].
  assert (Hue : used_entry n' = [(k, e)]) by (apply (used_entry_used n'); [cbn; lia|done]).
  assert (Evars : vars h = list_to_map (contents l1 ++ contents l2)).
  { rewrite vars_table. apply list_to_map_proper; [apply Hok|].
    by rewrite Etbl, contents_middle, used_entry_unused by done. }
  pose proof (ok_nodup _ _ Hok) as Hnd. pose proof (ok_filled _ _ Hok) as Hfl.
  rewrite Etbl, contents_middle, used_entry_unused in Hnd, Hfl by done. cbn [app] in *.
  assert (Hfresh : k ∉ (contents l1 ++ contents l2).*1).
  { apply not_elem_of_list_to_map. by rewrite <-Evars. }
  assert (Hok' : htab_ok (set_table h (Some (l1 ++ n' :: l2)) (u32 (filled h + 1))) (l1 ++ n' :: l2)).
  { apply (replace_ok l1 n l2); [done| |cbn; unfold USED_FREE; lia| | | |].
    - apply (nonempty_before t l1 n l2); [done..|by right].
    - right. right. exists k. done.
    - intros _. by rewrite <-Et.
    - rewrite Hue. cbn. by constructor.
    - rewrite Hue. cbn [app length]. rewrite wrap_small; lia. }
  split; [done|]. rewrite list_to_map_contents by apply Hok'. by rewrite Hue, Evars.
Qed.

Lemma overwrite_ok i n k e :
  arr_get tbl i = Some n → 0 < used n → key (entry n) = Some k →
  key e = Some k → is_Some (data e) →
  ∃ tbl', arr_set tbl i {| used := used n; entry := e |} = Some tbl' ∧
    htab_ok (set_table h (Some tbl') (filled h)) tbl' ∧
    vars (set_table h (Some tbl') (filled h)) = <[k := e]> (vars h).
Proof.
  intros Hn Hu Hk Hke Hd. set (n' := {| used := used n; entry := e |}).
  destruct (arr_set_ex tbl i n') as (l1 & y & l2 & Etbl & Ei & Hy & ->).
  { apply arr_get_is_Some. by rewrite Hn. }
  assert (y = n) as -> by congruence. exists (l1 ++ n' :: l2). split; [done|].
  assert (Hue : used_entry n' = [(k, e)]) by by apply (used_entry_used n').
  pose proof (lookup_contents i n k Hn Hu Hk l1 l2 Etbl) as Hfresh.
  pose proof (ok_nodup _ _ Hok) as Hnd. pose proof (ok_filled _ _ Hok) as Hfl.
  rewrite Etbl, contents_middle, (used_entry_used n k) in Hnd, Hfl by done. cbn [app] in *.
  assert (Hok' : htab_ok (set_table h (Some (l1 ++ n' :: l2)) (filled h)) (l1 ++ n' :: l2)).
  { apply (replace_ok l1 n l2); [done| |cbn; unfold USED_FREE; lia| | | |].
    - apply (nonempty_before i l1 n l2); [done..|]. left. unfold USED_FREE. lia.
    - right. right. exists k. split; [done|]. split; [done|]. cbn.
      destruct (get_slot_ok i n Hn) as [?|[?|(k' & ? & _ & ->)]];
        [unfold USED_FREE, USED_DELETED in *; lia..|]. by assert (k' = k) as -> by congruence.
    - intros _. rewrite <-Ei. cbn. by apply (ok_probes _ _ Hok i n).
    - rewrite Hue. cbn. constructor; [done|]. by inversion Hnd.
    - rewrite Hue. done. }
  split; [done|]. rewrite list_to_map_contents by apply Hok'.
  rewrite Hue, vars_table, Etbl.
  rewrite (list_to_map_proper (contents (l1 ++ n :: l2)) ((k, entry n) :: contents l1 ++ contents l2)).
  - cbn. by rewrite insert_insert_eq.
  - rewrite <-Etbl. apply Hok.
  - by rewrite contents_middle, (used_entry_used n k).
Qed.

Lemma hdelete_ok i n k :
  arr_get tbl i = Some n → 0 < used n → key (entry n) = Some k →
  ∃ h' tbl', _hdelete h tbl i = Some h' ∧ htab_ok h' tbl' ∧
    vars h' = delete k (vars h) ∧ hsize h' = hsize h.
Proof.
  intros Hn Hu Hk. set (n' := {| used := USED_DELETED; entry := free_entry |}).
  destruct (arr_set_ex tbl i n') as (l1 & y & l2 & Etbl & Ei & Hy & Hset).
  { apply arr_get_is_Some. by rewrite Hn. }
  assert (y = n) as -> by congruence. unfold _hdelete. fold n'. rewrite Hn. cbn. rewrite Hset. cbn.
  eexists _, (l1 ++ n' :: l2). split; [done|].
  pose proof (lookup_contents i n k Hn Hu Hk l1 l2 Etbl) as Hfresh.
  pose proof filled_range. pose proof (ok_size _ _ Hok).
  pose proof (ok_nodup _ _ Hok) as Hnd. pose proof (ok_filled _ _ Hok) as Hfl.
  rewrite Etbl, contents_middle, (used_entry_used n k) in Hnd, Hfl by done. cbn [app length] in *.
  assert (Hok' : htab_ok (set_table h (Some (l1 ++ n' :: l2)) (u32 (filled h - 1))) (l1 ++ n' :: l2)).
  { apply (replace_ok l1 n l2); [done| |done| |done| |].
    - apply (nonempty_before i l1 n l2); [done..|]. left. unfold USED_FREE. lia.
    - right. by left.
    - cbn. by inversion Hnd.
    - cbn [used_entry app]. rewrite wrap_small; cbn; lia. }
  split; [done|]. split; [|done]. rewrite list_to_map_contents by apply Hok'.
  rewrite vars_table, Etbl.
  rewrite (list_to_map_proper (contents (l1 ++ n :: l2)) ((k, entry n) :: contents l1 ++ contents l2)).
  - cbn. rewrite delete_insert_id; [done|]. by apply not_elem_of_list_to_map_1.
  - rewrite <-Etbl. apply Hok.
  - by rewrite contents_middle, (used_entry_used n k).
Qed.
End update.

(** ** The table implements the map *)

Section refinement.
Context `{!EnvHooks} (strdup_ok : ∀ s, is_Some (strdup s)).
Implicit Types (h : hsearch_data) (tbl : list env_entry_node).

Lemma strdup_some s : strdup s = Some s.
Proof. destruct (strdup_ok s) as [s' E]. by rewrite E, (strdup_same _ _ E). Qed.

(** The table after a request has the variables [M] and the size it had. *)
Definition table_for h (M : gmap str env_entry) h' : Prop :=
  vars h' = M ∧ hsize h' = hsize h ∧ ∃ tbl', htab_ok h' tbl'.

Lemma find_spec h tbl k : htab_ok h tbl →
  match vars h !! k with
  | Some e => ∃ i n, hsearch_r k None ENV_FIND h 0 =
        Some {| ret := i; retval := Some i; errno := None; htab_after := h |} ∧
      i ≠ 0 ∧ arr_get tbl i = Some n ∧ 0 < used n ∧ key (entry n) = Some k ∧ entry n = e
  | None => hsearch_r k None ENV_FIND h 0 = Some (fail ESRCH h)
  end.
Proof.
  intros Hok. unfold hsearch_r. rewrite (ok_table _ _ Hok). cbn.
  destruct (hsearch_slot_spec h tbl Hok k None ENV_FIND 0) as ([[idx fd]|r] & -> & Hspec).
  - destruct Hspec as [-> _]. done.
  - destruct Hspec as (i & n & Hn & Hma & Hr). rewrite (matches_lookup h tbl Hok k i n) by done.
    injection Hr as <-. exists i, n. destruct Hma as [Hu Hk].
    pose proof (hval_range h tbl Hok k). split; [done|]. split_and!; try done; [|lia].
    intros ->. pose proof (ok_zero _ _ Hok) as Hz. apply arr_get_Some in Hn as [_ Hn].
    destruct tbl; [done|]. cbn in *. injection Hz as ->. injection Hn as <-. cbn in Hu. unfold USED_FREE in *. lia.
Qed.

Lemma enter_old h tbl k d flag i n : htab_ok h tbl →
  arr_get tbl i = Some n → 0 < used n → key (entry n) = Some k →
  ∃ r a, overwrite k (Some d) ENV_ENTER h tbl flag i n = Some r ∧ read_result r = Some a ∧
    match check_change (entry n) k (Some d) env_op_overwrite flag with
    | Some err => a = Error err ∧ htab_after r = h
    | None => a = Found (set_data (entry n) (Some d)) ∧
        table_for h (<[k := set_data (entry n) (Some d)]> (vars h)) (htab_after r)
    end.
Proof.
  intros Hok Hn Hu Hk. unfold overwrite.
  destruct (check_change _ _ _ _ _) as [err|]; [by eexists _, _|].
  rewrite strdup_some.
  destruct (overwrite_ok h tbl Hok i n k (set_data (entry n) (Some d))) as (tbl' & Hset & Hok' & Hv);
    [done..|]. rewrite Hset. cbn. eexists _, _. split; [done|]. unfold read_result. cbn.
  rewrite (arr_get_set _ _ _ _ _ Hset), Z.eqb_refl. cbn. do 2 (split; [done|]). by split_and!; eauto.
Qed.

Lemma create_spec h tbl k d flag t : htab_ok h tbl →
  free_slot h tbl k t → filled h ≠ hsize h → vars h !! k = None →
  ∃ r a, hsearch_create k (Some d) h tbl flag (first_hash k (hsize h)) t = Some r ∧
    read_result r = Some a ∧
    match check_change (new_entry k d) k (Some d) env_op_create flag with
    | Some err => a = Error err ∧ table_for h (vars h) (htab_after r)
    | None => a = Found (new_entry k d) ∧ table_for h (<[k := new_entry k d]> (vars h)) (htab_after r)
    end.
Proof.
  intros Hok Ht Hfull Hk. unfold hsearch_create. rewrite !strdup_some. fold (new_entry k d).
  destruct (insert_ok h tbl Hok t k (new_entry k d)) as (tbl' & Hset & Hok' & Hv); [done..|].
  rewrite Hset. cbn. pose proof (arr_get_set _ _ _ _ t Hset) as Hget. rewrite Z.eqb_refl in Hget.
  destruct (check_change _ _ _ _ _) as [err|].
  - destruct (hdelete_ok _ _ Hok' t _ k Hget) as (h' & tbl2 & Hdel & Hok2 & Hv2 & Hs2); [|done|].
    { cbn. pose proof (first_hash_range k (hsize h)). pose proof (ok_size _ _ Hok). lia. }
    rewrite Hdel. cbn. eexists _, _. split; [done|]. split; [done|]. split; [done|].
    split_and!; [|done|by eauto]. cbn. rewrite Hv2, Hv. by apply delete_insert_id.
  - eexists _, _. split; [done|]. unfold read_result. cbn. rewrite Hget. cbn.
    do 2 (split; [done|]). by split_and!; eauto.
Qed.

(** One request. *)
Lemma table_step_spec h tbl q : htab_ok h tbl →
  ∃ h' a, table_step h q = Some (h', a) ∧
    table_for h (map_step (Z.to_nat (hsize h)) (vars h) q).1 h' ∧
    a = (map_step (Z.to_nat (hsize h)) (vars h) q).2.
Proof.
  intros Hok. assert (Hself : table_for h (vars h) h) by (split_and!; eauto).
  destruct q as [k|k d flag|k flag]; cbn [table_step map_step].
  - pose proof (find_spec h tbl k Hok) as Hf. destruct (vars h !! k) as [e|].
    + destruct Hf as (i & n & -> & _ & Hn & _ & _ & <-). unfold read_result. cbn.
      rewrite (ok_table _ _ Hok). cbn. rewrite Hn. cbn. eauto.
    + rewrite Hf. cbn. eauto.
  - unfold hsearch_r. rewrite (ok_table _ _ Hok). cbn.
    destruct (hsearch_slot_spec h tbl Hok k (Some d) ENV_ENTER flag) as ([[idx fd]|r] & -> & Hspec).
    + destruct Hspec as [Hk Hfree]. cbn. rewrite Hk.
      pose proof (size_vars h tbl Hok) as Hsz. pose proof (ok_size _ _ Hok).
      destruct (Z.eqb_spec (filled h) (hsize h)) as [Hfull|Hfull]; case_decide; try lia.
      * cbn. eauto.
      * destruct (create_spec h tbl k d flag _ Hok (Hfree Hfull) Hfull Hk) as (r & a & -> & Ha & Hres).
        cbn. rewrite Ha. cbn. destruct (check_change _ _ _ _ _), Hres as [-> Hres]; eauto.
    + destruct Hspec as (i & n & Hn & Hma & Hr). cbn.
      rewrite (matches_lookup h tbl Hok k i n Hn Hma). destruct Hma as [Hu Hk].
      pose proof (hval_range h tbl Hok k).
      destruct (enter_old h tbl k d flag i n Hok Hn) as (r' & a & Hr' & Ha & Hres); [lia|done|].
      rewrite Hr in Hr'. injection Hr' as <-. rewrite Ha. cbn.
      destruct (check_change _ _ _ _ _), Hres as [-> Hres]; [rewrite Hres|]; eauto.
  - unfold hdelete_r. pose proof (find_spec h tbl k Hok) as Hf. destruct (vars h !! k) as [e|].
    + destruct Hf as (i & n & -> & Hi & Hn & Hu & Hk & <-). cbn.
      rewrite (proj2 (Z.eqb_neq _ _) Hi), (ok_table _ _ Hok). cbn. rewrite Hn. cbn.
      destruct (check_change _ _ _ _ _); [cbn; eauto|].
      destruct (hdelete_ok h tbl Hok i n k) as (h' & tbl' & -> & Hok' & Hv & Hs); [done..|].
      cbn. eexists _, _. split; [done|]. split; [|done]. split_and!; eauto.
    + rewrite Hf. cbn. eauto.
Qed.

Lemma table_run_spec h tbl qs : htab_ok h tbl →
  ∃ h' tbl', table_run h qs = Some (h', (map_run (Z.to_nat (hsize h)) (vars h) qs).2) ∧
    htab_ok h' tbl' ∧ vars h' = (map_run (Z.to_nat (hsize h)) (vars h) qs).1.
Proof.
  revert h tbl. induction qs as [|q qs IH]; intros h tbl Hok; [by exists h, tbl|].
  cbn. destruct (table_step_spec h tbl q Hok) as (h1 & a & -> & (Hv & Hs & tbl1 & Hok1) & ->).
  destruct (IH h1 tbl1 Hok1) as (h2 & tbl2 & Hrun & Hok2 & Hv2). cbn. rewrite Hrun. cbn.
  exists h2, tbl2. rewrite Hv2, Hs, Hv. split; [|split; [done|]];
    destruct (map_step _ _ _) as [M a]; cbn; by destruct (map_run _ M qs).
Qed.

(** C1. Refinement: with memory for the copies, every sequence of searches,
    entries and removals runs on a well formed table, gives the answers of a
    finite map of names to entries bounded by the size of the table - with the
    error of each rejected change - and leaves a well formed table of the final
    map's variables. *)
Theorem hashtable_refines_map h tbl qs : htab_ok h tbl →
  ∃ h' tbl', table_run h qs = Some (h', (map_run (Z.to_nat (hsize h)) (vars h) qs).2) ∧
    htab_ok h' tbl' ∧ vars h' = (map_run (Z.to_nat (hsize h)) (vars h) qs).1.
Proof. apply table_run_spec. Qed.
End refinement.

(** ** Creation and walks *)

Section walks.
Context `{!EnvHooks}.
Implicit Types (h : hsearch_data) (tbl : list env_entry_node).

Lemma contents_free m : contents (replicate m free_node) = [].
Proof. induction m as [|m IH]; [done|]. cbn [replicate]. rewrite contents_cons. by rewrite IH. Qed.

Lemma fresh_ok p : prime p → 5 ≤ p < 2 ^ 31 →
  let h := {| table := Some (replicate (Z.to_nat (p + 1)) free_node); hsize := p; filled := 0 |} in
  (∃ tbl, htab_ok h tbl) ∧ vars h = ∅.
Proof.
  intros Hp Hr. split; [|unfold vars; cbn [table]; by rewrite contents_free].
  exists (replicate (Z.to_nat (p + 1)) free_node).
  split; cbn [table hsize filled]; rewrite ?contents_free; try done.
  - rewrite length_replicate. lia.
  - by replace (Z.to_nat (p + 1)) with (S (Z.to_nat p)) by lia.
  - apply Forall_replicate. by left.
  - intros i n [_ Hn]%arr_get_Some Hu. apply lookup_replicate in Hn as [-> _]. done.
  - constructor.
Qed.

Lemma hcreate_spec fuel nel P h :
  2 ≤ nel → prime P → Z.max nel 5 ≤ P < 2 ^ 31 → (Z.to_nat P < fuel)%nat →
  ∃ r h', hcreate_r fuel nel (Some h) = Some (r, Some h', None) ∧
    match table h with
    | Some _ => r = 0 ∧ h' = h
    | None =>
        prime (hsize h') ∧ Z.max nel 5 ≤ hsize h' ≤ P ∧
        (∀ q, prime q → Z.max nel 5 ≤ q → hsize h' ≤ q) ∧
        if calloc_ok (hsize h' + 1) then r = 1 ∧ (∃ tbl, htab_ok h' tbl) ∧ vars h' = ∅
        else r = 0 ∧ table h' = None
    end.
Proof.
  intros Hnel HP Hmax Hfuel. unfold hcreate_r. destruct (table h) as [tbl|]; [by exists 0, h|].
  destruct (next_prime_spec nel P fuel Hnel HP Hmax Hfuel) as (p & -> & Hp & Hr & Hmin).
  cbn. word_small. destruct (calloc_ok (p + 1)) eqn:Hc; (eexists _, _; split; [done|]);
    (split; [done|]; split; [done|]; split; [done|]); cbn [hsize]; rewrite Hc.
  - split; [done|]. by apply fresh_ok; [|lia].
  - done.
Qed.

(** Termination: whatever prime [P] there is from the requested size on,
    the search for a size ends within [P] steps; the table has the smallest
    prime size from 5 and the request on, is well formed and empty.  Without
    memory, 0 is returned and there is no table; a table in use is kept. *)
Theorem hcreate_correct fuel nel P h :
  2 ≤ nel → prime P → Z.max nel 5 ≤ P < 2 ^ 31 → (Z.to_nat P < fuel)%nat →
  ∃ r h', hcreate_r fuel nel (Some h) = Some (r, Some h', None) ∧
    match table h with
    | Some _ => r = 0 ∧ h' = h
    | None =>
        prime (hsize h') ∧ Z.max nel 5 ≤ hsize h' ≤ P ∧
        (∀ q, prime q → Z.max nel 5 ≤ q → hsize h' ≤ q) ∧
        if calloc_ok (hsize h' + 1) then r = 1 ∧ (∃ tbl, htab_ok h' tbl) ∧ vars h' = ∅
        else r = 0 ∧ table h' = None
    end.
Proof. apply hcreate_spec. Qed.

(** hwalk_r visits every variable: it returns 0 only when the function
    answers 0 for all of them, and otherwise the answer for one of them. *)
Theorem hwalk_correct h tbl (f : env_entry → Z) : htab_ok h tbl →
  ∃ r, hwalk_r h f = Some r ∧
    (r = 0 → ∀ k e, vars h !! k = Some e → f e = 0) ∧
    (r ≠ 0 → ∃ k e, vars h !! k = Some e ∧ f e = r).
Proof.
  intros Hok. unfold hwalk_r. rewrite (ok_table _ _ Hok). cbn [mbind option_bind].
  pose proof (ok_length _ _ Hok) as Hlen. pose proof (ok_size _ _ Hok).
  loop_ix (Z.to_nat (hsize h)) (λ (m : nat) i, Z.of_nat m = hsize h - i + 1 ∧ 1 ≤ i ∧
      ∀ i' n, 1 ≤ i' < i → arr_get tbl i' = Some n → 0 < used n → f (entry n) = 0)
    (λ o : Z + Z, match o with
          | inl _ => ∀ k e, vars h !! k = Some e → f e = 0
          | inr r => r ≠ 0 ∧ ∃ k e, vars h !! k = Some e ∧ f e = r end).
  - intros m i (Hm & Hi & Hall). destruct (Z.leb_spec i (hsize h)).
    + destruct (arr_get_ex tbl i) as [n Hn]; [lia|]. rewrite Hn. cbn.
      destruct (Z.ltb_spec 0 (used n)); [destruct (Z.eqb_spec (f (entry n)) 0) as [Ef|Ef]; cbn|];
        (eexists; split; [done|]).
      2: { split; [done|]. destruct (get_slot_ok h tbl Hok i n Hn) as [?|[?|(k & Hk & _)]];
             [unfold USED_FREE, USED_DELETED in *; lia..|].
           exists k, (entry n). split; [|done]. apply (vars_lookup_ok h tbl Hok). by exists i, n. }
      all: exists (m - 1)%nat; split; [lia|]; split; [lia|]; split; [lia|]; intros i' n' Hi' Hn' Hu';
        (destruct (Z.eq_dec i' i) as [->|]; [assert (n' = n) as -> by congruence; (done || lia)|apply (Hall i'); [lia|done..]]).
    + eexists. split; [done|]. intros k e (i' & n & Hn & Hu & _ & <-)%(vars_lookup_ok h tbl Hok).
      apply (Hall i' n); [|done..].
      assert (Hi' : 0 ≤ i' < Z.of_nat (length tbl)) by (apply arr_get_is_Some; by rewrite Hn).
      destruct (Z.eq_dec i' 0) as [->|]; [|lia]. pose proof (ok_zero _ _ Hok) as Hz.
      apply arr_get_Some in Hn as [_ Hn]. destruct tbl; [done|]. injection Hz as ->. by injection Hn as <-.
  - split; [lia|]. split; [lia|]. lia.
  - lia.
  - destruct st as [i|r]; cbn; eexists; (split; [done|]); [done|]. by destruct HQ.
Qed.

Lemma is_prefix_spec (m k : str) : is_prefix m k = true ↔ m `prefix_of` k.
Proof.
  unfold is_prefix. rewrite bool_decide_eq_true. split.
  - intros E. exists (drop (length m) k). by rewrite <-E at 1; rewrite take_drop.
  - intros [k' ->]. by rewrite take_app_length.
Qed.

(** The variable in slot [i] starts with [m]. *)
Definition slot_hit tbl (m : str) (i : Z) : Prop :=
  ∃ n k, arr_get tbl i = Some n ∧ 0 < used n ∧ key (entry n) = Some k ∧ m `prefix_of` k.

(** hmatch_r finds the first variable after [last_idx] whose name starts
    with the pattern, among all slots but the last one, and gives 0 when there
    is none. *)
Theorem hmatch_correct h tbl m last_idx : htab_ok h tbl → 0 ≤ last_idx →
  ∃ r, hmatch_r m last_idx h = Some r ∧
    ((r = 0 ∧ ∀ i, last_idx < i < hsize h → ¬ slot_hit tbl m i) ∨
     (last_idx < r < hsize h ∧ slot_hit tbl m r ∧ ∀ i, last_idx < i < r → ¬ slot_hit tbl m i)).
Proof.
  intros Hok Hlast. unfold hmatch_r. rewrite (ok_table _ _ Hok). cbn [mbind option_bind].
  pose proof (ok_length _ _ Hok) as Hlen. pose proof (ok_size _ _ Hok).
  loop_ix (Z.to_nat (hsize h - last_idx)) (λ (c : nat) i,
      Z.of_nat c = Z.max 0 (hsize h - i + 1) ∧ last_idx < i ∧
      ∀ i', last_idx < i' < i → ¬ slot_hit tbl m i')
    (λ o : Z + Z, match o with
          | inl _ => ∀ i, last_idx < i < hsize h → ¬ slot_hit tbl m i
          | inr r => last_idx < r < hsize h ∧ slot_hit tbl m r ∧ ∀ i, last_idx < i < r → ¬ slot_hit tbl m i end).
  - intros c i (Hc & Hi & Hall). destruct (Z.ltb_spec i (hsize h)).
    + destruct (arr_get_ex tbl i) as [n Hn]; [lia|]. rewrite Hn. cbn.
      assert (Hnext : ¬ slot_hit tbl m i → ∀ i', last_idx < i' < i + 1 → ¬ slot_hit tbl m i').
      { intros Hno i' Hi'. destruct (Z.eq_dec i' i) as [->|]; [done|]. apply Hall. lia. }
      destruct (Z.leb_spec (used n) 0).
      * eexists. split; [done|]. exists (c - 1)%nat. split; [lia|]. split; [lia|]. split; [lia|].
        apply Hnext. intros (n' & k & Hn' & Hu' & _). assert (n' = n) as -> by congruence. lia.
      * destruct (get_slot_ok h tbl Hok i n Hn) as [?|[?|(k & Hk & _)]];
          [unfold USED_FREE, USED_DELETED in *; lia..|]. rewrite Hk. cbn.
        destruct (is_prefix m k) eqn:E; (eexists; split; [done|]).
        -- split; [lia|]. split; [|done]. exists n, k. by rewrite <-is_prefix_spec.
        -- exists (c - 1)%nat. split; [lia|]. split; [lia|]. split; [lia|]. apply Hnext.
           intros (n' & k' & Hn' & _ & Hk' & Hp). assert (n' = n) as -> by congruence.
           assert (k' = k) as -> by congruence. apply is_prefix_spec in Hp. congruence.
    + eexists. split; [done|]. intros i' Hi'. apply Hall. lia.
  - split; [lia|]. split; [lia|]. lia.
  - lia.
  - destruct st as [i|r]; cbn; (eexists; split; [done|]); [by left|by right].
Qed.
End walks.

(** ** Examples *)

(** A read-only variable "ro", and one whose callback refuses the value "x". *)
Definition some_hooks : EnvHooks := {|
  change_ok := Some (λ e d op flag, bool_decide (key e = Some [114; 111] ∧ op = env_op_overwrite));
  run_callback := λ cb k d op flag, bool_decide (d = Some [120]);
  env_callback_init := λ k, if bool_decide (k = [99]) then Some 7 else None;
  env_flags_init := λ k, 0;
  strdup := Some;
  strdup_same := λ s s' H, eq_sym (Some_inj s s' H);
  calloc_ok := λ n, true;
  malloc_ok := λ n, true
|}.

Definition no_memory : EnvHooks := {|
  change_ok := None;
  run_callback := λ cb k d op flag, false;
  env_callback_init := λ k, None;
  env_flags_init := λ k, 0;
  strdup := λ s, None;
  strdup_same := λ s s' H, match H in _ = o return match o with Some _ => s' = s | None => True end with eq_refl => I end;
  calloc_ok := λ n, false;
  malloc_ok := λ n, false
|}.

Definition fresh_table (p : Z) : hsearch_data :=
  {| table := Some (replicate (Z.to_nat (p + 1)) free_node); hsize := p; filled := 0 |}.

Lemma prime_5 : prime 5.
Proof. destruct (isprime_correct 5) as (b & Hb & H); [lia|done|]. vm_compute in Hb. injection Hb as <-. by apply H. Qed.

Lemma fresh_table_5 : htab_ok (fresh_table 5) (replicate 6 free_node).
Proof.
  destruct (fresh_ok 5 prime_5) as [[tbl Hok] _]; [lia|].
  pose proof (ok_table _ _ Hok) as E. injection E as <-. exact Hok.
Qed.

Definition some_requests : list request :=
  [Enter [97] [49] 0; Enter [98] [50] 0; Enter [97] [51] 0; Enter [114; 111] [48] 0;
   Enter [114; 111] [49] 0; Enter [99] [120] 0; Find [97]; Delete [98] 0; Find [98]].

Lemma hashtable_refines_map_witness :
  ∃ h' tbl', @table_run some_hooks (fresh_table 5) some_requests =
      Some (h', (@map_run some_hooks (Z.to_nat (hsize (fresh_table 5))) (vars (fresh_table 5)) some_requests).2) ∧
    htab_ok h' tbl' ∧
    vars h' = (@map_run some_hooks (Z.to_nat (hsize (fresh_table 5))) (vars (fresh_table 5)) some_requests).1.
Proof.
  apply (@hashtable_refines_map some_hooks) with (tbl := replicate 6 free_node).
  - intros s. by exists s.
  - exact fresh_table_5.
Defined.

(** The answers are those of the run. *)
Example some_answers :
  option_map snd (@table_run some_hooks (fresh_table 5) some_requests) =
  Some [Found (@new_entry some_hooks [97] [49]); Found (@new_entry some_hooks [98] [50]);
        Found (@new_entry some_hooks [97] [51]); Found (@new_entry some_hooks [114; 111] [48]);
        Error EPERM; Error EINVAL; Found (@new_entry some_hooks [97] [51]); Removed; Error ESRCH].
Proof. vm_compute. reflexivity. Qed.

Lemma prime_11 : prime 11.
Proof. destruct (isprime_correct 11) as (b & Hb & H); [lia|done|]. vm_compute in Hb. injection Hb as <-. by apply H. Qed.

Definition no_table : hsearch_data := {| table := None; hsize := 0; filled := 0 |}.

Lemma hcreate_correct_witness :
  ∃ r h', @hcreate_r some_hooks 30 8 (Some no_table) = Some (r, Some h', None) ∧
    match table no_table with
    | Some _ => r = 0 ∧ h' = no_table
    | None =>
        prime (hsize h') ∧ Z.max 8 5 ≤ hsize h' ≤ 11 ∧
        (∀ q, prime q → Z.max 8 5 ≤ q → hsize h' ≤ q) ∧
        if @calloc_ok some_hooks (hsize h' + 1) then r = 1 ∧ (∃ tbl, htab_ok h' tbl) ∧ vars h' = ∅
        else r = 0 ∧ table h' = None
    end.
Proof. apply (@hcreate_correct some_hooks 30 8 11 no_table); [lia|exact prime_11|lia|lia]. Defined.

Lemma hwalk_correct_witness :
  ∃ r, hwalk_r (fresh_table 5) flags = Some r ∧
    (r = 0 → ∀ k e, vars (fresh_table 5) !! k = Some e → flags e = 0) ∧
    (r ≠ 0 → ∃ k e, vars (fresh_table 5) !! k = Some e ∧ flags e = r).
Proof. exact (hwalk_correct (fresh_table 5) (replicate 6 free_node) flags fresh_table_5). Defined.

Lemma hmatch_correct_witness :
  ∃ r, hmatch_r [97] 0 (fresh_table 5) = Some r ∧
    ((r = 0 ∧ ∀ i, 0 < i < hsize (fresh_table 5) → ¬ slot_hit (replicate 6 free_node) [97] i) ∨
     (0 < r < hsize (fresh_table 5) ∧ slot_hit (replicate 6 free_node) [97] r ∧
      ∀ i, 0 < i < r → ¬ slot_hit (replicate 6 free_node) [97] i)).
Proof.
  apply (hmatch_correct (fresh_table 5) (replicate 6 free_node) [97] 0); [exact fresh_table_5|lia].
Defined.

(** hmatch_r does not look at the last slot of the table. *)
Example hmatch_last_slot :
  (r ← @table_run some_hooks (fresh_table 5)
     [Enter [97] [49] 0; Enter [98] [50] 0; Enter [97; 97] [49] 0; Enter [100; 101] [50] 0;
      Enter [102; 103] [50] 0];
   found ← @table_run some_hooks r.1 [Find [102; 103]];
   idx ← hmatch_r [102; 103] 0 r.1;
   Some (found.2, idx)) =
  Some ([Found (@new_entry some_hooks [102; 103] [50])], 0).
Proof. vm_compute. reflexivity. Qed.

(** When the copies fail, the slot stays used without a key: the next search
    for a name of the same hash compares with NULL. *)
Example hsearch_no_memory :
  match @hsearch_r no_memory [97] (Some [49]) ENV_ENTER (fresh_table 5) 0 with
  | Some r => errno r = Some ENOMEM ∧ filled (htab_after r) = 0 ∧
      @hsearch_r no_memory [97] None ENV_FIND (htab_after r) 0 = None
  | None => False
  end.
Proof. vm_compute. done. Qed.
