(* ===== verification/EnvText.v ===== *)
(** * EnvText: the environment as text (lib/hashtable.c, hexport_r and
    himport_r)

    A list of "name=value" entries, each ended by a separator, is written from
    the table and read back into it.  [himport_r] works on a copy of the text
    in which it cuts out the names and values, always behind the position
    [dp] it reads at; the model keeps the characters from [dp] on, the last of
    which is the terminator that the copy gets, and builds the names and values
    as lists.  Regular expressions are the class [Regex]. *)

From Stdlib Require Import ZArith Lia List Znumtheory Permutation.
From stdpp Require Import base numbers list option gmap sets.
From S2P Require Import Prelude Qsort Hashtable.

(** What [match_entry] needs of lib/slre.c. *)
Class Regex := {
  slre : Type;
  slre_compile : str → option slre;
  slre_match : slre → str → bool
}.

Definition H_NOCLEAR : Z := Z.shiftl 1 0.
Definition H_HIDE_DOT : Z := Z.shiftl 1 3.
Definition H_MATCH_KEY : Z := Z.shiftl 1 4.
Definition H_MATCH_DATA : Z := Z.shiftl 1 5.
Definition H_MATCH_IDENT : Z := Z.shiftl 1 6.
Definition H_MATCH_SUBSTR : Z := Z.shiftl 1 7.
Definition H_MATCH_REGEX : Z := Z.shiftl 1 8.
Definition H_MATCH_METHOD : Z := Z.lor (Z.lor H_MATCH_IDENT H_MATCH_SUBSTR) H_MATCH_REGEX.

Definition has_flag (flag m : Z) : bool := negb (Z.land flag m =? 0).

Definition CONFIG_ENV_MIN_ENTRIES : Z := 64.
Definition CONFIG_ENV_MAX_ENTRIES : Z := 512.

(** ** Export *)

(** strcmp on the characters of two strings: the difference is kept in a
    signed char. *)
Fixpoint strcmp (a b : str) : Z :=
  match a with
  | [] => swrap 8 (0 - default 0 (head b))
  | c :: a =>
      let res := swrap 8 (c - default 0 (head b)) in
      if negb (res =? 0) then res else strcmp a (tail b)
  end.

Definition cmpkey (e1 e2 : str * str) : Z := strcmp e1.1 e2.1.

Fixpoint contains (s pat : str) : bool :=
  is_prefix pat s || match s with [] => false | _ :: s => contains s pat end.

Section export.
Context `{!EnvHooks, !Regex}.

Definition match_string (flag : Z) (s pat : str) (priv : slre) : bool :=
  let m := Z.land flag H_MATCH_METHOD in
  if m =? H_MATCH_IDENT then strcmp s pat =? 0
  else if m =? H_MATCH_SUBSTR then contains s pat
  else if m =? H_MATCH_REGEX then slre_match priv s
  else false.

Fixpoint match_entry (e : str * str) (flag : Z) (argv : list str) : bool :=
  match argv with
  | [] => false
  | arg :: argv =>
      match slre_compile arg with
      | None => false
      | Some priv =>
          if has_flag flag H_MATCH_KEY && match_string flag e.1 arg priv then true
          else if has_flag flag H_MATCH_DATA && match_string flag e.2 arg priv then true
          else match_entry e flag argv
      end
  end.

(** The entries of the used slots: the key and the value, which must be there. *)
Definition used_entries (htab : hsearch_data) : option (list (str * str)) :=
  tbl ← table htab;
  mapM (λ n, k ← key (entry n); d ← data (entry n); Some (k, d))
    (filter (λ n, 0 < used n) (take (Z.to_nat (hsize htab)) (drop 1 tbl))).

Definition selected (flag : Z) (argv : list str) (e : str * str) : bool :=
  if negb (Z.of_nat (length argv) =? 0) && negb (match_entry e flag argv) then false
  else negb (has_flag flag H_HIDE_DOT && bool_decide (head e.1 = Some 46)).

Definition escaped (sep c : Z) : bool := (c =? sep) || (c =? 92).

Definition entry_size (sep : Z) (e : str * str) : Z :=
  Z.of_nat (length e.1) +
  (if sep =? 0 then Z.of_nat (length e.2)
   else foldr (λ c n, (if escaped sep c then 2 else 1) + n) 0 e.2) + 2.

Definition total_length (sep : Z) (l : list (str * str)) : Z :=
  u32 (foldr (λ e n, entry_size sep e + n) 0 l).

Definition escape (sep : Z) (d : str) : list Z :=
  d ≫= λ c, if escaped sep c then [92; c] else [c].

Definition export_entry (sep : Z) (e : str * str) : list Z :=
  e.1 ++ [61] ++ escape sep e.2 ++ [sep].

(** The buffer [*resp] has as many bytes as the list; the result is the
    returned number, [errno] and the buffer. *)
Definition hexport_r (htab : option hsearch_data) (sep flag : Z) (resp : option (option (list Z)))
    (size : Z) (argv : list str) : option (Z * option Z * option (list Z)) :=
  h ← htab;
  match resp with
  | None => Some (-1, Some EINVAL, None)
  | Some buf =>
      l ← used_entries h;
      let l := filter (λ e, selected flag argv e) l in
      let totlen := total_length sep l in
      l ← qsort cmpkey l;
      if negb (size =? 0) && (size <? u32 (totlen + 1)) then Some (-1, Some ENOMEM, buf)
      else
        let size := if size =? 0 then u32 (totlen + 1) else size in
        let res :=
          match buf with
          | Some b =>
              if size <=? Z.of_nat (length b)
              then Some (Some (replicate (Z.to_nat size) 0 ++ drop (Z.to_nat size) b)) else None
          | None => Some (if calloc_ok size then Some (replicate (Z.to_nat size) 0) else None)
          end in
        res ← res;
        match res with
        | None => Some (-1, Some ENOMEM, None)
        | Some res =>
            let text := (l ≫= export_entry sep) ++ [0] in
            if Z.of_nat (length text) <=? Z.of_nat (length res)
            then Some (size, None, Some (text ++ drop (length text) res)) else None
        end
  end.
End export.

(** ** Import *)

Definition isblank (c : Z) : bool := (c =? 32) || (c =? 9).

(** The characters up to the end, without those CR that an LF follows. *)
Fixpoint strip_crs (l : list Z) : list Z :=
  match l with
  | [] => []
  | c :: l =>
      if c =? 0 then []
      else
        match l with
        | d :: _ => if (c =? 13) && (d =? 10) then strip_crs l else c :: strip_crs l
        | [] => [c]
        end
  end.

Fixpoint text_length (l : list Z) : nat :=
  match l with
  | [] => 0
  | c :: l => if c =? 0 then 0 else S (text_length l)
  end.

(** The text moves to the front of the buffer; what follows stays. *)
Definition remove_crs (env : list Z) : list Z * nat :=
  let kept := strip_crs env in
  (kept ++ drop (length kept) (env ++ [0]), (text_length env - length kept)%nat).

Fixpoint skip_blanks (l : list Z) : option (list Z) :=
  match l with
  | [] => None
  | c :: l' => if isblank c then skip_blanks l' else Some l
  end.

Fixpoint skip_comment (sep : Z) (l : list Z) : option (list Z) :=
  match l with
  | [] => None
  | c :: l => if (c =? 0) || (c =? sep) then Some l else skip_comment sep l
  end.

Fixpoint parse_name (sep : Z) (l : list Z) : option (str * list Z) :=
  match l with
  | [] => None
  | c :: l' =>
      if (c =? 61) || (c =? 0) || (c =? sep) then Some ([], l)
      else '(n, r) ← parse_name sep l'; Some (c :: n, r)
  end.

Definition is_removal (sep : Z) (l : list Z) : option bool :=
  c ← head l;
  if c =? 0 then Some true
  else
    d ← head (tail l);
    Some ((d =? 0) || (c =? sep) || (d =? sep)).

Fixpoint parse_value (sep : Z) (l : list Z) : option (str * list Z) :=
  match l with
  | [] => None
  | c :: l =>
      if (c =? 0) || (c =? sep) then Some ([], l)
      else
        match l with
        | d :: l' =>
            if (c =? 92) && negb (d =? 0) then '(v, r) ← parse_value sep l'; Some (d :: v, r)
            else '(v, r) ← parse_value sep l; Some (c :: v, r)
        | [] => None
        end
  end.

(** [vars] is the local copy; NULL is [None]. *)
Definition drop_var_from_set (name : str) (vars : list (option str)) : bool * list (option str) :=
  match vars with
  | [] => (true, vars)
  | _ =>
      (existsb (λ v, bool_decide (v = Some name)) vars,
       (λ v, if bool_decide (v = Some name) then None else v) <$> vars)
  end.

Section import.
Context `{!EnvHooks}.

(** One entry; [inr] when the import ends with an error. *)
Definition import_line (sep flag : Z) (dp : list Z) (htab : hsearch_data) (vars : list (option str))
    : option (list Z * hsearch_data * list (option str) + hsearch_data) :=
  dp ← skip_blanks dp;
  if bool_decide (head dp = Some 35) then
    dp ← skip_comment sep dp; Some (inl (dp, htab, vars))
  else
    '(name, dp) ← parse_name sep dp;
    removal ← is_removal sep dp;
    if (removal : bool) then
      let dp := if bool_decide (head dp = Some 61) then drop 2 dp else drop 1 dp in
      let '(found, vars) := drop_var_from_set name vars in
      if negb found then Some (inl (dp, htab, vars))
      else r ← hdelete_r name htab flag; Some (inl (dp, htab_after r, vars))
    else
      '(value, dp) ← parse_value sep (drop 1 dp);
      if bool_decide (name = []) then Some (inr htab)
      else
        let '(found, vars) := drop_var_from_set name vars in
        if negb found then Some (inl (dp, htab, vars))
        else r ← hsearch_r name (Some value) ENV_ENTER htab flag; Some (inl (dp, htab_after r, vars)).

(** The entries, as long as [dp] is before the end, [rest] characters before
    the end of the buffer, and not at a terminator. *)
Definition import_lines (sep flag : Z) (rest : nat) (dp : list Z) (htab : hsearch_data)
    (vars : list (option str)) : option (list Z * hsearch_data * list (option str) + hsearch_data) :=
  loop (S (length dp)) (λ '((dp, htab, vars) : list Z * hsearch_data * list (option str)),
      o ← import_line sep flag dp htab vars;
      match o with
      | inr h => Some (Return h)
      | inl (dp, htab, vars) =>
          if (rest <? length dp)%nat then
            c ← head dp;
            if negb (c =? 0) then Some (Next (dp, htab, vars)) else Some (Break (dp, htab, vars))
          else Some (Break (dp, htab, vars))
      end)
    (dp, htab, vars).

(** The variables of the set that were not in the text are removed. *)
Fixpoint delete_unseen (vars : list (option str)) (flag : Z) (htab : hsearch_data) : option hsearch_data :=
  match vars with
  | [] => Some htab
  | None :: vars => delete_unseen vars flag htab
  | Some v :: vars => r ← hdelete_r v htab flag; delete_unseen vars flag (htab_after r)
  end.

(** The table that the import starts with, [None] when it cannot be created. *)
Definition import_table (htab : hsearch_data) (size flag : Z) (nvars : nat)
    : option (bool * hsearch_data) :=
  h ← (if negb (has_flag flag H_NOCLEAR) && bool_decide (nvars = 0%nat) then
         match table htab with
         | Some _ => '(h, _) ← hdestroy_r (Some htab); h
         | None => Some htab
         end
       else Some htab);
  match table h with
  | Some _ => Some (true, h)
  | None =>
      let nent := CONFIG_ENV_MIN_ENTRIES + size / 8 in
      let nent := if CONFIG_ENV_MAX_ENTRIES <? nent then CONFIG_ENV_MAX_ENTRIES else nent in
      '(r, h, _) ← hcreate_r 1024 nent (Some h);
      h ← h;
      Some (negb (r =? 0), h)
  end.

Definition himport_r (htab : option hsearch_data) (env : list Z) (sep flag : Z) (crlf_is_lf : bool)
    (vars : list str) : option (Z * option Z * option hsearch_data) :=
  match htab with
  | None => Some (0, Some EINVAL, None)
  | Some h =>
      let size := Z.of_nat (length env) in
      if negb (malloc_ok (u32 (size + 1))) then Some (0, Some ENOMEM, htab)
      else
        '(created, h) ← import_table h size flag (length vars);
        if negb created then Some (0, None, Some h)
        else if size =? 0 then Some (1, None, Some h)
        else
          let '(buf, ignored) := if crlf_is_lf then remove_crs env else (env ++ [0], 0%nat) in
          o ← import_lines sep flag (S ignored) buf h (Some <$> vars);
          match o with
          | inr h => Some (0, Some EINVAL, Some h)
          | inl (_, h, vars) =>
              if has_flag flag H_NOCLEAR then Some (1, None, Some h)
              else h ← delete_unseen vars flag h; Some (1, None, Some h)
          end
  end.
End import.

(** ** The exported text *)

(** The name and the value of each variable, in the order of the table. *)
Definition pairs (tbl : list env_entry_node) : list (str * str) :=
  (λ '((k, e) : str * env_entry), (k, default [] (data e))) <$> contents tbl.

(** The room that pass 1 counts is what pass 2 writes. *)
Definition counted (sep : Z) (e : str * str) : Prop := sep ≠ 0 ∨ (0 ∉ e.2) ∧ (92 ∉ e.2).

Lemma escape_id sep d : sep ∉ d → 92 ∉ d → escape sep d = d.
Proof.
  unfold escape, escaped. induction d as [|c d IH]; [done|].
  rewrite !not_elem_of_cons. intros [Hs Hd] [Hb Hd']. cbn. rewrite IH by done.
  by rewrite (proj2 (Z.eqb_neq c sep)), (proj2 (Z.eqb_neq c 92)) by congruence.
Qed.

Lemma length_export_entry sep e : counted sep e →
  Z.of_nat (length (export_entry sep e)) = entry_size sep e.
Proof.
  intros Hc. unfold export_entry, entry_size. rewrite !length_app. cbn [length].
  enough (E : Z.of_nat (length (escape sep e.2)) =
    if sep =? 0 then Z.of_nat (length e.2) else foldr (λ c n, (if escaped sep c then 2 else 1) + n) 0 e.2)
    by (rewrite <-E; cbn; lia).
  destruct (Z.eqb_spec sep 0) as [->|Hs].
  - destruct Hc as [|[]]; [done|]. by rewrite escape_id.
  - unfold escape. clear Hc. induction e.2 as [|c d IH]; [done|].
    cbn. rewrite length_app. destruct (escaped sep c); cbn [length]; lia.
Qed.

Lemma length_text sep l : Forall (counted sep) l →
  Z.of_nat (length (l ≫= export_entry sep)) = foldr (λ e n, entry_size sep e + n) 0 l.
Proof.
  induction 1 as [|e l He _ IH]; [done|]. cbn. rewrite length_app, Nat2Z.inj_add, length_export_entry by done.
  by rewrite <-IH.
Qed.

Lemma used_entries_ok h tbl : htab_ok h tbl → used_entries h = Some (pairs tbl).
Proof.
  intros Hok. unfold used_entries. rewrite (ok_table _ _ Hok). cbn [mbind option_bind].
  pose proof (ok_length _ _ Hok) as Hlen. pose proof (ok_zero _ _ Hok) as Hz.
  pose proof (ok_slots _ _ Hok) as Hs.
  destruct tbl as [|n tl]; [done|]. injection Hz as ->. cbn [length] in Hlen.
  change (drop 1 (free_node :: tl)) with tl. rewrite take_ge by lia. apply Forall_cons in Hs as [_ Hs]. unfold pairs.
  rewrite contents_cons, used_entry_unused by done. cbn [app].
  assert (H2 : 2 ≤ hsize h) by (pose proof (ok_size _ _ Hok); lia). clear Hok Hlen.
  induction Hs as [|n tl Hn _ IH]; [done|].
  rewrite contents_cons, fmap_app. cbn [filter]. rewrite filter_cons.
  destruct Hn as [Hu|[Hu|(k & Hk & [d Hd] & Hu)]].
  1,2: unfold USED_FREE, USED_DELETED in Hu; rewrite decide_False, used_entry_unused by lia; apply IH.
  pose proof (first_hash_range k (hsize h) H2). rewrite decide_True by lia. cbn.
  rewrite Hk, Hd, (used_entry_used n k) by (done || lia). cbn. rewrite Hd.
  cbn in IH. rewrite IH. done.
Qed.

Definition export_size (size : Z) (text : list Z) : Z :=
  if size =? 0 then Z.of_nat (length text) else size.

Section export_correct.
Context `{!EnvHooks, !Regex}.

Lemma hexport_spec h tbl sep flag buf size argv : htab_ok h tbl →
  let sel := filter (λ e, selected flag argv e) (pairs tbl) in
  Forall (counted sep) sel →
  Z.of_nat (length (sel ≫= export_entry sep)) + 1 < 2 ^ 32 → 0 ≤ size →
  ∃ l, l ≡ₚ sel ∧ qsort cmpkey sel = Some l ∧
    let text := (l ≫= export_entry sep) ++ [0] in
    let size' := export_size size text in
    (size' < Z.of_nat (length text) →
      hexport_r (Some h) sep flag (Some buf) size argv = Some (-1, Some ENOMEM, buf)) ∧
    (Z.of_nat (length text) ≤ size' → buf = None →
      hexport_r (Some h) sep flag (Some buf) size argv =
        if calloc_ok size'
        then Some (size', None, Some (text ++ replicate (Z.to_nat size' - length text) 0))
        else Some (-1, Some ENOMEM, None)) ∧
    (∀ b, Z.of_nat (length text) ≤ size' → buf = Some b → size' ≤ Z.of_nat (length b) →
      hexport_r (Some h) sep flag (Some buf) size argv =
        Some (size', None,
          Some (text ++ replicate (Z.to_nat size' - length text) 0 ++ drop (Z.to_nat size') b))).
Proof.
  intros Hok sel Hcnt Hlen Hsize. destruct (qsort_permutation cmpkey sel) as (l & Hq & Hp).
  exists l. split; [done|]. split; [done|]. cbv zeta. set (text := (l ≫= export_entry sep) ++ [0]).
  assert (Hlt : Z.of_nat (length text) = total_length sep sel + 1 ∧ u32 (total_length sep sel + 1) = total_length sep sel + 1).
  { unfold total_length. rewrite <-length_text by done. unfold text.
    rewrite length_app, Hp. cbn [length]. word_small. split; lia. }
  destruct Hlt as [Hlt Hw]. unfold hexport_r, export_size. cbn [mbind option_bind].
  rewrite (used_entries_ok h tbl Hok). cbn [mbind option_bind]. cbv zeta. fold sel. rewrite Hq.
  cbn [mbind option_bind]. rewrite Hw, <-Hlt. fold text.
  assert (0 < Z.of_nat (length text)) by (unfold text; rewrite length_app; cbn; lia).
  set (size' := if size =? 0 then Z.of_nat (length text) else size).
  assert (Htest : negb (size =? 0) && (size <? Z.of_nat (length text)) = (size' <? Z.of_nat (length text))).
  { unfold size'. destruct (size =? 0); cbn; [symmetry; apply Z.ltb_ge; lia|done]. }
  rewrite Htest. split; [|split].
  - intros Hs. by rewrite (proj2 (Z.ltb_lt _ _) Hs).
  - intros Hs ->. rewrite (proj2 (Z.ltb_ge _ _) Hs). destruct (calloc_ok size'); [|done].
    cbn [mbind option_bind]. rewrite length_replicate, (proj2 (Z.leb_le _ _)) by lia.
    by rewrite drop_replicate.
  - intros b Hs -> Hb. rewrite (proj2 (Z.ltb_ge _ _) Hs), (proj2 (Z.leb_le _ _) Hb).
    cbn [mbind option_bind]. rewrite length_app, length_replicate, (proj2 (Z.leb_le _ _)) by lia.
    rewrite drop_app_le by (rewrite length_replicate; lia). by rewrite drop_replicate.
Qed.
End export_correct.

(** ** Texts of well formed lines *)

Inductive line :=
| Comment (b t : list Z)
| Setting (b : list Z) (k d : str)
| Removal (b : list Z) (k : str) (eq : bool).

Definition sep_ok (sep : Z) : Prop := sep ≠ 61 ∧ sep ≠ 92 ∧ sep ≠ 35 ∧ isblank sep = false.

(** A name that the import gives back: not empty, without '=', separator and
    terminator, and not starting with a blank or '#'. *)
Definition name_ok (sep : Z) (k : str) : Prop :=
  (61 ∉ k) ∧ (0 ∉ k) ∧ (sep ∉ k) ∧ ∃ c k', k = c :: k' ∧ isblank c = false ∧ c ≠ 35.

Definition value_ok (d : str) : Prop := d ≠ [] ∧ 0 ∉ d.

Definition line_ok (sep : Z) (l : line) : Prop :=
  match l with
  | Comment b t => Forall (λ c, isblank c = true) b ∧ (0 ∉ t) ∧ (sep ∉ t)
  | Setting b k d => Forall (λ c, isblank c = true) b ∧ name_ok sep k ∧ value_ok d
  | Removal b k _ => Forall (λ c, isblank c = true) b ∧ name_ok sep k
  end.

Definition line_text (sep : Z) (l : line) : list Z :=
  match l with
  | Comment b t => b ++ 35 :: t ++ [sep]
  | Setting b k d => b ++ k ++ 61 :: escape sep d ++ [sep]
  | Removal b k true => b ++ k ++ [61; sep]
  | Removal b k false => b ++ k ++ [sep]
  end.

Definition line_requests (flag : Z) (l : line) : list request :=
  match l with
  | Comment _ _ => []
  | Setting _ k d => [Enter k d flag]
  | Removal _ k _ => [Delete k flag]
  end.

Section parsing.
Context (sep : Z) (Hsep : sep_ok sep).

Lemma skip_blanks_spec b c l : Forall (λ c, isblank c = true) b → isblank c = false →
  skip_blanks (b ++ c :: l) = Some (c :: l).
Proof. intros Hb Hc. induction Hb as [|x b Hx _ IH]; cbn; [by rewrite Hc|by rewrite Hx]. Qed.

Lemma skip_comment_spec t l : 0 ∉ t → sep ∉ t → skip_comment sep (t ++ sep :: l) = Some l.
Proof.
  induction t as [|c t IH]; cbn.
  - intros _ _. by rewrite Z.eqb_refl, orb_true_r.
  - rewrite !not_elem_of_cons. intros [H0 Ht] [Hs Ht'].
    rewrite (proj2 (Z.eqb_neq c 0)), (proj2 (Z.eqb_neq c sep)) by congruence. by apply IH.
Qed.

Lemma parse_name_spec k c l : 61 ∉ k → 0 ∉ k → sep ∉ k → c = 61 ∨ c = 0 ∨ c = sep →
  parse_name sep (k ++ c :: l) = Some (k, c :: l).
Proof.
  intros H1 H2 H3 Hc. induction k as [|x k IH]; cbn.
  - destruct Hc as [->|[->| ->]]; by rewrite Z.eqb_refl, ?orb_true_r.
  - rewrite !not_elem_of_cons in *. destruct H1, H2, H3.
    rewrite (proj2 (Z.eqb_neq x 61)), (proj2 (Z.eqb_neq x 0)), (proj2 (Z.eqb_neq x sep)) by congruence.
    cbn [orb]. by rewrite IH.
Qed.

Lemma parse_value_plain c x l : c ≠ 0 → c ≠ sep → c ≠ 92 →
  parse_value sep (c :: x :: l) = ('(v, r) ← parse_value sep (x :: l); Some (c :: v, r)).
Proof.
  intros H1 H2 H3. change (parse_value sep (c :: x :: l)) with
    (if (c =? 0) || (c =? sep) then Some ([], x :: l)
     else if (c =? 92) && negb (x =? 0) then '(v, r) ← parse_value sep l; Some (x :: v, r)
     else '(v, r) ← parse_value sep (x :: l); Some (c :: v, r)).
  by rewrite (proj2 (Z.eqb_neq c 0)), (proj2 (Z.eqb_neq c sep)), (proj2 (Z.eqb_neq c 92)).
Qed.

Lemma parse_value_escaped x l : sep ≠ 92 → x ≠ 0 →
  parse_value sep (92 :: x :: l) = ('(v, r) ← parse_value sep l; Some (x :: v, r)).
Proof.
  intros H1 H2. change (parse_value sep (92 :: x :: l)) with
    (if (92 =? 0) || (92 =? sep) then Some ([], x :: l)
     else if (92 =? 92) && negb (x =? 0) then '(v, r) ← parse_value sep l; Some (x :: v, r)
     else '(v, r) ← parse_value sep (x :: l); Some (92 :: v, r)).
  by rewrite (proj2 (Z.eqb_neq x 0)), (proj2 (Z.eqb_neq 92 sep)).
Qed.

Lemma parse_value_spec d l : 0 ∉ d → parse_value sep (escape sep d ++ sep :: l) = Some (d, l).
Proof.
  intros H0. destruct Hsep as (_ & H92 & _). induction d as [|c d IH].
  - cbn. by rewrite Z.eqb_refl, orb_true_r.
  - apply not_elem_of_cons in H0 as [Hc Hd]. specialize (IH Hd).
    change (escape sep (c :: d)) with ((if escaped sep c then [92; c] else [c]) ++ escape sep d).
    destruct (escaped sep c) eqn:E; cbn [app].
    + rewrite parse_value_escaped by done. by rewrite IH.
    + apply orb_false_iff in E as [E1%Z.eqb_neq E2%Z.eqb_neq].
      destruct (escape sep d ++ sep :: l) as [|x r] eqn:Er; [by destruct (escape sep d)|].
      rewrite parse_value_plain by done. by rewrite IH.
Qed.

Lemma escape_head d : value_ok d → ∃ c r, escape sep d = c :: r ∧ c ≠ 0 ∧ c ≠ sep.
Proof.
  intros [Hne H0]. destruct Hsep as (_ & H92 & _). destruct d as [|c d]; [done|]. cbn.
  destruct (escaped sep c) eqn:E; cbn; (eexists _, _; split; [done|]); [done|].
  apply orb_false_iff in E as [E%Z.eqb_neq _]. apply not_elem_of_cons in H0 as [H0 _]. done.
Qed.

Lemma line_text_head l : line_ok sep l → ∃ c r, line_text sep l = c :: r ∧ c ≠ 0.
Proof.
  assert (Hb : ∀ b c r, Forall (λ c, isblank c = true) b → c ≠ 0 → ∃ c' r', b ++ c :: r = c' :: r' ∧ c' ≠ 0).
  { intros b c r Hb Hc. destruct Hb as [|x b Hx _]; cbn; eexists _, _; (split; [done|]); [done|].
    by intros ->. }
  assert (Hk : ∀ k, name_ok sep k → ∃ c k', k = c :: k' ∧ c ≠ 0).
  { intros k (_ & H0 & _ & c & k' & -> & _). exists c, k'. apply not_elem_of_cons in H0 as [H0 _]. done. }
  destruct l as [b t|b k d|b k [|]]; cbn.
  - intros [? _]. by apply Hb.
  - intros (? & (c & k' & -> & ?)%Hk & _). by apply (Hb b c).
  - intros (? & (c & k' & -> & ?)%Hk). by apply (Hb b c).
  - intros (? & (c & k' & -> & ?)%Hk). by apply (Hb b c).
Qed.
End parsing.

Section import_correct.
Context `{!EnvHooks} (strdup_ok : ∀ s, is_Some (strdup s)) (sep : Z) (Hsep : sep_ok sep) (flag : Z).

(** One line is one request at most. *)
Lemma import_line_spec l rest h : line_ok sep l → rest ≠ [] →
  match line_requests flag l with
  | [q] => ∀ h' a, table_step h q = Some (h', a) →
      import_line sep flag (line_text sep l ++ rest) h [] = Some (inl (rest, h', []))
  | _ => import_line sep flag (line_text sep l ++ rest) h [] = Some (inl (rest, h, []))
  end.
Proof.
  intros Hok Hrest. revert Hok. destruct l as [b t|b k d|b k eq]; cbn [line_ok line_requests line_text].
  - intros (Hb & H0 & Hs). rewrite <-!app_assoc. cbn [app]. unfold import_line.
    rewrite skip_blanks_spec by done. cbn [mbind option_bind head].
    rewrite bool_decide_true, <-app_assoc by done. cbn [app].
    change (35 :: t ++ sep :: rest) with ((35 :: t) ++ sep :: rest).
    destruct Hsep as (_ & _ & H35 & _).
    by rewrite skip_comment_spec by (apply not_elem_of_cons; done).
  - intros (Hb & (Hk1 & Hk2 & Hk3 & c & k' & -> & Hc & Hc') & Hd) h' a Hstep.
    rewrite <-!app_assoc. cbn [app]. unfold import_line. rewrite skip_blanks_spec by done.
    cbn [mbind option_bind head]. rewrite bool_decide_false by congruence.
    rewrite <-?app_assoc. cbn [app]. change (c :: k' ++ ?r) with ((c :: k') ++ r).
    rewrite parse_name_spec by (done || by left). cbn [mbind option_bind]. unfold is_removal.
    cbn [head tail mbind option_bind]. change (61 =? 0) with false. cbv iota.
    destruct (escape_head sep Hsep d Hd) as (x & r & E & Hx & Hx'). rewrite <-?app_assoc. cbn [app].
    rewrite E. cbn [app head mbind option_bind].
    rewrite (proj2 (Z.eqb_neq x 0)), (proj2 (Z.eqb_neq 61 sep)), (proj2 (Z.eqb_neq x sep)) by
      (done || destruct Hsep; congruence).
    cbn [orb]. change (x :: r ++ ?z) with ((x :: r) ++ z). rewrite <-E.
    rewrite (skipn_cons 0), drop_0, parse_value_spec by (done || apply Hd). cbn [mbind option_bind].
    cbn [table_step] in Hstep. destruct (hsearch_r _ _ _ _ _) as [r'|] eqn:Er; [|done].
    cbn in Hstep. destruct (read_result r'); [|done]. by injection Hstep as <- <-.
  - intros (Hb & (Hk1 & Hk2 & Hk3 & c & k' & -> & Hc & Hc')) h' a Hstep.
    assert (Hdel : ∃ r, hdelete_r (c :: k') h flag = Some r ∧ htab_after r = h').
    { cbn [table_step] in Hstep. destruct (hdelete_r _ _ _) as [r|]; [|done]. exists r. split; [done|].
      cbn in Hstep. destruct (errno r); by injection Hstep as <- <-. }
    destruct Hdel as (r & Hr & Hh). destruct eq; rewrite <-!app_assoc; cbn [app]; unfold import_line;
      rewrite skip_blanks_spec by done; cbn [mbind option_bind head];
      rewrite bool_decide_false by congruence; rewrite <-?app_assoc; cbn [app];
      change (c :: k' ++ ?r) with ((c :: k') ++ r);
      rewrite parse_name_spec by (done || tauto); cbn [mbind option_bind].
    + unfold is_removal. cbn. rewrite Z.eqb_refl, !orb_true_r. cbn. by rewrite Hr, <-Hh.
    + unfold is_removal. destruct Hsep as (H61 & _), rest as [|x rest]; [done|].
      cbn [head tail mbind option_bind]. rewrite Z.eqb_refl, orb_true_r.
      rewrite (bool_decide_false (Some sep = Some 61)) by congruence.
      destruct (sep =? 0); cbn; by rewrite Hr, <-Hh.
Qed.

(** What may follow the lines in the buffer: the end, [n] characters before
    its last one, or a terminator. *)
Definition text_end (n : nat) (tl : list Z) : Prop :=
  (n ≤ length tl)%nat ∧ tl ≠ [] ∧ (length tl = n ∨ head tl = Some 0).

Lemma text_end_stops n tl : text_end n tl →
  ((n <? length tl)%nat = true → head tl = Some 0).
Proof. intros (_ & _ & [<- | ?]) Hlt; [by rewrite Nat.ltb_irrefl in Hlt|done]. Qed.

Lemma import_lines_spec n tl : text_end n tl →
  ∀ ls h tbl fuel, Forall (line_ok sep) ls → ls ≠ [] → htab_ok h tbl → (length ls < fuel)%nat →
  ∃ h' tbl', loop fuel (λ '((dp, htab, vars) : list Z * hsearch_data * list (option str)),
      o ← import_line sep flag dp htab vars;
      match o with
      | inr h => Some (Return h)
      | inl (dp, htab, vars) =>
          if (n <? length dp)%nat then
            c ← head dp;
            if negb (c =? 0) then Some (Next (dp, htab, vars)) else Some (Break (dp, htab, vars))
          else Some (Break (dp, htab, vars))
      end)
    ((ls ≫= line_text sep) ++ tl, h, []) = Some (inl (tl, h', [])) ∧
    htab_ok h' tbl' ∧ hsize h' = hsize h ∧
    vars h' = (map_run (Z.to_nat (hsize h)) (vars h) (ls ≫= line_requests flag)).1.
Proof.
  intros Htl ls. induction ls as [|l ls IH]; intros h tbl fuel Hls Hne Hok Hfuel; [done|]. clear Hne.
  apply Forall_cons in Hls as [Hl Hls]. destruct fuel as [|fuel]; [cbn in Hfuel; lia|].
  cbn [length] in Hfuel. cbn [mbind list_bind]. rewrite <-app_assoc.
  set (rest := (ls ≫= line_text sep) ++ tl).
  assert (Hrest : rest ≠ []) by (unfold rest; destruct Htl as (_ & ? & _), (ls ≫= line_text sep); done).
  assert (Hstep : ∃ h1 tbl1, import_line sep flag (line_text sep l ++ rest) h [] = Some (inl (rest, h1, [])) ∧
      htab_ok h1 tbl1 ∧ hsize h1 = hsize h ∧
      ∀ qs, (map_run (Z.to_nat (hsize h)) (vars h) (line_requests flag l ++ qs)).1 =
            (map_run (Z.to_nat (hsize h)) (vars h1) qs).1).
  { pose proof (import_line_spec l rest h Hl Hrest) as Hline.
    assert (Hq : ∀ q, (∀ h' a, table_step h q = Some (h', a) →
        import_line sep flag (line_text sep l ++ rest) h [] = Some (inl (rest, h', []))) →
      ∃ h1 tbl1, import_line sep flag (line_text sep l ++ rest) h [] = Some (inl (rest, h1, [])) ∧
        htab_ok h1 tbl1 ∧ hsize h1 = hsize h ∧
        ∀ qs, (map_run (Z.to_nat (hsize h)) (vars h) ([q] ++ qs)).1 =
              (map_run (Z.to_nat (hsize h)) (vars h1) qs).1).
    { intros q Hq. destruct (table_step_spec strdup_ok h tbl q Hok) as (h1 & a & Hst & (Hv & Hs & tbl1 & Hok1) & Ha).
      exists h1, tbl1. split; [by eapply Hq|]. split; [done|]. split; [done|].
      intros qs. rewrite Hv. cbn [app map_run]. destruct (map_step _ _ _) as [M b']. cbn.
      by destruct (map_run _ _ qs). }
    destruct l as [b t|b k d|b k eq]; cbn [line_requests] in *; [by exists h, tbl|by apply Hq..]. }
  destruct Hstep as (h1 & tbl1 & Hline & Hok1 & Hs1 & Hrun). cbn [loop].
  rewrite Hline. cbn [mbind option_bind]. rewrite Hrun.
  destruct ls as [|l' ls'].
  - assert (Hend : (n <? length rest)%nat = true → head rest = Some 0) by by apply text_end_stops.
    exists h1, tbl1. split; [|done].
    destruct (n <? length rest)%nat; [by rewrite (Hend eq_refl)|done].
  - destruct (line_text_head sep l') as (c & r & Ec & Hc); [by apply Forall_cons in Hls as [? _]|].
    assert (Hrc : rest = c :: r ++ (ls' ≫= line_text sep) ++ tl).
    { unfold rest. cbn [mbind list_bind]. rewrite Ec. by rewrite <-app_assoc. }
    assert (Hlt : (n <? length rest)%nat = true).
    { apply Nat.ltb_lt. rewrite Hrc. cbn [length]. rewrite !length_app. destruct Htl. lia. }
    assert (Hhead : head rest = Some c) by by rewrite Hrc.
    rewrite Hlt, Hhead. cbn [mbind option_bind].
    rewrite (proj2 (Z.eqb_neq c 0) Hc). cbn [negb].
    destruct (IH h1 tbl1 fuel) as (h2 & tbl2 & Hloop & Hok2 & Hs2 & Hv2); [done|done|done|cbn in *; lia|].
    exists h2, tbl2. split; [exact Hloop|]. split; [done|]. split; [congruence|]. by rewrite Hv2, Hs1.
Qed.

Lemma length_lines ls : Forall (line_ok sep) ls → (length ls ≤ length (ls ≫= line_text sep))%nat.
Proof.
  induction 1 as [|l ls Hl _ IH]; [done|]. cbn. rewrite length_app.
  destruct (line_text_head sep l Hl) as (c & r & -> & _). cbn. lia.
Qed.
End import_correct.

(** ** The whole import *)

Lemma prime_521 : prime 521.
Proof.
  destruct (isprime_correct 521) as (b & Hb & H); [lia|done|].
  vm_compute in Hb. injection Hb as <-. by apply H.
Qed.

Section import_table.
Context `{!EnvHooks} (calloc_succeeds : ∀ n, calloc_ok n = true).

(** The table that the import of [size] bytes starts with: the one there is,
    or an empty one of a size that follows from [size]. *)
Definition starts_with (h : hsearch_data) (size flag : Z) (h0 : hsearch_data) : Prop :=
  if has_flag flag H_NOCLEAR then h0 = h
  else vars h0 = ∅ ∧ Z.min 512 (64 + size / 8) ≤ hsize h0.

Lemma import_table_spec h size flag :
  0 ≤ size → (has_flag flag H_NOCLEAR = true → ∃ tbl, htab_ok h tbl) →
  ∃ h0 tbl0, import_table h size flag 0 = Some (true, h0) ∧ htab_ok h0 tbl0 ∧
    starts_with h size flag h0.
Proof.
  intros Hsize Hkeep. unfold import_table, starts_with. destruct (has_flag flag H_NOCLEAR).
  - destruct (Hkeep eq_refl) as [tbl Hok]. exists h, tbl. cbn. by rewrite (ok_table _ _ Hok).
  - set (h1 := {| table := None; hsize := hsize h; filled := filled h |}).
    assert (Hh : (if negb false && bool_decide (0%nat = 0%nat) then
         match table h with
         | Some _ => '(h, _) ← hdestroy_r (Some h); h
         | None => Some h
         end
       else Some h) = Some h1).
    { cbn. destruct h as [[tbl|] n f]; done. }
    rewrite Hh. cbn [mbind option_bind table h1]. unfold CONFIG_ENV_MIN_ENTRIES, CONFIG_ENV_MAX_ENTRIES.
    assert (0 ≤ size / 8) by (apply Z.div_pos; lia).
    set (nent := if 512 <? 64 + size / 8 then 512 else 64 + size / 8).
    assert (Hn : nent = Z.min 512 (64 + size / 8)).
    { unfold nent. destruct (Z.ltb_spec 512 (64 + size / 8)); lia. }
    destruct (hcreate_spec 1024 nent 521 h1) as (r & h0 & -> & Hp & Hr & _ & Hres); [lia|exact prime_521|lia..|].
    rewrite calloc_succeeds in Hres. destruct Hres as (-> & (tbl0 & Hok) & Hv).
    exists h0, tbl0. cbn. split; [done|]. split; [done|]. split; [done|lia].
Qed.
End import_table.

Lemma himport_spec `{!EnvHooks} (strdup_ok : ∀ s, is_Some (strdup s))
    (calloc_succeeds : ∀ n, calloc_ok n = true) (malloc_succeeds : ∀ n, malloc_ok n = true)
    (sep flag : Z) (Hsep : sep_ok sep) (h : hsearch_data) (ls : list line) (t : list Z) :
  Forall (line_ok sep) ls → ls ≠ [] → (t = [] ∨ head t = Some 0) →
  (has_flag flag H_NOCLEAR = true → ∃ tbl, htab_ok h tbl) →
  let env := (ls ≫= line_text sep) ++ t in
  ∃ h0 h' tbl', starts_with h (Z.of_nat (length env)) flag h0 ∧
    himport_r (Some h) env sep flag false [] = Some (1, None, Some h') ∧ htab_ok h' tbl' ∧
    vars h' = (map_run (Z.to_nat (hsize h0)) (vars h0) (ls ≫= line_requests flag)).1.
Proof.
  intros Hls Hne Ht Hkeep env.
  destruct (import_table_spec calloc_succeeds h (Z.of_nat (length env)) flag) as (h0 & tbl0 & Htab & Hok0 & Hst);
    [lia|done|].
  pose proof (length_lines sep ls Hls) as Hlen.
  assert (Hlines : ls ≠ [] → (1 ≤ length ls)%nat) by (destruct ls; cbn; [done|lia]).
  specialize (Hlines Hne).
  assert (Henv : (length ls ≤ length env)%nat) by (unfold env; rewrite length_app; lia).
  assert (Htl : text_end 1 (t ++ [0])).
  { split; [rewrite length_app; cbn; lia|]. split; [by destruct t|]. destruct Ht as [->|Hz]; [by left|right].
    by destruct t. }
  destruct (import_lines_spec strdup_ok sep Hsep flag 1 (t ++ [0]) Htl ls h0 tbl0 (S (length (env ++ [0]))))
    as (h' & tbl' & Hloop & Hok' & Hs & Hv); [done|done|done|rewrite length_app; lia|].
  exists h0, h', tbl'. split; [done|]. split; [|done].
  unfold himport_r. rewrite malloc_succeeds. cbn [negb length]. rewrite Htab. cbn [mbind option_bind negb].
  rewrite (proj2 (Z.eqb_neq (Z.of_nat (length env)) 0)) by lia.
  unfold import_lines. replace (env ++ [0]) with ((ls ≫= line_text sep) ++ t ++ [0]) in * by by rewrite app_assoc.
  cbn [fmap list_fmap]. rewrite Hloop. cbn [mbind option_bind].
  by destruct (has_flag flag H_NOCLEAR).
Qed.

(** C25. Importing a text of comments, settings and removals, escaped for any
    separator, ends with success; the table then holds what the settings and
    removals, entered one after the other, make of the variables that it
    started with. *)
Theorem himport_correct `{!EnvHooks} (strdup_ok : ∀ s, is_Some (strdup s))
    (calloc_succeeds : ∀ n, calloc_ok n = true) (malloc_succeeds : ∀ n, malloc_ok n = true)
    (sep flag : Z) (Hsep : sep_ok sep) (h : hsearch_data) (ls : list line) (t : list Z) :
  Forall (line_ok sep) ls → ls ≠ [] → (t = [] ∨ head t = Some 0) →
  (has_flag flag H_NOCLEAR = true → ∃ tbl, htab_ok h tbl) →
  let env := (ls ≫= line_text sep) ++ t in
  ∃ h0 h' tbl', starts_with h (Z.of_nat (length env)) flag h0 ∧
    himport_r (Some h) env sep flag false [] = Some (1, None, Some h') ∧ htab_ok h' tbl' ∧
    vars h' = (map_run (Z.to_nat (hsize h0)) (vars h0) (ls ≫= line_requests flag)).1.
Proof. by apply himport_spec. Qed.

(** ** Export and import are inverse *)

Lemma NoDup_pairs h tbl : htab_ok h tbl → NoDup (pairs tbl).*1.
Proof.
  intros Hok. pose proof (ok_nodup _ _ Hok) as Hnd. unfold pairs.
  rewrite <-list_fmap_compose. erewrite list_fmap_ext; [exact Hnd|]. by intros i [k e] _.
Qed.

Lemma vars_pairs h tbl : htab_ok h tbl → omap data (vars h) = list_to_map (pairs tbl).
Proof.
  intros Hok. apply map_eq. intros k. apply option_eq. intros d.
  rewrite lookup_omap_Some, <-elem_of_list_to_map by by eapply NoDup_pairs.
  unfold pairs. rewrite list_elem_of_fmap. split.
  - intros (e & He & Hd). rewrite (vars_table h tbl Hok) in Hd.
    apply elem_of_list_to_map in Hd; [|apply (ok_nodup _ _ Hok)]. exists (k, e). by rewrite He.
  - intros ([k' e] & [= -> ->] & He). exists e. split.
    + apply elem_of_contents in He as (i & n & Hn & Hu & _ & <-).
      destruct (get_slot_ok h tbl Hok i n Hn) as [?|[?|(k2 & _ & [d' Hd] & _)]];
        [unfold USED_FREE, USED_DELETED in *; lia..|]. by rewrite Hd.
    + rewrite (vars_table h tbl Hok). apply elem_of_list_to_map; [apply (ok_nodup _ _ Hok)|done].
Qed.

Section roundtrip.
Context `{!EnvHooks, !Regex} (strdup_ok : ∀ s, is_Some (strdup s)).
Context (calloc_succeeds : ∀ n, calloc_ok n = true) (malloc_succeeds : ∀ n, malloc_ok n = true).

(** The permission check and the callbacks accept the settings as new
    variables. *)
Definition importable (flag : Z) (l : list (str * str)) : Prop :=
  Forall (λ e, check_change (new_entry e.1 e.2) e.1 (Some e.2) env_op_create flag = None) l.

#[global] Instance importable_proper flag : Proper ((≡ₚ) ==> iff) (importable flag).
Proof. intros l l' Hl. unfold importable. by rewrite Hl. Qed.

Lemma map_run_settings (cap : nat) (flag : Z) (l : list (str * str)) (M : gmap str env_entry) :
  importable flag l → NoDup l.*1 → (∀ k, k ∈ l.*1 → M !! k = None) → (base.size M + length l ≤ cap)%nat →
  omap data (map_run cap M ((λ e, Enter e.1 e.2 flag) <$> l)).1 = list_to_map l ∪ omap data M.
Proof.
  intros Hl. revert M. induction Hl as [|[k d] l accepted Hl IH]; intros M Hnd Hfresh Hcap; cbn [fmap list_fmap map_run].
  - cbn. by rewrite map_empty_union.
  - cbn [fmap list_fmap] in Hnd, Hfresh. apply NoDup_cons in Hnd as [Hk Hnd]. cbn [length] in Hcap.
    assert (HMk : M !! k = None) by (apply Hfresh; set_solver).
    cbn [map_step fst snd]. rewrite HMk. cbn in HMk. rewrite decide_False by lia. cbn [fst snd] in accepted. rewrite accepted.
    assert (HIH : omap data (map_run cap (<[k := new_entry k d]> M) ((λ e, Enter e.1 e.2 flag) <$> l)).1 =
      list_to_map l ∪ omap data (<[k := new_entry k d]> M)).
    { apply IH; [done| |rewrite map_size_insert_None by done; lia].
      intros k' Hk'. rewrite lookup_insert_ne by (intros ->; done). apply Hfresh. set_solver. }
    destruct (map_run _ _ _) as [M' a]. cbn in *. rewrite HIH.
    rewrite (omap_insert_Some data M k (new_entry k d) d) by done.
    rewrite <-insert_union_r; [by rewrite insert_union_l|]. by apply not_elem_of_list_to_map_1.
Qed.

Lemma selected_all (l : list (str * str)) : filter (λ e, selected 0 [] e) l = l.
Proof. induction l as [|e l IH]; [done|]. rewrite filter_cons_True by done. by rewrite IH. Qed.

(** The conditions on the variables that the text can carry. *)
Definition exportable (sep : Z) (tbl : list env_entry_node) : Prop :=
  Forall (λ e, name_ok sep e.1 ∧ value_ok e.2 ∧ counted sep e) (pairs tbl).

(** C7. Round trip of the text form: the environment, exported into an
    allocated buffer and imported again with the old table cleared, is the
    same map from names to values. It is stated for separators other than '=',
    backslash, '#' and blanks; for names that are not empty, have no '=', NUL
    or separator and do not begin with a blank or '#'; for values that are not
    empty and have no NUL, and with the separator NUL no backslash either
    (hexport_nul_overflow); for at least one and at most 512 and 64 + length/8
    variables; and for variables that the permission check and their callbacks
    accept as new ones (importable: with the hooks of the program, not
    read-only and values of their type). Memory is available. *)
Theorem env_text_roundtrip sep h tbl h1 :
  sep_ok sep → htab_ok h tbl → exportable sep tbl → importable 0 (pairs tbl) → pairs tbl ≠ [] →
  Z.of_nat (length (pairs tbl)) ≤ Z.min 512 (64 + (Z.of_nat (length (pairs tbl ≫= export_entry sep)) + 1) / 8) →
  Z.of_nat (length (pairs tbl ≫= export_entry sep)) + 1 < 2 ^ 32 →
  ∃ n text h2 tbl2,
    hexport_r (Some h) sep 0 (Some None) 0 [] = Some (n, None, Some text) ∧
    himport_r (Some h1) text sep 0 false [] = Some (1, None, Some h2) ∧
    htab_ok h2 tbl2 ∧ omap data (vars h2) = omap data (vars h).
Proof.
  intros Hsep Hok Hexp Himpl Hne Hcount Hlen.
  assert (Hsel : filter (λ e, selected 0 [] e) (pairs tbl) = pairs tbl) by by apply selected_all.
  pose proof (hexport_spec h tbl sep 0 None 0 [] Hok) as Hspec. cbv zeta in Hspec. rewrite Hsel in Hspec.
  destruct Hspec as (l & Hp & _ & _ & Hexport & _);
    [eapply Forall_impl; [exact Hexp|by intros ? (? & ? & ?)]|lia|lia|].
  unfold export_size in Hexport. cbn [Z.eqb] in Hexport.
  specialize (Hexport ltac:(lia) eq_refl). rewrite calloc_succeeds in Hexport.
  rewrite Nat2Z.id, Nat.sub_diag, app_nil_r in Hexport.
  set (ls := (λ e : str * str, Setting [] e.1 e.2) <$> l).
  assert (Htext : (l ≫= export_entry sep) = ls ≫= line_text sep).
  { unfold ls. clear. induction l as [|e l IH]; [done|]. cbn. by rewrite IH. }
  assert (Hls : Forall (line_ok sep) ls).
  { unfold ls. apply Forall_fmap. rewrite Hp. eapply Forall_impl; [exact Hexp|].
    intros e (Hk & Hd & _). cbn. split; [constructor|by split]. }
  assert (Hlne : ls ≠ []).
  { unfold ls. intros E%fmap_nil_inv. rewrite E in Hp. by apply Permutation_nil in Hp. }
  rewrite Htext in Hexport.
  destruct (himport_spec strdup_ok calloc_succeeds malloc_succeeds sep 0 Hsep h1 ls [0]) as
    (h0 & h2 & tbl2 & Hst & Himp & Hok2 & Hv); [done|done|by right|done|].
  eexists _, _, h2, tbl2. split; [exact Hexport|]. split; [exact Himp|]. split; [done|].
  rewrite Hv. unfold starts_with in Hst. cbn in Hst. destruct Hst as [Hv0 Hs0].
  assert (Hreq : (ls ≫= line_requests 0) = (λ e : str * str, Enter e.1 e.2 0) <$> l).
  { unfold ls. clear. induction l as [|e l IH]; [done|]. cbn. by rewrite IH. }
  rewrite Hreq, Hv0, map_run_settings.
  - rewrite omap_empty, map_union_empty, (vars_pairs h tbl Hok).
    apply list_to_map_proper; [rewrite Hp; by eapply NoDup_pairs|done].
  - by rewrite Hp.
  - rewrite Hp. by eapply NoDup_pairs.
  - done.
  - assert (El : length (l ≫= export_entry sep) = length (pairs tbl ≫= export_entry sep)) by (by rewrite Hp).
    rewrite <-Htext, length_app, Nat2Z.inj_add, El in Hs0. cbn [length] in Hs0. rewrite map_size_empty, Hp. lia.
Qed.
End roundtrip.

(** ** Any text *)

(** What is left of the buffer from [dp] on: it ends with the terminator,
    unless [dp] is past it. *)
Definition ends0 (l : list Z) : Prop := last l = Some 0.
Definition left_over (l : list Z) : Prop := l = [] ∨ ends0 l.

Section scanning.
Context (sep : Z).
Implicit Types (l : list Z).

Lemma ends0_cons c l : ends0 (c :: l) → c ≠ 0 → ends0 l.
Proof. unfold ends0. destruct l as [|d l]; [|done]. by intros [= ->]. Qed.

Lemma ends0_left_over c l : ends0 (c :: l) → left_over l.
Proof. destruct l; [by left|by right]. Qed.

Lemma left_over_drop n l : left_over l → left_over (drop n l).
Proof.
  revert l. induction n as [|n IH]; intros l Hl; [by rewrite drop_0|].
  destruct l as [|c l]; [by left|]. rewrite skipn_cons. apply IH.
  destruct Hl as [|Hl]; [done|by eapply ends0_left_over].
Qed.

Lemma skip_blanks_total l : ends0 l →
  ∃ c r, skip_blanks l = Some (c :: r) ∧ ends0 (c :: r) ∧ (length (c :: r) ≤ length l)%nat.
Proof.
  induction l as [|c l IH]; [done|]. intros Hl. cbn. destruct (isblank c) eqn:E; [|by exists c, l].
  assert (Hc : c ≠ 0) by (by intros ->).
  destruct IH as (c' & r & -> & Hr & Hlen); [by eapply ends0_cons|].
  exists c', r. split_and!; [done|done|cbn in *; lia].
Qed.

Lemma skip_comment_total l : ends0 l →
  ∃ r, skip_comment sep l = Some r ∧ left_over r ∧ (length r < length l)%nat.
Proof.
  induction l as [|c l IH]; [done|]. intros Hl. cbn. destruct (Z.eqb_spec c 0) as [->|Hc]; cbn.
  - exists l. split_and!; [done|by eapply ends0_left_over|lia].
  - destruct (c =? sep); [exists l; split_and!; [done|by eapply ends0_left_over|lia]|].
    destruct IH as (r & -> & Hr & Hlen); [by eapply ends0_cons|]. exists r. split_and!; [done..|lia].
Qed.

Lemma parse_name_total l : ends0 l →
  ∃ n c r, parse_name sep l = Some (n, c :: r) ∧ ends0 (c :: r) ∧ (length (c :: r) ≤ length l)%nat ∧
    (c = 61 ∨ c = 0 ∨ c = sep).
Proof.
  induction l as [|c l IH]; [done|]. intros Hl. cbn.
  destruct (Z.eqb_spec c 61), (Z.eqb_spec c 0), (Z.eqb_spec c sep); cbn;
    try (exists [], c, l; split_and!; [done|done|lia|tauto]).
  destruct IH as (n3 & c' & r & -> & Hr & Hlen & Hc); [by eapply ends0_cons|].
  cbn. exists (c :: n3), c', r. split_and!; [done|done|cbn in *; lia|done].
Qed.

Lemma is_removal_total c r : ends0 (c :: r) →
  ∃ b, is_removal sep (c :: r) = Some b ∧ (b = false → c ≠ 0 ∧ c ≠ sep ∧ ends0 r).
Proof.
  intros Hl. unfold is_removal. cbn [head tail mbind option_bind].
  destruct (Z.eqb_spec c 0) as [|Hc]; [by exists true|].
  apply ends0_cons in Hl; [|done]. destruct r as [|d r]; [done|]. cbn [head mbind option_bind].
  eexists. split; [done|]. intros Hb. apply orb_false_iff in Hb as [Hb _].
  apply orb_false_iff in Hb as [_ Hb%Z.eqb_neq]. done.
Qed.

Lemma parse_value_total l : ends0 l →
  ∃ v r, parse_value sep l = Some (v, r) ∧ left_over r ∧ (length r < length l)%nat.
Proof.
  induction l as [l IH] using (induction_ltof1 _ (@length Z)). unfold ltof in IH. intros Hl.
  destruct l as [|c l]; [done|]. destruct ((c =? 0) || (c =? sep)) eqn:E.
  { exists [], l. cbn. rewrite E. split_and!; [done|by eapply ends0_left_over|lia]. }
  pose proof E as E'. apply orb_false_iff in E' as [Hc%Z.eqb_neq _]. apply ends0_cons in Hl; [|done].
  destruct l as [|d l]; [done|].
  change (parse_value sep (c :: d :: l)) with
    (if (c =? 0) || (c =? sep) then Some ([], d :: l)
     else if (c =? 92) && negb (d =? 0) then '(v, r) ← parse_value sep l; Some (d :: v, r)
     else '(v, r) ← parse_value sep (d :: l); Some (c :: v, r)).
  rewrite E. destruct ((c =? 92) && negb (d =? 0)) eqn:E2.
  - apply andb_prop in E2 as [_ Hd%negb_true_iff%Z.eqb_neq].
    destruct (IH l) as (v & r & -> & Hr & Hlen); [cbn; lia|by eapply ends0_cons|].
    exists (d :: v), r. split_and!; [done|done|cbn; lia].
  - destruct (IH (d :: l)) as (v & r & -> & Hr & Hlen); [cbn; lia|done|].
    exists (c :: v), r. split_and!; [done|done|cbn in *; lia].
Qed.
End scanning.

Lemma length_strip_crs l : (length (strip_crs l) ≤ length l)%nat.
Proof.
  induction l as [|c l IH]; [done|]. cbn. destruct (c =? 0); cbn; [lia|].
  destruct l as [|d l]; [done|]. destruct (_ && _); cbn in *; lia.
Qed.

Lemma ends0_buffer n env : (n ≤ length env)%nat → ends0 (drop n (env ++ [0])).
Proof. intros Hn. unfold ends0. rewrite drop_app_le by done. by rewrite last_snoc. Qed.

(** The variables of the set that is left are among those of the set. *)
Definition set_within (names' names : list (option str)) : Prop :=
  (names' = [] ↔ names = []) ∧ ∀ k, Some k ∈ names' → Some k ∈ names.

Lemma drop_var_within name names : set_within (drop_var_from_set name names).2 names.
Proof.
  destruct names as [|v names]; [by split|]. cbn [drop_var_from_set snd]. split; [done|].
  intros k (x & Hx & Hin)%list_elem_of_fmap. case_bool_decide; [done|by subst].
Qed.

Lemma drop_var_found name names : names ≠ [] → (drop_var_from_set name names).1 = true → Some name ∈ names.
Proof.
  intros Hne. destruct names as [|v names]; [done|]. unfold drop_var_from_set. cbn [fst].
  rewrite existsb_exists. intros (x & Hx & E%bool_decide_eq_true). subst. by apply list_elem_of_In.
Qed.

Section any_text.
Context `{!EnvHooks} (strdup_ok : ∀ s, is_Some (strdup s)) (sep flag : Z).

Definition unlisted_same (names : list (option str)) (h h' : hsearch_data) : Prop :=
  names ≠ [] → ∀ k, Some k ∉ names → vars h' !! k = vars h !! k.

Definition request_key (q : request) : str :=
  match q with Find k => k | Enter k _ _ => k | Delete k _ => k end.

Lemma map_step_frame cap M q k : k ≠ request_key q → (map_step cap M q).1 !! k = M !! k.
Proof.
  intros Hk. destruct q as [k'|k' d f|k' f]; cbn in *; [done|..]; destruct (M !! k') as [e|].
  - destruct (check_change _ _ _ _ _); [done|]. by apply lookup_insert_ne.
  - case_decide; [done|]. destruct (check_change _ _ _ _ _); [done|]. by apply lookup_insert_ne.
  - destruct (check_change _ _ _ _ _); [done|]. by apply lookup_delete_ne.
  - done.
Qed.

Lemma enter_frame h tbl k d : htab_ok h tbl →
  ∃ r, hsearch_r k (Some d) ENV_ENTER h flag = Some r ∧ (∃ tbl', htab_ok (htab_after r) tbl') ∧
    ∀ k', k' ≠ k → vars (htab_after r) !! k' = vars h !! k'.
Proof.
  intros Hok. destruct (table_step_spec strdup_ok h tbl (Enter k d flag) Hok) as (h' & a & Hst & (Hv & _ & Ht) & _).
  cbn [table_step] in Hst. destruct (hsearch_r _ _ _ _ _) as [r|]; [|done]. exists r. split; [done|].
  cbn in Hst. destruct (read_result r); [|done]. injection Hst as <- <-. split; [done|].
  intros k' Hk. rewrite Hv. by apply map_step_frame.
Qed.

Lemma delete_frame h tbl k : htab_ok h tbl →
  ∃ r, hdelete_r k h flag = Some r ∧ (∃ tbl', htab_ok (htab_after r) tbl') ∧
    ∀ k', k' ≠ k → vars (htab_after r) !! k' = vars h !! k'.
Proof.
  intros Hok. destruct (table_step_spec strdup_ok h tbl (Delete k flag) Hok) as (h' & a & Hst & (Hv & _ & Ht) & _).
  cbn [table_step] in Hst. destruct (hdelete_r _ _ _) as [r|]; [|done]. exists r. split; [done|].
  cbn in Hst. assert (htab_after r = h') as -> by (destruct (errno r); by injection Hst).
  split; [done|]. intros k' Hk. rewrite Hv. by apply map_step_frame.
Qed.

Lemma import_line_total dp h tbl names : ends0 dp → htab_ok h tbl →
  ∃ o, import_line sep flag dp h names = Some o ∧
    match o with
    | inr h' => h' = h
    | inl (dp', h', names') =>
        left_over dp' ∧ (length dp' < length dp)%nat ∧ (∃ tbl', htab_ok h' tbl') ∧
        unlisted_same names h h' ∧ set_within names' names
    end.
Proof.
  intros Hdp Hok. unfold import_line, unlisted_same.
  destruct (skip_blanks_total dp Hdp) as (c & r & -> & Hr & Hlen). cbn [mbind option_bind].
  case_bool_decide.
  { destruct (skip_comment_total sep (c :: r) Hr) as (r' & -> & Hr' & Hlen'). cbn [mbind option_bind].
    eexists. split; [done|]. split_and!; [done|lia|by eexists|done|by split]. }
  destruct (parse_name_total sep (c :: r) Hr) as (name & c' & r' & -> & Hr' & Hlen' & _). cbn [mbind option_bind].
  destruct (is_removal_total sep c' r' Hr') as (b & -> & Hb). cbn [mbind option_bind].
  pose proof (drop_var_within name names) as Hwithin. pose proof (drop_var_found name names) as Hfound.
  destruct (drop_var_from_set name names) as [found names'] eqn:Ed. cbn [fst snd] in *.
  destruct b.
  - set (dp' := if bool_decide (head (c' :: r') = Some 61) then drop 2 (c' :: r') else drop 1 (c' :: r')).
    assert (Hdp' : left_over dp' ∧ (length dp' < length dp)%nat).
    { unfold dp'. split; [case_bool_decide; apply left_over_drop; by right|].
      case_bool_decide; rewrite length_drop; cbn in *; lia. }
    destruct found; cbn [negb]; [|eexists; split; [done|]; split_and!; try apply Hdp'; try apply Hwithin; by eauto].
    destruct (delete_frame h tbl name Hok) as (r2 & -> & Ht & Hv). cbn. eexists. split; [done|].
    split_and!; try apply Hdp'; try apply Hwithin; [done|]. intros Hne k Hk. apply Hv. intros ->. by apply Hk, Hfound.
  - destruct (Hb eq_refl) as (_ & _ & Hr2). rewrite (skipn_cons 0), drop_0.
    destruct (parse_value_total sep r' Hr2) as (v & r3 & -> & Hr3 & Hlen3). cbn [mbind option_bind].
    assert (Hl3 : (length r3 < length dp)%nat) by (cbn in *; lia).
    case_bool_decide; [by eexists|].
    destruct found; cbn [negb]; [|eexists; split; [done|]; split_and!; try apply Hwithin; by eauto].
    destruct (enter_frame h tbl name v Hok) as (r2 & -> & Ht & Hv). cbn. eexists. split; [done|].
    split_and!; try apply Hwithin; try done. intros Hne k Hk. apply Hv. intros ->. by apply Hk, Hfound.
Qed.

Lemma set_within_trans n1 n2 n3 : set_within n1 n2 → set_within n2 n3 → set_within n1 n3.
Proof. intros [H1 H2] [H3 H4]. split; [by rewrite H1|auto]. Qed.

Lemma unlisted_same_trans n1 n2 h1 h2 h3 :
  unlisted_same n1 h1 h2 → set_within n2 n1 → unlisted_same n2 h2 h3 → unlisted_same n1 h1 h3.
Proof.
  intros H1 [Hn Hw] H2 Hne k Hk. rewrite H2, H1; [done|done|done|by rewrite Hn|].
  intros Hin. by apply Hk, Hw.
Qed.

Lemma import_lines_total rest dp h tbl names : ends0 dp → htab_ok h tbl →
  ∃ o, import_lines sep flag rest dp h names = Some o ∧
    match o with
    | inr h' => (∃ tbl', htab_ok h' tbl') ∧ unlisted_same names h h'
    | inl (_, h', names') =>
        (∃ tbl', htab_ok h' tbl') ∧ unlisted_same names h h' ∧ set_within names' names
    end.
Proof.
  intros Hdp Hok. unfold import_lines.
  loop_ix (length dp) (λ (m : nat) '((dp1, h1, names1) : list Z * hsearch_data * list (option str)),
      m = length dp1 ∧ ends0 dp1 ∧ (∃ tbl', htab_ok h1 tbl') ∧ unlisted_same names h h1 ∧ set_within names1 names)
    (λ o : list Z * hsearch_data * list (option str) + hsearch_data, match o with
    | inr h' => (∃ tbl', htab_ok h' tbl') ∧ unlisted_same names h h'
    | inl (_, h', names') =>
        (∃ tbl', htab_ok h' tbl') ∧ unlisted_same names h h' ∧ set_within names' names
    end).
  - intros m [[dp1 h1] names1] (-> & Hdp1 & (tbl1 & Hok1) & Hsame & Hw).
    destruct (import_line_total dp1 h1 tbl1 names1 Hdp1 Hok1) as ([[[dp2 h2] names2]|h2] & -> & Hline);
      cbn [mbind option_bind].
    + destruct Hline as (Hdp2 & Hlen & Hok2 & Hsame2 & Hw2).
      assert (Hall : (∃ tbl', htab_ok h2 tbl') ∧ unlisted_same names h h2 ∧ set_within names2 names).
      { split; [done|]. split; [by eapply unlisted_same_trans|by eapply set_within_trans]. }
      destruct (Nat.ltb_spec rest (length dp2)); [|by eexists].
      destruct Hdp2 as [->|Hdp2]; [cbn in *; lia|]. destruct dp2 as [|c dp2]; [done|].
      cbn [head mbind option_bind]. destruct (c =? 0); cbn [negb]; (eexists; split; [done|]); [done|].
      exists (length (c :: dp2)). split; [done|]. by split.
    + eexists. split; [done|]. subst h2. split; [by eexists|done].
  - split; [done|]. split; [done|]. split; [by eexists|]. split; [done|by split].
  - lia.
  - by eexists.
Qed.

Lemma delete_unseen_total names h tbl : htab_ok h tbl →
  ∃ h', delete_unseen names flag h = Some h' ∧ (∃ tbl', htab_ok h' tbl') ∧
    ∀ k, Some k ∉ names → vars h' !! k = vars h !! k.
Proof.
  revert h tbl. induction names as [|[v|] names IH]; intros h tbl Hok; cbn.
  - exists h. split_and!; [done|by eexists|done].
  - destruct (delete_frame h tbl v Hok) as (r & -> & (tbl1 & Hok1) & Hv). cbn.
    destruct (IH _ _ Hok1) as (h' & -> & Hok' & Hsame). exists h'. split_and!; [done|done|].
    intros k Hk. apply not_elem_of_cons in Hk as [Hkv Hk]. rewrite Hsame by done. apply Hv. congruence.
  - destruct (IH _ _ Hok) as (h' & -> & Hok' & Hsame). exists h'. split_and!; [done|done|].
    intros k Hk. apply not_elem_of_cons in Hk as [_ Hk]. by apply Hsame.
Qed.

Definition table_state (h : hsearch_data) : Prop := table h = None ∨ ∃ tbl, htab_ok h tbl.

Lemma import_table_total h size n : 0 ≤ size → table_state h →
  ∃ b h0, import_table h size flag n = Some (b, h0) ∧
    (if b then ∃ tbl, htab_ok h0 tbl else table h0 = None) ∧
    ((n ≠ 0%nat ∨ has_flag flag H_NOCLEAR = true) → vars h0 = vars h).
Proof.
  intros Hsize Hst. unfold import_table.
  set (start := if negb (has_flag flag H_NOCLEAR) && bool_decide (n = 0%nat) then _ else _).
  assert (Hstart : ∃ h1, start = Some h1 ∧ table_state h1 ∧
      ((n ≠ 0%nat ∨ has_flag flag H_NOCLEAR = true) → h1 = h)).
  { unfold start. destruct (has_flag flag H_NOCLEAR); cbn; [by exists h|]. case_bool_decide as Hn; cbn.
    - destruct h as [[t|] s f]; cbn; (eexists; split; [done|]); (split; [by left|]); [intros [?|?]; done|done].
    - by exists h. }
  destruct Hstart as (h1 & -> & Hst1 & Hsame). cbn [mbind option_bind].
  destruct Hst1 as [Hnone|[tbl1 Hok1]].
  - rewrite Hnone. unfold CONFIG_ENV_MIN_ENTRIES, CONFIG_ENV_MAX_ENTRIES.
    assert (0 ≤ size / 8) by (apply Z.div_pos; lia).
    set (nent := if 512 <? 64 + size / 8 then 512 else 64 + size / 8).
    assert (Hn : 64 ≤ nent ≤ 512) by (unfold nent; destruct (Z.ltb_spec 512 (64 + size / 8)); lia).
    destruct (hcreate_spec 1024 nent 521 h1) as (r & h0 & -> & Hres); [lia|exact prime_521|lia..|].
    rewrite Hnone in Hres. destruct Hres as (_ & _ & _ & Hres). cbn.
    assert (Hv : vars h1 = ∅) by (unfold vars; by rewrite Hnone).
    destruct (calloc_ok (hsize h0 + 1)).
    + destruct Hres as (-> & Hok & Hv0). exists true, h0. split_and!; [done|done|].
      intros Hc. rewrite <-(Hsame Hc). congruence.
    + destruct Hres as (-> & Hnone0). exists false, h0. split_and!; [done|done|].
      intros Hc. rewrite <-(Hsame Hc), Hv. unfold vars. by rewrite Hnone0.
  - rewrite (ok_table _ _ Hok1). exists true, h1. split_and!; [done|by eexists|].
    intros Hc. by rewrite (Hsame Hc).
Qed.
End any_text.

Lemma himport_total `{!EnvHooks} (strdup_ok : ∀ s, is_Some (strdup s))
    h env sep flag crlf_is_lf (names : list str) : table_state h →
  ∃ r e h', himport_r (Some h) env sep flag crlf_is_lf names = Some (r, e, Some h') ∧
    table_state h' ∧ (names ≠ [] → ∀ k, k ∉ names → vars h' !! k = vars h !! k).
Proof.
  intros Hst. unfold himport_r. destruct (malloc_ok _); cbn [negb]; [|by eexists _, _, h].
  destruct (import_table_total flag h (Z.of_nat (length env)) (length names)) as (b & h0 & -> & Hb & Hv0); [lia|done|].
  cbn [mbind option_bind].
  assert (Hv : names ≠ [] → vars h0 = vars h).
  { intros Hne. apply Hv0. left. by destruct names. }
  destruct b; cbn [negb]; [|eexists _, _, h0; split; [done|]; split; [by left|]; intros Hne k _; by rewrite Hv].
  destruct Hb as [tbl0 Hok0].
  destruct (Z.of_nat (length env) =? 0);
    [eexists _, _, h0; split; [done|]; split; [right; by eexists|]; intros Hne k _; by rewrite Hv|].
  assert (Hbuf : ∃ buf ign, (if crlf_is_lf then remove_crs env else (env ++ [0], 0%nat)) = (buf, ign) ∧ ends0 buf).
  { destruct crlf_is_lf; eexists _, _; (split; [done|]); [|by apply (ends0_buffer 0); lia].
    pose proof (ends0_buffer (length (strip_crs env)) env (length_strip_crs env)) as He.
    unfold ends0 in *. by rewrite last_app, He. }
  destruct Hbuf as (buf & ign & -> & Hbuf).
  assert (Hns : ∀ k, k ∉ names → Some k ∉ Some <$> names) by (intros k Hk (? & [= <-] & ?)%list_elem_of_fmap; done).
  assert (Hnn : names ≠ [] → Some <$> names ≠ []) by by destruct names.
  destruct (import_lines_total strdup_ok sep flag (S ign) buf h0 tbl0 (Some <$> names)) as ([[[dp h1] names1]|h1] & -> & Hl);
    [done|done|..]; cbn [mbind option_bind].
  - destruct Hl as ((tbl1 & Hok1) & Hsame & Hw). destruct (has_flag flag H_NOCLEAR).
    + eexists _, _, h1. split; [done|]. split; [right; by eexists|].
      intros Hne k Hk. by rewrite Hsame, Hv by auto.
    + destruct (delete_unseen_total strdup_ok flag names1 h1 tbl1 Hok1) as (h2 & -> & Hok2 & Hs2). cbn.
      eexists _, _, h2. split; [done|]. split; [by right|]. intros Hne k Hk.
      assert (Some k ∉ names1) by (intros Hin; by apply (Hns k Hk), Hw).
      by rewrite Hs2, Hsame, Hv by auto.
  - destruct Hl as (Hok1 & Hsame). eexists _, _, h1. split; [done|]. split; [by right|].
    intros Hne k Hk. by rewrite Hsame, Hv by auto.
Qed.

(** C17. Safety: whatever the text, the separator, the flags and the set of
    names, the import ends, reads nothing outside of its copy of the text and
    leaves a well formed table or none; when a set of names is given, only
    variables of the set change. *)
Theorem himport_safe `{!EnvHooks} (strdup_ok : ∀ s, is_Some (strdup s))
    h env sep flag crlf_is_lf (names : list str) : table_state h →
  ∃ r e h', himport_r (Some h) env sep flag crlf_is_lf names = Some (r, e, Some h') ∧
    table_state h' ∧ (names ≠ [] → ∀ k, k ∉ names → vars h' !! k = vars h !! k).
Proof. by apply himport_total. Qed.

(** With the room that pass 1 counts, hexport_r writes exactly the
    selected entries, a terminator and padding, inside the buffer, and returns
    the size; a size that is too small is an error and the buffer is left
    alone. *)
Theorem hexport_correct `{!EnvHooks, !Regex} h tbl sep flag buf size argv : htab_ok h tbl →
  let sel := filter (λ e, selected flag argv e) (pairs tbl) in
  Forall (counted sep) sel →
  Z.of_nat (length (sel ≫= export_entry sep)) + 1 < 2 ^ 32 → 0 ≤ size →
  ∃ l, l ≡ₚ sel ∧ qsort cmpkey sel = Some l ∧
    let text := (l ≫= export_entry sep) ++ [0] in
    let size' := export_size size text in
    (size' < Z.of_nat (length text) →
      hexport_r (Some h) sep flag (Some buf) size argv = Some (-1, Some ENOMEM, buf)) ∧
    (Z.of_nat (length text) ≤ size' → buf = None →
      hexport_r (Some h) sep flag (Some buf) size argv =
        if calloc_ok size'
        then Some (size', None, Some (text ++ replicate (Z.to_nat size' - length text) 0))
        else Some (-1, Some ENOMEM, None)) ∧
    (∀ b, Z.of_nat (length text) ≤ size' → buf = Some b → size' ≤ Z.of_nat (length b) →
      hexport_r (Some h) sep flag (Some buf) size argv =
        Some (size', None,
          Some (text ++ replicate (Z.to_nat size' - length text) 0 ++ drop (Z.to_nat size') b))).
Proof. apply hexport_spec. Qed.

(** ** Examples *)

Definition open_hooks : EnvHooks := {|
  change_ok := None;
  run_callback := λ cb k d op flag, false;
  env_callback_init := λ k, None;
  env_flags_init := λ k, 0;
  strdup := Some;
  strdup_same := λ s s' H, eq_sym (Some_inj s s' H);
  calloc_ok := λ n, true;
  malloc_ok := λ n, true
|}.

(** Patterns that stand for themselves. *)
Definition plain_regex : Regex := {|
  slre := str;
  slre_compile := Some;
  slre_match := λ p s, contains s p
|}.

(** a=1, b=x\ny with a newline, c=/ and a backslash. *)
Definition ex_table : hsearch_data :=
  match @table_run open_hooks (fresh_table 5)
    [Enter [99] [47; 92] 0; Enter [98] [120; 10; 121] 0; Enter [97] [49] 0] with
  | Some (h, _) => h
  | None => fresh_table 5
  end.

Definition ex_nodes : list env_entry_node := default [] (table ex_table).

Lemma ex_table_ok : htab_ok ex_table ex_nodes.
Proof.
  destruct (@table_run_spec open_hooks (λ s, ex_intro _ s eq_refl) (fresh_table 5) (replicate 6 free_node)
    [Enter [99] [47; 92] 0; Enter [98] [120; 10; 121] 0; Enter [97] [49] 0] fresh_table_5)
    as (h & tbl & E & Hok & _).
  assert (Eh : ex_table = h) by (unfold ex_table; by rewrite E).
  unfold ex_nodes. by rewrite Eh, (ok_table _ _ Hok).
Qed.

Lemma ex_exportable : exportable 10 ex_nodes.
Proof.
  unfold exportable. set (l := pairs ex_nodes). vm_compute in l. unfold l.
  repeat apply Forall_cons_2; try apply Forall_nil_2;
    (split; [|split; [|by left]]); cbn;
    unfold name_ok, value_ok; cbn; split_and!; try set_solver; eexists _, _; split_and!; done.
Qed.

Lemma env_text_roundtrip_witness :
  ∃ n text h2 tbl2,
    @hexport_r open_hooks plain_regex (Some ex_table) 10 0 (Some None) 0 [] = Some (n, None, Some text) ∧
    @himport_r open_hooks (Some no_table) text 10 0 false [] = Some (1, None, Some h2) ∧
    htab_ok h2 tbl2 ∧ omap data (vars h2) = omap data (vars ex_table).
Proof.
  apply (@env_text_roundtrip open_hooks plain_regex) with (tbl := ex_nodes).
  - intros s. by exists s.
  - done.
  - done.
  - by split_and!.
  - exact ex_table_ok.
  - exact ex_exportable.
  - unfold importable. repeat constructor.
  - vm_compute. done.
  - vm_compute. done.
  - vm_compute. done.
Defined.

(** The text of that table. *)
Example ex_text :
  @hexport_r open_hooks plain_regex (Some ex_table) 10 0 (Some None) 0 [] =
  Some (18, None, Some [97; 61; 49; 10; 98; 61; 120; 92; 10; 121; 10; 99; 61; 47; 92; 92; 10; 0]).
Proof. vm_compute. reflexivity. Qed.

Lemma hexport_correct_witness :
  let sel := filter (λ e, @selected plain_regex 0 [] e) (pairs ex_nodes) in
  ∃ l, l ≡ₚ sel ∧ qsort cmpkey sel = Some l ∧
    let text := (l ≫= export_entry 10) ++ [0] in
    let size' := export_size 5 text in
    (size' < Z.of_nat (length text) →
      @hexport_r open_hooks plain_regex (Some ex_table) 10 0 (Some None) 5 [] = Some (-1, Some ENOMEM, None)) ∧
    (Z.of_nat (length text) ≤ size' → @None (list Z) = None →
      @hexport_r open_hooks plain_regex (Some ex_table) 10 0 (Some None) 5 [] =
        if @calloc_ok open_hooks size'
        then Some (size', None, Some (text ++ replicate (Z.to_nat size' - length text) 0))
        else Some (-1, Some ENOMEM, None)) ∧
    (∀ b, Z.of_nat (length text) ≤ size' → None = Some b → size' ≤ Z.of_nat (length b) →
      @hexport_r open_hooks plain_regex (Some ex_table) 10 0 (Some None) 5 [] =
        Some (size', None,
          Some (text ++ replicate (Z.to_nat size' - length text) 0 ++ drop (Z.to_nat size') b))).
Proof.
  apply (@hexport_correct open_hooks plain_regex ex_table ex_nodes 10 0 None 5 [] ex_table_ok).
  - apply Forall_forall. intros e _. by left.
  - vm_compute. done.
  - done.
Defined.

Definition ex_lines : list line :=
  [Comment [32] [104; 105]; Setting [9; 32] [97] [49; 10; 92; 50]; Removal [] [98] true; Removal [] [99] false].

Lemma himport_correct_witness :
  ∃ h0 h' tbl', starts_with ex_table (Z.of_nat (length ((ex_lines ≫= line_text 10) ++ []))) H_NOCLEAR h0 ∧
    @himport_r open_hooks (Some ex_table) ((ex_lines ≫= line_text 10) ++ []) 10 H_NOCLEAR false [] =
      Some (1, None, Some h') ∧ htab_ok h' tbl' ∧
    vars h' = (@map_run open_hooks (Z.to_nat (hsize h0)) (vars h0) (ex_lines ≫= line_requests H_NOCLEAR)).1.
Proof.
  apply (@himport_correct open_hooks).
  - intros s. by exists s.
  - done.
  - done.
  - by split_and!.
  - unfold ex_lines. repeat apply Forall_cons_2; try apply Forall_nil_2; cbn; unfold name_ok, value_ok;
      split_and!; try set_solver; try (repeat constructor; done); eexists _, _; split_and!; done.
  - done.
  - by left.
  - intros _. exists ex_nodes. exact ex_table_ok.
Defined.

Lemma himport_safe_witness :
  ∃ r e h', @himport_r open_hooks (Some ex_table) [61; 61; 92] 10 0 true [[97]] = Some (r, e, Some h') ∧
    table_state h' ∧ ([[97]] ≠ [] → ∀ k, k ∉ [[97]] → vars h' !! k = vars ex_table !! k).
Proof.
  apply (@himport_safe open_hooks).
  - intros s. by exists s.
  - right. exists ex_nodes. exact ex_table_ok.
Defined.

Definition backslash_table : hsearch_data :=
  match @table_run open_hooks (fresh_table 5) [Enter [97] [92] 0] with
  | Some (h, _) => h
  | None => fresh_table 5
  end.

(** With the separator NUL, pass 2 writes escapes that pass 1 does not count:
    the buffer allocated for one variable overflows. *)
Example hexport_nul_overflow :
  @hexport_r open_hooks plain_regex (Some backslash_table) 0 0 (Some None) 0 [] = None.
Proof. vm_compute. reflexivity. Qed.

(** Removing CRs leaves the end of the old text in place: the value of the
    last line, here "2", gets its last character twice when no newline ends
    it. *)
Example himport_crlf_repeats :
  match @himport_r open_hooks (Some (fresh_table 5)) [97; 61; 49; 13; 10; 98; 61; 50] 10 0 true [] with
  | Some (_, _, Some h) => (vars h !! [98]) ≫= data = Some [50; 50]
  | _ => False
  end.
Proof. vm_compute. reflexivity. Qed.

(** The order of the names is not that of their characters when two differ by
    more than 127. *)
Example cmpkey_order : cmpkey ([200], []) ([10], []) = -66.
Proof. reflexivity. Qed.
