(* ===== verification/Blkcache.v ===== *)
(** * Blkcache: the cache of blocks read from storage devices
    (drivers/block/blkcache.c) and the block operations that use it
    (blk_dread, blk_dwrite, blk_derase of drivers/block/blk-uclass.c)

    The list of nodes is in the order of the last use; buffers are lists of
    bytes of their real length, and a copy outside of a buffer has no result.
    What [malloc] gives is an argument of [blkcache_fill]; the driver of a
    device is the class [BlkOps]. *)

From Stdlib Require Import ZArith Lia List.
From stdpp Require Import base numbers list option sets.
From S2P Require Import Prelude.

(** ** The cache *)

Record block_cache_node := {
  iftype : Z; devnum : Z; start : Z; blkcnt : Z; blksz : Z; cache : list Z
}.

Record block_cache_stats := {
  hits : Z; misses : Z; entries : Z; max_blocks_per_entry : Z; max_entries : Z
}.

Record blkcache := { block_cache : list block_cache_node; _stats : block_cache_stats }.

Definition initial_stats : block_cache_stats :=
  {| hits := 0; misses := 0; entries := 0; max_blocks_per_entry := 8; max_entries := 32 |}.

Definition initial_cache : blkcache := {| block_cache := []; _stats := initial_stats |}.

Definition set_counts (s : block_cache_stats) (h m e : Z) : block_cache_stats :=
  {| hits := u32 h; misses := u32 m; entries := u32 e;
     max_blocks_per_entry := max_blocks_per_entry s; max_entries := max_entries s |}.

(** memcpy of [n] bytes from offset [off] of [src] to the start of [dst]. *)
Definition memcpy_from (dst src : list Z) (off n : Z) : option (list Z) :=
  if (off + n <=? Z.of_nat (length src)) && (n <=? Z.of_nat (length dst))
  then Some (take (Z.to_nat n) (drop (Z.to_nat off) src) ++ drop (Z.to_nat n) dst)
  else None.

Definition node_hit (iftype0 devnum0 start0 blkcnt0 blksz0 : Z) (node : block_cache_node) : bool :=
  (iftype node =? iftype0) && (devnum node =? devnum0) && (blksz node =? blksz0) &&
  (start node <=? start0) && (u32 (start0 + blkcnt0) <=? u32 (start node + blkcnt node)).

(** The first node that has the blocks, and the others. *)
Fixpoint find_node (p : block_cache_node → bool) (l : list block_cache_node)
    : option (block_cache_node * list block_cache_node) :=
  match l with
  | [] => None
  | node :: l =>
      if p node then Some (node, l)
      else '(found, l) ← find_node p l; Some (found, node :: l)
  end.

(** The node found becomes the first of the list. *)
Definition cache_find (iftype0 devnum0 start0 blkcnt0 blksz0 : Z) (l : list block_cache_node)
    : option block_cache_node * list block_cache_node :=
  match find_node (node_hit iftype0 devnum0 start0 blkcnt0 blksz0) l with
  | Some (node, l') => (Some node, node :: l')
  | None => (None, l)
  end.

(** The result is the returned number, the buffer and the cache. *)
Definition blkcache_read (iftype0 devnum0 start0 blkcnt0 blksz0 : Z) (buffer : list Z) (c : blkcache)
    : option (Z * list Z * blkcache) :=
  let s := _stats c in
  let '(node, l) := cache_find iftype0 devnum0 start0 blkcnt0 blksz0 (block_cache c) in
  match node with
  | Some node =>
      buffer ← memcpy_from buffer (cache node) (u32 (u32 (start0 - start node) * blksz0)) (u32 (blksz0 * blkcnt0));
      Some (1, buffer,
        {| block_cache := l; _stats := set_counts s (hits s + 1) (misses s) (entries s) |})
  | None =>
      Some (0, buffer,
        {| block_cache := l; _stats := set_counts s (hits s) (misses s + 1) (entries s) |})
  end.

(** [node_mem] tells whether a node can be allocated, [malloc] gives the
    buffers. *)
Definition blkcache_fill (node_mem : bool) (malloc : Z → option (list Z))
    (iftype0 devnum0 start0 blkcnt0 blksz0 : Z) (buffer : list Z) (c : blkcache) : option blkcache :=
  let s := _stats c in
  if max_blocks_per_entry s <? blkcnt0 then Some c
  else if max_entries s =? 0 then Some c
  else
    let bytes := u32 (blksz0 * blkcnt0) in
    '(node, l, n) ← (if max_entries s <=? entries s then
        node ← last (block_cache c);
        let old := if u32 (blkcnt node * blksz node) <? bytes then None else Some (cache node) in
        Some (Some old, take (length (block_cache c) - 1) (block_cache c), u32 (entries s - 1))
      else Some (if node_mem then Some None else None, block_cache c, entries s));
    let dropped := {| block_cache := l; _stats := set_counts s (hits s) (misses s) n |} in
    match node with
    | None => Some c
    | Some old =>
        match (match old with Some b => Some b | None => malloc bytes end) with
        | None => Some dropped
        | Some b =>
            b ← memcpy_from b buffer 0 bytes;
            let node := {| iftype := iftype0; devnum := devnum0; start := start0;
                           blkcnt := blkcnt0; blksz := blksz0; cache := b |} in
            Some {| block_cache := node :: l; _stats := set_counts s (hits s) (misses s) (n + 1) |}
        end
    end.

Definition of_device (iftype0 devnum0 : Z) (node : block_cache_node) : bool :=
  (iftype node =? iftype0) && (devnum node =? devnum0).

Fixpoint invalidate_list (iftype0 devnum0 : Z) (l : list block_cache_node) (n : Z)
    : list block_cache_node * Z :=
  match l with
  | [] => ([], n)
  | node :: l =>
      if of_device iftype0 devnum0 node then invalidate_list iftype0 devnum0 l (u32 (n - 1))
      else let '(l, n) := invalidate_list iftype0 devnum0 l n in (node :: l, n)
  end.

Definition blkcache_invalidate (iftype0 devnum0 : Z) (c : blkcache) : blkcache :=
  let s := _stats c in
  let '(l, n) := invalidate_list iftype0 devnum0 (block_cache c) (entries s) in
  {| block_cache := l; _stats := set_counts s (hits s) (misses s) n |}.

Definition blkcache_configure (blocks entries0 : Z) (c : blkcache) : blkcache :=
  let s := _stats c in
  let '(l, n) :=
    if negb (blocks =? max_blocks_per_entry s) || negb (entries0 =? max_entries s)
    then ([], 0) else (block_cache c, entries s) in
  {| block_cache := l;
     _stats := {| hits := 0; misses := 0; entries := n;
                  max_blocks_per_entry := blocks; max_entries := entries0 |} |}.

Definition blkcache_stats (c : blkcache) : block_cache_stats * blkcache :=
  let s := _stats c in
  (s, {| block_cache := block_cache c; _stats := set_counts s 0 0 (entries s) |}).

(** ** The block operations *)

Record blk_desc := { if_type : Z; bdevnum : Z; bblksz : Z }.

Definition ENOSYS : Z := 38.

(** What a driver does to the media it holds; a driver may lack an operation.
    [medium] is the content of a device.  A read that returns the number of
    blocks asked for has put them into the buffer; a write or an erasure
    changes its own device only. *)
Class BlkOps := {
  media : Type;
  medium : media → Z → Z → list Z;
  sector : Z → Z → Z;
  op_read : option (media → Z → Z → Z → Z → list Z → Z * list Z);
  op_write : option (media → Z → Z → Z → Z → list Z → Z * media);
  op_erase : option (media → Z → Z → Z → Z → Z * media);
  read_all f m i d s n buf buf' : op_read = Some f → f m i d s n buf = (n, buf') →
    0 ≤ s → 0 ≤ n → n * sector i d ≤ Z.of_nat (length buf) →
    s + n < 2 ^ 32 ∧ (s + n) * sector i d ≤ Z.of_nat (length (medium m i d)) ∧
    buf' = take (Z.to_nat (n * sector i d)) (drop (Z.to_nat (s * sector i d)) (medium m i d)) ++
           drop (Z.to_nat (n * sector i d)) buf;
  write_own f m i d s n buf r m' i' d' : op_write = Some f → f m i d s n buf = (r, m') →
    (i', d') ≠ (i, d) → medium m' i' d' = medium m i' d';
  erase_own f m i d s n r m' i' d' : op_erase = Some f → f m i d s n = (r, m') →
    (i', d') ≠ (i, d) → medium m' i' d' = medium m i' d'
}.

Section operations.
Context `{!BlkOps}.

Record blk_state := { bcache : blkcache; bmedia : media }.

Definition blk_dread (node_mem : bool) (malloc : Z → option (list Z)) (block_dev : blk_desc)
    (start0 blkcnt0 : Z) (buffer : list Z) (st : blk_state) : option (Z * list Z * blk_state) :=
  match op_read with
  | None => Some (u32 (- ENOSYS), buffer, st)
  | Some read =>
      '(hit, buffer, c) ← blkcache_read (if_type block_dev) (bdevnum block_dev) start0 blkcnt0
        (bblksz block_dev) buffer (bcache st);
      let st := {| bcache := c; bmedia := bmedia st |} in
      if negb (hit =? 0) then Some (blkcnt0, buffer, st)
      else
        let '(blks_read, buffer) :=
          read (bmedia st) (if_type block_dev) (bdevnum block_dev) start0 blkcnt0 buffer in
        if blks_read =? blkcnt0 then
          c ← blkcache_fill node_mem malloc (if_type block_dev) (bdevnum block_dev) start0 blkcnt0
            (bblksz block_dev) buffer c;
          Some (blks_read, buffer, {| bcache := c; bmedia := bmedia st |})
        else Some (blks_read, buffer, st)
  end.

Definition blk_dwrite (block_dev : blk_desc) (start0 blkcnt0 : Z) (buffer : list Z) (st : blk_state)
    : Z * blk_state :=
  match op_write with
  | None => (u32 (- ENOSYS), st)
  | Some write =>
      let c := blkcache_invalidate (if_type block_dev) (bdevnum block_dev) (bcache st) in
      let '(r, m) := write (bmedia st) (if_type block_dev) (bdevnum block_dev) start0 blkcnt0 buffer in
      (r, {| bcache := c; bmedia := m |})
  end.

Definition blk_derase (block_dev : blk_desc) (start0 blkcnt0 : Z) (st : blk_state) : Z * blk_state :=
  match op_erase with
  | None => (u32 (- ENOSYS), st)
  | Some erase =>
      let c := blkcache_invalidate (if_type block_dev) (bdevnum block_dev) (bcache st) in
      let '(r, m) := erase (bmedia st) (if_type block_dev) (bdevnum block_dev) start0 blkcnt0 in
      (r, {| bcache := c; bmedia := m |})
  end.

(** ** The system: any sequence of operations *)

(** The sector size of the descriptor is that of the device; the transfer fits
    in the buffer, and the blocks asked for have 32-bit numbers. *)
Definition request_ok (block_dev : blk_desc) (start0 blkcnt0 : Z) (buffer : list Z) : Prop :=
  bblksz block_dev = sector (if_type block_dev) (bdevnum block_dev) ∧ 0 < bblksz block_dev ∧
  0 ≤ start0 ∧ 0 ≤ blkcnt0 ∧ start0 + blkcnt0 < 2 ^ 32 ∧
  blkcnt0 * bblksz block_dev ≤ Z.of_nat (length buffer) < 2 ^ 32.

Definition malloc_fits (malloc : Z → option (list Z)) : Prop :=
  ∀ n b, malloc n = Some b → Z.of_nat (length b) = n.

Inductive blk_step : blk_state → blk_state → Prop :=
| step_read node_mem malloc dev s n buf st r buf' st' :
    malloc_fits malloc → request_ok dev s n buf →
    blk_dread node_mem malloc dev s n buf st = Some (r, buf', st') → blk_step st st'
| step_write dev s n buf st r st' : blk_dwrite dev s n buf st = (r, st') → blk_step st st'
| step_erase dev s n st r st' : blk_derase dev s n st = (r, st') → blk_step st st'
| step_invalidate i d st :
    blk_step st {| bcache := blkcache_invalidate i d (bcache st); bmedia := bmedia st |}
| step_configure b e st : 0 ≤ b < 2 ^ 32 → 0 ≤ e < 2 ^ 32 →
    blk_step st {| bcache := blkcache_configure b e (bcache st); bmedia := bmedia st |}
| step_stats st : blk_step st {| bcache := (blkcache_stats (bcache st)).2; bmedia := bmedia st |}.

(** The states that can be reached from an empty cache. *)
Inductive reachable : blk_state → Prop :=
| reach_init m : reachable {| bcache := initial_cache; bmedia := m |}
| reach_step st st' : reachable st → blk_step st st' → reachable st'.

(** A node holds the blocks of its device. *)
Definition node_ok (m : media) (node : block_cache_node) : Prop :=
  let sz := sector (iftype node) (devnum node) in
  blksz node = sz ∧ 0 < sz ∧ 0 ≤ start node ∧ 0 ≤ blkcnt node ∧ start node + blkcnt node < 2 ^ 32 ∧
  blkcnt node * sz ≤ Z.of_nat (length (cache node)) ∧ blkcnt node * sz < 2 ^ 32 ∧
  (start node + blkcnt node) * sz ≤ Z.of_nat (length (medium m (iftype node) (devnum node))) ∧
  take (Z.to_nat (blkcnt node * sz)) (cache node) =
    take (Z.to_nat (blkcnt node * sz)) (drop (Z.to_nat (start node * sz)) (medium m (iftype node) (devnum node))).

Record coherent (st : blk_state) : Prop := {
  co_nodes : Forall (node_ok (bmedia st)) (block_cache (bcache st));
  co_entries : entries (_stats (bcache st)) = Z.of_nat (length (block_cache (bcache st)));
  co_bound : entries (_stats (bcache st)) ≤ max_entries (_stats (bcache st)) < 2 ^ 32
}.

End operations.

(** ** Lists and copies *)

Lemma take_drop_agree {A} (x y : list A) (k m off : nat) :
  take k x = take k y → (off + m ≤ k)%nat → take m (drop off x) = take m (drop off y).
Proof.
  intros H Hk. rewrite !take_drop_commute.
  assert (Ht : ∀ l : list A, take (off + m) l = take (off + m) (take k l)).
  { intros l. by rewrite take_take, Nat.min_l by lia. }
  by rewrite (Ht x), (Ht y), H.
Qed.

Lemma find_node_spec p l node l' : find_node p l = Some (node, l') →
  p node = true ∧ node ∈ l ∧ node :: l' ≡ₚ l.
Proof.
  revert l'. induction l as [|x l IH]; intros l'; cbn; [done|].
  destruct (p x) eqn:E; [intros [= -> ->]; split_and!; [done|by left|done]|].
  destruct (find_node p l) as [[found l2]|]; [|done]. cbn. intros [= -> <-].
  destruct (IH l2 eq_refl) as (Hp & Hin & Hperm). split_and!; [done|by right|].
  rewrite <-Hperm. apply perm_swap.
Qed.

Lemma find_node_none p l : find_node p l = None → ∀ node, node ∈ l → p node = false.
Proof.
  induction l as [|x l IH]; cbn; [intros _ node Hn; by apply not_elem_of_nil in Hn|].
  destruct (p x) eqn:E; [done|]. destruct (find_node p l) as [[]|]; [done|].
  intros _ node [->|Hn]%elem_of_cons; [done|by apply IH].
Qed.

Lemma invalidate_list_spec i d l n : Z.of_nat (length l) ≤ n < 2 ^ 32 →
  invalidate_list i d l n =
    (filter (λ node, of_device i d node = false) l,
     n - Z.of_nat (length (filter (λ node, of_device i d node = true) l))).
Proof.
  revert n. induction l as [|x l IH]; intros n Hn; cbn [invalidate_list length] in *; [by rewrite Z.sub_0_r|].
  rewrite !filter_cons. destruct (of_device i d x); cbn [length].
  - rewrite decide_False, decide_True by done. rewrite IH by (word_small; lia). word_small.
    cbn [length]. f_equal. lia.
  - rewrite decide_True, decide_False by done. by rewrite IH by lia.
Qed.

Lemma filter_lengths {A} (p : A → bool) l :
  (length (filter (λ x, p x = false) l) + length (filter (λ x, p x = true) l) = length l)%nat.
Proof.
  induction l as [|x l IH]; [done|]. rewrite !filter_cons.
  destruct (p x); [rewrite decide_False, decide_True by done|rewrite decide_True, decide_False by done];
    cbn [length]; lia.
Qed.

(** ** Coherence *)

Section coherence.
Context `{!BlkOps}.
Implicit Types (st : blk_state) (c : blkcache).

Definition cache_ok (m : media) c : Prop :=
  Forall (node_ok m) (block_cache c) ∧ entries (_stats c) = Z.of_nat (length (block_cache c)) ∧
  entries (_stats c) ≤ max_entries (_stats c) < 2 ^ 32.

Lemma coherent_cache_ok st : coherent st ↔ cache_ok (bmedia st) (bcache st).
Proof. split; [by intros []|by intros (? & ? & ?)]. Qed.

(** The bytes of the blocks. *)
Definition sectors (m : media) (dev : blk_desc) (s n : Z) : list Z :=
  take (Z.to_nat (n * bblksz dev)) (drop (Z.to_nat (s * bblksz dev)) (medium m (if_type dev) (bdevnum dev))).

Lemma blkcache_read_spec m c dev s n buf : cache_ok m c → request_ok dev s n buf →
  ∃ r buf' c', blkcache_read (if_type dev) (bdevnum dev) s n (bblksz dev) buf c = Some (r, buf', c') ∧
    cache_ok m c' ∧
    ((r = 0 ∧ buf' = buf) ∨
     (r = 1 ∧ buf' = sectors m dev s n ++ drop (Z.to_nat (n * bblksz dev)) buf ∧
      (s + n) * bblksz dev ≤ Z.of_nat (length (medium m (if_type dev) (bdevnum dev))))).
Proof.
  intros (Hn & He & Hb) (Hsz & Hpos & Hs & Hcnt & Hsn & Hbuf). unfold blkcache_read, cache_find.
  destruct (find_node _ (block_cache c)) as [[node l]|] eqn:Ef.
  - apply find_node_spec in Ef as (Hhit & Hin & Hperm).
    rewrite Forall_forall in Hn. destruct (Hn node Hin) as (N1 & N2 & N3 & N4 & N5 & N6 & N7 & N8 & N9).
    unfold node_hit in Hhit. rewrite !andb_true_iff, !Z.eqb_eq, !Z.leb_le in Hhit.
    destruct Hhit as ((((Hi & Hd) & Hz) & Hst) & Hend). rewrite !wrap_small in Hend by lia.
    rewrite N1, Hi, Hd, <-Hsz in *. set (sz := bblksz dev) in *.
    assert ((s - start node) * sz + n * sz ≤ blkcnt node * sz) by nia.
    assert (0 ≤ (s - start node) * sz) by nia. assert (0 ≤ n * sz) by nia.
    rewrite (wrap_small 32 (s - start node)) by lia. rewrite !wrap_small by lia.
    unfold memcpy_from. rewrite (Z.mul_comm sz n).
    rewrite (proj2 (Z.leb_le _ _)), (proj2 (Z.leb_le _ _)) by lia. cbn [andb mbind option_bind].
    eexists _, _, _. split; [done|]. split.
    + split; cbn; [rewrite Hperm; by apply Forall_forall|].
      apply Permutation_length in Hperm. cbn in Hperm. rewrite wrap_small by lia. lia.
    + right. split; [done|]. split; [|nia]. unfold sectors. fold sz. f_equal.
      rewrite (take_drop_agree (cache node) _ (Z.to_nat (blkcnt node * sz)) _ _ N9) by lia.
      rewrite drop_drop. do 2 f_equal. nia.
  - eexists _, _, _. split; [done|]. split; [|by left].
    split; [done|]. cbn. rewrite wrap_small by lia. lia.
Qed.

Lemma blkcache_fill_spec node_mem malloc m c dev s n buf :
  malloc_fits malloc → cache_ok m c → request_ok dev s n buf →
  (s + n) * bblksz dev ≤ Z.of_nat (length (medium m (if_type dev) (bdevnum dev))) →
  take (Z.to_nat (n * bblksz dev)) buf = sectors m dev s n →
  ∃ c', blkcache_fill node_mem malloc (if_type dev) (bdevnum dev) s n (bblksz dev) buf c = Some c' ∧
    cache_ok m c'.
Proof.
  intros Hmal (Hn & He & Hb) (Hsz & Hpos & Hs & Hcnt & Hsn & Hbuf) Hmed Hdata. unfold blkcache_fill.
  destruct (_ <? n); [by exists c|]. destruct (Z.eqb_spec (max_entries (_stats c)) 0) as [|Hmax]; [by exists c|].
  set (sz := bblksz dev) in *. assert (Hbytes : 0 ≤ n * sz < 2 ^ 32) by nia.
  rewrite (Z.mul_comm sz n), (wrap_small 32 (n * sz)) by done.
  (* the nodes that stay, and the room for the new one *)
  assert (Hinsert : ∀ l e b, Forall (node_ok m) l → e = Z.of_nat (length l) → e < max_entries (_stats c) →
    n * sz ≤ Z.of_nat (length b) →
    ∃ c', (b ← memcpy_from b buf 0 (n * sz);
      let node := {| iftype := if_type dev; devnum := bdevnum dev; start := s;
                     blkcnt := n; blksz := sz; cache := b |} in
      Some {| block_cache := node :: l;
              _stats := set_counts (_stats c) (hits (_stats c)) (misses (_stats c)) (e + 1) |}) = Some c' ∧
      cache_ok m c').
  { intros l e b Hl -> Hlt Hlen. unfold memcpy_from.
    rewrite (proj2 (Z.leb_le _ _)), (proj2 (Z.leb_le _ _)) by lia. cbn [andb mbind option_bind].
    eexists. split; [done|]. split; cbn; [|rewrite wrap_small; lia]. constructor; [|done].
    unfold node_ok. cbn. rewrite <-Hsz. fold sz. change (Z.to_nat 0) with 0%nat. rewrite drop_0.
    rewrite length_app, length_take, length_drop.
    split_and!; try done; try lia.
    rewrite take_app_le by (rewrite length_take; lia). rewrite take_take, Nat.min_l by lia. exact Hdata. }
  destruct (Z.leb_spec (max_entries (_stats c)) (entries (_stats c))) as [Hfull|Hroom].
  - destruct (exists_last_or_nil (block_cache c)) as [E|(l & node & E)]; [rewrite E in He; cbn in He; lia|].
    rewrite E, last_snoc in *. cbn [mbind option_bind].
    rewrite length_app in He. cbn [length] in He. rewrite length_app. cbn [length].
    replace (length l + 1 - 1)%nat with (length l) by lia. rewrite take_app_length.
    rewrite (wrap_small 32 (entries (_stats c) - 1)) by lia.
    apply Forall_app in Hn as [Hl Hnode]. apply Forall_cons in Hnode as [Hnode _].
    destruct (Z.ltb_spec (u32 (blkcnt node * blksz node)) (n * sz)).
    + destruct (malloc (n * sz)) as [b|] eqn:Em.
      * apply Hinsert; [done|lia|lia|]. rewrite (Hmal _ _ Em). lia.
      * eexists. split; [done|]. split; cbn; [done|]. rewrite wrap_small; lia.
    + apply Hinsert; [done|lia|lia|]. destruct Hnode as (N1 & N2 & N3 & N4 & _ & N6 & N7 & _).
      rewrite N1, wrap_small in * by nia. lia.
  - destruct node_mem; cbn [mbind option_bind]; [|by exists c]. destruct (malloc (n * sz)) as [b|] eqn:Em.
    + apply Hinsert; [done|lia|lia|]. rewrite (Hmal _ _ Em). lia.
    + eexists. split; [done|]. split; cbn; [done|]. rewrite wrap_small; lia.
Qed.

Lemma invalidate_ok m m' c i d : cache_ok m c →
  (∀ i' d', (i', d') ≠ (i, d) → medium m' i' d' = medium m i' d') →
  cache_ok m' (blkcache_invalidate i d c).
Proof.
  intros (Hn & He & Hb) Hm. unfold blkcache_invalidate.
  rewrite invalidate_list_spec by lia.
  pose proof (filter_lengths (of_device i d) (block_cache c)) as Hlen.
  split; cbn; [|rewrite wrap_small; lia]. apply Forall_forall. intros node [Hdev Hin]%list_elem_of_filter.
  rewrite Forall_forall in Hn. pose proof (Hn node Hin) as Hok. unfold node_ok in *.
  rewrite Hm; [done|]. intros [= E1 E2]. unfold of_device in Hdev. by rewrite E1, E2, !Z.eqb_refl in Hdev.
Qed.

Lemma blk_dread_spec node_mem malloc dev s n buf st :
  malloc_fits malloc → coherent st → request_ok dev s n buf →
  ∃ r buf' st', blk_dread node_mem malloc dev s n buf st = Some (r, buf', st') ∧
    coherent st' ∧ bmedia st' = bmedia st ∧
    (r = n → op_read ≠ None → buf' = sectors (bmedia st) dev s n ++ drop (Z.to_nat (n * bblksz dev)) buf).
Proof.
  intros Hmal Hco%coherent_cache_ok Hreq. unfold blk_dread.
  destruct op_read as [read|] eqn:Eop;
    [|eexists _, _, _; split; [done|]; split; [by apply coherent_cache_ok|]; done].
  destruct (blkcache_read_spec (bmedia st) (bcache st) dev s n buf Hco Hreq)
    as (hit & buf1 & c1 & -> & Hc1 & Hhit). cbn [mbind option_bind].
  destruct Hhit as [[-> ->]|(-> & -> & _)]; cbn [Z.eqb negb].
  2: { eexists _, _, _. split; [done|]. by split; [apply coherent_cache_ok|]. }
  cbn [bmedia]. destruct (read _ _ _ _ _ _) as [r buf2] eqn:Er. destruct (Z.eqb_spec r n) as [->|Hne].
  - destruct Hreq as (Hsz & Hpos & Hs & Hcnt & Hsn & Hbuf).
    destruct (read_all _ _ _ _ _ _ _ _ Eop Er) as (_ & Hmed & Hbuf2); [lia|lia|rewrite <-Hsz; lia|].
    rewrite <-Hsz in Hmed, Hbuf2. fold (sectors (bmedia st) dev s n) in Hbuf2.
    assert (Hlen : length (sectors (bmedia st) dev s n) = Z.to_nat (n * bblksz dev)).
    { unfold sectors. rewrite length_take, length_drop. nia. }
    destruct (blkcache_fill_spec node_mem malloc (bmedia st) c1 dev s n buf2 Hmal Hc1) as (c2 & -> & Hc2).
    + split_and!; try done; try lia; rewrite Hbuf2, length_app, Hlen, length_drop; lia.
    + done.
    + rewrite Hbuf2, take_app_le, take_ge by lia. done.
    + cbn [mbind option_bind]. eexists _, _, _. split; [done|]. by split; [apply coherent_cache_ok|].
  - eexists _, _, _. split; [done|]. by split; [apply coherent_cache_ok|].
Qed.

Lemma step_coherent st st' : coherent st → blk_step st st' → coherent st'.
Proof.
  intros Hco Hstep. destruct Hstep as [node_mem malloc dev s n buf st r buf' st' Hmal Hreq Hr
    |dev s n buf st r st' Hw|dev s n st r st' Hw|i d st|b e st Hb He|st].
  - destruct (blk_dread_spec node_mem malloc dev s n buf st Hmal Hco Hreq) as (r1 & b1 & st1 & Hr1 & Hco1 & _).
    congruence.
  - apply coherent_cache_ok in Hco. unfold blk_dwrite in Hw. destruct op_write as [write|] eqn:Eop.
    + destruct (write _ _ _ _ _ _) as [r1 m1] eqn:Ew. injection Hw as <- <-. apply coherent_cache_ok.
      eapply invalidate_ok; [exact Hco|]. intros i' d' Hne. by eapply write_own.
    + injection Hw as <- <-. by apply coherent_cache_ok.
  - apply coherent_cache_ok in Hco. unfold blk_derase in Hw. destruct op_erase as [erase|] eqn:Eop.
    + destruct (erase _ _ _ _ _) as [r1 m1] eqn:Ew. injection Hw as <- <-. apply coherent_cache_ok.
      eapply invalidate_ok; [exact Hco|]. intros i' d' Hne. by eapply erase_own.
    + injection Hw as <- <-. by apply coherent_cache_ok.
  - apply coherent_cache_ok. apply coherent_cache_ok in Hco. by eapply invalidate_ok.
  - apply coherent_cache_ok. apply coherent_cache_ok in Hco as (Hn & Hcnt & Hbd).
    unfold blkcache_configure. destruct (Z.eqb_spec b (max_blocks_per_entry (_stats (bcache st)))) as [->|];
      destruct (Z.eqb_spec e (max_entries (_stats (bcache st)))) as [->|]; cbn; split_and!; cbn; try done; try lia; by constructor.
  - apply coherent_cache_ok. apply coherent_cache_ok in Hco as (Hn & Hcnt & Hbd).
    split_and!; cbn; [done|rewrite wrap_small; lia|rewrite wrap_small; lia|lia].
Qed.

Lemma reachable_coherent st : reachable st → coherent st.
Proof.
  induction 1 as [m|st st' _ IH Hstep]; [|by eapply step_coherent].
  split; cbn; [constructor|done|lia].
Qed.
End coherence.

(** C8. Safety: after any sequence of reads, writes, erasures, invalidations,
    configurations and statistics, a read through the cache ends without an
    access outside of a buffer; when it reports all blocks read, the buffer
    has the bytes that the device has now, whether they come from the cache or
    the device, and the rest of the buffer is as before. This holds for reads,
    the earlier ones too, whose last block number stays below 2^32, that is
    start + blkcnt < 2^32 (beyond that blkcache_wrap_hit copies from outside a
    buffer), into buffers of at least blkcnt blocks and less than 2^32 bytes,
    with block sizes that do not change; the driver delivers the blocks it
    reports. *)
Theorem blk_dread_coherent `{!BlkOps} node_mem malloc dev s n buf st :
  reachable st → malloc_fits malloc → request_ok dev s n buf →
  ∃ r buf' st', blk_dread node_mem malloc dev s n buf st = Some (r, buf', st') ∧ reachable st' ∧
    (r = n → op_read ≠ None → buf' = sectors (bmedia st) dev s n ++ drop (Z.to_nat (n * bblksz dev)) buf).
Proof.
  intros Hst Hmal Hreq.
  destruct (blk_dread_spec node_mem malloc dev s n buf st Hmal (reachable_coherent st Hst) Hreq)
    as (r & buf' & st' & Hr & _ & _ & Hbuf).
  exists r, buf', st'. split; [done|]. split; [|done].
  eapply reach_step; [done|by eapply step_read].
Qed.

(** Invariant: in every state that can be reached the counter of entries is
    the length of the list and at most the configured maximum, and every node
    holds the current blocks of its device. *)
Theorem blkcache_invariant `{!BlkOps} st : reachable st →
  Forall (node_ok (bmedia st)) (block_cache (bcache st)) ∧
  entries (_stats (bcache st)) = Z.of_nat (length (block_cache (bcache st))) ∧
  entries (_stats (bcache st)) ≤ max_entries (_stats (bcache st)).
Proof. intros [Hn He Hb]%reachable_coherent. by split_and!; [|done|apply Hb]. Qed.

(** ** Recency *)

(** A node for the request with its bytes. *)
Definition new_node (i d s n sz : Z) (buf : list Z) (node : block_cache_node) : Prop :=
  iftype node = i ∧ devnum node = d ∧ start node = s ∧ blkcnt node = n ∧ blksz node = sz ∧
  n * sz ≤ Z.of_nat (length (cache node)) ∧
  take (Z.to_nat (n * sz)) (cache node) = take (Z.to_nat (n * sz)) buf.

Lemma read_new_node i d s n sz buf buf0 node l stats :
  new_node i d s n sz buf node → 0 ≤ s → 0 ≤ n * sz < 2 ^ 32 → n * sz ≤ Z.of_nat (length buf0) →
  ∃ c', blkcache_read i d s n sz buf0 {| block_cache := node :: l; _stats := stats |} =
    Some (1, take (Z.to_nat (n * sz)) buf ++ drop (Z.to_nat (n * sz)) buf0, c').
Proof.
  intros (Hi & Hd & Hs & Hn & Hz & Hlen & Hdata) Hs0 Hb Hbuf0. unfold blkcache_read, cache_find.
  cbn [block_cache find_node]. unfold node_hit.
  rewrite Hi, Hd, Hs, Hn, Hz, !Z.eqb_refl, !Z.leb_refl. cbn [andb].
  rewrite Hs, Z.sub_diag. change (u32 (u32 0 * sz)) with 0. rewrite (Z.mul_comm sz n), wrap_small by done.
  unfold memcpy_from. rewrite (proj2 (Z.leb_le _ _)), (proj2 (Z.leb_le _ _)) by lia.
  cbn [andb mbind option_bind]. change (Z.to_nat 0) with 0%nat. rewrite drop_0, Hdata. by eexists.
Qed.

(** With memory, what is filled in is read back at once from the cache; the
    new node is the first of the list and, when the cache was full, the least
    recently used node has made room for it. *)
Theorem blkcache_fill_read malloc c i d s n sz buf buf0 :
  malloc_fits malloc → is_Some (malloc (n * sz)) →
  entries (_stats c) = Z.of_nat (length (block_cache c)) →
  entries (_stats c) ≤ max_entries (_stats c) < 2 ^ 32 →
  Forall (λ node, u32 (blkcnt node * blksz node) ≤ Z.of_nat (length (cache node))) (block_cache c) →
  0 ≤ s → 0 ≤ n ≤ max_blocks_per_entry (_stats c) → 0 < sz → 0 < max_entries (_stats c) →
  n * sz ≤ Z.of_nat (length buf) < 2 ^ 32 → n * sz ≤ Z.of_nat (length buf0) →
  ∃ c' node, blkcache_fill true malloc i d s n sz buf c = Some c' ∧
    block_cache c' = node :: take (Z.to_nat (max_entries (_stats c)) - 1) (block_cache c) ∧
    ∃ c'', blkcache_read i d s n sz buf0 c' =
      Some (1, take (Z.to_nat (n * sz)) buf ++ drop (Z.to_nat (n * sz)) buf0, c'').
Proof.
  intros Hmal [b Hb] He Hmax Hroom Hs Hn Hsz Hme Hbuf Hbuf0.
  assert (Hbytes : 0 ≤ n * sz < 2 ^ 32) by nia. unfold blkcache_fill.
  rewrite (proj2 (Z.ltb_ge _ _)), (proj2 (Z.eqb_neq (max_entries (_stats c)) 0)) by lia.
  rewrite (Z.mul_comm sz n), (wrap_small 32 (n * sz)) by done.
  set (l := take (Z.to_nat (max_entries (_stats c)) - 1) (block_cache c)).
  assert (Hfin : ∀ e b, n * sz ≤ Z.of_nat (length b) →
    ∃ c' node, (b ← memcpy_from b buf 0 (n * sz);
      let node := {| iftype := i; devnum := d; start := s; blkcnt := n; blksz := sz; cache := b |} in
      Some {| block_cache := node :: l;
              _stats := set_counts (_stats c) (hits (_stats c)) (misses (_stats c)) (e + 1) |}) = Some c' ∧
      block_cache c' = node :: l ∧
      ∃ c'', blkcache_read i d s n sz buf0 c' =
        Some (1, take (Z.to_nat (n * sz)) buf ++ drop (Z.to_nat (n * sz)) buf0, c'')).
  { intros e b1 Hb1. unfold memcpy_from. rewrite (proj2 (Z.leb_le _ _)), (proj2 (Z.leb_le _ _)) by lia.
    cbn [andb mbind option_bind]. change (Z.to_nat 0) with 0%nat. rewrite drop_0.
    eexists _, _. split; [done|]. split; [done|]. apply read_new_node; try done.
    split_and!; try done; cbn; [rewrite length_app, length_take, length_drop; lia|].
    rewrite take_app_le by (rewrite length_take; lia). by rewrite take_take, Nat.min_id. }
  destruct (Z.leb_spec (max_entries (_stats c)) (entries (_stats c))) as [Hfull|Hfree].
  - assert (El : take (length (block_cache c) - 1) (block_cache c) = l) by (unfold l; f_equal; lia).
    destruct (exists_last_or_nil (block_cache c)) as [E|(l0 & node & E)]; [rewrite E in He; cbn in He; lia|].
    assert (Elast : last (block_cache c) = Some node) by (by rewrite E, last_snoc).
    rewrite Elast. cbn [mbind option_bind]. rewrite El. rewrite E, Forall_app, Forall_cons in Hroom.
    destruct Hroom as (_ & Hnode & _).
    destruct (Z.ltb_spec (u32 (blkcnt node * blksz node)) (n * sz)); [rewrite Hb|]; apply Hfin; [|lia].
    rewrite (Hmal _ _ Hb). lia.
  - assert (El : block_cache c = l) by (unfold l; rewrite take_ge; [done|lia]).
    cbn [mbind option_bind]. rewrite Hb, El. apply Hfin. rewrite (Hmal _ _ Hb). lia.
Qed.

(** ** Examples *)

(** One device of 4 blocks of 2 bytes, which can be written. *)
Definition ram_read (m : list Z) (i d s n : Z) (buf : list Z) : Z * list Z :=
  if (0 <=? s) && (0 <=? n) && (s + n <=? 4) && (2 * (s + n) <=? Z.of_nat (length m)) &&
     bool_decide (i = 0 ∧ d = 0)
  then (n, take (Z.to_nat (n * 2)) (drop (Z.to_nat (s * 2)) m) ++ drop (Z.to_nat (n * 2)) buf)
  else (-1, buf).

Definition ram_write (m : list Z) (i d s n : Z) (buf : list Z) : Z * list Z :=
  if bool_decide (i = 0 ∧ d = 0) then
    (n, take (Z.to_nat (s * 2)) m ++ take (Z.to_nat (n * 2)) buf ++ drop (Z.to_nat ((s + n) * 2)) m)
  else (0, m).

Lemma ram_read_all m i d s n buf buf' : ram_read m i d s n buf = (n, buf') →
  0 ≤ s → 0 ≤ n → n * 2 ≤ Z.of_nat (length buf) →
  s + n < 2 ^ 32 ∧ (s + n) * 2 ≤ Z.of_nat (length (if bool_decide (i = 0 ∧ d = 0) then m else [])) ∧
  buf' = take (Z.to_nat (n * 2)) (drop (Z.to_nat (s * 2)) (if bool_decide (i = 0 ∧ d = 0) then m else [])) ++
         drop (Z.to_nat (n * 2)) buf.
Proof.
  unfold ram_read. destruct (bool_decide (i = 0 ∧ d = 0)); [|rewrite andb_false_r; intros [= <- <-]; lia].
  destruct (Z.leb_spec 0 s), (Z.leb_spec 0 n), (Z.leb_spec (s + n) 4), (Z.leb_spec (2 * (s + n)) (Z.of_nat (length m)));
    cbn [andb]; intros [= E]; subst; try lia. intros. split_and!; try done; lia.
Qed.

Lemma ram_write_own m i d s n buf r m' i' d' : ram_write m i d s n buf = (r, m') → (i', d') ≠ (i, d) →
  (if bool_decide (i' = 0 ∧ d' = 0) then m' else []) = (if bool_decide (i' = 0 ∧ d' = 0) then m else []).
Proof.
  unfold ram_write. intros Hw Hne.
  destruct (bool_decide (i' = 0 ∧ d' = 0)) eqn:H1; [apply bool_decide_eq_true in H1|done].
  rewrite bool_decide_false in Hw by (intros [-> ->]; destruct H1 as [-> ->]; done).
  by injection Hw as <- <-.
Qed.

Definition ram_ops : BlkOps := {|
  media := list Z;
  medium := λ m i d, if bool_decide (i = 0 ∧ d = 0) then m else [];
  sector := λ _ _, 2;
  op_read := Some ram_read;
  op_write := Some ram_write;
  op_erase := None;
  read_all := λ f m i d s n buf buf' E, match Some_inj _ _ E with eq_refl => ram_read_all m i d s n buf buf' end;
  write_own := λ f m i d s n buf r m' i' d' E, match Some_inj _ _ E with eq_refl => ram_write_own m i d s n buf r m' i' d' end;
  erase_own := λ f m i d s n r m' i' d' E, match E with eq_refl => I end
|}.

Definition disk : list Z := [1; 2; 3; 4; 5; 6; 7; 8].
Definition ram : blk_desc := {| if_type := 0; bdevnum := 0; bblksz := 2 |}.
Definition zeros (n : Z) : option (list Z) := Some (replicate (Z.to_nat n) 0).

Definition first_state : @blk_state ram_ops :=
  @Build_blk_state ram_ops initial_cache disk.

Lemma blk_dread_coherent_witness :
  ∃ r buf' st', @blk_dread ram_ops true (λ n, if 0 <=? n then zeros n else None) ram 1 2 [9; 9; 9; 9; 9] first_state =
      Some (r, buf', st') ∧ @reachable ram_ops st' ∧
    (r = 2 → @op_read ram_ops ≠ None →
      buf' = @sectors ram_ops (@bmedia ram_ops first_state) ram 1 2 ++ drop (Z.to_nat (2 * bblksz ram)) [9; 9; 9; 9; 9]).
Proof.
  apply (@blk_dread_coherent ram_ops).
  - apply (@reach_init ram_ops).
  - intros n b. destruct (Z.leb_spec 0 n); [|done]. intros [= <-]. rewrite length_replicate. lia.
  - unfold request_ok. cbn. lia.
Defined.

Lemma blkcache_invariant_witness :
  Forall (@node_ok ram_ops (@bmedia ram_ops first_state)) (block_cache (@bcache ram_ops first_state)) ∧
  entries (_stats (@bcache ram_ops first_state)) = Z.of_nat (length (block_cache (@bcache ram_ops first_state))) ∧
  entries (_stats (@bcache ram_ops first_state)) ≤ max_entries (_stats (@bcache ram_ops first_state)).
Proof. exact (@blkcache_invariant ram_ops first_state (@reach_init ram_ops disk)). Defined.

Lemma blkcache_fill_read_witness :
  ∃ c' node, blkcache_fill true (λ n, if 0 <=? n then zeros n else None) 0 0 1 1 2 [3; 4; 5] initial_cache = Some c' ∧
    block_cache c' = node :: take (Z.to_nat (max_entries (_stats initial_cache)) - 1) (block_cache initial_cache) ∧
    ∃ c'', blkcache_read 0 0 1 1 2 [0; 0] c' =
      Some (1, take (Z.to_nat (1 * 2)) [3; 4; 5] ++ drop (Z.to_nat (1 * 2)) [0; 0], c'').
Proof.
  apply blkcache_fill_read; cbn; try done; try lia.
  - intros n b. destruct (Z.leb_spec 0 n); [|done]. intros [= <-]. rewrite length_replicate. lia.
Defined.

(** A write is seen by the next read, although the old block was cached. *)
Example read_write_read :
  (a ← @blk_dread ram_ops true zeros ram 1 1 [0; 0] first_state;
   let st := (@blk_dwrite ram_ops ram 1 1 [33; 44] a.2).2 in
   b ← @blk_dread ram_ops true zeros ram 1 1 [0; 0] st;
   Some (a.1.2, b.1.2)) = Some ([3; 4], [33; 44]).
Proof. vm_compute. reflexivity. Qed.

(** The end of a request is compared after it wrapped around: the block number
    2^32 - 1 counts as cached when block 0 is, and the copy starts outside of
    the buffer. *)
Example blkcache_wrap_hit :
  blkcache_read 0 0 (2 ^ 32 - 1) 1 2 [0; 0]
    {| block_cache := [{| iftype := 0; devnum := 0; start := 0; blkcnt := 1; blksz := 2; cache := [7; 7] |}];
       _stats := set_counts initial_stats 0 0 1 |} = None.
Proof. vm_compute. reflexivity. Qed.
