(* ===== verification/EnvAttr.v ===== *)
(** * EnvAttr: lists of attributes of variables (env/attr.c)

    A list "name:attributes,name:attributes,..." is walked with a callback, or
    searched for the last entry whose name, a regular expression, matches a
    variable.  [EnvFlags] and [EnvCallback] use it; what both do with the
    table is here as well: to change all entries ([hwalk_update]), and the one
    that was found ([at_entry]). *)

From Stdlib Require Import ZArith Lia List String Ascii.
From stdpp Require Import base numbers list option gmap.
From S2P Require Import Prelude Ctype Hashtable EnvText.

#[local] Open Scope Z_scope.

Definition chars (s : string) : str := (λ a, Z.of_N (N_of_ascii a)) <$> list_ascii_of_string s.

Definition ENOENT : Z := 2.

(** ** The walk *)

Fixpoint skip_spaces (s : str) : str :=
  match s with
  | [] => []
  | c :: s' => if isspace c then skip_spaces s' else s
  end.

Definition strim (s : str) : str := rev (skip_spaces (rev (skip_spaces s))).

(** The characters before the first [c], and those after it if there is one. *)
Fixpoint split_at (c : Z) (s : str) : str * option str :=
  match s with
  | [] => ([], None)
  | x :: s =>
      if x =? c then ([], Some s) else let '(l, r) := split_at c s in (x :: l, r)
  end.

Section attributes.
Context `{!EnvHooks, !Regex}.

(** One entry of the list; the state of the callback is threaded. *)
Definition walk_entry {S} (callback : str → option str → S → Z * S) (entry_cpy : str) (st : S) : Z * S :=
  let '(name, attributes) := split_at 58 entry_cpy in
  let attributes := strim <$> attributes in
  let name := strim name in
  if bool_decide (name = []) then (0, st) else callback name attributes st.

(** [fuel] bounds the entries; the length of the list is enough. *)
Fixpoint walk_list {S} (fuel : nat) (callback : str → option str → S → Z * S) (entry : str) (st : S)
    : option (Z * S) :=
  match fuel with
  | O => None
  | Datatypes.S fuel =>
      let '(entry_cpy, rest) := split_at 44 entry in
      if negb (bool_decide (entry_cpy = [])) && negb (malloc_ok (Z.of_nat (length entry_cpy) + 1))
      then Some (- ENOMEM, st)
      else
        let '(retval, st) := if bool_decide (entry_cpy = []) then (0, st) else walk_entry callback entry_cpy st in
        if negb (retval =? 0) then Some (retval, st)
        else match rest with None => Some (0, st) | Some rest => walk_list fuel callback rest st end
  end.

Definition env_attr_walk {S} (attr_list : option str) (callback : str → option str → S → Z * S) (st : S)
    : option (Z * S) :=
  match attr_list with
  | None => Some (1, st)
  | Some l => walk_list (Datatypes.S (length l)) callback l st
  end.

(** The state is the pair [regex], [attributes] of the match. *)
Definition regex_callback (searched_for : str) (name : str) (attributes : option str)
    (priv : option str * option str) : Z * (option str * option str) :=
  let regex := [94] ++ name ++ [36] in
  match slre_compile regex with
  | None => (- EINVAL, priv)
  | Some r =>
      if slre_match r searched_for then
        match attributes with
        | None => (- EINVAL, (None, priv.2))
        | Some a =>
            if negb (malloc_ok (Z.of_nat (length regex) + 1)) then (- ENOMEM, (None, priv.2))
            else if negb (malloc_ok (Z.of_nat (length a) + 1)) then (- ENOMEM, (None, None))
            else (0, (Some regex, Some a))
        end
      else (0, priv)
  end.

(** [room] is the size of the buffer [attributes], NULL without one; the result
    is the returned number and the text copied. *)
Definition env_attr_lookup (attr_list : option str) (name : str) (room : option Z) : option (Z * option str) :=
  match room, attr_list with
  | None, _ | _, None => Some (- EINVAL, None)
  | Some room, Some _ =>
      '(retval, priv) ← env_attr_walk attr_list (regex_callback name) (None, None);
      if negb (retval =? 0) then Some (retval, None)
      else
        match priv.1 with
        | Some _ =>
            a ← priv.2;
            if Z.of_nat (length a) + 1 <=? room then Some (0, Some a) else None
        | None => Some (- ENOENT, None)
        end
  end.

End attributes.

(** ** Changes of entries

    [ep] of the source points into the table: the entry is changed in its
    slot. *)

Definition hwalk_update (f : env_entry → env_entry) (htab : hsearch_data) : option hsearch_data :=
  tbl ← table htab;
  Some (set_table htab
    (Some ((λ n, if 0 <? used n then {| used := used n; entry := f (entry n) |} else n) <$> tbl))
    (filled htab)).
(** The search for [name], and the change of [*ep] if it was found. *)
Definition change_entry `{!EnvHooks} (name : str) (change : env_entry → option env_entry) (htab : hsearch_data)
    : option hsearch_data :=
  r ← hsearch_r name None ENV_FIND htab 0;
  match retval r with
  | None => Some (htab_after r)
  | Some idx =>
      tbl ← table (htab_after r);
      n ← arr_get tbl idx;
      e ← change (entry n);
      tbl ← arr_set tbl idx {| used := used n; entry := e |};
      Some (set_table (htab_after r) (Some tbl) (filled (htab_after r)))
  end.

(** ** The entries of a list *)

Fixpoint split_on (c : Z) (s : str) : list str :=
  match s with
  | [] => [[]]
  | x :: s =>
      if x =? c then [] :: split_on c s
      else match split_on c s with w :: ws => (x :: w) :: ws | [] => [[x]] end
  end.

(** The names that are not empty, each with its attributes if it has a colon. *)
Definition attr_entries (l : str) : list (str * option str) :=
  split_on 44 l ≫= λ e,
    let '(name, attributes) := split_at 58 e in
    if bool_decide (strim name = []) then [] else [(strim name, strim <$> attributes)].

Lemma split_on_at c s :
  split_on c s = let '(l, r) := split_at c s in l :: match r with None => [] | Some r => split_on c r end.
Proof.
  induction s as [|x s IH]; [done|]. cbn. destruct (x =? c); [done|]. rewrite IH. by destruct (split_at c s).
Qed.

Lemma split_at_rest c s l r : split_at c s = (l, Some r) → (length r < length s)%nat.
Proof.
  revert l. induction s as [|x s IH]; intros l; cbn; [done|]. destruct (x =? c); [intros [= _ ->]; lia|].
  destruct (split_at c s) as [l' r'] eqn:E. intros [= _ ->]. specialize (IH l' eq_refl). lia.
Qed.

(** A walk ends.  With a callback that answers 0 it takes the entries in order,
    up to the first one for which there is no memory. *)
Lemma walk_list_entries `{!EnvHooks} {S} (R : S → list (str * option str) → Prop) callback fuel l (st : S) done :
  (∀ n a st es, R st es → ∃ st', callback n a st = (0, st') ∧ R st' (es ++ [(n, a)])) →
  R st done → (length l < fuel)%nat →
  ∃ r st' es, walk_list fuel callback l st = Some (r, st') ∧ R st' (done ++ es) ∧
    es `prefix_of` attr_entries l ∧ ((∀ n, malloc_ok n = true) → es = attr_entries l).
Proof.
  intros Hcb. revert l st done. induction fuel as [|fuel IH]; intros l st done HR Hl; [lia|]. cbn [walk_list].
  unfold attr_entries. rewrite split_on_at.
  destruct (split_at 44 l) as [e rest] eqn:E. cbn [mbind list_bind].
  destruct (negb (bool_decide (e = [])) && negb (malloc_ok (Z.of_nat (length e) + 1))) eqn:Em.
  { eexists _, st, []. rewrite app_nil_r. split; [done|]. split; [done|]. split; [apply prefix_nil|].
    intros Hm. rewrite Hm in Em. by rewrite andb_false_r in Em. }
  set (e1 := let '(name, attributes) := split_at 58 e in
    if bool_decide (strim name = []) then [] else [(strim name, strim <$> attributes)]).
  assert (∃ st1, (if bool_decide (e = []) then (0, st) else walk_entry callback e st) = (0, st1) ∧ R st1 (done ++ e1))
    as (st1 & -> & HR1).
  { case_bool_decide as He; [subst e; cbn in e1; subst e1; rewrite app_nil_r; by eexists|].
    unfold walk_entry. subst e1. destruct (split_at 58 e) as [name a].
    case_bool_decide; [rewrite app_nil_r; by eexists|]. by apply Hcb. }
  cbn [Z.eqb negb]. destruct rest as [rest|].
  - apply split_at_rest in E. destruct (IH rest st1 (done ++ e1) HR1) as (r & st' & es & -> & HR' & Hp & Hall); [lia|].
    exists r, st', (e1 ++ es). rewrite app_assoc. split; [done|]. split; [done|]. split; [by apply prefix_app|].
    intros Hm. by rewrite (Hall Hm).
  - exists 0, st1, e1. split; [done|]. split; [done|]. cbn. rewrite app_nil_r. done.
Qed.

Lemma env_attr_walk_entries `{!EnvHooks} {S} (R : S → list (str * option str) → Prop) callback l (st : S) done :
  (∀ n a st es, R st es → ∃ st', callback n a st = (0, st') ∧ R st' (es ++ [(n, a)])) → R st done →
  ∃ r st' es, env_attr_walk l callback st = Some (r, st') ∧ R st' (done ++ es) ∧
    es `prefix_of` from_option attr_entries [] l ∧
    ((∀ n, malloc_ok n = true) → es = from_option attr_entries [] l).
Proof.
  intros Hcb HR. destruct l as [l|]; cbn [env_attr_walk from_option].
  - apply walk_list_entries; [done|done|lia].
  - exists 1, st, []. by rewrite app_nil_r.
Qed.

(** ** Changes of one field of the entries *)

Lemma hwalk_update_spec h tbl f : (∀ e, key (f e) = key e) → (∀ e, data (f e) = data e) → htab_ok h tbl →
  ∃ h' tbl', hwalk_update f h = Some h' ∧ htab_ok h' tbl' ∧ hsize h' = hsize h ∧ vars h' = f <$> vars h.
Proof.
  intros Hfk Hfd [Ht Hp Hs Hl Hz Hsl Hpr Hnd Hf]. unfold hwalk_update. rewrite Ht. cbn [mbind option_bind].
  set (g := λ n, if 0 <? used n then {| used := used n; entry := f (entry n) |} else n).
  assert (Hu : ∀ n, used (g n) = used n) by (intros n; unfold g; by destruct (0 <? used n)).
  assert (Hget : ∀ i, arr_get (g <$> tbl) i = g <$> arr_get tbl i).
  { intros i. unfold arr_get. destruct (0 <=? i); [apply list_lookup_fmap|done]. }
  assert (Hcont : contents (g <$> tbl) = prod_map id f <$> contents tbl).
  { clear -Hfk. induction tbl as [|n tbl IH]; [done|]. cbn [fmap list_fmap]. rewrite !contents_cons, fmap_app.
    f_equal; [|exact IH]. subst g. unfold used_entry. destruct (0 <? used n) eqn:E; cbn; rewrite E; [|done].
    rewrite Hfk. by destruct (key (entry n)). }
  assert (Hkeys : (contents (g <$> tbl)).*1 = (contents tbl).*1).
  { rewrite Hcont, <-list_fmap_compose. apply list_fmap_ext. by intros i [k e] _. }
  eexists _, (g <$> tbl). split; [done|]. split; [split; cbn; try done|split; [done|]].
  - by rewrite length_fmap.
  - destruct tbl as [|n tbl]; [done|]. injection Hz as ->. done.
  - apply Forall_fmap. eapply Forall_impl; [exact Hsl|]. intros n Hn. unfold compose, slot_ok in *. rewrite Hu.
    unfold g. destruct (0 <? used n); [|done]. cbn. by rewrite Hfk, Hfd.
  - intros i n' Hn Hun. rewrite Hget in Hn. destruct (arr_get tbl i) as [n|] eqn:E; [|done].
    injection Hn as <-. rewrite Hu in *. destruct (Hpr i n E Hun) as (j & Hj & -> & Hb).
    exists j. split; [done|]. split; [done|]. intros j' Hj'. destruct (Hb j' Hj') as (m & Hm & Hmu).
    exists (g m). by rewrite Hget, Hm, Hu.
  - by rewrite Hkeys.
  - by rewrite Hf, Hcont, length_fmap.
  - unfold vars. cbn [table set_table]. rewrite Ht, Hcont. by rewrite list_to_map_fmap.
Qed.

Lemma change_entry_spec `{!EnvHooks} h tbl name g f : htab_ok h tbl →
  (∀ e, g e = Some (f e)) → (∀ e, key (f e) = key e) → (∀ e, data (f e) = data e) →
  ∃ h' tbl', change_entry name g h = Some h' ∧ htab_ok h' tbl' ∧ hsize h' = hsize h ∧ vars h' = alter f name (vars h).
Proof.
  intros Hok Hg Hfk Hfd. unfold change_entry. pose proof (find_spec h tbl name Hok) as Hfind.
  destruct (vars h !! name) as [e|] eqn:Ek.
  - destruct Hfind as (i & n & -> & _ & Hn & Hu & Hk & He). cbn [mbind option_bind retval htab_after].
    rewrite (ok_table _ _ Hok). cbn [mbind option_bind]. rewrite Hn. cbn [mbind option_bind].
    rewrite Hg. cbn [mbind option_bind].
    destruct (get_slot_ok h tbl Hok i n Hn) as [?|[?|(k & Hk' & Hd & _)]];
      [unfold USED_FREE, USED_DELETED in *; lia..|].
    destruct (overwrite_ok h tbl Hok i n name (f (entry n))) as (tbl' & -> & Hok' & Hv);
      [done|done|done|by rewrite Hfk|by rewrite Hfd|]. cbn [mbind option_bind].
    eexists _, tbl'. split; [done|]. split; [done|]. split; [done|]. rewrite Hv, He.
    apply map_eq. intros k2. destruct (decide (k2 = name)) as [->|Hne].
    + by rewrite lookup_insert_eq, lookup_alter_eq, Ek.
    + by rewrite lookup_insert_ne, lookup_alter_ne.
  - rewrite Hfind. cbn. exists h, tbl. split; [done|]. split; [done|]. split; [done|].
    apply map_eq. intros k2. destruct (decide (k2 = name)) as [->|Hne]; [by rewrite lookup_alter_eq, Ek|by rewrite lookup_alter_ne].
Qed.

(** One field of the entries, as a list of entries assigns it: [change] says what
    the attributes of an entry make of the field. *)
Section field.
Context `{!EnvHooks} {X : Type} (get : env_entry → X) (put : env_entry → X → env_entry).
Context (get_put : ∀ e x, get (put e x) = x) (put_put : ∀ e x y, put (put e x) y = put e y).
Context (put_key : ∀ e x, key (put e x) = key e) (put_data : ∀ e x, data (put e x) = data e).
Context (change : option str → X → X) (x0 : X).

(** The field of the variable [k] after the entries [es]. *)
Definition assigned (es : list (str * option str)) (k : str) : X :=
  foldl (λ x '(n, a), if decide (n = k) then change a x else x) x0 es.

(** The variables of [M], where only the field is another one. *)
Definition with_field (x : str → X) (M : gmap str env_entry) : gmap str env_entry :=
  map_imap (λ k e, Some (put e (x k))) M.

Definition relabelled (h : hsearch_data) (o : option hsearch_data) (es : list (str * option str)) : Prop :=
  ∃ h' tbl', o = Some h' ∧ htab_ok h' tbl' ∧ hsize h' = hsize h ∧ vars h' = with_field (assigned es) (vars h).

Lemma lookup_with_field x M k : with_field x M !! k = (λ e, put e (x k)) <$> M !! k.
Proof. unfold with_field. rewrite map_lookup_imap. by destruct (M !! k). Qed.

Lemma relabelled_nil h tbl : htab_ok h tbl → relabelled h (hwalk_update (λ e, put e x0) h) [].
Proof.
  intros Hok. destruct (hwalk_update_spec h tbl (λ e, put e x0)) as (h' & tbl' & -> & Hok' & Hs & Hv); [done..|].
  exists h', tbl'. split; [done|]. split; [done|]. split; [done|]. rewrite Hv.
  apply map_eq. intros k. by rewrite lookup_with_field, lookup_fmap.
Qed.

Lemma relabelled_snoc h o es n a g :
  (∀ e, g e = Some (put e (change a (get e)))) → relabelled h o es →
  relabelled h (h1 ← o; change_entry n g h1) (es ++ [(n, a)]).
Proof.
  intros Hg (h1 & tbl1 & -> & Hok1 & Hs1 & Hv1). cbn [mbind option_bind].
  destruct (change_entry_spec h1 tbl1 n g (λ e, put e (change a (get e)))) as (h2 & tbl2 & -> & Hok2 & Hs2 & Hv2); [done..|].
  exists h2, tbl2. split; [done|]. split; [done|]. split; [congruence|]. rewrite Hv2, Hv1.
  apply map_eq. intros k. rewrite lookup_with_field. unfold assigned. rewrite foldl_app. cbn [foldl].
  destruct (decide (n = k)) as [->|Hne].
  - rewrite lookup_alter_eq, lookup_with_field. destruct (vars h !! k); [|done]. cbn. by rewrite get_put, put_put.
  - by rewrite lookup_alter_ne, lookup_with_field.
Qed.

(** All entries are set to [x0], and then two lists are walked. *)
Lemma relabel_spec h tbl setter l1 l2 :
  (∀ n a o es, relabelled h o es → ∃ o', setter n a o = (0, o') ∧ relabelled h o' (es ++ [(n, a)])) →
  htab_ok h tbl →
  ∃ h' tbl' es1 es2,
    (h1 ← hwalk_update (λ e, put e x0) h;
     '(_, h2) ← env_attr_walk (Some l1) setter (Some h1);
     '(_, h3) ← env_attr_walk l2 setter h2;
     h3) = Some h' ∧
    htab_ok h' tbl' ∧ hsize h' = hsize h ∧ vars h' = with_field (assigned (es1 ++ es2)) (vars h) ∧
    es1 `prefix_of` attr_entries l1 ∧ es2 `prefix_of` from_option attr_entries [] l2 ∧
    ((∀ n, malloc_ok n = true) → es1 = attr_entries l1 ∧ es2 = from_option attr_entries [] l2).
Proof.
  intros Hset Hok. pose proof (relabelled_nil h tbl Hok) as H0.
  destruct (hwalk_update (λ e, put e x0) h) as [h1|]; [|by destruct H0 as (? & ? & ? & _)]. cbn [mbind option_bind].
  destruct (env_attr_walk_entries (relabelled h) setter (Some l1) (Some h1) [] Hset H0) as (r1 & o2 & es1 & -> & H2 & Hp1 & Ha1).
  cbn [mbind option_bind].
  destruct (env_attr_walk_entries (relabelled h) setter l2 o2 _ Hset H2) as (r2 & o3 & es2 & -> & H3 & Hp2 & Ha2).
  cbn [mbind option_bind]. destruct H3 as (h3 & tbl3 & -> & Hok3 & Hs3 & Hv3).
  exists h3, tbl3, es1, es2. split_and!; try done. intros Hm. split; [by apply Ha1|by apply Ha2].
Qed.

(** The values are the ones before. *)
Lemma with_field_data x M : data <$> with_field x M = data <$> M.
Proof.
  apply map_eq. intros k. rewrite !lookup_fmap, lookup_with_field. destruct (M !! k) as [e|]; [|done].
  cbn. by rewrite put_data.
Qed.
End field.
