(* ===== verification/EnvFlags.v ===== *)
(** * EnvFlags: types and access of environment variables (env/flags.c)

    A variable has a type, which its values must match, and an access, which
    says whether it can be created, overwritten and deleted.  They come from
    the list in the variable ".flags" and a static list, and are kept as bits
    in the entry of the variable.  [env_flags_validate] is the permission check
    of the hash table: [flags_hooks] gives it to the table.  Strings are lists
    of their characters; reading at the end gives the terminator 0. *)

From Stdlib Require Import ZArith Lia List String Ascii.
From stdpp Require Import base numbers list option gmap sets.
From S2P Require Import Prelude Ctype Hashtable EnvText EnvAttr.

#[local] Open Scope Z_scope.

(** The first and the second character. *)
Definition c0 (s : str) : Z := default 0 (head s).
Definition c1 (s : str) : Z := default 0 (head (tail s)).

Definition env_flags_vartype_string : Z := 0.
Definition env_flags_vartype_decimal : Z := 1.
Definition env_flags_vartype_hex : Z := 2.
Definition env_flags_vartype_bool : Z := 3.
Definition env_flags_vartype_ipaddr : Z := 4.
Definition env_flags_vartype_macaddr : Z := 5.
Definition env_flags_vartype_end : Z := 6.

Definition ENV_FLAGS_VARTYPE_BIN_MASK : Z := 7.
Definition ENV_FLAGS_VARACCESS_PREVENT_DELETE : Z := 8.
Definition ENV_FLAGS_VARACCESS_PREVENT_CREATE : Z := 16.
Definition ENV_FLAGS_VARACCESS_PREVENT_OVERWR : Z := 32.
Definition ENV_FLAGS_VARACCESS_PREVENT_NONDEF_OVERWR : Z := 64.
Definition ENV_FLAGS_VARACCESS_BIN_MASK : Z := 120.

Definition H_FORCE : Z := Z.shiftl 1 1.

Definition ENV_FLAGS_ATTR_MAX_LEN : Z := 2.

Definition env_flags_vartype_rep : str := chars "sdxbim".
Definition env_flags_varaccess_rep : str := chars "aroc".
Definition env_flags_varaccess_mask : list Z :=
  [0;
   Z.lor (Z.lor ENV_FLAGS_VARACCESS_PREVENT_DELETE ENV_FLAGS_VARACCESS_PREVENT_CREATE)
     ENV_FLAGS_VARACCESS_PREVENT_OVERWR;
   Z.lor ENV_FLAGS_VARACCESS_PREVENT_DELETE ENV_FLAGS_VARACCESS_PREVENT_OVERWR;
   Z.lor ENV_FLAGS_VARACCESS_PREVENT_DELETE ENV_FLAGS_VARACCESS_PREVENT_NONDEF_OVERWR].

Definition ENV_FLAGS_LIST_STATIC : str :=
  chars "eth\d*addr:mo,ipaddr:i,gatewayip:i,netmask:i,serverip:i,nvlan:d,vlan:d,dnsip:i,serial#:so,".

(** ** Types *)

(** The index that strchr finds, for a character that is not the terminator. *)
Fixpoint char_index (s : str) (c : Z) : option Z :=
  match s with
  | [] => None
  | x :: s => if x =? c then Some 0 else i ← char_index s c; Some (i + 1)
  end.

Definition env_flags_parse_vartype (flags : str) : Z :=
  match flags with
  | [] => env_flags_vartype_string
  | c :: _ => default env_flags_vartype_string (char_index env_flags_vartype_rep c)
  end.

Definition env_flags_parse_varaccess (flags : str) : Z :=
  match flags with
  | _ :: c :: _ => default 0 (char_index env_flags_varaccess_rep c)
  | _ => 0
  end.

(** The access whose mask the bits are, or "any". *)
Definition env_flags_parse_varaccess_from_binflags (binflags : Z) : Z :=
  default 0 (char_index env_flags_varaccess_mask (Z.land binflags ENV_FLAGS_VARACCESS_BIN_MASK)).

Definition is_hex_prefix (value : str) : bool :=
  (c0 value =? 48) && ((c1 value =? 120) || (c1 value =? 88)).

(** At most [n] characters of a class; all of them when [n] is [None]. *)
Fixpoint skip_class (p : Z → bool) (n : option nat) (value : str) : str :=
  match value with
  | [] => []
  | c :: value' =>
      match n with
      | Some O => value
      | Some (S n) => if p c then skip_class p (Some n) value' else value
      | None => if p c then skip_class p None value' else value
      end
  end.

(** [max_digits] of -1 is [None]; the result is [*end]. *)
Definition skip_num (hex : bool) (value : str) (max_digits : option nat) : str :=
  let value := if hex && is_hex_prefix value then drop 2 value else value in
  skip_class (if hex then isxdigit else isdigit) max_digits value.

Definition same_place (s end_ : str) : bool := (length s =? length end_)%nat.

(** The loop of [eth_validate_ethaddr_str] with [n] fields to go. *)
Fixpoint ethaddr_fields (n : nat) (cur : str) : Z :=
  match n with
  | O => 0
  | S n =>
      let end_ := skip_num true cur (Some 2%nat) in
      if same_place cur end_ then -1
      else if same_place (drop 2 cur) end_ && is_hex_prefix cur then -1
      else if negb (n =? 0)%nat && negb (c0 end_ =? 58) then -1
      else if (n =? 0)%nat && negb (c0 end_ =? 0) then -1
      else ethaddr_fields n (tail end_)
  end.

Definition eth_validate_ethaddr_str (addr : str) : Z := ethaddr_fields 6 addr.

Fixpoint ipaddr_fields (n : nat) (cur : str) : Z :=
  match n with
  | O => 0
  | S n =>
      let end_ := skip_num false cur (Some 3%nat) in
      if same_place cur end_ then -1
      else if negb (n =? 0)%nat && negb (c0 end_ =? 46) then -1
      else if (n =? 0)%nat && negb (c0 end_ =? 0) then -1
      else ipaddr_fields n (tail end_)
  end.

Definition _env_flags_validate_type (value : str) (type : Z) : Z :=
  if type =? env_flags_vartype_decimal then
    if negb (c0 (skip_num false value None) =? 0) then -1 else 0
  else if type =? env_flags_vartype_hex then
    let end_ := skip_num true value None in
    if negb (c0 end_ =? 0) then -1
    else if same_place (drop 2 value) end_ && is_hex_prefix value then -1 else 0
  else if type =? env_flags_vartype_bool then
    if negb (existsb (λ c, c =? c0 value) (chars "1ytYT0nfNF")) then -1
    else if negb (c1 value =? 0) then -1 else 0
  else if type =? env_flags_vartype_ipaddr then ipaddr_fields 4 value
  else if type =? env_flags_vartype_macaddr then
    if negb (eth_validate_ethaddr_str value =? 0) then -1 else 0
  else if type =? env_flags_vartype_end then -1
  else 0.

(** ** Permission *)

(** The default environment is a parameter. *)
Definition env_flags_validate (env_get_default : str → option str) (item : env_entry)
    (newval : option str) (op : env_op) (flag : Z) : option Z :=
  let newval := default [] newval in
  let type := Z.land ENV_FLAGS_VARTYPE_BIN_MASK (flags item) in
  let prevents m := has_flag (flags item) m in
  if negb (bool_decide (op = env_op_delete)) && (_env_flags_validate_type newval type <? 0) then Some (-1)
  else if has_flag flag H_FORCE then Some 0
  else
    match op with
    | env_op_delete => Some (if prevents ENV_FLAGS_VARACCESS_PREVENT_DELETE then 1 else 0)
    | env_op_overwrite =>
        if prevents ENV_FLAGS_VARACCESS_PREVENT_OVERWR then Some 1
        else if prevents ENV_FLAGS_VARACCESS_PREVENT_NONDEF_OVERWR then
          oldval ← data item;
          name ← key item;
          let defval := default [] (env_get_default name) in
          Some (if negb (strcmp oldval defval =? 0) then 1 else 0)
        else Some 0
    | env_op_create => Some (if prevents ENV_FLAGS_VARACCESS_PREVENT_CREATE then 1 else 0)
    end.

Section lookup.
Context `{!EnvHooks, !Regex}.

Definition env_flags_lookup (flags_list : option str) (name : str) (room : option Z) : option (Z * option str) :=
  match room with
  | None => Some (-1, None)
  | Some _ =>
      '(ret, flags) ← (match flags_list with
        | Some _ => env_attr_lookup flags_list name room
        | None => Some (1, None)
        end);
      if negb (ret =? 0) then env_attr_lookup (Some ENV_FLAGS_LIST_STATIC) name room
      else Some (ret, flags)
  end.

Definition env_parse_flags_to_bin (flags : str) : option Z :=
  mask ← arr_get env_flags_varaccess_mask (env_flags_parse_varaccess flags);
  Some (Z.lor (Z.land (env_flags_parse_vartype flags) ENV_FLAGS_VARTYPE_BIN_MASK) mask).

(** The flags of a new entry that has [old] flags; [flags_list] is the value of
    ".flags" at the first call. *)
Definition env_flags_init_entry (flags_list : option str) (name : str) (old : Z) : option Z :=
  '(ret, flags) ← env_flags_lookup flags_list name (Some (ENV_FLAGS_ATTR_MAX_LEN + 1));
  match flags with
  | Some f => if (ret =? 0) && negb (bool_decide (f = [])) then env_parse_flags_to_bin f else Some old
  | None => Some old
  end.

(** ** Changing the flags of the variables *)

Definition set_entry_flags (e : env_entry) (f : Z) : env_entry :=
  {| key := key e; data := data e; callback := callback e; flags := f |}.

Definition clear_flags (e : env_entry) : env_entry := set_entry_flags e 0.

(** The flags that the attributes of a list entry stand for. *)
Definition flags_of (value : option str) : option Z :=
  match value with
  | None | Some [] => Some 0
  | Some v => env_parse_flags_to_bin v
  end.

Definition set_flags (name : str) (value : option str) (htab : hsearch_data) : option hsearch_data :=
  change_entry name (λ ep, f ← flags_of value; Some (set_entry_flags ep f)) htab.

Definition set_flags_callback (name : str) (value : option str) (htab : option hsearch_data)
    : Z * option hsearch_data :=
  (0, h ← htab; set_flags name value h).

Definition on_flags (value : option str) (htab : hsearch_data) : option hsearch_data :=
  h ← hwalk_update clear_flags htab;
  '(_, h) ← env_attr_walk (Some ENV_FLAGS_LIST_STATIC) set_flags_callback (Some h);
  '(_, h) ← env_attr_walk value set_flags_callback h;
  h.
End lookup.

(** The permission check of the table. *)
Definition flags_check (env_get_default : str → option str) (e : env_entry) (d : option str) (op : env_op) (flag : Z) : bool :=
  match env_flags_validate env_get_default e d op flag with
  | Some r => negb (r =? 0)
  | None => true
  end.

(** The permission check with the flags of new entries.  The callbacks are the
    ones of [base]; what the callback of ".flags" does to the table is in
    [env_step] of EnvCallback. *)
Definition flags_hooks (base : EnvHooks) (R : Regex) (env_get_default : str → option str)
    (flags_list : option str) : EnvHooks := {|
  change_ok := Some (flags_check env_get_default);
  run_callback := @run_callback base;
  env_callback_init := @env_callback_init base;
  env_flags_init := λ k, default 0 (@env_flags_init_entry base R flags_list k 0);
  strdup := @strdup base;
  strdup_same := @strdup_same base;
  calloc_ok := @calloc_ok base;
  malloc_ok := @malloc_ok base
|}.

(** ** The values of each type *)

Definition digits (s : str) : Prop := Forall (λ c, isdigit c = true) s.
Definition xdigits (s : str) : Prop := Forall (λ c, isxdigit c = true) s.

(** "0x" or "0X" and at least one digit. *)
Definition prefixed (s : str) : Prop :=
  ∃ x h, s = 48 :: x :: h ∧ (x = 120 ∨ x = 88) ∧ h ≠ [] ∧ xdigits h.

Fixpoint join (sep : Z) (gs : list str) : str :=
  match gs with
  | [] => []
  | [g] => g
  | g :: gs => g ++ sep :: join sep gs
  end.

Definition ip_field (g : str) : Prop := (1 ≤ length g ≤ 3)%nat ∧ digits g.
Definition mac_field (g : str) : Prop :=
  ((1 ≤ length g ≤ 2)%nat ∧ xdigits g) ∨ ((length g ≤ 4)%nat ∧ prefixed g).

Definition typed (t : Z) (v : str) : Prop :=
  if t =? env_flags_vartype_decimal then digits v
  else if t =? env_flags_vartype_hex then xdigits v ∨ prefixed v
  else if t =? env_flags_vartype_bool then ∃ c, v = [c] ∧ c ∈ chars "1ytYT0nfNF"
  else if t =? env_flags_vartype_ipaddr then
    ∃ gs, length gs = 4%nat ∧ Forall ip_field gs ∧ v = join 46 gs
  else if t =? env_flags_vartype_macaddr then
    ∃ gs, length gs = 6%nat ∧ Forall mac_field gs ∧ v = join 58 gs
  else t ≠ env_flags_vartype_end.

(** ** Scanning *)

Lemma skip_class_split p n v : ∃ g, v = g ++ skip_class p n v ∧ Forall (λ c, p c = true) g ∧
  match n with Some n => (length g ≤ n)%nat | None => True end.
Proof.
  assert (Hnil : ∀ n v, skip_class p n v = v → ∃ g, v = g ++ skip_class p n v ∧
    Forall (λ c, p c = true) g ∧ match n with Some n => (length g ≤ n)%nat | None => True end).
  { intros m w E. exists []. rewrite E. split_and!; [done|constructor|destruct m; cbn; [lia|done]]. }
  revert n. induction v as [|c v IH]; intros n; [apply Hnil; by destruct n|].
  destruct (p c) eqn:E; [|apply Hnil; cbn; rewrite E; by destruct n as [[|]|]].
  destruct n as [[|n]|]; [by apply Hnil| |]; cbn; rewrite E.
  - destruct (IH (Some n)) as (g & Hv & Hg & Hn). exists (c :: g). cbn. rewrite <-Hv.
    split_and!; [done|by constructor|lia].
  - destruct (IH None) as (g & Hv & Hg & _). exists (c :: g). cbn. rewrite <-Hv.
    split_and!; [done|by constructor|done].
Qed.

Lemma skip_class_app p n g r : Forall (λ c, p c = true) g →
  match n with Some n => (length g ≤ n)%nat | None => True end →
  (r = [] ∨ p (c0 r) = false) → skip_class p n (g ++ r) = r.
Proof.
  intros Hg. revert n. induction Hg as [|c g Hc _ IH]; intros n Hn Hr; cbn [app].
  - destruct r as [|c r]; [by destruct n|]. destruct Hr as [|Hr]; [done|]. cbn in *. rewrite Hr.
    by destruct n as [[|n]|].
  - cbn. destruct n as [[|n]|]; [cbn in Hn; lia| |]; rewrite Hc; apply IH; try done. cbn in Hn; lia.
Qed.

Lemma skip_class_all p v : skip_class p None v = [] ↔ Forall (λ c, p c = true) v.
Proof.
  split.
  - intros E. destruct (skip_class_split p None v) as (g & Hv & Hg & _). rewrite E, app_nil_r in Hv. by subst.
  - intros H. rewrite <-(app_nil_r v) at 1. apply skip_class_app; [done..|by left].
Qed.

Lemma c0_zero s : 0 ∉ s → c0 s = 0 ↔ s = [].
Proof.
  intros H. split; [|by intros ->]. destruct s as [|c s]; [done|]. cbn. intros ->.
  apply not_elem_of_cons in H. by destruct H.
Qed.

Lemma same_place_app (g r : str) : same_place (g ++ r) r = bool_decide (g = []).
Proof.
  unfold same_place. rewrite length_app. case_bool_decide as H; [subst; apply Nat.eqb_refl|].
  apply Nat.eqb_neq. destruct g; [done|cbn; lia].
Qed.

Lemma same_place_split (s g r : str) : s = g ++ r → same_place s r = bool_decide (g = []).
Proof. intros ->. apply same_place_app. Qed.

Lemma not_elem_app_r (x : Z) (g r : str) : x ∉ g ++ r → x ∉ r.
Proof. intros H Hr. apply H, elem_of_app. by right. Qed.

Lemma prefix_inv s : is_hex_prefix s = true → ∃ x h, s = 48 :: x :: h ∧ (x = 120 ∨ x = 88).
Proof.
  unfold is_hex_prefix. rewrite andb_true_iff, orb_true_iff, !Z.eqb_eq.
  destruct s as [|a [|x h]]; cbn; [lia|lia|]. intros [-> Hx]. by exists x, h.
Qed.

(** ** Fields between separators *)

Section fields.
Context (skip : str → str) (bad : str → str → bool) (sep : Z) (G : str → Prop).

Fixpoint fields (n : nat) (cur : str) : Z :=
  match n with
  | O => 0
  | S n =>
      let end_ := skip cur in
      if bad cur end_ then -1
      else if negb (n =? 0)%nat && negb (c0 end_ =? sep) then -1
      else if (n =? 0)%nat && negb (c0 end_ =? 0) then -1
      else fields n (tail end_)
  end.

Context (Hsep : sep ≠ 0).
Context (field_found : ∀ cur, bad cur (skip cur) = false → ∃ g, cur = g ++ skip cur ∧ G g).
Context (field_taken : ∀ g r, G g → (r = [] ∨ c0 r = sep) → skip (g ++ r) = r ∧ bad (g ++ r) r = false).

Lemma fields_result n cur : fields n cur = 0 ∨ fields n cur = -1.
Proof.
  revert cur. induction n as [|n IH]; intros cur; cbn; [by left|].
  destruct (bad _ _); [by right|]. destruct (_ && _); [by right|]. destruct (_ && _); [by right|]. apply IH.
Qed.

Lemma fields_correct n cur : 0 ∉ cur →
  fields (S n) cur = 0 ↔ ∃ gs, length gs = S n ∧ Forall G gs ∧ cur = join sep gs.
Proof.
  revert cur. induction n as [|n IH]; intros cur H0.
  - cbn. split.
    + destruct (bad cur (skip cur)) eqn:Hb; [done|]. destruct (field_found cur Hb) as (g & Hc & Hg).
      destruct (Z.eqb_spec (c0 (skip cur)) 0) as [E|]; [intros _|done].
      apply c0_zero in E; [|rewrite Hc in H0; by eapply not_elem_app_r]. exists [g].
      rewrite E, app_nil_r in Hc. split_and!; [done|by constructor|done].
    + intros (gs & Hl & Hg & ->). destruct gs as [|g [|]]; try done. apply Forall_cons in Hg as [Hg _]. cbn.
      destruct (field_taken g [] Hg) as [Hs Hb]; [by left|]. rewrite app_nil_r in Hs, Hb. by rewrite Hs, Hb.
  - change (fields (S (S n)) cur) with
      (if bad cur (skip cur) then -1
       else if negb (c0 (skip cur) =? sep) then -1 else fields (S n) (tail (skip cur))). split.
    + destruct (bad cur (skip cur)) eqn:Hb; [done|]. destruct (field_found cur Hb) as (g & Hc & Hg).
      destruct (Z.eqb_spec (c0 (skip cur)) sep) as [E|]; [cbn [negb]|done].
      destruct (skip cur) as [|s r]; [by cbn in E; subst|]. cbn in E. subst s. cbn [tail]. intros Hf.
      apply IH in Hf as (gs & Hl & Hgs & Hr).
      * exists (g :: gs). split; [by rewrite <-Hl|]. split; [by constructor|].
        destruct gs as [|g2 gs]; [done|]. rewrite Hc, Hr. done.
      * rewrite Hc in H0. apply not_elem_app_r, not_elem_of_cons in H0. by destruct H0.
    + intros (gs & Hl & Hgs & ->). destruct gs as [|g [|g2 gs]]; try done.
      apply Forall_cons in Hgs as [Hg Hgs]. cbn [join] in *.
      destruct (field_taken g (sep :: join sep (g2 :: gs)) Hg) as [Hs Hb]; [by right|].
      cbn [join] in Hs, Hb. rewrite Hs, Hb. cbn [c0 head default tail]. unfold c0. cbn [head default].
      rewrite Z.eqb_refl. cbn [negb]. apply IH.
      * apply not_elem_app_r, not_elem_of_cons in H0. by destruct H0.
      * exists (g2 :: gs). split; [by injection Hl as Hl; cbn; f_equal|done].
Qed.
End fields.

(** ** The check of a value against its type *)

Lemma xdigit_not_x c : isxdigit c = true → c ≠ 120 ∧ c ≠ 88.
Proof. intros H. split; intros ->; by vm_compute in H. Qed.

Lemma skip_num_dec v n : skip_num false v n = skip_class isdigit n v.
Proof. done. Qed.

Lemma not_prefix_app g r : xdigits g → g ≠ [] → (r = [] ∨ c0 r = 58) → is_hex_prefix (g ++ r) = false.
Proof.
  intros Hg Hne Hr. unfold is_hex_prefix. apply andb_false_iff. right. apply orb_false_iff.
  destruct g as [|a [|b g]]; [done|..]; cbn.
  - destruct Hr as [->|Hr]; [done|]. unfold c1. cbn. unfold c0 in Hr. destruct (head r); cbn in *; [subst|]; done.
  - apply Forall_cons in Hg as [_ Hg]. apply Forall_cons in Hg as [Hb _].
    apply xdigit_not_x in Hb. unfold c1. cbn. rewrite !Z.eqb_neq. done.
Qed.

Lemma ip_fields v : 0 ∉ v → ipaddr_fields 4 v = 0 ↔ typed env_flags_vartype_ipaddr v.
Proof.
  intros H0. apply (fields_correct (λ cur, skip_num false cur (Some 3%nat)) same_place 46 ip_field); [done| | |done].
  - intros cur Hb. rewrite skip_num_dec in *. destruct (skip_class_split isdigit (Some 3%nat) cur) as (g & Hc & Hg & Hn).
    exists g. split; [done|]. split; [|done]. rewrite (same_place_split _ _ _ Hc) in Hb.
    apply bool_decide_eq_false in Hb. destruct g; [done|cbn in *; lia].
  - intros g r [Hlen Hg] Hr. rewrite skip_num_dec. split.
    + apply skip_class_app; [done|lia|]. destruct Hr as [->|Hr]; [by left|right]. by rewrite Hr.
    + rewrite same_place_app. apply bool_decide_eq_false. by intros ->; cbn in Hlen; lia.
Qed.

Definition mac_bad (cur end_ : str) : bool :=
  same_place cur end_ || (same_place (drop 2 cur) end_ && is_hex_prefix cur).

Lemma ethaddr_as_fields n cur :
  ethaddr_fields n cur = fields (λ cur, skip_num true cur (Some 2%nat)) mac_bad 58 n cur.
Proof.
  revert cur. induction n as [|n IH]; intros cur; [done|]. cbn [ethaddr_fields fields]. rewrite IH.
  unfold mac_bad. by destruct (same_place cur _), (same_place (drop 2 cur) _ && is_hex_prefix cur).
Qed.

Lemma mac_fields v : 0 ∉ v → ethaddr_fields 6 v = 0 ↔ typed env_flags_vartype_macaddr v.
Proof.
  intros H0. rewrite ethaddr_as_fields. apply fields_correct; [done| | |done].
  - intros cur Hb. unfold skip_num in *. cbn [andb] in *. apply orb_false_iff in Hb as [Hb1 Hb2].
    destruct (is_hex_prefix cur) eqn:Hp.
    + apply prefix_inv in Hp as (x & h & -> & Hx).
      change (drop 2 (48 :: x :: h)) with h in *. rewrite andb_true_r in Hb2.
      destruct (skip_class_split isxdigit (Some 2%nat) h) as (g & Hc & Hg & Hn).
      exists (48 :: x :: g). split; [by rewrite Hc at 1|]. right. split; [cbn; lia|]. exists x, g.
      split_and!; [done|done| |done]. rewrite (same_place_split _ _ _ Hc) in Hb2.
      by apply bool_decide_eq_false in Hb2.
    + destruct (skip_class_split isxdigit (Some 2%nat) cur) as (g & Hc & Hg & Hn).
      exists g. split; [done|]. left. split; [|done]. rewrite (same_place_split _ _ _ Hc) in Hb1.
      apply bool_decide_eq_false in Hb1. destruct g; [done|cbn in *; lia].
  - intros g r Hg Hr.
    assert (Hr' : r = [] ∨ isxdigit (c0 r) = false) by (destruct Hr as [->|Hr]; [by left|right; by rewrite Hr]).
    unfold skip_num, mac_bad. cbn [andb]. destruct Hg as [[Hlen Hg]|[Hlen (x & h & -> & Hx & Hne & Hh)]].
    + assert (g ≠ []) by (intros ->; cbn in Hlen; lia).
      rewrite not_prefix_app, andb_false_r, orb_false_r, same_place_app by done.
      split; [apply skip_class_app; [done|lia|done]|by apply bool_decide_eq_false].
    + assert (Hp : is_hex_prefix ((48 :: x :: h) ++ r) = true).
      { unfold is_hex_prefix, c0, c1. cbn. destruct Hx as [-> | ->]; done. }
      rewrite Hp. change (drop 2 ((48 :: x :: h) ++ r)) with (h ++ r).
      rewrite !same_place_app, andb_true_r. split; [apply skip_class_app; [done|cbn in Hlen; lia|done]|].
      apply orb_false_iff. split; by apply bool_decide_eq_false.
Qed.

Lemma hex_correct v : 0 ∉ v →
  (if negb (c0 (skip_num true v None) =? 0) then -1
   else if same_place (drop 2 v) (skip_num true v None) && is_hex_prefix v then -1 else 0) = 0
  ↔ xdigits v ∨ prefixed v.
Proof.
  intros H0. unfold skip_num. cbn [andb]. destruct (is_hex_prefix v) eqn:Hp.
  - pose proof Hp as (x & h & -> & Hx)%prefix_inv. change (drop 2 (48 :: x :: h)) with h.
    assert (Hh0 : 0 ∉ skip_class isxdigit None h).
    { destruct (skip_class_split isxdigit None h) as (g & Hc & _ & _). rewrite Hc in H0.
      by apply (not_elem_app_r 0 (48 :: x :: g)). }
    rewrite andb_true_r. split.
    + destruct (Z.eqb_spec (c0 (skip_class isxdigit None h)) 0) as [E|]; [cbn [negb]|done].
      apply c0_zero in E; [|done]. rewrite E. unfold same_place. destruct h as [|a h]; [done|]. intros _.
      right. exists x, (a :: h). apply skip_class_all in E. done.
    + intros [Hx'|(x' & h' & [= <- <-] & _ & Hne & Hh)].
      * apply Forall_cons in Hx' as [_ Hx']. apply Forall_cons in Hx' as [Hc _].
        apply xdigit_not_x in Hc. lia.
      * apply skip_class_all in Hh. rewrite Hh. cbn. destruct h; done.
  - assert (Hh0 : 0 ∉ skip_class isxdigit None v).
    { destruct (skip_class_split isxdigit None v) as (g & Hc & _ & _). rewrite Hc in H0.
      by eapply not_elem_app_r. }
    rewrite andb_false_r. split.
    + destruct (Z.eqb_spec (c0 (skip_class isxdigit None v)) 0) as [E|]; [|done]. intros _.
      apply c0_zero in E; [|done]. left. by apply skip_class_all in E.
    + intros [Hx|(x & h & -> & Hx & _)]; [by apply skip_class_all in Hx; rewrite Hx|].
      unfold is_hex_prefix, c0, c1 in Hp. cbn in Hp. destruct Hx as [-> | ->]; done.
Qed.

Lemma validate_type_spec v t : 0 ∉ v →
  (_env_flags_validate_type v t = 0 ∨ _env_flags_validate_type v t = -1) ∧
  (_env_flags_validate_type v t = 0 ↔ typed t v).
Proof.
  intros H0. unfold _env_flags_validate_type, typed.
  destruct (t =? env_flags_vartype_decimal).
  { split; [repeat case_match; auto|]. unfold digits. rewrite <-skip_class_all, <-skip_num_dec.
    destruct (skip_class_split isdigit None v) as (g & Hc & _ & _).
    assert (Hs : 0 ∉ skip_class isdigit None v) by (rewrite Hc in H0; by eapply not_elem_app_r).
    rewrite <-(c0_zero _ Hs), skip_num_dec. destruct (Z.eqb_spec (c0 (skip_class isdigit None v)) 0); done. }
  destruct (t =? env_flags_vartype_hex).
  { split; [repeat case_match; auto|]. by apply hex_correct. }
  destruct (t =? env_flags_vartype_bool).
  { split; [repeat case_match; auto|]. destruct (existsb (λ c, c =? c0 v) (chars "1ytYT0nfNF")) eqn:E; cbn [negb].
    - apply existsb_exists in E as (c & Hin & Ec%Z.eqb_eq). apply list_elem_of_In in Hin. split.
      + destruct (Z.eqb_spec (c1 v) 0) as [E|]; [intros _|done]. destruct v as [|c' [|c2 v]].
        * cbn in Ec. subst c. vm_compute in Hin. exfalso. set_solver.
        * cbn in Ec. subst c. by exists c'.
        * cbn in E. subst. exfalso. by rewrite !not_elem_of_cons in H0; destruct H0 as (_ & ? & _).
      + intros (c2 & -> & _). done.
    - split; [done|]. intros (c & -> & Hin). exfalso. apply eq_true_false_abs with (2 := E).
      apply existsb_exists. exists c. split; [by apply list_elem_of_In|apply Z.eqb_refl]. }
  destruct (t =? env_flags_vartype_ipaddr).
  { split; [|by apply ip_fields].
    apply (fields_result (λ cur, skip_num false cur (Some 3%nat)) same_place 46). }
  destruct (t =? env_flags_vartype_macaddr).
  { unfold eth_validate_ethaddr_str. split; [repeat case_match; auto|].
    rewrite <-(mac_fields v H0). destruct (Z.eqb_spec (ethaddr_fields 6 v) 0); done. }
  destruct (Z.eqb_spec t env_flags_vartype_end); split; auto; done.
Qed.

(** A value without a terminator inside is accepted exactly when it has the
    form of the type - decimal or hexadecimal digits, one character of a
    boolean, four numbers of one to three digits, six hexadecimal bytes - and
    is otherwise refused with -1. *)
Theorem validate_type_correct v t : 0 ∉ v →
  (_env_flags_validate_type v t = 0 ∧ typed t v) ∨ (_env_flags_validate_type v t = -1 ∧ ¬ typed t v).
Proof. intros H0. destruct (validate_type_spec v t H0) as [[E|E] Ht]; rewrite E in *; [left|right]; naive_solver. Qed.

(** ** The table under this check *)

Section checked.
Context (H : EnvHooks) (env_get_default : str → option str).
Context (checks : @change_ok H = Some (flags_check env_get_default)).

Definition entry_type (e : env_entry) : Z := Z.land ENV_FLAGS_VARTYPE_BIN_MASK (flags e).

(** Every value has the type of its variable, or has not changed since [M0]. *)
Definition typed_since (M0 M : gmap str env_entry) : Prop :=
  ∀ k e d, M !! k = Some e → data e = Some d → typed (entry_type e) d ∨ M0 !! k = Some e.

(** Neither overwritten nor deleted: the masks of "read-only" and
    "write-once". *)
Definition protected (e : env_entry) : Prop :=
  has_flag (flags e) ENV_FLAGS_VARACCESS_PREVENT_OVERWR = true ∧
  has_flag (flags e) ENV_FLAGS_VARACCESS_PREVENT_DELETE = true.

(** A value from a C string. *)
Definition clean (q : request) : Prop := match q with Enter _ d _ => 0 ∉ d | _ => True end.

Definition unforced (q : request) : Prop :=
  match q with
  | Find _ => True
  | Enter _ _ flag => has_flag flag H_FORCE = false
  | Delete _ flag => has_flag flag H_FORCE = false
  end.

Lemma checked_typed e k d op flag : 0 ∉ d → op ≠ env_op_delete →
  @check_change H e k (Some d) op flag = None → typed (entry_type e) d.
Proof.
  intros H0 Hop. unfold check_change, rejects. rewrite checks. unfold flags_check, env_flags_validate. cbn [from_option id].
  rewrite bool_decide_false by done. cbn [negb andb]. fold (entry_type e).
  destruct (validate_type_spec d (entry_type e) H0) as [[E|E] Ht]; rewrite E; [|by cbn].
  intros _. by apply Ht.
Qed.

Lemma protected_rejects e k d op flag : protected e → op ≠ env_op_create → has_flag flag H_FORCE = false →
  ∃ err, @check_change H e k d op flag = Some err.
Proof.
  intros [Ho Hd] Hop Hf. unfold check_change, rejects. rewrite checks. unfold flags_check, env_flags_validate.
  destruct (_ && _); [by eexists|]. rewrite Hf. destruct op; [done|rewrite Hd|rewrite Ho]; by eexists.
Qed.

Lemma map_step_typed cap M0 M q : clean q → typed_since M0 M → typed_since M0 (@map_step H cap M q).1.
Proof.
  intros Hq HM. destruct q as [k|k d flag|k flag]; cbn [map_step]; [done| |].
  - destruct (M !! k) as [e|] eqn:Ek.
    + destruct (@check_change H e k (Some d) env_op_overwrite flag) eqn:Ec; cbn [fst]; [done|].
      intros k' e' d' [[<- <-]|[_ He']]%lookup_insert_Some; [|exact (HM k' e' d' He')].
      intros [= <-]. left. apply (checked_typed e k d env_op_overwrite flag); done.
    + case_decide; [done|].
      destruct (@check_change H (@new_entry H k d) k (Some d) env_op_create flag) eqn:Ec; cbn [fst]; [done|].
      intros k' e' d' [[<- <-]|[_ He']]%lookup_insert_Some; [|exact (HM k' e' d' He')].
      intros [= <-]. left. apply (checked_typed _ k d env_op_create flag); done.
  - destruct (M !! k) as [e|]; [|done]. destruct (@check_change H e k None env_op_delete flag); [done|]. cbn [fst].
    intros k' e' d' [_ He']%lookup_delete_Some. exact (HM k' e' d' He').
Qed.

Lemma map_step_protected cap M q k e : unforced q → M !! k = Some e → protected e →
  (@map_step H cap M q).1 !! k = Some e.
Proof.
  intros Hq Hk Hp. destruct q as [k'|k' d flag|k' flag]; cbn [map_step]; [done| |];
    destruct (decide (k' = k)) as [->|Hne]; cbn in Hq.
  - rewrite Hk. destruct (protected_rejects e k (Some d) env_op_overwrite flag) as [err ->]; done.
  - destruct (M !! k') as [e'|]; [|case_decide; [done|]];
      destruct (check_change _ _ _ _ _); cbn [fst]; try done; by rewrite lookup_insert_ne.
  - rewrite Hk. destruct (protected_rejects e k None env_op_delete flag) as [err ->]; done.
  - destruct (M !! k') as [e'|]; [|done]. destruct (check_change _ _ _ _ _); cbn [fst]; try done.
    by rewrite lookup_delete_ne.
Qed.

Lemma map_run_preserves (P : gmap str env_entry → Prop) (Q : request → Prop) cap M qs :
  (∀ M q, Q q → P M → P (@map_step H cap M q).1) → Forall Q qs → P M → P (@map_run H cap M qs).1.
Proof.
  intros Hstep Hqs. revert M. induction Hqs as [|q qs Hq _ IH]; intros M HM; cbn [map_run]; [done|].
  pose proof (Hstep M q Hq HM) as H1. destruct (map_step _ _ _) as [M1 a].
  specialize (IH M1 H1). by destruct (map_run _ _ _).
Qed.
End checked.

(** ** Changing the list of flags *)

Lemma char_index_range l c i : char_index l c = Some i → 0 ≤ i < Z.of_nat (length l).
Proof.
  revert i. induction l as [|x l IH]; intros i; cbn; [done|]. destruct (x =? c); [intros [= <-]; lia|].
  destruct (char_index l c) as [j|]; [|done]. cbn. intros [= <-]. specialize (IH j eq_refl). lia.
Qed.

Lemma parse_flags_total v : is_Some (env_parse_flags_to_bin v).
Proof.
  unfold env_parse_flags_to_bin.
  assert (Hr : 0 ≤ env_flags_parse_varaccess v < 4).
  { unfold env_flags_parse_varaccess. destruct v as [|? [|c v]]; [lia..|].
    destruct (char_index env_flags_varaccess_rep c) as [i|] eqn:E; cbn; [|lia].
    by apply char_index_range in E. }
  destruct (arr_get_ex env_flags_varaccess_mask (env_flags_parse_varaccess v)) as [m ->]; [exact Hr|].
  by eexists.
Qed.

Lemma flags_of_total v : flags_of v = Some (default 0 (flags_of v)).
Proof. destruct v as [[|c v]|]; cbn [flags_of]; [done| |done]. by destruct (parse_flags_total (c :: v)) as [f ->]. Qed.

(** The flags that the entries of the lists give to a variable. *)
Definition flags_after : list (str * option str) → str → Z := assigned (λ a _, default 0 (flags_of a)) 0.

(** Changing ".flags" ends for every list, also one that is not well
    formed.  Each variable then has the flags of the last entry with its name,
    first of the static list and then of the new one, and none without an
    entry; nothing else of the table changes.  A list is taken as far as there
    is memory for its entries. *)
Theorem on_flags_correct `{!EnvHooks} h tbl value : htab_ok h tbl →
  ∃ h' tbl' es1 es2, on_flags value h = Some h' ∧ htab_ok h' tbl' ∧
    vars h' = with_field set_entry_flags (flags_after (es1 ++ es2)) (vars h) ∧
    es1 `prefix_of` attr_entries ENV_FLAGS_LIST_STATIC ∧ es2 `prefix_of` from_option attr_entries [] value ∧
    ((∀ n, malloc_ok n = true) →
      es1 = attr_entries ENV_FLAGS_LIST_STATIC ∧ es2 = from_option attr_entries [] value).
Proof.
  intros Hok. unfold on_flags, clear_flags.
  destruct (relabel_spec set_entry_flags ltac:(done) ltac:(done) (λ a _, default 0 (flags_of a)) 0 h tbl
    set_flags_callback ENV_FLAGS_LIST_STATIC value) as (h' & tbl' & es1 & es2 & E & Hok' & _ & Hv & Hall); [|done|].
  { intros n a o es Ho. eexists. split; [reflexivity|].
    apply (relabelled_snoc flags); [done..| |exact Ho]. intros e. by rewrite flags_of_total. }
  exists h', tbl', es1, es2. exact (conj E (conj Hok' (conj Hv Hall))).
Qed.

(** ** Examples *)

(** The patterns are the names themselves. *)
Definition exact_regex : Regex := {|
  slre := str;
  slre_compile := Some;
  slre_match := λ p s, bool_decide (p = [94] ++ s ++ [36])
|}.

Definition ex_hooks : EnvHooks := flags_hooks open_hooks exact_regex (λ _, None) None.

(** "ipaddr" is set, then set to a value that is not an address; "serial#"
    can be set once only. *)
Definition ex_requests : list request :=
  [Enter (chars "ipaddr") (chars "10.0.0.1") 0; Enter (chars "ipaddr") (chars "10.0.0.x") 2;
   Enter (chars "serial#") (chars "7") 0; Enter (chars "serial#") (chars "8") 0; Delete (chars "serial#") 0].

Example ex_run :
  option_map snd (@table_run ex_hooks (fresh_table 5) ex_requests) =
  Some [Found {| key := Some (chars "ipaddr"); data := Some (chars "10.0.0.1"); callback := None; flags := 4 |};
        Error EPERM;
        Found {| key := Some (chars "serial#"); data := Some (chars "7"); callback := None; flags := 40 |};
        Error EPERM; Error EPERM].
Proof. vm_compute. reflexivity. Qed.

Lemma validate_type_correct_witness :
  (_env_flags_validate_type (chars "10.0.0.1") 4 = 0 ∧ typed 4 (chars "10.0.0.1")) ∨
  (_env_flags_validate_type (chars "10.0.0.1") 4 = -1 ∧ ¬ typed 4 (chars "10.0.0.1")).
Proof. apply validate_type_correct. vm_compute. set_solver. Defined.

(** An address of numbers beyond 255, and no digit at all for a number. *)
Example ip_beyond : _env_flags_validate_type (chars "999.999.999.999") env_flags_vartype_ipaddr = 0.
Proof. vm_compute. reflexivity. Qed.

Example empty_number : _env_flags_validate_type [] env_flags_vartype_decimal = 0.
Proof. vm_compute. reflexivity. Qed.

(** More than two attribute characters in ".flags" overflow the buffer. *)
Example flags_overflow :
  @env_flags_init_entry open_hooks exact_regex (Some (chars "a:sab")) (chars "a") 0 = None.
Proof. vm_compute. reflexivity. Qed.

(** A refused type is reported with -1, not 1. *)
Example validate_minus_one :
  env_flags_validate (λ _, None) {| key := Some [97]; data := None; callback := None; flags := 1 |}
    (Some [120]) env_op_create 0 = Some (-1).
Proof. vm_compute. reflexivity. Qed.

Definition serial_table : hsearch_data :=
  match @table_run ex_hooks (fresh_table 5) ex_requests with Some (h, _) => h | None => fresh_table 5 end.

Lemma serial_table_ok : htab_ok serial_table (default [] (table serial_table)).
Proof.
  destruct (@table_run_spec ex_hooks (λ s, ex_intro _ s eq_refl) (fresh_table 5) (replicate 6 free_node)
    ex_requests fresh_table_5) as (h & tbl & E & Hok & _).
  assert (Eh : serial_table = h) by (unfold serial_table; by rewrite E).
  by rewrite Eh, (ok_table _ _ Hok).
Qed.

Definition serial_entry : env_entry :=
  {| key := Some (chars "serial#"); data := Some (chars "7"); callback := None; flags := 40 |}.

Lemma on_flags_correct_witness :
  ∃ h' tbl' es1 es2, @on_flags open_hooks (Some (chars "ipaddr:so, ,x")) serial_table = Some h' ∧ htab_ok h' tbl' ∧
    vars h' = with_field set_entry_flags (flags_after (es1 ++ es2)) (vars serial_table) ∧
    es1 `prefix_of` attr_entries ENV_FLAGS_LIST_STATIC ∧ es2 `prefix_of` attr_entries (chars "ipaddr:so, ,x") ∧
    ((∀ n, @malloc_ok open_hooks n = true) →
      es1 = attr_entries ENV_FLAGS_LIST_STATIC ∧ es2 = attr_entries (chars "ipaddr:so, ,x")).
Proof.
  exact (@on_flags_correct open_hooks serial_table (default [] (table serial_table))
    (Some (chars "ipaddr:so, ,x")) serial_table_ok).
Defined.

(** The names of the lists are regular expressions for a new variable, but are
    taken as they are when ".flags" changes: "ethaddr", write-once by the entry
    "eth\d*addr" of the static list, then has no flags any more. *)
Definition eth_regex : Regex := {|
  slre := str;
  slre_compile := Some;
  slre_match := λ p s, bool_decide (p = [94] ++ s ++ [36]) ||
    bool_decide (p = chars "^eth\d*addr$" ∧ s = chars "ethaddr")
|}.

Definition eth_hooks : EnvHooks := flags_hooks open_hooks eth_regex (λ _, None) None.

Example flags_forget_patterns :
  option_map (λ '(h, a), (a,
    (h ← @on_flags eth_hooks (Some (chars "x:s")) h;
     option_map snd (@table_run eth_hooks h [Enter (chars "ethaddr") (chars "zz") 0]))))
    (@table_run eth_hooks (fresh_table 5)
      [Enter (chars "ethaddr") (chars "02:00:00:00:00:01") 0; Enter (chars "ethaddr") (chars "02:00:00:00:00:02") 0]) =
  Some ([Found {| key := Some (chars "ethaddr"); data := Some (chars "02:00:00:00:00:01"); callback := None; flags := 45 |};
         Error EPERM],
        Some [Found {| key := Some (chars "ethaddr"); data := Some (chars "zz"); callback := None; flags := 0 |}]).
Proof. vm_compute. reflexivity. Qed.
