(* ===== verification/EnvCallback.v ===== *)
(** * EnvCallback: callbacks of environment variables (env/callback.c)

    A callback is a function that the table calls when a variable changes.  The
    functions are in an array that the linker builds, here the parameter
    [clbks]; which variable has which callback is in the list of the variable
    ".callbacks" and in a static list.  [callback_hooks] gives the callbacks of
    new variables to the table.  The section [program] puts the table of the
    program together: the permission check of EnvFlags, the callbacks of new
    variables, and what the callbacks of ".flags" and ".callbacks" do to the
    table. *)

From Stdlib Require Import ZArith Lia List Znumtheory String Ascii.
From stdpp Require Import base numbers list option gmap.
From S2P Require Import Prelude Ctype Hashtable EnvText EnvAttr EnvFlags.

#[local] Open Scope Z_scope.

(** The functions are their addresses. *)
Record env_clbk_tbl := { clbk_name : str; clbk_callback : Z }.

Definition ENV_CALLBACK_LIST_STATIC : str :=
  chars "\.callbacks:callbacks,\.flags:flags,baudrate:baudrate,bootfile:bootfile,ipaddr:ipaddr,gatewayip:gatewayip,netmask:netmask,serverip:serverip,nvlan:nvlan,vlan:vlan,eth\d*addr:ethaddr,loadaddr:loadaddr,stdin:console,stdout:console,stderr:console,serial#:serialno,".

(** The array [callback_name] of the source. *)
Definition CALLBACK_NAME_SIZE : Z := 256.

Section callbacks.
Context `{!EnvHooks, !Regex} (clbks : list env_clbk_tbl).

Fixpoint find_in (tbl : list env_clbk_tbl) (name : str) : option env_clbk_tbl :=
  match tbl with
  | [] => None
  | clbkp :: tbl => if strcmp name (clbk_name clbkp) =? 0 then Some clbkp else find_in tbl name
  end.

Definition find_env_callback (name : option str) : option env_clbk_tbl :=
  match name with
  | None => None
  | Some name => find_in clbks name
  end.

(** The callback of a new entry that has the callback [old]; [callback_list] is
    the value of ".callbacks" at the first call. *)
Definition callback_init (callback_list : option str) (var_name : str) (old : option Z) : option (option Z) :=
  '(ret, callback_name) ← (match callback_list with
    | Some _ => env_attr_lookup callback_list var_name (Some CALLBACK_NAME_SIZE)
    | None => Some (1, None)
    end);
  '(ret, callback_name) ← (if negb (ret =? 0)
    then env_attr_lookup (Some ENV_CALLBACK_LIST_STATIC) var_name (Some CALLBACK_NAME_SIZE)
    else Some (ret, callback_name));
  let callback_name := default [] callback_name in
  if (ret =? 0) && negb (bool_decide (callback_name = [])) then
    match find_env_callback (Some callback_name) with
    | Some clbkp => Some (Some (clbk_callback clbkp))
    | None => Some old
    end
  else Some old.

Definition set_entry_callback (e : env_entry) (c : option Z) : env_entry :=
  {| key := key e; data := data e; callback := c; flags := flags e |}.

Definition clear_callback (entry : env_entry) : env_entry := set_entry_callback entry None.

(** The callback that the attributes of a list entry give to a variable. *)
Definition callback_of (value : option str) (old : option Z) : option Z :=
  match value with
  | None | Some [] => None
  | Some _ =>
      match find_env_callback value with
      | Some clbkp => Some (clbk_callback clbkp)
      | None => old
      end
  end.

Definition set_callback (name : str) (value : option str) (htab : hsearch_data) : option hsearch_data :=
  change_entry name (λ ep, Some (set_entry_callback ep (callback_of value (callback ep)))) htab.

Definition set_callback_walk (name : str) (value : option str) (htab : option hsearch_data)
    : Z * option hsearch_data :=
  (0, h ← htab; set_callback name value h).

Definition on_callbacks (value : option str) (htab : hsearch_data) : option hsearch_data :=
  h ← hwalk_update clear_callback htab;
  '(_, h) ← env_attr_walk (Some ENV_CALLBACK_LIST_STATIC) set_callback_walk (Some h);
  '(_, h) ← env_attr_walk value set_callback_walk h;
  h.

(** The callback that the entries of the lists give to a variable. *)
Definition callback_after : list (str * option str) → str → option Z := assigned callback_of None.

End callbacks.

(** The callbacks of new entries, for the table. *)
Definition callback_hooks (base : EnvHooks) (R : Regex) (clbks : list env_clbk_tbl) (callback_list : option str)
    : EnvHooks := {|
  change_ok := @change_ok base;
  run_callback := @run_callback base;
  env_callback_init := λ k, default None (@callback_init base R clbks callback_list k None);
  env_flags_init := @env_flags_init base;
  strdup := @strdup base;
  strdup_same := @strdup_same base;
  calloc_ok := @calloc_ok base;
  malloc_ok := @malloc_ok base
|}.

(** ** The table of the program *)

(** A name that a request may change the variable of. *)
Definition changes (q : request) : option str :=
  match q with Find _ => None | Enter k _ _ | Delete k _ => Some k end.

Section steps.
Context (H : EnvHooks).

Lemma map_step_other cap M q k : changes q ≠ Some k → (@map_step H cap M q).1 !! k = M !! k.
Proof.
  intros Hk. destruct q as [k'|k' d flag|k' flag]; cbn [map_step changes] in *; [done| |].
  - assert (k' ≠ k) by congruence. destruct (M !! k') as [e'|]; [|case_decide; [done|]];
      destruct (check_change _ _ _ _ _); cbn [fst]; try done; by rewrite lookup_insert_ne.
  - assert (k' ≠ k) by congruence. destruct (M !! k') as [e'|]; [|done].
    destruct (check_change _ _ _ _ _); cbn [fst]; try done. by rewrite lookup_delete_ne.
Qed.

(** A variable keeps its callback, and a new one gets it from the lists. *)
Lemma map_step_callback cap M q k e' : (@map_step H cap M q).1 !! k = Some e' →
  (∃ e, M !! k = Some e ∧ callback e' = callback e) ∨ callback e' = @env_callback_init H k.
Proof.
  destruct (decide (changes q = Some k)) as [Hq|Hq]; [|rewrite map_step_other by done; left; by exists e'].
  destruct q as [k'|k' d flag|k' flag]; cbn [map_step changes] in *; [done|injection Hq as ->..].
  - destruct (M !! k) as [e|] eqn:Ek; [|case_decide; [cbn [fst]; by rewrite Ek|]].
    + destruct (check_change _ _ _ _ _); cbn [fst]; [rewrite Ek; intros [= <-]; left; by exists e|].
      rewrite lookup_insert_eq. intros [= <-]. left. by exists e.
    + destruct (check_change _ _ _ _ _); cbn [fst]; [by rewrite Ek|]. rewrite lookup_insert_eq. intros [= <-]. by right.
  - destruct (M !! k) as [e|] eqn:Ek; [|cbn [fst]; by rewrite Ek].
    destruct (check_change _ _ _ _ _); cbn [fst]; [rewrite Ek; intros [= <-]; left; by exists e|by rewrite lookup_delete_eq].
Qed.
End steps.

Section program.
(** What the table does not take from the lists: the other callbacks and the
    memory; the matcher, the default environment, the values of ".flags" and
    ".callbacks" at the first use, the array of the functions, and the addresses
    of the two functions that change the table. *)
Context (base : EnvHooks) (R : Regex) (env_get_default : str → option str) (flags_list callback_list : option str).
Context (clbks : list env_clbk_tbl) (on_flags_addr on_callbacks_addr : Z).

(** The two functions return 0. *)
Definition env_hooks : EnvHooks := {|
  change_ok := Some (flags_check env_get_default);
  run_callback := λ c k d op flag,
    if (c =? on_flags_addr) || (c =? on_callbacks_addr) then false else @run_callback base c k d op flag;
  env_callback_init := λ k, default None (@callback_init base R clbks callback_list k None);
  env_flags_init := λ k, default 0 (@env_flags_init_entry base R flags_list k 0);
  strdup := @strdup base;
  strdup_same := @strdup_same base;
  calloc_ok := @calloc_ok base;
  malloc_ok := @malloc_ok base
|}.

(** What the callback of an entry does to the table. *)
Definition callback_effect (c : option Z) (value : option str) (htab : hsearch_data) : option hsearch_data :=
  match c with
  | Some a =>
      if a =? on_flags_addr then @on_flags env_hooks value htab
      else if a =? on_callbacks_addr then @on_callbacks env_hooks clbks value htab
      else Some htab
  | None => Some htab
  end.

(** A request to the table.  The callback has run when the request is granted;
    it runs before the value is stored or the entry removed, and changes only
    the flags or the callbacks of the entries, so the order makes no
    difference. *)
Definition env_step (htab : hsearch_data) (q : request) : option (hsearch_data * answer) :=
  '(h, a) ← @table_step env_hooks htab q;
  match q, a with
  | Enter _ d _, Found e => h ← callback_effect (callback e) (Some d) h; Some (h, a)
  | Delete k _, Removed => h ← callback_effect (vars htab !! k ≫= callback) None h; Some (h, a)
  | _, _ => Some (h, a)
  end.

Fixpoint env_run (htab : hsearch_data) (qs : list request) : option (hsearch_data * list answer) :=
  match qs with
  | [] => Some (htab, [])
  | q :: qs => '(htab, a) ← env_step htab q; '(htab, l) ← env_run htab qs; Some (htab, a :: l)
  end.

(** The callback changes the table. *)
Definition special (c : option Z) : bool :=
  match c with Some a => (a =? on_flags_addr) || (a =? on_callbacks_addr) | None => false end.

(** The name is not bound to such a callback: a name other than ".flags" and
    ".callbacks", unless the lists bind more names to their functions. *)
Definition plain (M : gmap str env_entry) (k : str) : Prop :=
  (∀ e, M !! k = Some e → special (callback e) = false) ∧ special (@env_callback_init env_hooks k) = false.

(** The request does not change the lists: its name is a plain one, or the
    variable is protected and the request not forced. *)
Definition keeps_lists (M : gmap str env_entry) (q : request) : Prop :=
  ∀ k, changes q = Some k → plain M k ∨ unforced q ∧ ∃ e, M !! k = Some e ∧ protected e.

Lemma plain_step cap M q k : plain M k → plain (@map_step env_hooks cap M q).1 k.
Proof.
  intros [Hp Hi]. split; [|done]. intros e' He'.
  destruct (map_step_callback env_hooks cap M q k e' He') as [(e & He & ->)| ->]; [by apply Hp|done].
Qed.

Lemma keeps_lists_step cap M q q' : keeps_lists M q' → keeps_lists M q → keeps_lists (@map_step env_hooks cap M q).1 q'.
Proof.
  intros Hq' Hq k Hk. destruct (Hq' k Hk) as [Hp|(Hu & e & He & Hpr)]; [left; by apply plain_step|].
  destruct (decide (changes q = Some k)) as [Hqk|Hqk].
  - destruct (Hq k Hqk) as [Hp|[Huq _]]; [left; by apply plain_step|]. right. split; [done|]. exists e. split; [|done].
    by apply (map_step_protected env_hooks env_get_default eq_refl).
  - right. split; [done|]. exists e. by rewrite map_step_other.
Qed.

(** Such a request has no effect beyond the table operation. *)
Lemma env_step_keeps h tbl q : (∀ s, is_Some (@strdup base s)) → htab_ok h tbl → keeps_lists (vars h) q →
  env_step h q = @table_step env_hooks h q.
Proof.
  intros Hdup Hok Hq. unfold env_step.
  destruct (@table_step_spec env_hooks Hdup h tbl q Hok) as (h' & a & -> & _ & ->). cbn [mbind option_bind].
  assert (Heff : ∀ c v x, special c = false → callback_effect c v x = Some x).
  { intros [c|] v x; cbn; [|done]. rewrite orb_false_iff. by intros [-> ->]. }
  assert (Hno : ∀ e k d op flag, protected e → op ≠ env_op_create → has_flag flag H_FORCE = false →
    ∃ err, @check_change env_hooks e k d op flag = Some err).
  { intros. by apply (protected_rejects env_hooks env_get_default eq_refl). }
  destruct q as [k|k d flag|k flag]; [done| |]; specialize (Hq k eq_refl); cbn [map_step].
  - destruct (vars h !! k) as [e|] eqn:Ek.
    + destruct Hq as [[Hp _]|(Hu & e0 & [= <-] & Hpr)].
      * destruct (check_change _ _ _ _ _); cbn [snd]; [done|]. rewrite Heff; [done|]. cbn. by apply Hp.
      * by destruct (Hno e k (Some d) env_op_overwrite flag Hpr ltac:(done) Hu) as [err ->].
    + destruct Hq as [[_ Hi]|(_ & e0 & He0 & _)]; [|done]. case_decide; [done|].
      destruct (check_change _ _ _ _ _); cbn [snd]; [done|]. by rewrite Heff.
  - destruct (vars h !! k) as [e|] eqn:Ek; [|done].
    destruct Hq as [[Hp _]|(Hu & e0 & [= <-] & Hpr)].
    + destruct (check_change _ _ _ _ _); cbn [snd]; [done|]. cbn [mbind option_bind]. rewrite Heff; [done|]. by apply Hp.
    + by destruct (Hno e k None env_op_delete flag Hpr ltac:(done) Hu) as [err ->].
Qed.

Lemma env_run_keeps h tbl qs : (∀ s, is_Some (@strdup base s)) → htab_ok h tbl → Forall (keeps_lists (vars h)) qs →
  env_run h qs = @table_run env_hooks h qs.
Proof.
  intros Hdup. revert h tbl. induction qs as [|q qs IH]; intros h tbl Hok Hqs; [done|].
  apply Forall_cons_iff in Hqs as [Hq Hqs]. cbn [env_run table_run]. rewrite (env_step_keeps h tbl) by done.
  destruct (@table_step_spec env_hooks Hdup h tbl q Hok) as (h1 & a & -> & (Hv & _ & tbl1 & Hok1) & _).
  cbn [mbind option_bind]. rewrite (IH h1 tbl1 Hok1); [done|]. rewrite Hv.
  apply (Forall_impl _ _ _ Hqs). intros q' Hq'. by apply keeps_lists_step.
Qed.

(** C12. Types: on the table of the program, with env_flags_validate as the
    permission check and the callbacks of env_hooks, every sequence of
    requests - forced ones included - that does not change the lists
    themselves (the variables bound to on_flags and on_callbacks, which are
    ".flags" and ".callbacks", are not set or deleted, unless they are
    protected and the request is not forced) leaves each variable either as it
    was or with a value of the form of its type. From a table of typed values
    all stay typed. After a change of ".flags" old values need not have their
    new type (flags_change_unprotects). *)
Theorem env_types_hold h tbl qs : (∀ s, is_Some (@strdup base s)) → htab_ok h tbl →
  Forall clean qs → Forall (keeps_lists (vars h)) qs →
  ∃ h' tbl' answers, env_run h qs = Some (h', answers) ∧ htab_ok h' tbl' ∧ typed_since (vars h) (vars h').
Proof.
  intros Hdup Hok Hqs Hk. rewrite (env_run_keeps h tbl) by done.
  destruct (@table_run_spec env_hooks Hdup h tbl qs Hok) as (h' & tbl' & Hrun & Hok' & Hv).
  eexists h', tbl', _. split; [exact Hrun|]. split; [done|]. rewrite Hv.
  apply (map_run_preserves env_hooks (typed_since (vars h)) clean); [|done|by right].
  intros M q Hq. by apply (map_step_typed env_hooks env_get_default eq_refl).
Qed.

(** C9. Safety: on the table of the program a read-only or write-once variable
    keeps its value, type and access under every sequence of requests that do
    not force and do not change the lists themselves: the variables bound to
    on_flags and on_callbacks, which are ".flags" and ".callbacks", are not
    set or deleted, or are protected too. A change of ".flags" can take the
    protection away (flags_change_unprotects). *)
Theorem env_protected h tbl qs k e : (∀ s, is_Some (@strdup base s)) → htab_ok h tbl →
  vars h !! k = Some e → protected e → Forall unforced qs → Forall (keeps_lists (vars h)) qs →
  ∃ h' tbl' answers, env_run h qs = Some (h', answers) ∧ htab_ok h' tbl' ∧ vars h' !! k = Some e.
Proof.
  intros Hdup Hok He Hp Hqs Hk. rewrite (env_run_keeps h tbl) by done.
  destruct (@table_run_spec env_hooks Hdup h tbl qs Hok) as (h' & tbl' & Hrun & Hok' & Hv).
  eexists h', tbl', _. split; [exact Hrun|]. split; [done|]. rewrite Hv.
  apply (map_run_preserves env_hooks (λ M, M !! k = Some e) unforced); [|done..].
  intros M q Hq HM. by apply (map_step_protected env_hooks env_get_default eq_refl).
Qed.
(** What the text of an import may set: variables that are not read-only, to
    values of their type that their callbacks accept. *)
Lemma env_hooks_importable (l : list (str * str)) :
  Forall (λ e : str * str, let f := @env_flags_init env_hooks e.1 in
    0 ∉ e.2 ∧ typed (Z.land ENV_FLAGS_VARTYPE_BIN_MASK f) e.2 ∧ has_flag f ENV_FLAGS_VARACCESS_PREVENT_CREATE = false ∧
    ∀ c, @env_callback_init env_hooks e.1 = Some c → @run_callback env_hooks c e.1 (Some e.2) env_op_create 0 = false) l →
  @importable env_hooks 0 l.
Proof.
  intros Hl. apply (Forall_impl _ _ _ Hl). intros [k d] (H0 & Ht & Hc & Hcb). cbn [fst snd] in *.
  unfold check_change, rejects, callback_rejects, new_entry. cbn [change_ok env_hooks callback].
  unfold flags_check, env_flags_validate. cbn [flags default option_map]. unfold default. cbn [from_option id].
  apply (proj2 (validate_type_spec d (Z.land ENV_FLAGS_VARTYPE_BIN_MASK (@env_flags_init env_hooks k)) H0)) in Ht.
  cbn [env_hooks env_flags_init] in *. rewrite Ht. cbn [Z.ltb Z.compare]. rewrite andb_false_r.
  change (has_flag 0 H_FORCE) with false. cbn iota. rewrite Hc. cbn [Z.eqb negb].
  destruct (@env_callback_init env_hooks k) as [c|] eqn:Ec; [|done]. by rewrite (Hcb c eq_refl).
Qed.
End program.

(** ** Examples *)

Definition ex_clbks : list env_clbk_tbl :=
  [{| clbk_name := chars "callbacks"; clbk_callback := 100 |}; {| clbk_name := chars "flags"; clbk_callback := 104 |};
   {| clbk_name := chars "ipaddr"; clbk_callback := 108 |}; {| clbk_name := chars "console"; clbk_callback := 112 |}].

(** The patterns of the list, with the escaped dot. *)
Definition dot_regex : Regex := {|
  slre := str;
  slre_compile := Some;
  slre_match := λ p s, bool_decide (p = [94] ++ s ++ [36]) || bool_decide (p = [94; 92] ++ s ++ [36])
|}.

Definition ex_cb_hooks : EnvHooks := callback_hooks open_hooks dot_regex ex_clbks (Some (chars "x:console,ipaddr")).

Definition ex_cb_table : hsearch_data :=
  match @table_run ex_cb_hooks (fresh_table 7)
    [Enter (chars "ipaddr") (chars "1") 0; Enter (chars "x") (chars "2") 0; Enter (chars ".flags") (chars "3") 0;
     Enter (chars "y") (chars "4") 0] with
  | Some (h, _) => h
  | None => fresh_table 7
  end.

Definition callbacks_of (h : hsearch_data) : list (option Z) :=
  (λ k, vars h !! chars k ≫= callback) <$> ["ipaddr"; "x"; ".flags"; "y"]%string.

(** An entry without a function takes the callback away when ".callbacks"
    changes, but not from a new variable, which gets the one of the static
    list; and the patterns of the static list are not patterns when
    ".callbacks" changes: ".flags" loses its callback. *)
Example patterns_and_removals :
  callbacks_of ex_cb_table = [Some 108; Some 112; Some 104; None] ∧
  callbacks_of <$> @on_callbacks ex_cb_hooks ex_clbks (Some (chars "x:console,ipaddr")) ex_cb_table =
    Some [None; Some 112; None; None].
Proof. vm_compute. done. Qed.

(** A name of a function that does not fit overflows the array. *)
Example callback_name_overflow :
  @callback_init open_hooks dot_regex ex_clbks (Some (chars "a:" ++ replicate 256 97)) (chars "a") None = None.
Proof. vm_compute. reflexivity. Qed.

Lemma fresh_table_7 : htab_ok (fresh_table 7) (replicate 8 free_node).
Proof.
  assert (H7 : prime 7).
  { destruct (isprime_correct 7) as (b & Hb & Hp); [lia|done|]. vm_compute in Hb. injection Hb as <-. by apply Hp. }
  destruct (fresh_ok 7 H7) as [[tbl Hok] _]; [lia|].
  pose proof (ok_table _ _ Hok) as E. injection E as <-. exact Hok.
Qed.

Lemma ex_cb_table_ok : htab_ok ex_cb_table (default [] (table ex_cb_table)).
Proof.
  destruct (@table_run_spec ex_cb_hooks (λ s, ex_intro _ s eq_refl) (fresh_table 7) (replicate 8 free_node)
    [Enter (chars "ipaddr") (chars "1") 0; Enter (chars "x") (chars "2") 0; Enter (chars ".flags") (chars "3") 0;
     Enter (chars "y") (chars "4") 0] fresh_table_7) as (h & tbl & E & Hok & _).
  assert (Eh : ex_cb_table = h) by (unfold ex_cb_table; by rewrite E).
  by rewrite Eh, (ok_table _ _ Hok).
Qed.


(** *** The table of the program *)

Abbreviation ex_env := (env_hooks open_hooks dot_regex (λ _, None) None None ex_clbks 104 100).
Abbreviation ex_env_run := (env_run open_hooks dot_regex (λ _, None) None None ex_clbks 104 100).

(** "ipaddr" is set, then set to a value that is not an address; "serial#"
    can be set once only. *)
Definition program_requests : list request :=
  [Enter (chars "ipaddr") (chars "10.0.0.1") 0; Enter (chars "ipaddr") (chars "10.0.0.x") 2;
   Enter (chars "serial#") (chars "7") 0; Enter (chars "serial#") (chars "8") 0; Delete (chars "serial#") 0].

Definition program_entry : env_entry :=
  {| key := Some (chars "serial#"); data := Some (chars "7"); callback := None; flags := 40 |}.

Example program_run :
  option_map snd (ex_env_run (fresh_table 7) program_requests) =
  Some [Found {| key := Some (chars "ipaddr"); data := Some (chars "10.0.0.1"); callback := Some 108; flags := 4 |};
        Error EPERM; Found program_entry; Error EPERM; Error EPERM].
Proof. vm_compute. reflexivity. Qed.

(** A change of ".flags" takes the protection away, and gives "ipaddr" a type
    that its value does not have. *)
Example flags_change_unprotects :
  option_map (λ '(h, l), (last l, vars h !! chars "ipaddr"))
    (ex_env_run (fresh_table 7) (program_requests ++
      [Enter (chars ".flags") (chars "ipaddr:d,serial#:s") 0; Enter (chars "serial#") (chars "8") 0])) =
  Some (Some (Found {| key := Some (chars "serial#"); data := Some (chars "8"); callback := None; flags := 0 |}),
        Some {| key := Some (chars "ipaddr"); data := Some (chars "10.0.0.1"); callback := Some 108; flags := 1 |}).
Proof. vm_compute. reflexivity. Qed.

Lemma ex_plain k M : special 104 100 (@env_callback_init ex_env k) = false → M = ∅ → plain open_hooks dot_regex (λ _, None) None None ex_clbks 104 100 M k.
Proof. intros Hk ->. split; [|exact Hk]. intros e He. by rewrite lookup_empty in He. Qed.

Lemma fresh_table_7_vars : vars (fresh_table 7) = ∅.
Proof. vm_compute. reflexivity. Qed.

Lemma env_types_hold_witness :
  ∃ h' tbl' answers, ex_env_run (fresh_table 7) program_requests = Some (h', answers) ∧ htab_ok h' tbl' ∧
    typed_since (vars (fresh_table 7)) (vars h').
Proof.
  apply (env_types_hold open_hooks dot_regex (λ _, None) None None ex_clbks 104 100 (fresh_table 7) (replicate 8 free_node)).
  - intros s. by exists s.
  - exact fresh_table_7.
  - unfold program_requests. repeat apply Forall_cons_2; try apply Forall_nil_2; vm_compute; try done; set_solver.
  - unfold program_requests. repeat apply Forall_cons_2; try apply Forall_nil_2; intros k [= <-]; left;
      (apply ex_plain; [vm_compute; reflexivity|exact fresh_table_7_vars]).
Defined.

Definition program_table : hsearch_data :=
  match ex_env_run (fresh_table 7) program_requests with Some (h, _) => h | None => fresh_table 7 end.

Lemma program_table_ok : htab_ok program_table (default [] (table program_table)).
Proof.
  destruct (@table_run_spec ex_env (λ s, ex_intro _ s eq_refl) (fresh_table 7) (replicate 8 free_node)
    program_requests fresh_table_7) as (h & tbl & E & Hok & _).
  assert (Eh : program_table = h).
  { assert (E' : option_map fst (@table_run ex_env (fresh_table 7) program_requests) = Some program_table)
      by (vm_compute; reflexivity).
    rewrite E in E'. exact (eq_sym (f_equal (default (fresh_table 7)) E')). }
  by rewrite Eh, (ok_table _ _ Hok).
Qed.

Lemma env_protected_witness :
  ∃ h' tbl' answers, ex_env_run program_table
      [Enter (chars "serial#") (chars "9") 0; Delete (chars "serial#") 0; Delete (chars "ipaddr") 0] = Some (h', answers) ∧
    htab_ok h' tbl' ∧ vars h' !! chars "serial#" = Some program_entry.
Proof.
  apply (env_protected open_hooks dot_regex (λ _, None) None None ex_clbks 104 100 program_table
    (default [] (table program_table))).
  - intros s. by exists s.
  - exact program_table_ok.
  - vm_compute. reflexivity.
  - split; vm_compute; reflexivity.
  - repeat constructor.
  - repeat apply Forall_cons_2; try apply Forall_nil_2; intros k [= <-].
    + right. split; [done|]. exists program_entry. split; [vm_compute; reflexivity|split; vm_compute; reflexivity].
    + right. split; [done|]. exists program_entry. split; [vm_compute; reflexivity|split; vm_compute; reflexivity].
    + left. split; [|vm_compute; reflexivity]. intros e He. vm_compute in He. injection He as <-. reflexivity.
Defined.
