(* ===== verification/BlockDev.v ===== *)
(** * BlockDev: what a file system relies on of its block device

    The class [BlockDev] states the promise of blk_dread and blk_dwrite to
    their callers; [cached_device] discharges it with the operations of
    Blkcache, over a driver that keeps what is written ([BlkWrite]).  The
    device is the list of its bytes. *)

From Stdlib Require Import ZArith Lia List.
From stdpp Require Import base numbers list option.
From S2P Require Import Prelude Blkcache.

(** ** Replacing a part of a list *)

Definition splice {A} (l : list A) (off : nat) (new : list A) : list A :=
  take off l ++ new ++ drop (off + length new) l.

Section splice.
Context {A : Type}.
Implicit Types (l new pre post : list A) (off i : nat).

Lemma length_splice l off new : (off + length new ≤ length l)%nat →
  length (splice l off new) = length l.
Proof. intros H. unfold splice. rewrite !length_app, length_take, length_drop. lia. Qed.

Lemma splice_lookup_new l off new i : (off + length new ≤ length l)%nat →
  (off ≤ i < off + length new)%nat → splice l off new !! i = new !! (i - off)%nat.
Proof.
  intros H Hi. unfold splice. rewrite lookup_app_r, length_take by (rewrite length_take; lia).
  rewrite Nat.min_l by lia. apply lookup_app_l. lia.
Qed.

Lemma splice_lookup_old l off new i : (off + length new ≤ length l)%nat →
  ¬ (off ≤ i < off + length new)%nat → splice l off new !! i = l !! i.
Proof.
  intros H Hi. unfold splice. destruct (decide (i < off)%nat).
  - rewrite lookup_app_l by (rewrite length_take; lia). by apply lookup_take_lt.
  - rewrite lookup_app_r, length_take by (rewrite length_take; lia). rewrite Nat.min_l by lia.
    rewrite lookup_app_r by lia. rewrite lookup_drop. f_equal. lia.
Qed.

Lemma splice_app pre l post off new : (off + length new ≤ length l)%nat →
  splice (pre ++ l ++ post) (length pre + off) new = pre ++ splice l off new ++ post.
Proof.
  intros H. unfold splice. rewrite take_app_add, <-!app_assoc. f_equal.
  rewrite take_app_le by lia. f_equal. f_equal.
  rewrite <-Nat.add_assoc, drop_app_add. by rewrite drop_app_le by lia.
Qed.

Lemma splice_same l off n : (off + n ≤ length l)%nat → splice l off (take n (drop off l)) = l.
Proof.
  intros H. unfold splice. rewrite length_take, length_drop, Nat.min_l by lia.
  rewrite <-drop_drop. by rewrite take_drop, take_drop.
Qed.

Lemma splice_id l off new : (off + length new ≤ length l)%nat →
  take (length new) (drop off l) = new → splice l off new = l.
Proof. intros H E. rewrite <-E at 1. by apply splice_same. Qed.

Lemma splice_twice l off new new' : length new = length new' → (off + length new ≤ length l)%nat →
  splice (splice l off new) off new' = splice l off new'.
Proof.
  intros H Hl. apply list_eq. intros i. destruct (decide (off ≤ i < off + length new)%nat).
  - rewrite !splice_lookup_new by (rewrite ?length_splice; lia). done.
  - rewrite !splice_lookup_old by (rewrite ?length_splice; lia). done.
Qed.

Lemma take_drop_splice l off new : (off + length new ≤ length l)%nat →
  take (length new) (drop off (splice l off new)) = new.
Proof.
  intros H. unfold splice. rewrite drop_app_length' by (rewrite length_take; lia).
  by rewrite take_app_length.
Qed.

(** Another part is not changed. *)
Lemma take_drop_splice_other l off new i n : (off + length new ≤ length l)%nat →
  (i + n ≤ off ∨ off + length new ≤ i)%nat →
  take n (drop i (splice l off new)) = take n (drop i l).
Proof.
  intros H Hd. apply list_eq. intros j. destruct (decide (j < n)%nat).
  - rewrite !lookup_take_lt, !lookup_drop by lia. apply splice_lookup_old; lia.
  - by rewrite !lookup_take_ge by lia.
Qed.

Lemma splice_insert l off new i x : (off + length new ≤ length l)%nat → (i < length new)%nat →
  splice l off (<[i := x]> new) = <[(off + i)%nat := x]> (splice l off new).
Proof.
  intros H Hi. unfold splice. rewrite length_insert, insert_app_r_alt, insert_app_l by (rewrite length_take; lia).
  rewrite length_take. do 3 f_equal. lia.
Qed.
End splice.

(** ** The interface *)

Class BlockDev := {
  dev : Type;
  bsize : Z;
  contents : dev → list Z;
  dev_ok : dev → Prop;
  dread : dev → Z → Z → list Z → option (Z * list Z * dev);
  dwrite : dev → Z → Z → list Z → Z * dev;
  bsize_pos : 0 < bsize;
  dread_ok d s n buf : dev_ok d → 0 ≤ s → 0 ≤ n → s + n < 2 ^ 32 →
    n * bsize ≤ Z.of_nat (length buf) < 2 ^ 32 →
    ∃ r buf' d', dread d s n buf = Some (r, buf', d') ∧ dev_ok d' ∧ contents d' = contents d ∧
      (r = n → buf' = take (Z.to_nat (n * bsize)) (drop (Z.to_nat (s * bsize)) (contents d)) ++
                      drop (Z.to_nat (n * bsize)) buf);
  dwrite_ok d s n buf r d' : dev_ok d → dwrite d s n buf = (r, d') → dev_ok d' ∧
    (r = n → 0 ≤ s → 0 ≤ n → n * bsize ≤ Z.of_nat (length buf) →
     (s + n) * bsize ≤ Z.of_nat (length (contents d)) →
     contents d' = splice (contents d) (Z.to_nat (s * bsize)) (take (Z.to_nat (n * bsize)) buf))
}.

(** A device without faults transfers all blocks that it has. *)
Class DevWorks `{!BlockDev} := {
  dread_works d s n buf r buf' d' : dev_ok d → 0 ≤ s → 0 ≤ n →
    (s + n) * bsize ≤ Z.of_nat (length (contents d)) → dread d s n buf = Some (r, buf', d') → r = n;
  dwrite_works d s n buf r d' : dev_ok d → 0 ≤ s → 0 ≤ n →
    (s + n) * bsize ≤ Z.of_nat (length (contents d)) → dwrite d s n buf = (r, d') → r = n
}.

(** ** The block layer as a device *)

(** A driver that reports all blocks written has written them. *)
Class BlkWrite `{!BlkOps} := {
  write_all f m i d s n buf m' : op_write = Some f → f m i d s n buf = (n, m') →
    0 ≤ s → 0 ≤ n → n * sector i d ≤ Z.of_nat (length buf) →
    (s + n) * sector i d ≤ Z.of_nat (length (medium m i d)) →
    medium m' i d = splice (medium m i d) (Z.to_nat (s * sector i d)) (take (Z.to_nat (n * sector i d)) buf)
}.

Section cached.
Context `{!BlkOps, !BlkWrite}.
Context (node_mem : bool) (malloc : Z → option (list Z)) (desc : blk_desc).
Context (Hmalloc : malloc_fits malloc) (Hpos : 0 < bblksz desc)
  (Hsector : bblksz desc = sector (if_type desc) (bdevnum desc)).
Context (Hread : op_read ≠ None) (Hwrite : op_write ≠ None).

Let data (st : blk_state) : list Z := medium (bmedia st) (if_type desc) (bdevnum desc).

Lemma cached_dread_ok st s n buf : coherent st → 0 ≤ s → 0 ≤ n → s + n < 2 ^ 32 →
  n * bblksz desc ≤ Z.of_nat (length buf) < 2 ^ 32 →
  ∃ r buf' st', blk_dread node_mem malloc desc s n buf st = Some (r, buf', st') ∧ coherent st' ∧
    data st' = data st ∧
    (r = n → buf' = take (Z.to_nat (n * bblksz desc)) (drop (Z.to_nat (s * bblksz desc)) (data st)) ++
                    drop (Z.to_nat (n * bblksz desc)) buf).
Proof.
  intros Hst Hs Hn Hsn Hbuf.
  destruct (blk_dread_spec node_mem malloc desc s n buf st Hmalloc Hst) as (r & buf' & st' & Hr & Hco & Hm & Hdata);
    [done|]. exists r, buf', st'. split_and!; [done|done|by unfold data; rewrite Hm|].
  intros E. by apply Hdata.
Qed.

Lemma cached_dwrite_ok st s n buf r st' : coherent st → blk_dwrite desc s n buf st = (r, st') →
  coherent st' ∧
  (r = n → 0 ≤ s → 0 ≤ n → n * bblksz desc ≤ Z.of_nat (length buf) →
   (s + n) * bblksz desc ≤ Z.of_nat (length (data st)) →
   data st' = splice (data st) (Z.to_nat (s * bblksz desc)) (take (Z.to_nat (n * bblksz desc)) buf)).
Proof.
  intros Hco Hw. split; [eapply step_coherent; [done|by eapply step_write]|].
  unfold blk_dwrite in Hw. destruct op_write as [write|] eqn:Eop; [|done].
  destruct (write _ _ _ _ _ _) as [r1 m1] eqn:Ew. injection Hw as <- <-.
  intros -> Hs Hn Hbuf Hin. unfold data. cbn [bmedia]. rewrite Hsector in *. by eapply write_all.
Qed.

Definition cached_device : BlockDev := {|
  dev := blk_state;
  bsize := bblksz desc;
  contents := data;
  dev_ok := coherent;
  dread := λ st s n buf, blk_dread node_mem malloc desc s n buf st;
  dwrite := λ st s n buf, blk_dwrite desc s n buf st;
  bsize_pos := Hpos;
  dread_ok := cached_dread_ok;
  dwrite_ok := cached_dwrite_ok
|}.
End cached.

(** ** A memory disk *)

Section ram.
Context (size : Z) (Hsize : 0 < size).

Let inside (m : list Z) (s n : Z) : bool :=
  (0 <=? s) && (0 <=? n) && ((s + n) * size <=? Z.of_nat (length m)).

Definition ramdisk_read (m : list Z) (s n : Z) (buf : list Z) : option (Z * list Z * list Z) :=
  if inside m s n then
    Some (n, take (Z.to_nat (n * size)) (drop (Z.to_nat (s * size)) m) ++ drop (Z.to_nat (n * size)) buf, m)
  else Some (n - 1, buf, m).

Definition ramdisk_write (m : list Z) (s n : Z) (buf : list Z) : Z * list Z :=
  if inside m s n then (n, splice m (Z.to_nat (s * size)) (take (Z.to_nat (n * size)) buf))
  else (n - 1, m).

Lemma ramdisk_read_ok m s n buf : True → 0 ≤ s → 0 ≤ n → s + n < 2 ^ 32 →
  n * size ≤ Z.of_nat (length buf) < 2 ^ 32 →
  ∃ r buf' m', ramdisk_read m s n buf = Some (r, buf', m') ∧ True ∧ m' = m ∧
    (r = n → buf' = take (Z.to_nat (n * size)) (drop (Z.to_nat (s * size)) m) ++
                    drop (Z.to_nat (n * size)) buf).
Proof.
  intros _ _ _ _ _. unfold ramdisk_read. destruct (inside m s n); eexists _, _, _; split_and!; try done. lia.
Qed.

Lemma ramdisk_write_ok m s n buf r m' : True → ramdisk_write m s n buf = (r, m') → True ∧
  (r = n → 0 ≤ s → 0 ≤ n → n * size ≤ Z.of_nat (length buf) → (s + n) * size ≤ Z.of_nat (length m) →
   m' = splice m (Z.to_nat (s * size)) (take (Z.to_nat (n * size)) buf)).
Proof.
  intros _. unfold ramdisk_write. destruct (inside m s n) eqn:E; intros [= <- <-]; split; try done. lia.
Qed.

Definition ramdisk : BlockDev := {|
  dev := list Z;
  bsize := size;
  contents := λ m, m;
  dev_ok := λ _, True;
  dread := ramdisk_read;
  dwrite := ramdisk_write;
  bsize_pos := Hsize;
  dread_ok := ramdisk_read_ok;
  dwrite_ok := ramdisk_write_ok
|}.

#[export] Instance ramdisk_works : @DevWorks ramdisk.
Proof.
  assert (Hin : ∀ m s n, 0 ≤ s → 0 ≤ n → (s + n) * size ≤ Z.of_nat (length m) → inside m s n = true).
  { intros m s n Hs Hn H. unfold inside. by rewrite !(proj2 (Z.leb_le _ _)). }
  split; cbn.
  - intros m s n buf r buf' m' _ Hs Hn H. unfold ramdisk_read. rewrite Hin by done. by intros [= <- _ _].
  - intros m s n buf r m' _ Hs Hn H. unfold ramdisk_write. rewrite Hin by done. by intros [= <- _].
Qed.
End ram.
