(* ===== verification/PartDos.v ===== *)
(** * PartDos: partition tables of DOS (disk/part_dos.c)

    A table in the first block has four entries.  An extended entry refers to a
    block with another table of this form, whose extended entry refers to the
    next one, so that the logical partitions are a linked list of tables.  The
    device is a [BlockDev]. *)

From Stdlib Require Import ZArith Lia List String Ascii.
From stdpp Require Import base numbers list option.
From S2P Require Import Prelude Hashtable EnvText EnvAttr Number BlockDev.

Definition DOS_PART_DEFAULT_SECTOR : Z := 512.
Definition MAX_EXT_PARTS : Z := 256.
Definition DOS_PART_DISKSIG_OFFSET : Z := 0x1b8.
Definition DOS_PART_TBL_OFFSET : Z := 0x1be.
Definition DOS_PART_MAGIC_OFFSET : Z := 0x1fe.
Definition DOS_PBR_FSTYPE_OFFSET : Z := 0x36.
Definition DOS_PBR32_FSTYPE_OFFSET : Z := 0x52.
Definition DOS_MBR : Z := 0.
Definition DOS_PBR : Z := 1.

Definition SIG_TYPE_NONE : Z := 0.
Definition SIG_TYPE_MBR : Z := 1.

(** The fields of a block device that are used here. *)
Record disk_desc := { d_if_type : Z; d_devnum : Z; d_lba : Z; d_sig_type : Z; d_mbr_sig : Z }.

Record disk_partition := {
  start : Z; size : Z; blksz : Z; pname : str; ptype : str; bootable : Z; uuid : str; p_sys_ind : Z
}.

(** The fields of an entry that are used. *)
Record dos_partition := { boot_ind : Z; sys_ind : Z; start4 : Z; size4 : Z }.

(** ** Decoding *)

Definition le32_to_int (buffer : list Z) (i : Z) : option Z :=
  b0 ← arr_get buffer i; b1 ← arr_get buffer (i + 1); b2 ← arr_get buffer (i + 2); b3 ← arr_get buffer (i + 3);
  Some (u32 (Z.shiftl b3 24 + Z.shiftl b2 16 + Z.shiftl b1 8 + b0)).

Definition entry_at (buffer : list Z) (i : Z) : option dos_partition :=
  let pt := DOS_PART_TBL_OFFSET + 16 * i in
  b ← arr_get buffer pt; s ← arr_get buffer (pt + 4);
  st ← le32_to_int buffer (pt + 8); sz ← le32_to_int buffer (pt + 12);
  Some {| boot_ind := b; sys_ind := s; start4 := st; size4 := sz |}.

Definition is_extended (part_type : Z) : bool := (part_type =? 0x5) || (part_type =? 0xf) || (part_type =? 0x85).

Definition is_bootable (p : dos_partition) : bool := (sys_ind p =? 0xef) || (boot_ind p =? 0x80).

(** The bytes at [i] are the characters of [s]. *)
Fixpoint bytes_are (buffer : list Z) (i : Z) (s : str) : option bool :=
  match s with
  | [] => Some true
  | c :: s => b ← arr_get buffer i; if b =? c then bytes_are buffer (i + 1) s else Some false
  end.

(** The pointer to the entry is not moved by the loop over the slots. *)
Definition test_block_type (buffer : list Z) : option Z :=
  m0 ← arr_get buffer DOS_PART_MAGIC_OFFSET; m1 ← arr_get buffer (DOS_PART_MAGIC_OFFSET + 1);
  if negb (m0 =? 0x55) || negb (m1 =? 0xaa) then Some (-1)
  else
    r ← loop 4 (λ slot,
        if slot <? 3 then
          b ← arr_get buffer DOS_PART_TBL_OFFSET;
          if negb (b =? 0) && negb (b =? 0x80) then
            fat ← bytes_are buffer DOS_PBR_FSTYPE_OFFSET (chars "FAT");
            fat32 ← bytes_are buffer DOS_PBR32_FSTYPE_OFFSET (chars "FAT32");
            Some (Return (if (slot =? 0) && (fat || fat32) then DOS_PBR else -1))
          else Some (Next (slot + 1))
        else Some (Break slot)) 0;
    Some (match r with inr t => t | inl _ => DOS_MBR end).

(** ** Looking up a partition *)

(** disk/part.c; the types of interfaces are numbered as in include/blk.h. *)
Definition part_set_generic_name (dev_desc : disk_desc) (part_num : Z) : str :=
  let t := d_if_type dev_desc in
  let devtype :=
    if (t =? 1) || (t =? 8) || (t =? 3) then chars "hd"
    else if t =? 2 then chars "sd"
    else if t =? 4 then chars "usbd"
    else if t =? 5 then chars "docd"
    else if (t =? 6) || (t =? 7) then chars "mmcsd"
    else chars "xx" in
  devtype ++ [u8 (97 + d_devnum dev_desc)] ++ number_text part_num 10 (-1) (-1) SIGN.

(** "%08x-%02x" *)
Definition uuid_text (disksig part_num : Z) : str :=
  number_text disksig 16 8 (-1) (Z.lor ZEROPAD SMALL) ++ [45] ++ number_text part_num 16 2 (-1) (Z.lor ZEROPAD SMALL).

(** The information on an entry of the table in block [ext_part_sector]. *)
Definition part_info (dev_desc : disk_desc) (ext_part_sector part_num disksig : Z) (pt : dos_partition) : disk_partition :=
  {| start := u32 (ext_part_sector + start4 pt); size := size4 pt; blksz := DOS_PART_DEFAULT_SECTOR;
     pname := part_set_generic_name dev_desc part_num; ptype := chars "U-Boot";
     bootable := if is_bootable pt then 1 else 0; uuid := uuid_text disksig part_num; p_sys_ind := sys_ind pt |}.

(** Whether an entry counts in the numbering. *)
Definition counts (ext_part_sector : Z) (pt : dos_partition) : bool :=
  (ext_part_sector =? 0) || (negb (sys_ind pt =? 0) && negb (is_extended (sys_ind pt))).

(** The first loop: the entry that was found with its number, or the next number. *)
Definition entry_step (buffer : list Z) (ext_part_sector which_part : Z) : Z * Z → option (ctl (Z * Z) dos_partition) :=
  λ '(i, part_num),
  if i <? 4 then
    pt ← entry_at buffer i;
    if (Z.land (boot_ind pt) (Z.lnot 0x80) =? 0) && negb (sys_ind pt =? 0) && (part_num =? which_part) &&
       ((ext_part_sector =? 0) || negb (is_extended (sys_ind pt)))
    then Some (Return pt)
    else Some (Next (i + 1, if counts ext_part_sector pt then part_num + 1 else part_num))
  else Some (Break (i, part_num)).

Definition find_entry (buffer : list Z) (ext_part_sector which_part part_num : Z) : option (Z * Z + dos_partition) :=
  loop 5 (entry_step buffer ext_part_sector which_part) (0, part_num).

(** The second loop: the first extended entry. *)
Definition extended_step (buffer : list Z) (i : Z) : option (ctl Z dos_partition) :=
  if i <? 4 then
    pt ← entry_at buffer i;
    if is_extended (sys_ind pt) then Some (Return pt) else Some (Next (i + 1))
  else Some (Break i).

Definition find_extended (buffer : list Z) : option (option dos_partition) :=
  r ← loop 5 (extended_step buffer) 0;
  Some (match r with inr pt => Some pt | inl _ => None end).

Section lookup.
Context `{!BlockDev} (dev_desc : disk_desc).
(** The buffer of a block on the stack. *)
Context (stack : list Z).

(** The result, [*info], and the device. *)
Fixpoint part_get_info_extended (fuel : nat) (d : dev) (ext_part_sector relative part_num which_part : Z)
    (info : disk_partition) (disksig : Z) : option (Z * disk_partition * dev) :=
  match fuel with
  | O => None
  | S fuel =>
      if MAX_EXT_PARTS <? part_num then Some (-1, info, d)
      else
        '(n, buffer, d) ← dread d ext_part_sector 1 stack;
        if negb (n =? 1) then Some (-1, info, d)
        else
          m0 ← arr_get buffer DOS_PART_MAGIC_OFFSET; m1 ← arr_get buffer (DOS_PART_MAGIC_OFFSET + 1);
          if negb (m0 =? 0x55) || negb (m1 =? 0xaa) then Some (-1, info, d)
          else
            disksig ← (if ext_part_sector =? 0 then le32_to_int buffer DOS_PART_DISKSIG_OFFSET else Some disksig);
            r ← find_entry buffer ext_part_sector which_part part_num;
            match r with
            | inr pt => Some (0, part_info dev_desc ext_part_sector which_part disksig pt, d)
            | inl (_, part_num) =>
                e ← find_extended buffer;
                match e with
                | Some pt =>
                    let lba_start := u32 (start4 pt + relative) in
                    part_get_info_extended fuel d lba_start (if ext_part_sector =? 0 then lba_start else relative)
                      part_num which_part info disksig
                | None =>
                    dos_type ← test_block_type buffer;
                    if dos_type =? DOS_PBR then
                      Some (0, {| info with start := 0; size := d_lba dev_desc; blksz := DOS_PART_DEFAULT_SECTOR;
                                    bootable := 0; ptype := chars "U-Boot"; uuid := [] |}, d)
                    else Some (-1, info, d)
                end
            end
  end.

Definition part_get_info_dos (fuel : nat) (d : dev) (part : Z) (info : disk_partition) : option (Z * disk_partition * dev) :=
  part_get_info_extended fuel d 0 0 1 part info 0.

Definition part_test_dos (d : dev) : option (Z * disk_desc * dev) :=
  '(n, mbr, d) ← dread d 0 1 stack;
  if negb (n =? 1) then Some (-1, dev_desc, d)
  else
    t ← test_block_type mbr;
    if negb (t =? DOS_MBR) then Some (-1, dev_desc, d)
    else
      sig ← le32_to_int mbr DOS_PART_DISKSIG_OFFSET;
      Some (0, if (d_sig_type dev_desc =? SIG_TYPE_NONE) && negb (sig =? 0)
               then {| dev_desc with d_sig_type := SIG_TYPE_MBR; d_mbr_sig := sig |} else dev_desc, d).

Definition is_valid_dos_buf (buf : list Z) : option Z :=
  t ← test_block_type buf; Some (if t =? DOS_MBR then 0 else -1).

Definition write_mbr_partition (d : dev) (buf : list Z) : option (Z * dev) :=
  v ← is_valid_dos_buf buf;
  if negb (v =? 0) then Some (-1, d)
  else let '(n, d) := dwrite d 0 1 buf in Some (if negb (n =? 1) then 1 else 0, d).
End lookup.

(** ** Tables and chains of tables *)

Definition usable (pt : dos_partition) : bool :=
  (Z.land (boot_ind pt) (Z.lnot 0x80) =? 0) && negb (sys_ind pt =? 0).

Fixpoint first_extended (es : list dos_partition) : option dos_partition :=
  match es with
  | [] => None
  | e :: es => if is_extended (sys_ind e) then Some e else first_extended es
  end.

Definition counted (n : Z) (es : list dos_partition) : list dos_partition := List.filter (counts n) es.

(** The partition with the number [which], when the first one of [l] has [n]. *)
Definition numbered {A} (l : list A) (n which : Z) : option A :=
  if n <=? which then l !! Z.to_nat (which - n) else None.

(** The four entries of a block with the signature. *)
Record table_block (b : list Z) (es : list dos_partition) : Prop := {
  t_magic0 : arr_get b DOS_PART_MAGIC_OFFSET = Some 0x55;
  t_magic1 : arr_get b (DOS_PART_MAGIC_OFFSET + 1) = Some 0xaa;
  t_entries : ∃ e0 e1 e2 e3, es = [e0; e1; e2; e3] ∧
    entry_at b 0 = Some e0 ∧ entry_at b 1 = Some e1 ∧ entry_at b 2 = Some e2 ∧ entry_at b 3 = Some e3;
  t_boot : ∀ x, arr_get b DOS_PART_TBL_OFFSET = Some x → x = 0 ∨ x = 0x80
}.

Lemma numbered_cons {A} (x : A) l n which :
  numbered (x :: l) n which = if n =? which then Some x else numbered l (n + 1) which.
Proof.
  unfold numbered. destruct (Z.eqb_spec n which) as [->|Hne].
  - rewrite (proj2 (Z.leb_le _ _)) by lia. by rewrite Z.sub_diag.
  - destruct (Z.leb_spec n which).
    + rewrite (proj2 (Z.leb_le _ _)) by lia. by replace (Z.to_nat (which - n)) with (S (Z.to_nat (which - (n + 1)))) by lia.
    + by rewrite (proj2 (Z.leb_gt _ _)) by lia.
Qed.

Lemma numbered_app {A} (l1 l2 : list A) n which :
  numbered (l1 ++ l2) n which =
  match numbered l1 n which with Some x => Some x | None => numbered l2 (n + Z.of_nat (length l1)) which end.
Proof.
  revert n. induction l1 as [|x l1 IH]; intros n.
  - cbn [app length]. rewrite Z.add_0_r. unfold numbered at 2. by destruct (n <=? which).
  - cbn [app]. rewrite !numbered_cons. destruct (n =? which); [done|]. rewrite IH.
    destruct (numbered l1 (n + 1) which); [done|]. f_equal. cbn. lia.
Qed.

(** The first loop over entries that are given. *)
Fixpoint find_in (ext which n : Z) (es : list dos_partition) : Z + dos_partition :=
  match es with
  | [] => inl n
  | pt :: es =>
      if usable pt && (n =? which) && ((ext =? 0) || negb (is_extended (sys_ind pt))) then inr pt
      else find_in ext which (if counts ext pt then n + 1 else n) es
  end.

Lemma find_in_behind ext which n es : which < n → find_in ext which n es = inl (n + Z.of_nat (length (counted ext es))).
Proof.
  revert n. induction es as [|e es IH]; intros n Hn; cbn [find_in counted List.filter]; [by rewrite Z.add_0_r|].
  rewrite (proj2 (Z.eqb_neq n which)) by lia. rewrite andb_false_r. cbn [andb]. fold (counted ext es).
  destruct (counts ext e); rewrite IH by lia; [|done]. f_equal. cbn [length]. lia.
Qed.

Lemma find_in_spec ext which n es :
  find_in ext which n es =
  match numbered (counted ext es) n which with
  | Some e => if usable e then inr e else inl (n + Z.of_nat (length (counted ext es)))
  | None => inl (n + Z.of_nat (length (counted ext es)))
  end.
Proof.
  revert n. induction es as [|e es IH]; intros n.
  - cbn. rewrite Z.add_0_r. unfold numbered. by destruct (n <=? which).
  - cbn [find_in counted List.filter]. fold (counted ext es).
    destruct (counts ext e) eqn:Ec.
    + rewrite numbered_cons. destruct (Z.eqb_spec n which) as [->|Hne].
      * rewrite andb_true_r.
        assert (E : usable e && ((ext =? 0) || negb (is_extended (sys_ind e))) = usable e).
        { unfold counts in Ec. destruct (ext =? 0); cbn in Ec |- *; [by rewrite andb_true_r|].
          apply andb_true_iff in Ec as [_ ->]. by rewrite andb_true_r. }
        rewrite E. destruct (usable e); [done|]. rewrite find_in_behind by lia. f_equal. cbn [length]. lia.
      * rewrite andb_false_r. cbn [andb]. rewrite IH. cbn [length].
        replace (n + 1 + Z.of_nat (length (counted ext es))) with (n + Z.of_nat (S (length (counted ext es)))) by lia. done.
    + assert (E : usable e && (n =? which) && ((ext =? 0) || negb (is_extended (sys_ind e))) = false).
      { unfold counts, usable in *. destruct (ext =? 0); cbn in Ec |- *; [done|].
        destruct (sys_ind e =? 0), (is_extended (sys_ind e)); cbn in Ec |- *; rewrite ?andb_false_r; done. }
      rewrite E. apply IH.
Qed.

Lemma entry_step_spec b ext which i n e : i < 4 → entry_at b i = Some e →
  entry_step b ext which (i, n) =
  if usable e && (n =? which) && ((ext =? 0) || negb (is_extended (sys_ind e))) then Some (Return e)
  else Some (Next (i + 1, if counts ext e then n + 1 else n)).
Proof. intros Hi He. unfold entry_step. rewrite (proj2 (Z.ltb_lt _ _)) by done. by rewrite He. Qed.

Lemma find_entry_spec b es ext which n : table_block b es →
  ∃ i, find_entry b ext which n = Some (match find_in ext which n es with inr e => inr e | inl n' => inl (i, n') end).
Proof.
  intros [_ _ (e0 & e1 & e2 & e3 & -> & H0 & H1 & H2 & H3) _]. exists 4. unfold find_entry. cbn [find_in].
  pose proof (entry_step_spec b ext which 0 n e0 ltac:(lia) H0) as E. destruct (_ && _); [by apply loop_return|].
  rewrite (loop_next _ _ _ _ E). clear E. generalize (if counts ext e0 then n + 1 else n). clear n. intros n.
  pose proof (entry_step_spec b ext which 1 n e1 ltac:(lia) H1) as E. destruct (_ && _); [by apply loop_return|].
  rewrite (loop_next _ _ _ _ E). clear E. generalize (if counts ext e1 then n + 1 else n). clear n. intros n.
  pose proof (entry_step_spec b ext which 2 n e2 ltac:(lia) H2) as E. destruct (_ && _); [by apply loop_return|].
  rewrite (loop_next _ _ _ _ E). clear E. generalize (if counts ext e2 then n + 1 else n). clear n. intros n.
  pose proof (entry_step_spec b ext which 3 n e3 ltac:(lia) H3) as E. destruct (_ && _); [by apply loop_return|].
  rewrite (loop_next _ _ _ _ E). by apply loop_break.
Qed.

Lemma extended_step_spec b i e : i < 4 → entry_at b i = Some e →
  extended_step b i = if is_extended (sys_ind e) then Some (Return e) else Some (Next (i + 1)).
Proof. intros Hi He. unfold extended_step. rewrite (proj2 (Z.ltb_lt _ _)) by done. by rewrite He. Qed.

Lemma find_extended_spec b es : table_block b es → find_extended b = Some (first_extended es).
Proof.
  intros [_ _ (e0 & e1 & e2 & e3 & -> & H0 & H1 & H2 & H3) _]. unfold find_extended. cbn [first_extended].
  pose proof (extended_step_spec b 0 e0 ltac:(lia) H0) as E. destruct (is_extended (sys_ind e0)); [by rewrite (loop_return _ _ _ _ E)|].
  rewrite (loop_next _ _ _ _ E). clear E.
  pose proof (extended_step_spec b 1 e1 ltac:(lia) H1) as E. destruct (is_extended (sys_ind e1)); [by rewrite (loop_return _ _ _ _ E)|].
  rewrite (loop_next _ _ _ _ E). clear E.
  pose proof (extended_step_spec b 2 e2 ltac:(lia) H2) as E. destruct (is_extended (sys_ind e2)); [by rewrite (loop_return _ _ _ _ E)|].
  rewrite (loop_next _ _ _ _ E). clear E.
  pose proof (extended_step_spec b 3 e3 ltac:(lia) H3) as E. destruct (is_extended (sys_ind e3)); [by rewrite (loop_return _ _ _ _ E)|].
  rewrite (loop_next _ _ _ _ E). by rewrite (loop_break _ _ _ 4).
Qed.

Lemma test_block_type_spec b es : table_block b es → test_block_type b = Some DOS_MBR.
Proof.
  intros [Hm0 Hm1 (e0 & e1 & e2 & e3 & -> & H0 & _) Hb]. unfold test_block_type. rewrite Hm0. cbn [mbind option_bind].
  rewrite Hm1. cbn [mbind option_bind Z.eqb Pos.eqb negb orb].
  assert (∃ x, arr_get b DOS_PART_TBL_OFFSET = Some x) as [x Hx].
  { unfold entry_at in H0. change (DOS_PART_TBL_OFFSET + 16 * 0) with DOS_PART_TBL_OFFSET in H0.
    destruct (arr_get b DOS_PART_TBL_OFFSET) as [x|]; [by exists x|done]. }
  assert (Ex : negb (x =? 0) && negb (x =? 128) = false) by (by destruct (Hb x Hx) as [-> | ->]).
  cbn [loop Z.ltb Z.compare Pos.compare Pos.compare_cont Z.add Pos.add Pos.succ].
  rewrite Hx. cbn [mbind option_bind]. by rewrite Ex.
Qed.

Section correct.
Context `{!BlockDev, !DevWorks} (dev_desc : disk_desc) (stack : list Z).
Context (block_size : 512 <= bsize) (stack_size : bsize <= Z.of_nat (length stack) < 2 ^ 32).

(** A block of the device with the contents [c]. *)
Definition sector (c : list Z) (n : Z) : list Z := take (Z.to_nat bsize) (drop (Z.to_nat (n * bsize)) c).

Definition on_device (c : list Z) (n : Z) : Prop := 0 <= n < 2 ^ 32 - 1 ∧ (n + 1) * bsize <= Z.of_nat (length c).

(** The logical partitions from the table in block [n] on, each with the block of
    its table; [rel] is the beginning of the extended partition. *)
Inductive chain (c : list Z) (rel : Z) : Z → list (Z * dos_partition) → Prop :=
  | chain_last n es : n ≠ 0 → on_device c n → table_block (sector c n) es → first_extended es = None →
      chain c rel n (pair n <$> counted n es)
  | chain_next n es e l : n ≠ 0 → on_device c n → table_block (sector c n) es → first_extended es = Some e →
      chain c rel (u32 (start4 e + rel)) l → chain c rel n ((pair n <$> counted n es) ++ l).

(** The partitions of a device in the order of their numbers. *)
Inductive partitions (c : list Z) : list (Z * dos_partition) → Prop :=
  | primary es : on_device c 0 → table_block (sector c 0) es → first_extended es = None →
      partitions c (pair 0 <$> es)
  | logical es e l : on_device c 0 → table_block (sector c 0) es → first_extended es = Some e →
      chain c (u32 (start4 e + 0)) (u32 (start4 e + 0)) l → partitions c ((pair 0 <$> es) ++ l).

(** The answer for the entry [o] that has the number. *)
Definition answer (which disksig : Z) (info : disk_partition) (o : option (Z * dos_partition)) : Z * disk_partition :=
  match o with
  | Some (n, e) => if usable e then (0, part_info dev_desc n which disksig e) else (-1, info)
  | None => (-1, info)
  end.

Lemma read_table d n : dev_ok d → on_device (contents d) n →
  ∃ d' rest, dread d n 1 stack = Some (1, sector (contents d) n ++ rest, d') ∧ dev_ok d' ∧ contents d' = contents d ∧
    Z.of_nat (length (sector (contents d) n)) = bsize.
Proof.
  intros Hd [Hn Hlen]. destruct (dread_ok d n 1 stack Hd) as (r & b & d' & Hr & Hd' & Hc & Hb); [lia..|].
  assert (r = 1) as -> by (eapply dread_works; [exact Hd| | | |exact Hr]; lia).
  exists d', (drop (Z.to_nat (1 * bsize)) stack). rewrite Hr, (Hb eq_refl), Z.mul_1_l.
  split; [done|]. split; [done|]. split; [done|]. unfold sector. rewrite length_take, length_drop. nia.
Qed.

Lemma arr_get_front {A} (l r : list A) i x : arr_get l i = Some x → arr_get (l ++ r) i = Some x.
Proof. intros [Hi Hx]%arr_get_Some. apply arr_get_Some. split; [done|]. by apply lookup_app_l_Some. Qed.

Lemma le32_front b r i x : le32_to_int b i = Some x → le32_to_int (b ++ r) i = Some x.
Proof.
  unfold le32_to_int. intros Hx.
  destruct (arr_get b i) as [b0|] eqn:E0; [|done]. destruct (arr_get b (i + 1)) as [b1|] eqn:E1; [|done].
  destruct (arr_get b (i + 2)) as [b2|] eqn:E2; [|done]. destruct (arr_get b (i + 3)) as [b3|] eqn:E3; [|done].
  rewrite (arr_get_front b r i b0), (arr_get_front b r (i + 1) b1), (arr_get_front b r (i + 2) b2), (arr_get_front b r (i + 3) b3) by done. exact Hx.
Qed.

Lemma entry_front b r i e : entry_at b i = Some e → entry_at (b ++ r) i = Some e.
Proof.
  unfold entry_at. intros Hx. set (pt := DOS_PART_TBL_OFFSET + 16 * i) in *.
  destruct (arr_get b pt) as [x|] eqn:E0; [|done]. destruct (arr_get b (pt + 4)) as [y|] eqn:E1; [|done].
  destruct (le32_to_int b (pt + 8)) as [z|] eqn:E2; [|done]. destruct (le32_to_int b (pt + 12)) as [w|] eqn:E3; [|done].
  rewrite (arr_get_front b r pt x), (arr_get_front b r (pt + 4) y), (le32_front b r (pt + 8) z), (le32_front b r (pt + 12) w) by done. exact Hx.
Qed.

Lemma table_front b r es : 512 ≤ Z.of_nat (length b) → table_block b es → table_block (b ++ r) es.
Proof.
  intros Hb [H1 H2 (e0 & e1 & e2 & e3 & -> & E0 & E1 & E2 & E3) H4]. split; [by apply arr_get_front..| |].
  - exists e0, e1, e2, e3. by split_and!; [|apply entry_front..].
  - intros x Hx. destruct (arr_get_ex b DOS_PART_TBL_OFFSET) as [y Hy]; [unfold DOS_PART_TBL_OFFSET; lia|].
    pose proof (arr_get_front b r _ _ Hy) as Hy'. rewrite Hx in Hy'. injection Hy' as ->. by apply H4.
Qed.

(** One table of the list. *)
Lemma get_info_table d n rel k which info sig es : dev_ok d → on_device (contents d) n →
  table_block (sector (contents d) n) es → k ≤ MAX_EXT_PARTS →
  ∃ d' sig', dev_ok d' ∧ contents d' = contents d ∧
    (if n =? 0 then le32_to_int (sector (contents d) 0) DOS_PART_DISKSIG_OFFSET = Some sig' else sig' = sig) ∧
    ∀ fuel, part_get_info_extended dev_desc stack (S fuel) d n rel k which info sig =
      match find_in n which k es with
      | inr pt => Some (0, part_info dev_desc n which sig' pt, d')
      | inl k' =>
          match first_extended es with
          | Some pt =>
              part_get_info_extended dev_desc stack fuel d' (u32 (start4 pt + rel))
                (if n =? 0 then u32 (start4 pt + rel) else rel) k' which info sig'
          | None => Some (-1, info, d')
          end
      end.
Proof.
  intros Hd Hn Ht Hk. destruct (read_table d n Hd Hn) as (d' & rest & Hr & Hd' & Hc & Hlen).
  assert (∃ s, le32_to_int (sector (contents d) n) DOS_PART_DISKSIG_OFFSET = Some s) as [s Hs].
  { unfold le32_to_int, DOS_PART_DISKSIG_OFFSET. set (b := sector (contents d) n) in *.
    destruct (arr_get_ex b 0x1b8) as [b0 E0]; [lia|]. destruct (arr_get_ex b (0x1b8 + 1)) as [b1 E1]; [lia|].
    destruct (arr_get_ex b (0x1b8 + 2)) as [b2 E2]; [lia|]. destruct (arr_get_ex b (0x1b8 + 3)) as [b3 E3]; [lia|].
    rewrite E0, E1, E2, E3. by eexists. }
  assert (Ht' : table_block (sector (contents d) n ++ rest) es) by (apply table_front; [lia|done]).
  exists d', (if n =? 0 then s else sig). split; [done|]. split; [done|].
  split; [destruct (Z.eqb_spec n 0) as [->|]; done|].
  intros fuel. cbn [part_get_info_extended]. rewrite (proj2 (Z.ltb_ge _ _)) by lia. rewrite Hr. cbn [mbind option_bind Z.eqb Pos.eqb negb].
  rewrite (t_magic0 _ _ Ht'). cbn [mbind option_bind]. rewrite (t_magic1 _ _ Ht'). cbn [mbind option_bind Z.eqb Pos.eqb negb orb].
  rewrite (le32_front _ rest _ _ Hs).
  assert (E : (if n =? 0 then Some s else Some sig) = Some (if n =? 0 then s else sig)) by (by destruct (n =? 0)).
  rewrite E. cbn [mbind option_bind]. destruct (find_entry_spec _ es n which k Ht') as [i ->]. cbn [mbind option_bind].
  destruct (find_in n which k es) as [k'|pt]; [|done]. rewrite (find_extended_spec _ es Ht'). cbn [mbind option_bind].
  destruct (first_extended es) as [pt|]; [done|]. by rewrite (test_block_type_spec _ es Ht').
Qed.

Lemma numbered_fmap {A B} (f : A → B) l n which : numbered (f <$> l) n which = f <$> numbered l n which.
Proof. unfold numbered. destruct (n <=? which); [apply list_lookup_fmap|done]. Qed.

Lemma numbered_lt {A} (l : list A) n which : which < n → numbered l n which = None.
Proof. intros Hl. unfold numbered. by rewrite (proj2 (Z.leb_gt _ _)). Qed.

Lemma numbered_range {A} (l : list A) n which x : numbered l n which = Some x → which < n + Z.of_nat (length l).
Proof. unfold numbered. destruct (Z.leb_spec n which); [|done]. intros Hx%lookup_lt_Some. lia. Qed.

(** The answer of a table, where [rest] is the one of the tables behind it. *)
Lemma answer_table n which k sig info es l :
  match find_in n which k es with
  | inr pt => Some (0, part_info dev_desc n which sig pt)
  | inl k' => Some (answer which sig info (numbered l k' which))
  end = Some (answer which sig info (numbered ((pair n <$> counted n es) ++ l) k which)).
Proof.
  rewrite find_in_spec, numbered_app, numbered_fmap, length_fmap.
  destruct (numbered (counted n es) k which) as [e|] eqn:E; cbn [fmap option_fmap option_map answer]; [|done].
  destruct (usable e) eqn:Eu; [done|]. apply numbered_range in E. by rewrite numbered_lt.
Qed.

Lemma chain_answer c rel n l : chain c rel n l → ∀ d k which info sig, dev_ok d → contents d = c →
  k + Z.of_nat (length l) ≤ MAX_EXT_PARTS →
  ∃ fuel0 d', dev_ok d' ∧ contents d' = c ∧ ∀ fuel, (fuel0 ≤ fuel)%nat →
    part_get_info_extended dev_desc stack fuel d n rel k which info sig =
    Some (answer which sig info (numbered l k which), d').
Proof.
  intros Hch. induction Hch as [n es Hn0 Hon Ht He|n es e l Hn0 Hon Ht He Hch IH];
    intros d k which info sig Hd <- Hk.
  - destruct (get_info_table d n rel k which info sig es Hd Hon Ht) as (d' & sig' & Hd' & Hc & Hsig & Hrun);
      [rewrite length_fmap in Hk; lia|].
    rewrite (proj2 (Z.eqb_neq n 0)) in Hsig by done. subst sig'.
    exists 1%nat, d'. split; [done|]. split; [done|]. intros [|fuel] Hf; [lia|]. rewrite Hrun, He.
    pose proof (answer_table n which k sig info es []) as Ha. rewrite app_nil_r in Ha.
    destruct (find_in n which k es) as [k'|pt]; [|by injection Ha as <-]. injection Ha as <-. unfold numbered. by destruct (_ <=? _).
  - rewrite length_app, length_fmap in Hk.
    destruct (get_info_table d n rel k which info sig es Hd Hon Ht) as (d1 & sig' & Hd1 & Hc & Hsig & Hrun); [lia|].
    rewrite (proj2 (Z.eqb_neq n 0)) in Hsig, Hrun by done. subst sig'.
    destruct (IH d1 (k + Z.of_nat (length (counted n es))) which info sig Hd1 Hc) as (f0 & d2 & Hd2 & Hc2 & Hrest); [lia|].
    pose proof (answer_table n which k sig info es l) as Ha.
    assert (Hk' : ∀ k', find_in n which k es = inl k' → k' = k + Z.of_nat (length (counted n es))).
    { intros k'. rewrite find_in_spec. destruct (numbered (counted n es) k which) as [x|]; [destruct (usable x)|]; congruence. }
    destruct (find_in n which k es) as [k'|pt] eqn:Ef.
    + exists (S f0), d2. split; [done|]. split; [done|]. intros [|fuel] Hf; [lia|].
      rewrite Hrun, He, (Hk' k' eq_refl), Hrest by lia. injection Ha as <-. by rewrite (Hk' k' eq_refl).
    + exists 1%nat, d1. split; [done|]. split; [done|]. intros [|fuel] Hf; [lia|]. rewrite Hrun. by injection Ha as <-.
Qed.

Lemma counted_primary es : counted 0 es = es.
Proof. unfold counted. induction es as [|e es IH]; [done|]. cbn. by rewrite IH. Qed.

(** C38. On a device that answers, with blocks of at least 512 bytes, whose
    first block has a partition table and whose chain of extended tables ends
    (each of them inside the device and none in block 0; a cyclic chain makes
    the lookup recurse for ever, part_get_info_dos_diverges), with fewer than
    256 entries altogether and with 0 or 0x80 as the first status byte of
    every table: part_get_info_dos ends and finds the partition of each
    number: the four entries of the first table, used or not, then the logical
    partitions in the order of their tables; a number that no usable entry has
    gives -1 with the information unchanged; the contents of the device are
    unchanged. *)
Theorem part_get_info_dos_correct d ps part info : dev_ok d → partitions (contents d) ps →
  Z.of_nat (length ps) < MAX_EXT_PARTS →
  ∃ fuel0 d' disksig, dev_ok d' ∧ contents d' = contents d ∧
    le32_to_int (sector (contents d) 0) DOS_PART_DISKSIG_OFFSET = Some disksig ∧
    ∀ fuel, (fuel0 ≤ fuel)%nat →
      part_get_info_dos dev_desc stack fuel d part info = Some (answer part disksig info (numbered ps 1 part), d').
Proof.
  intros Hd Hps Hlen. unfold part_get_info_dos.
  assert (∃ es, on_device (contents d) 0 ∧ table_block (sector (contents d) 0) es ∧
    match first_extended es with
    | None => ps = pair 0 <$> es
    | Some e => ∃ l, chain (contents d) (u32 (start4 e + 0)) (u32 (start4 e + 0)) l ∧ ps = (pair 0 <$> es) ++ l
    end) as (es & Hon & Ht & Hext).
  { destruct Hps as [es H1 H2 H3|es e l H1 H2 H3 H4]; exists es; rewrite H3; split_and!; try done. by exists l. }
  destruct (get_info_table d 0 0 1 part info 0 es Hd Hon Ht) as (d1 & sig & Hd1 & Hc & Hsig & Hrun); [unfold MAX_EXT_PARTS; lia|].
  cbn [Z.eqb] in Hsig, Hrun. destruct (first_extended es) as [e|].
  - destruct Hext as (l & Hch & ->). rewrite length_app, length_fmap in Hlen.
    destruct (chain_answer _ _ _ _ Hch d1 (1 + Z.of_nat (length es)) part info sig Hd1 Hc) as (f0 & d2 & Hd2 & Hc2 & Hrest); [lia|].
    pose proof (answer_table 0 part 1 sig info es l) as Ha. rewrite counted_primary in Ha.
    assert (Hk' : ∀ k', find_in 0 part 1 es = inl k' → k' = 1 + Z.of_nat (length es)).
    { intros k'. rewrite find_in_spec, counted_primary. destruct (numbered es 1 part) as [x|]; [destruct (usable x)|]; congruence. }
    destruct (find_in 0 part 1 es) as [k'|pt] eqn:Ef.
    + exists (S f0), d2, sig. split_and!; [done..|]. intros [|fuel] Hf; [lia|].
      rewrite Hrun, (Hk' k' eq_refl), Hrest by lia. injection Ha as <-. by rewrite (Hk' k' eq_refl).
    + exists 1%nat, d1, sig. split_and!; [done..|]. intros [|fuel] Hf; [lia|]. rewrite Hrun. by injection Ha as <-.
  - subst ps. exists 1%nat, d1, sig. split_and!; [done..|]. intros [|fuel] Hf; [lia|]. rewrite Hrun.
    pose proof (answer_table 0 part 1 sig info es []) as Ha. rewrite app_nil_r, counted_primary in Ha.
    destruct (find_in 0 part 1 es) as [k'|pt]; [|by injection Ha as <-]. injection Ha as <-. unfold numbered. by destruct (_ <=? _).
Qed.

(** The numbers do not bound the recursion: when the table in the first block
    has an extended entry that refers to a block whose table has no partition and
    refers to itself, the lookup of a number that the first table does not answer
    goes on without end. *)
Theorem part_get_info_dos_diverges d es es' e e' part info :
  dev_ok d → on_device (contents d) 0 → table_block (sector (contents d) 0) es → first_extended es = Some e →
  on_device (contents d) (start4 e) → start4 e ≠ 0 → table_block (sector (contents d) (start4 e)) es' →
  first_extended es' = Some e' → start4 e' = 0 → counted (start4 e) es' = [] →
  4 < part →
  ∀ fuel, part_get_info_dos dev_desc stack fuel d part info = None.
Proof.
  intros Hd Hon Ht He Hon' Hne Ht' He' Hz Hcount Hpart fuel.
  assert (Es : u32 (start4 e) = start4 e) by (destruct Hon' as [? _]; apply wrap_small; lia).
  assert (Hloop : ∀ fuel d1 sig, dev_ok d1 → contents d1 = contents d →
    part_get_info_extended dev_desc stack fuel d1 (start4 e) (start4 e) 5 part info sig = None).
  { clear fuel. induction fuel as [|fuel IH]; intros d1 sig Hd1 Hc1; [done|]. rewrite <-Hc1 in Hon', Ht'.
    destruct (get_info_table d1 (start4 e) (start4 e) 5 part info sig es' Hd1 Hon' Ht') as (d2 & sig' & Hd2 & Hc2 & _ & Hrun);
      [unfold MAX_EXT_PARTS; lia|].
    rewrite Hrun, find_in_spec, Hcount, He', Hz. unfold numbered. cbn [length lookup list_lookup].
    rewrite Z.add_0_l, Es, (proj2 (Z.eqb_neq (start4 e) 0)) by done.
    destruct (5 <=? part); cbn; by apply IH; [|rewrite Hc2]. }
  destruct fuel as [|fuel]; [done|].
  destruct (get_info_table d 0 0 1 part info 0 es Hd Hon Ht) as (d1 & sig & Hd1 & Hc & _ & Hrun); [unfold MAX_EXT_PARTS; lia|].
  unfold part_get_info_dos. rewrite Hrun, find_in_spec, counted_primary, He. rewrite Z.add_0_r, Es.
  destruct (t_entries _ _ Ht) as (e0 & e1 & e2 & e3 & -> & _). unfold numbered.
  rewrite (proj2 (Z.leb_le _ _)) by lia. rewrite lookup_ge_None_2 by (cbn; lia). by apply Hloop.
Qed.
End correct.

(** ** Examples *)

Definition ex_entry (e : dos_partition) : list Z :=
  [boot_ind e; 0; 0; 0; sys_ind e; 0; 0; 0; start4 e; 0; 0; 0; size4 e; 0; 0; 0].
Definition ex_table (es : list dos_partition) : list Z := replicate 446 0 ++ (es ≫= ex_entry) ++ [0x55; 0xaa].

Definition entry (b s st sz : Z) : dos_partition := {| boot_ind := b; sys_ind := s; start4 := st; size4 := sz |}.
Definition none : dos_partition := entry 0 0 0 0.

(** A bootable partition, an unused entry, and an extended partition with two
    logical ones. *)
Definition mbr_entries : list dos_partition := [entry 0x80 0xc 3 1; none; entry 0 5 1 2; none].
Definition ebr1_entries : list dos_partition := [entry 0 0x83 3 2; entry 0 5 1 1; none; none].
Definition ebr2_entries : list dos_partition := [entry 0 0x82 4 1; none; none; none].
Definition ex_disk : list Z := ex_table mbr_entries ++ ex_table ebr1_entries ++ ex_table ebr2_entries.

#[local] Instance ex_device : BlockDev := ramdisk 512 eq_refl.
Definition ex_desc : disk_desc := {| d_if_type := 6; d_devnum := 0; d_lba := 3; d_sig_type := 0; d_mbr_sig := 0 |}.
Definition ex_stack : list Z := replicate 512 7.
Definition no_info : disk_partition :=
  {| start := 0; size := 0; blksz := 0; pname := []; ptype := []; bootable := 0; uuid := []; p_sys_ind := 0 |}.

Definition ex_parts : list (Z * dos_partition) :=
  (pair 0 <$> mbr_entries) ++ (pair 1 <$> [entry 0 0x83 3 2]) ++ (pair 2 <$> [entry 0 0x82 4 1]).

Ltac ex_table_block :=
  split; [vm_compute; reflexivity|vm_compute; reflexivity|
    eexists _, _, _, _; split_and!; vm_compute; reflexivity|vm_compute; intros ? [= <-]; auto].

Ltac ex_block := split; [split; [lia|done]|by vm_compute].

Lemma ex_block_size : 512 <= bsize.
Proof. by vm_compute. Qed.

Lemma ex_stack_size : bsize <= Z.of_nat (length ex_stack) < 2 ^ 32.
Proof. split; by vm_compute. Qed.

Lemma part_get_info_dos_correct_witness :
  ∃ fuel0 (d' : dev) disksig, True ∧ d' = ex_disk ∧
    le32_to_int (sector ex_disk 0) DOS_PART_DISKSIG_OFFSET = Some disksig ∧
    ∀ fuel, (fuel0 ≤ fuel)%nat →
      part_get_info_dos ex_desc ex_stack fuel ex_disk 6 no_info =
      Some (answer ex_desc 6 disksig no_info (numbered ex_parts 1 6), d').
Proof.
  apply (@part_get_info_dos_correct ex_device (ramdisk_works 512 eq_refl) ex_desc ex_stack ex_block_size ex_stack_size ex_disk ex_parts 6 no_info); [done| |done].
  apply (logical ex_disk mbr_entries (entry 0 5 1 2) ((pair 1 <$> [entry 0 0x83 3 2]) ++ (pair 2 <$> [entry 0 0x82 4 1])));
    [ex_block|ex_table_block|done|].
  apply (chain_next ex_disk 1 1 ebr1_entries (entry 0 5 1 1)); [done|ex_block|ex_table_block|done|].
  apply (chain_last ex_disk 1 2 ebr2_entries); [done|ex_block|ex_table_block|done].
Defined.

(** The numbers 1 to 7: start and size. *)
Example ex_lookup :
  (λ p, '(r, i, _) ← part_get_info_dos ex_desc ex_stack 4 ex_disk p no_info; Some (r, start i, size i)) <$> [1; 2; 3; 4; 5; 6; 7] =
  [Some (0, 3, 1); Some (-1, 0, 0); Some (0, 1, 2); Some (-1, 0, 0); Some (0, 4, 2); Some (0, 6, 1); Some (-1, 0, 0)].
Proof. vm_compute. reflexivity. Qed.

Definition loop_disk : list Z := ex_table [entry 0 5 1 1; none; none; none] ++ ex_table [entry 0 5 0 0; none; none; none].

Lemma part_get_info_dos_diverges_witness : ∀ fuel, part_get_info_dos ex_desc ex_stack fuel loop_disk 5 no_info = None.
Proof.
  apply (@part_get_info_dos_diverges ex_device (ramdisk_works 512 eq_refl) ex_desc ex_stack ex_block_size ex_stack_size loop_disk
    [entry 0 5 1 1; none; none; none] [entry 0 5 0 0; none; none; none] (entry 0 5 1 1) (entry 0 5 0 0));
    try done; first [ex_block|ex_table_block].
Defined.

(** Only the first slot is checked: the loop does not move to the next ones. *)
Example slots_unchecked : test_block_type (ex_table [entry 0 0 0 0; entry 0x12 1 1 1; entry 0x34 1 1 1; none]) = Some DOS_MBR.
Proof. vm_compute. reflexivity. Qed.

(** The boot sector of a volume without partitions is found under any number. *)
Definition pbr_disk : list Z :=
  replicate 54 0 ++ chars "FAT" ++ replicate 389 0 ++ (([entry 1 0 0 0; none; none; none]) ≫= ex_entry) ++ [0x55; 0xaa].

Example pbr_any_number :
  (λ p, '(r, i, _) ← part_get_info_dos ex_desc ex_stack 2 pbr_disk p no_info; Some (r, start i, size i)) <$> [0; 1; 77] =
  [Some (0, 0, 3); Some (0, 0, 3); Some (0, 0, 3)].
Proof. vm_compute. reflexivity. Qed.
