(* ===== verification/FatTable.v ===== *)
(** * FatTable: the allocation table of a FAT volume (fs/fat/fat.c,
    fs/fat/fat_write.c)

    The table of clusters, 12, 16 or 32 bits an entry, is read and written
    through a buffer of six sectors, [fatbuf], which is written back when
    another part of the table is needed.  The operations return their result,
    the new [fsdata] and the device.  The globals [cur_dev], [cur_part_info]
    and [total_sector] do not change here. *)

From Stdlib Require Import ZArith Lia List.
From stdpp Require Import base numbers list option.
From S2P Require Import Prelude BlockDev.

Record fsdata := {
  fatbuf : list Z; fatsize : Z; fatlength : Z; fat_sect : Z; fat_dirty : Z; rootdir_sect : Z;
  sect_size : Z; clust_size : Z; data_begin : Z; fatbufnum : Z; rootdir_size : Z;
  root_cluster : Z; total_sect : Z; fats : Z
}.

Definition with_buffer (fs : fsdata) (buf : list Z) (num dirty : Z) : fsdata :=
  {| fatbuf := buf; fatsize := fatsize fs; fatlength := fatlength fs; fat_sect := fat_sect fs;
     fat_dirty := dirty; rootdir_sect := rootdir_sect fs; sect_size := sect_size fs;
     clust_size := clust_size fs; data_begin := data_begin fs; fatbufnum := num;
     rootdir_size := rootdir_size fs; root_cluster := root_cluster fs;
     total_sect := total_sect fs; fats := fats fs |}.

Record fat_globals := { cur_dev : bool; part_start : Z; total_sector : Z }.

Definition FATBUFBLOCKS : Z := 6.
Definition FATBUFSIZE (fs : fsdata) : Z := sect_size fs * FATBUFBLOCKS.
Definition FAT12BUFSIZE (fs : fsdata) : Z := FATBUFSIZE fs * 2 / 3.
Definition FAT16BUFSIZE (fs : fsdata) : Z := FATBUFSIZE fs / 2.
Definition FAT32BUFSIZE (fs : fsdata) : Z := FATBUFSIZE fs / 4.

Definition IS_LAST_CLUST (x size : Z) : bool :=
  (if negb (size =? 32) then if negb (size =? 16) then 0xff8 else 0xfff8 else 0xffffff8) <=? x.
Definition CHECK_CLUST (x size : Z) : bool :=
  (x <=? 1) ||
  ((if negb (size =? 32) then if negb (size =? 16) then 0xff0 else 0xfff0 else 0xffffff0) <=? x).

(** ** Words in the buffer *)

Fixpoint get_le (buf : list Z) (i : Z) (n : nat) : option Z :=
  match n with
  | O => Some 0
  | S n => b ← arr_get buf i; r ← get_le buf (i + 1) n; Some (b + 256 * r)
  end.

Fixpoint put_le (buf : list Z) (i : Z) (n : nat) (v : Z) : option (list Z) :=
  match n with
  | O => Some buf
  | S n => buf ← arr_set buf i (u8 v); put_le buf (i + 1) n (v / 256)
  end.

(** [((__u16 * )buf)[i] &= ~mask; ((__u16 * )buf)[i] |= val]. *)
Definition update16 (buf : list Z) (i mask val : Z) : option (list Z) :=
  w ← get_le buf (2 * i) 2;
  put_le buf (2 * i) 2 (u16 (Z.lor (Z.land w (Z.lnot mask)) val)).

(** The block of the buffer and the index in it. *)
Definition fat_position (fs : fsdata) (e : Z) : option (Z * Z) :=
  let at_ size_ := let bufnum := e / size_ in Some (bufnum, u32 (e - bufnum * size_)) in
  if fatsize fs =? 32 then at_ (FAT32BUFSIZE fs)
  else if fatsize fs =? 16 then at_ (FAT16BUFSIZE fs)
  else if fatsize fs =? 12 then at_ (FAT12BUFSIZE fs)
  else None.

(** The entry at index [offset] of the buffer. *)
Definition buf_entry (fs : fsdata) (offset : Z) : option Z :=
  if fatsize fs =? 32 then get_le (fatbuf fs) (4 * offset) 4
  else if fatsize fs =? 16 then get_le (fatbuf fs) (2 * offset) 2
  else if fatsize fs =? 12 then
    let off8 := offset * 3 / 2 in
    b0 ← arr_get (fatbuf fs) off8;
    b1 ← arr_get (fatbuf fs) (off8 + 1);
    let ret := b0 + Z.shiftl b1 8 in
    let ret := if negb (Z.land offset 1 =? 0) then Z.shiftr ret 4 else ret in
    Some (Z.land ret 0xfff)
  else Some 0.

Definition buf_set_entry (fs : fsdata) (offset v : Z) : option (list Z) :=
  let buf := fatbuf fs in
  if fatsize fs =? 32 then put_le buf (4 * offset) 4 v
  else if fatsize fs =? 16 then put_le buf (2 * offset) 2 (u16 v)
  else
    let v := u16 v in
    let off16 := offset * 3 / 4 in
    let low := Z.land offset 3 in
    if low =? 0 then update16 buf off16 0xfff (Z.land v 0xfff)
    else if low =? 1 then
      let val1 := Z.land v 0xf in
      let val2 := Z.land (Z.shiftr v 4) 0xff in
      buf ← update16 buf off16 0xf000 (Z.shiftl val1 12);
      update16 buf (off16 + 1) 0xff val2
    else if low =? 2 then
      let val1 := Z.land v 0xff in
      let val2 := Z.land (Z.shiftr v 8) 0xf in
      buf ← update16 buf off16 0xff00 (Z.shiftl val1 8);
      update16 buf (off16 + 1) 0xf val2
    else update16 buf off16 0xfff0 (Z.shiftl (Z.land v 0xfff) 4).

Section operations.
Context {HBD : BlockDev} (g : fat_globals).

Definition disk_read (d : dev) (block nr_blocks : Z) (buf : list Z) : option (Z * list Z * dev) :=
  if negb (cur_dev g) then Some (-1, buf, d)
  else
    '(ret, buf, d) ← dread d (u32 (part_start g + block)) nr_blocks buf;
    Some (if negb (ret =? nr_blocks) then -1 else s32 ret, buf, d).

Definition disk_write (d : dev) (block nr_blocks : Z) (buf : list Z) : Z * dev :=
  if negb (cur_dev g) then (-1, d)
  else if u32 (part_start g + total_sector g) <? u32 (part_start g + block + nr_blocks) then (-1, d)
  else
    let '(ret, d) := dwrite d (u32 (part_start g + block)) nr_blocks buf in
    (if negb (nr_blocks =? 0) && (ret =? 0) then -1 else s32 ret, d).

Definition flush_dirty_fat_buffer (fs : fsdata) (d : dev) : Z * fsdata * dev :=
  let startblock := u32 (fatbufnum fs * FATBUFBLOCKS) in
  if (fat_dirty fs =? 0) || (fatbufnum fs =? -1) then (0, fs, d)
  else
    let getsize := if fatlength fs <? u32 (startblock + FATBUFBLOCKS)
                   then s32 (fatlength fs - startblock) else FATBUFBLOCKS in
    let startblock := u32 (startblock + fat_sect fs) in
    let '(ret, d) := disk_write d startblock (u32 getsize) (fatbuf fs) in
    if ret <? 0 then (-1, fs, d)
    else
      let clean := with_buffer fs (fatbuf fs) (fatbufnum fs) 0 in
      if fats fs =? 2 then
        let startblock := u32 (startblock + fatlength fs) in
        let '(ret, d) := disk_write d startblock (u32 getsize) (fatbuf fs) in
        if ret <? 0 then (-1, fs, d) else (0, clean, d)
      else (0, clean, d).

(** Bring block [bufnum] into the buffer.  A failure is [Some true] for the
    write of the old block and [Some false] for the read of the new one. *)
Definition read_block (fs : fsdata) (d : dev) (bufnum : Z) : option (option bool * fsdata * dev) :=
  if bufnum =? u32 (fatbufnum fs) then Some (None, fs, d)
  else
    let startblock := u32 (bufnum * FATBUFBLOCKS) in
    let getsize := if fatlength fs <? u32 (startblock + FATBUFBLOCKS)
                   then u32 (fatlength fs - startblock) else FATBUFBLOCKS in
    let '(ret, fs, d) := flush_dirty_fat_buffer fs d in
    if ret <? 0 then Some (Some true, fs, d)
    else
      '(ret, buf, d) ← disk_read d (u32 (startblock + fat_sect fs)) getsize (fatbuf fs);
      if ret <? 0 then Some (Some false, with_buffer fs buf (fatbufnum fs) (fat_dirty fs), d)
      else Some (None, with_buffer fs buf (s32 bufnum) (fat_dirty fs), d).

Definition get_fatent (fs : fsdata) (d : dev) (e : Z) : option (Z * fsdata * dev) :=
  if CHECK_CLUST e (fatsize fs) then Some (0, fs, d)
  else
    match fat_position fs e with
    | None => Some (0, fs, d)
    | Some (bufnum, offset) =>
        '(failed, fs, d) ← read_block fs d bufnum;
        match failed with
        | Some true => Some (u32 (-1), fs, d)
        | Some false => Some (0, fs, d)
        | None => v ← buf_entry fs offset; Some (v, fs, d)
        end
    end.

Definition set_fatent_value (fs : fsdata) (d : dev) (e v : Z) : option (Z * fsdata * dev) :=
  match fat_position fs e with
  | None => Some (-1, fs, d)
  | Some (bufnum, offset) =>
      '(failed, fs, d) ← read_block fs d bufnum;
      match failed with
      | Some _ => Some (-1, fs, d)
      | None => buf ← buf_set_entry fs offset v; Some (0, with_buffer fs buf (fatbufnum fs) 1, d)
      end
  end.
End operations.

(** ** The entries in the bytes of the table *)

Definition byte (B : list Z) (i : Z) : Z := default 0 (B !! Z.to_nat i).
Definition set_byte (B : list Z) (i x : Z) : list Z := <[Z.to_nat i := x]> B.

Definition entry (w : Z) (B : list Z) (e : Z) : Z :=
  if w =? 32 then byte B (4 * e) + 2 ^ 8 * byte B (4 * e + 1) + 2 ^ 16 * byte B (4 * e + 2) +
                  2 ^ 24 * byte B (4 * e + 3)
  else if w =? 16 then byte B (2 * e) + 2 ^ 8 * byte B (2 * e + 1)
  else
    let o := e * 3 / 2 in
    if Z.odd e then byte B o / 16 + 16 * byte B (o + 1) else byte B o + 256 * (byte B (o + 1) mod 16).

Definition put (w : Z) (B : list Z) (e v : Z) : list Z :=
  if w =? 32 then
    set_byte (set_byte (set_byte (set_byte B (4 * e) (v mod 256)) (4 * e + 1) (v / 2 ^ 8 mod 256))
      (4 * e + 2) (v / 2 ^ 16 mod 256)) (4 * e + 3) (v / 2 ^ 24 mod 256)
  else if w =? 16 then set_byte (set_byte B (2 * e) (v mod 256)) (2 * e + 1) (v / 2 ^ 8 mod 256)
  else
    let o := e * 3 / 2 in
    if Z.odd e
    then set_byte (set_byte B o (byte B o mod 16 + 16 * (v mod 16))) (o + 1) (v / 16 mod 256)
    else set_byte (set_byte B o (v mod 256)) (o + 1) (v / 2 ^ 8 mod 16 + 16 * (byte B (o + 1) / 16)).

(** The number of entries in [len] bytes. *)
Definition entries_in (w len : Z) : Z :=
  if w =? 32 then len / 4 else if w =? 16 then len / 2 else len * 2 / 3.

Definition table_of (w : Z) (B : list Z) : list Z :=
  (λ e, entry w B (Z.of_nat e)) <$> seq 0 (Z.to_nat (entries_in w (Z.of_nat (length B)))).

Definition is_byte (x : Z) : Prop := 0 ≤ x < 256.
Definition fat_width (w : Z) : Prop := w = 12 ∨ w = 16 ∨ w = 32.

(** The three cases of a width, in the goal and the context. *)
Ltac widths H :=
  lazymatch type of H with
  | fat_width ?t => let w := fresh "w" in let E := fresh "Ew" in remember t as w eqn:E in *
  end; destruct H as [-> | [-> | ->]]; cbn [Z.eqb Pos.eqb] in *.
Ltac divs := Z.div_mod_to_equations; lia.

Section bytes.
Implicit Types (B : list Z) (w e i v x : Z).

Lemma byte_lookup B i : 0 ≤ i < Z.of_nat (length B) → B !! Z.to_nat i = Some (byte B i).
Proof.
  intros Hi. unfold byte. destruct (lookup_lt_is_Some_2 B (Z.to_nat i)) as [x Hx]; [lia|]. by rewrite Hx.
Qed.

Lemma arr_get_byte B i : 0 ≤ i < Z.of_nat (length B) → arr_get B i = Some (byte B i).
Proof. intros Hi. apply arr_get_Some. split; [lia|by apply byte_lookup]. Qed.

Lemma arr_set_byte B i x : 0 ≤ i < Z.of_nat (length B) → arr_set B i x = Some (set_byte B i x).
Proof.
  intros Hi. unfold arr_set. by rewrite (proj2 (Z.leb_le _ _)), (proj2 (Z.ltb_lt _ _)) by lia.
Qed.

Lemma length_set_byte B i x : length (set_byte B i x) = length B.
Proof. apply length_insert. Qed.

Lemma byte_set B i j x : 0 ≤ i < Z.of_nat (length B) → 0 ≤ j →
  byte (set_byte B i x) j = if j =? i then x else byte B j.
Proof.
  intros Hi Hj. unfold byte, set_byte. destruct (Z.eqb_spec j i) as [->|].
  - by rewrite list_lookup_insert_eq by lia.
  - by rewrite list_lookup_insert_ne by lia.
Qed.

Lemma set_byte_id B i : 0 ≤ i < Z.of_nat (length B) → set_byte B i (byte B i) = B.
Proof. intros Hi. apply list_insert_id, byte_lookup, Hi. Qed.

Lemma set_byte_comm B i j x y : 0 ≤ i → 0 ≤ j → i ≠ j →
  set_byte (set_byte B i x) j y = set_byte (set_byte B j y) i x.
Proof. intros Hi Hj Hne. apply list_insert_insert_ne. lia. Qed.

Lemma byte_range B i : Forall is_byte B → is_byte (byte B i).
Proof.
  intros HB. unfold byte. destruct (B !! Z.to_nat i) as [x|] eqn:E; [|done].
  by apply (proj1 (Forall_lookup _ _) HB _ _ E).
Qed.

Lemma set_byte_range B i x : Forall is_byte B → is_byte x → Forall is_byte (set_byte B i x).
Proof. intros HB Hx. by apply Forall_insert. Qed.

Lemma land_1 x : Z.land x 1 = x mod 2.
Proof. by apply (Z.land_ones x 1). Qed.
Lemma land_3 x : Z.land x 3 = x mod 4.
Proof. by apply (Z.land_ones x 2). Qed.
Lemma land_f x : Z.land x 0xf = x mod 16.
Proof. by apply (Z.land_ones x 4). Qed.
Lemma land_ff x : Z.land x 0xff = x mod 256.
Proof. by apply (Z.land_ones x 8). Qed.
Lemma land_fff x : Z.land x 0xfff = x mod 4096.
Proof. by apply (Z.land_ones x 12). Qed.

(** A field of [n] bits at bit [s]. *)
Lemma set_field (w s n x : Z) : 0 ≤ w → 0 ≤ s → 0 ≤ n → 0 ≤ x < 2 ^ n →
  Z.lor (Z.land w (Z.lnot (Z.ones n * 2 ^ s))) (x * 2 ^ s) =
    w mod 2 ^ s + x * 2 ^ s + w / 2 ^ (s + n) * 2 ^ (s + n).
Proof.
  intros Hw Hs Hn Hx. assert (Hlow : 0 ≤ w mod 2 ^ s < 2 ^ s) by (apply Z.mod_pos_bound; lia).
  rewrite <-Z.add_assoc.
  assert (Hpow : 2 ^ (s + n) = 2 ^ n * 2 ^ s) by (rewrite Z.pow_add_r by lia; lia).
  set (q := w / 2 ^ (s + n)). replace (x * 2 ^ s + q * 2 ^ (s + n)) with ((x + q * 2 ^ n) * 2 ^ s) by lia.
  rewrite Z.add_comm, <-lor_low_high by done. rewrite (Z.add_comm x), <-lor_low_high by done.
  apply Z.bits_inj'. intros i Hi. rewrite !Z.lor_spec, Z.land_spec, Z.lnot_spec by lia.
  destruct (Z.lt_ge_cases i s) as [Hlt|Hge].
  { rewrite !Z.mul_pow2_bits_low, Z.mod_pow2_bits_low by lia. by rewrite andb_true_r, orb_false_r. }
  rewrite (Z.mod_pow2_bits_high w) by lia. rewrite !Z.mul_pow2_bits, Z.lor_spec, orb_false_r by lia.
  destruct (Z.lt_ge_cases i (s + n)) as [Hin|Hout].
  - rewrite Z.ones_spec_low, Z.mul_pow2_bits_low by lia. by rewrite andb_false_r.
  - rewrite Z.ones_spec_high, Z.mul_pow2_bits by lia. unfold q.
    assert (Hx0 : Z.testbit x (i - s) = false).
    { rewrite <-(Z.mod_small x (2 ^ n)) by done. apply Z.mod_pow2_bits_high. lia. }
    rewrite Z.div_pow2_bits, Hx0 by lia. rewrite andb_true_r, !orb_false_r. f_equal. lia.
Qed.

Lemma get16 B i : 0 ≤ i → i + 1 < Z.of_nat (length B) →
  get_le B i 2 = Some (byte B i + 256 * byte B (i + 1)).
Proof.
  intros H0 H1. cbn [get_le]. rewrite !arr_get_byte by lia. cbn [mbind option_bind]. f_equal. lia.
Qed.

Lemma put16 B i v : 0 ≤ i → i + 1 < Z.of_nat (length B) →
  put_le B i 2 v = Some (set_byte (set_byte B i (v mod 256)) (i + 1) (v / 256 mod 256)).
Proof.
  intros H0 H1. cbn [put_le]. rewrite arr_set_byte by lia. cbn [mbind option_bind].
  by rewrite arr_set_byte by (rewrite length_set_byte; lia).
Qed.

(** The update of a field of a 16-bit word of the buffer, as bytes. *)
Lemma update16_spec B i s n x (w := byte B (2 * i) + 256 * byte B (2 * i + 1)) :
  Forall is_byte B → 0 ≤ i → 2 * i + 1 < Z.of_nat (length B) →
  0 ≤ s → 0 ≤ n → s + n ≤ 16 → 0 ≤ x < 2 ^ n →
  let r := w mod 2 ^ s + x * 2 ^ s + w / 2 ^ (s + n) * 2 ^ (s + n) in
  update16 B i (Z.ones n * 2 ^ s) (x * 2 ^ s) =
    Some (set_byte (set_byte B (2 * i) (r mod 256)) (2 * i + 1) (r / 256)).
Proof.
  intros HB Hi Hlen Hs Hn Hsn Hx r. unfold update16. rewrite get16 by lia. cbn [mbind option_bind]. fold w.
  pose proof (byte_range B (2 * i) HB) as H0. pose proof (byte_range B (2 * i + 1) HB) as H1. unfold is_byte in *.
  assert (Hw : 0 ≤ w < 2 ^ 16) by lia. rewrite set_field by lia. fold r.
  assert (Hr : 0 ≤ r < 2 ^ 16).
  { assert (Hp : 2 ^ (s + n) = 2 ^ n * 2 ^ s) by (rewrite Z.pow_add_r by lia; lia).
    assert (Hq : 2 ^ 16 = 2 ^ (s + n) * 2 ^ (16 - (s + n))) by (rewrite <-Z.pow_add_r by lia; f_equal; lia).
    pose proof (Z.mod_pos_bound w (2 ^ s)) as Hm. pose proof (Z.div_mod w (2 ^ (s + n))) as Hd.
    assert (w / 2 ^ (s + n) < 2 ^ (16 - (s + n))) by (apply Z.div_lt_upper_bound; lia).
    assert (0 ≤ w / 2 ^ (s + n)) by (apply Z.div_pos; lia).
    assert (0 < 2 ^ s) by lia. assert (0 < 2 ^ n) by lia. unfold r. nia. }
  rewrite wrap_small by done. rewrite put16 by lia. do 2 f_equal.
  apply Z.mod_small. split; [apply Z.div_pos; lia|apply Z.div_lt_upper_bound; lia].
Qed.

Lemma buf_entry_spec fs offset : fat_width (fatsize fs) → Forall is_byte (fatbuf fs) →
  0 ≤ offset < entries_in (fatsize fs) (Z.of_nat (length (fatbuf fs))) →
  buf_entry fs offset = Some (entry (fatsize fs) (fatbuf fs) offset).
Proof.
  intros Hw HB Ho. unfold buf_entry, entry, entries_in in *. widths Hw.
  - assert (offset * 3 / 2 + 1 < Z.of_nat (length (fatbuf fs))) by divs.
    rewrite !arr_get_byte by divs. cbn [mbind option_bind]. f_equal.
    pose proof (byte_range _ (offset * 3 / 2) HB) as H0. pose proof (byte_range _ (offset * 3 / 2 + 1) HB) as H1.
    unfold is_byte in *. rewrite Z.shiftl_mul_pow2 by lia.
    rewrite land_1, !land_fff, Zmod_odd. destruct (Z.odd offset); cbn [Z.eqb negb].
    + rewrite Z.shiftr_div_pow2 by lia. divs.
    + divs.
  - rewrite get16 by divs. f_equal.
  - cbn [get_le]. rewrite !arr_get_byte by divs. cbn [mbind option_bind]. f_equal.
    replace (4 * offset + 1 + 1) with (4 * offset + 2) by lia.
    replace (4 * offset + 2 + 1) with (4 * offset + 3) by lia. lia.
Qed.

Lemma update16_at B i s n x mask val r0 r1 (w := byte B (2 * i) + 256 * byte B (2 * i + 1)) :
  mask = Z.ones n * 2 ^ s → val = x * 2 ^ s →
  Forall is_byte B → 0 ≤ i → 2 * i + 1 < Z.of_nat (length B) →
  0 ≤ s → 0 ≤ n → s + n ≤ 16 → 0 ≤ x < 2 ^ n →
  r0 = (w mod 2 ^ s + x * 2 ^ s + w / 2 ^ (s + n) * 2 ^ (s + n)) mod 256 →
  r1 = (w mod 2 ^ s + x * 2 ^ s + w / 2 ^ (s + n) * 2 ^ (s + n)) / 256 →
  update16 B i mask val = Some (set_byte (set_byte B (2 * i) r0) (2 * i + 1) r1).
Proof. intros -> -> HB Hi Hlen Hs Hn Hsn Hx -> ->. by apply update16_spec. Qed.

(** The position of an entry of 12 bits: in its group of four, its word, its
    byte and its parity. *)
Ltac quad e j word o odd :=
  replace (e mod 4) with j by divs; cbn [Z.eqb Pos.eqb];
  replace (e * 3 / 4) with (word) by divs; replace (e * 3 / 2) with (o) by divs;
  replace (Z.odd e) with odd by (rewrite Z.odd_add, Z.odd_mul; done).

Ltac two_bytes B i HB :=
  pose proof (byte_range B i HB); pose proof (byte_range B (i + 1) HB); unfold is_byte in *.

(** One byte of a word is rewritten with its own value. *)
Lemma set_two_high B i x : 0 ≤ i → i + 1 < Z.of_nat (length B) →
  set_byte (set_byte B i (byte B i)) (i + 1) x = set_byte B (i + 1) x.
Proof. intros H0 H1. by rewrite set_byte_id by lia. Qed.

Lemma set_two_low B i x : 0 ≤ i → i + 1 < Z.of_nat (length B) →
  set_byte (set_byte B i x) (i + 1) (byte B (i + 1)) = set_byte B i x.
Proof.
  intros H0 H1. rewrite set_byte_comm by lia. by rewrite set_byte_id by lia.
Qed.

Lemma buf_set_entry_12 fs offset v (B := fatbuf fs) : fatsize fs = 12 → Forall is_byte B →
  Z.even (Z.of_nat (length B)) = true → 0 ≤ v →
  0 ≤ offset < entries_in 12 (Z.of_nat (length B)) →
  buf_set_entry fs offset v = Some (put 12 B offset v).
Proof.
  intros Hw HB Hev Hv Ho. unfold buf_set_entry, put. rewrite Hw. cbn [Z.eqb Pos.eqb]. fold B.
  unfold entries_in in Ho. cbn [Z.eqb Pos.eqb] in Ho.
  apply Z.even_spec in Hev as [h Hh]. unfold wrap. set (u := v mod 2 ^ 16).
  assert (Hu : 0 ≤ u < 65536 ∧ u mod 4096 = v mod 4096) by (unfold u; split; divs). destruct Hu as [Hu Huv].
  assert (Hk : ∃ k j, offset = 4 * k + j ∧ 0 ≤ k ∧ (j = 0 ∨ j = 1 ∨ j = 2 ∨ j = 3))
    by (exists (offset / 4), (offset mod 4); divs).
  destruct Hk as (k & j & -> & Hk & Hj).
  rewrite land_3, !land_f, !land_ff, !land_fff, !Z.shiftl_mul_pow2, !Z.shiftr_div_pow2 by lia.
  destruct Hj as [-> | [-> | [-> | ->]]].
  - quad (4 * k + 0) 0 (3 * k) (2 * (3 * k)) false. two_bytes B (2 * (3 * k)) HB.
    apply update16_at with (s := 0) (n := 12) (x := u mod 4096); try done; try lia; divs.
  - quad (4 * k + 1) 1 (3 * k) (2 * (3 * k) + 1) true. two_bytes B (2 * (3 * k)) HB.
    rewrite (update16_at B (3 * k) 12 4 (u mod 16) _ _ (byte B (2 * (3 * k)))
      (byte B (2 * (3 * k) + 1) mod 16 + 16 * (v mod 16))) by (try done; try lia; divs).
    rewrite set_two_high by divs. cbn [mbind option_bind].
    set (B1 := set_byte B _ _). assert (HB1 : Forall is_byte B1) by (apply set_byte_range; [done|unfold is_byte; divs]).
    assert (Hlen : length B1 = length B) by apply length_set_byte. two_bytes B1 (2 * (3 * k + 1)) HB1.
    rewrite (update16_at B1 (3 * k + 1) 0 8 (u / 2 ^ 4 mod 256) _ _ (v / 16 mod 256)
      (byte B1 (2 * (3 * k + 1) + 1))) by (try done; try lia; divs).
    rewrite set_two_low by divs. by replace (2 * (3 * k) + 1 + 1) with (2 * (3 * k + 1)) by lia.
  - quad (4 * k + 2) 2 (3 * k + 1) (2 * (3 * k + 1) + 1) false. two_bytes B (2 * (3 * k + 1)) HB.
    rewrite (update16_at B (3 * k + 1) 8 8 (u mod 256) _ _ (byte B (2 * (3 * k + 1))) (v mod 256))
      by (try done; try lia; divs).
    rewrite set_two_high by divs. cbn [mbind option_bind].
    set (B1 := set_byte B _ _). assert (HB1 : Forall is_byte B1) by (apply set_byte_range; [done|unfold is_byte; divs]).
    assert (Hlen : length B1 = length B) by apply length_set_byte. two_bytes B1 (2 * (3 * k + 2)) HB1.
    assert (E : byte B1 (2 * (3 * k + 2)) = byte B (2 * (3 * k + 2))).
    { unfold B1. rewrite byte_set by divs. by bools; [lia|]. }
    replace (3 * k + 1 + 1) with (3 * k + 2) by lia.
    rewrite (update16_at B1 (3 * k + 2) 0 4 (u / 2 ^ 8 mod 16) _ _
      (v / 2 ^ 8 mod 16 + 16 * (byte B (2 * (3 * k + 2)) / 16)) (byte B1 (2 * (3 * k + 2) + 1)))
      by (try done; try lia; divs).
    rewrite set_two_low by divs. by replace (2 * (3 * k + 1) + 1 + 1) with (2 * (3 * k + 2)) by lia.
  - quad (4 * k + 3) 3 (3 * k + 2) (2 * (3 * k + 2)) true. two_bytes B (2 * (3 * k + 2)) HB.
    apply update16_at with (s := 4) (n := 12) (x := u mod 4096); try done; try lia; divs.
Qed.

Lemma buf_set_entry_spec fs offset v (B := fatbuf fs) : fat_width (fatsize fs) → Forall is_byte B →
  Z.even (Z.of_nat (length B)) = true → 0 ≤ v →
  0 ≤ offset < entries_in (fatsize fs) (Z.of_nat (length B)) →
  buf_set_entry fs offset v = Some (put (fatsize fs) B offset v).
Proof.
  intros Hw HB Hev Hv Ho. destruct Hw as [Hw|Hw]; [rewrite Hw in *; by apply buf_set_entry_12|].
  unfold buf_set_entry, put, entries_in in *. destruct Hw as [Hw|Hw]; rewrite Hw in *; cbn [Z.eqb Pos.eqb] in *.
  - fold B. rewrite put16 by divs. unfold wrap. do 2 f_equal; [f_equal|]; divs.
  - fold B. cbn [put_le]. rewrite arr_set_byte by divs. cbn [mbind option_bind].
    rewrite arr_set_byte by (rewrite ?length_set_byte; divs). cbn [mbind option_bind].
    rewrite arr_set_byte by (rewrite ?length_set_byte; divs). cbn [mbind option_bind].
    rewrite arr_set_byte by (rewrite ?length_set_byte; divs).
    replace (4 * offset + 1 + 1) with (4 * offset + 2) by lia.
    replace (4 * offset + 2 + 1) with (4 * offset + 3) by lia. unfold wrap.
    cbn [mbind option_bind]. by rewrite !Z.div_div by lia.
Qed.


(** ** Reading back an entry *)

Lemma length_put w B e v : length (put w B e v) = length B.
Proof. unfold put. repeat case_match; by rewrite ?length_set_byte. Qed.

Lemma put_range w B e v : Forall is_byte B → Forall is_byte (put w B e v).
Proof.
  intros HB. unfold put. pose proof (byte_range B (e * 3 / 2) HB). pose proof (byte_range B (e * 3 / 2 + 1) HB).
  unfold is_byte in *. repeat case_match; repeat (apply set_byte_range; [|unfold is_byte; divs]); done.
Qed.

Lemma entry_put w B e v e' : fat_width w → Forall is_byte B →
  0 ≤ e < entries_in w (Z.of_nat (length B)) → 0 ≤ e' < entries_in w (Z.of_nat (length B)) →
  entry w (put w B e v) e' = if e' =? e then v mod 2 ^ w else entry w B e'.
Proof.
  intros Hw HB He He'. unfold entry, put, entries_in in *. widths Hw.
  - assert (Hp : ∀ a, 0 ≤ a < Z.of_nat (length B) * 2 / 3 → 0 ≤ a * 3 / 2 ∧ a * 3 / 2 + 1 < Z.of_nat (length B))
      by (intros a Ha; split; divs).
    pose proof (Hp e He). pose proof (Hp e' He').
    pose proof (Zmod_odd e) as Po. pose proof (Zmod_odd e') as Po'.
    two_bytes B (e * 3 / 2) HB. two_bytes B (e' * 3 / 2) HB.
    destruct (Z.odd e); destruct (Z.odd e');
      rewrite !byte_set by (rewrite ?length_set_byte; lia); destruct (Z.eqb_spec e' e) as [->|Hne]; try lia.
    all: bools; try (exfalso; divs); try divs.
    all: match goal with H : ?a = ?b |- _ => rewrite ?H in * end; divs.
  - rewrite !byte_set by (rewrite ?length_set_byte; divs). bools; try lia. divs.
  - rewrite !byte_set by (rewrite ?length_set_byte; divs). bools; try lia. divs.
Qed.
End bytes.

Section tables.
Implicit Types (B F buf : list Z) (w e v : Z).

Lemma length_table_of w B : 0 ≤ entries_in w (Z.of_nat (length B)) →
  Z.of_nat (length (table_of w B)) = entries_in w (Z.of_nat (length B)).
Proof. intros H. unfold table_of. rewrite length_fmap, length_seq. lia. Qed.

Lemma table_of_lookup w B e : 0 ≤ e < entries_in w (Z.of_nat (length B)) →
  table_of w B !! Z.to_nat e = Some (entry w B e).
Proof.
  intros He. unfold table_of. rewrite list_lookup_fmap, lookup_seq_lt by lia. cbn. do 2 f_equal. lia.
Qed.

Lemma table_put w B e v : fat_width w → Forall is_byte B → 0 ≤ e < entries_in w (Z.of_nat (length B)) →
  table_of w (put w B e v) = <[Z.to_nat e := v mod 2 ^ w]> (table_of w B).
Proof.
  intros Hw HB He. assert (Hl : length (put w B e v) = length B) by apply length_put.
  apply list_eq. intros i. destruct (decide (Z.of_nat i < entries_in w (Z.of_nat (length B)))) as [Hi|Hi].
  - rewrite <-(Nat2Z.id i), table_of_lookup by (rewrite Hl; lia).
    rewrite entry_put by (try done; lia). destruct (Z.eqb_spec (Z.of_nat i) e) as [<-|].
    + rewrite list_lookup_insert_eq; [done|].
      apply Nat2Z.inj_lt. rewrite length_table_of by lia. lia.
    + rewrite list_lookup_insert_ne by lia. by rewrite table_of_lookup by lia.
  - rewrite !lookup_ge_None_2; [done|apply Nat2Z.inj_le..].
    + rewrite length_insert, length_table_of by lia. lia.
    + rewrite length_table_of by (rewrite Hl; lia). rewrite Hl. lia.
Qed.

(** The first byte of an entry and the number of its bytes. *)
Definition spot w e : Z := if w =? 32 then 4 * e else if w =? 16 then 2 * e else e * 3 / 2.
Definition spots w : Z := if w =? 32 then 4 else 2.

Lemma spot_inside w e len : fat_width w → 0 ≤ e < entries_in w len →
  0 ≤ spot w e ∧ spot w e + spots w ≤ len.
Proof. intros Hw He. unfold spot, spots, entries_in in *. widths Hw; split; divs. Qed.

(** Two lists that agree on the bytes of an entry. *)
Lemma entry_agree w B B' e e' : fat_width w → (w = 12 → Z.odd e = Z.odd e') →
  (∀ i, 0 ≤ i < spots w → byte B (spot w e + i) = byte B' (spot w e' + i)) →
  entry w B e = entry w B' e'.
Proof.
  intros Hw Hodd H. unfold entry, spot, spots in *. pose proof (H 0) as H0. pose proof (H 1) as H1.
  pose proof (H 2) as H2. pose proof (H 3) as H3. rewrite !Z.add_0_r in H0.
  widths Hw; [rewrite Hodd by done|..]; rewrite ?H0, ?H1, ?H2, ?H3 by lia; done.
Qed.

(** The table with the bytes [buf] over its own at [r]. *)
Definition overlay F (r rl : Z) buf : list Z := splice F (Z.to_nat r) (take (Z.to_nat rl) buf).

Lemma byte_overlay F r rl buf i : 0 ≤ r → 0 ≤ rl ≤ Z.of_nat (length buf) → r + rl ≤ Z.of_nat (length F) →
  0 ≤ i < rl → byte (overlay F r rl buf) (r + i) = byte buf i.
Proof.
  intros Hr Hrl HF Hi. unfold byte, overlay.
  rewrite splice_lookup_new by (rewrite ?length_take; lia).
  rewrite lookup_take_lt by lia. do 2 f_equal. lia.
Qed.

Lemma overlay_set_byte F r rl buf i x : 0 ≤ r → 0 ≤ rl ≤ Z.of_nat (length buf) →
  r + rl ≤ Z.of_nat (length F) → 0 ≤ i < rl →
  overlay F r rl (set_byte buf i x) = set_byte (overlay F r rl buf) (r + i) x.
Proof.
  intros Hr Hrl HF Hi. unfold overlay, set_byte. rewrite take_insert_lt by lia.
  rewrite splice_insert by (rewrite ?length_take; lia). f_equal. lia.
Qed.

Lemma length_overlay F r rl buf : 0 ≤ r → 0 ≤ rl ≤ Z.of_nat (length buf) →
  r + rl ≤ Z.of_nat (length F) → length (overlay F r rl buf) = length F.
Proof. intros Hr Hrl HF. apply length_splice. rewrite length_take. lia. Qed.

Lemma overlay_put w F r rl buf e e' v : fat_width w → 0 ≤ r → 0 ≤ rl ≤ Z.of_nat (length buf) →
  r + rl ≤ Z.of_nat (length F) → (w = 12 → Z.odd e = Z.odd e') →
  spot w e' = r + spot w e → 0 ≤ spot w e → spot w e + spots w ≤ rl →
  overlay F r rl (put w buf e v) = put w (overlay F r rl buf) e' v.
Proof.
  intros Hw Hr Hrl HF Hodd Hs H0 H1. unfold put, spot, spots in *. widths Hw.
  - rewrite Hs, <-Hodd by done. rewrite <-Z.add_assoc, !byte_overlay by lia.
    destruct (Z.odd e); rewrite !overlay_set_byte by (rewrite ?length_set_byte; lia); done.
  - rewrite !overlay_set_byte by (rewrite ?length_set_byte; lia).
    by rewrite Hs, <-Z.add_assoc.
  - rewrite !overlay_set_byte by (rewrite ?length_set_byte; lia).
    by rewrite Hs, <-!Z.add_assoc.
Qed.
End tables.

(** ** The volume and its buffer *)

Section volume.
Context {HBD : BlockDev} {HDW : DevWorks} (g : fat_globals).
Implicit Types (fs : fsdata) (d : dev) (pre rest B F : list Z).

(** The layout: [pre] are the bytes of the device before the table, which lies
    inside of the partition, with its second copy. *)
Record fat_layout fs pre (len : Z) : Prop := {
  fl_dev : cur_dev g = true;
  fl_width : fat_width (fatsize fs);
  fl_sect : sect_size fs = bsize;
  fl_even : Z.even (sect_size fs) = true;
  fl_sect_max : sect_size fs < 2 ^ 16;
  fl_fat : 0 ≤ fat_sect fs ∧ 0 < fatlength fs ∧ 0 ≤ part_start g;
  fl_inside : fat_sect fs + (if fats fs =? 2 then 2 else 1) * fatlength fs ≤ total_sector g;
  fl_total : part_start g + total_sector g < 2 ^ 31;
  fl_pre : Z.of_nat (length pre) = (part_start g + fat_sect fs) * sect_size fs;
  fl_len : len = fatlength fs * sect_size fs
}.

(** The sectors of the table in the buffer, and their bytes. *)
Definition part_start_byte fs : Z := FATBUFBLOCKS * sect_size fs * fatbufnum fs.
Definition part_blocks fs (num : Z) : Z := Z.min FATBUFBLOCKS (fatlength fs - num * FATBUFBLOCKS).

(** The tables that the code keeps: a second one only when there are exactly two. *)
Definition copies fs F : list Z := if fats fs =? 2 then F ++ F else F.

(** [B] is the table that the program sees, [F] the one on the device. *)
Record fat_state fs d pre rest B F : Prop := {
  fs_layout : fat_layout fs pre (Z.of_nat (length F));
  fs_contents : contents d = pre ++ copies fs F ++ rest;
  fs_dev : dev_ok d;
  fs_buf : Z.of_nat (length (fatbuf fs)) = FATBUFSIZE fs;
  fs_bytes : Forall is_byte F ∧ Forall is_byte B ∧ Forall is_byte (fatbuf fs);
  fs_view :
    (fatbufnum fs = -1 ∧ fat_dirty fs = 0 ∧ B = F) ∨
    (0 ≤ fatbufnum fs ∧ fatbufnum fs * FATBUFBLOCKS < fatlength fs ∧
     B = overlay F (part_start_byte fs) (part_blocks fs (fatbufnum fs) * sect_size fs) (fatbuf fs) ∧
     (fat_dirty fs = 0 → B = F))
}.

(** Only the buffer, its number and its flag are different. *)
Definition same_volume fs fs' : Prop := ∃ buf num dirty, fs' = with_buffer fs buf num dirty.

Lemma same_volume_refl fs : same_volume fs fs.
Proof. exists (fatbuf fs), (fatbufnum fs), (fat_dirty fs). by destruct fs. Qed.

Lemma same_volume_trans fs1 fs2 fs3 : same_volume fs1 fs2 → same_volume fs2 fs3 → same_volume fs1 fs3.
Proof. intros (? & ? & ? & ->) (b & n & k & ->). by exists b, n, k. Qed.

Lemma layout_same fs fs' pre len : same_volume fs fs' → fat_layout fs pre len → fat_layout fs' pre len.
Proof. intros (b & n & k & ->) []. by constructor. Qed.

Lemma disk_read_spec d block n buf : cur_dev g = true → 0 ≤ part_start g → dev_ok d → 0 ≤ block → 0 ≤ n →
  part_start g + block + n < 2 ^ 31 → n * bsize ≤ Z.of_nat (length buf) < 2 ^ 32 →
  (part_start g + block + n) * bsize ≤ Z.of_nat (length (contents d)) →
  ∃ d', disk_read g d block n buf =
      Some (n, take (Z.to_nat (n * bsize)) (drop (Z.to_nat ((part_start g + block) * bsize)) (contents d)) ++
               drop (Z.to_nat (n * bsize)) buf, d') ∧ dev_ok d' ∧ contents d' = contents d.
Proof.
  intros Hc Hp Hd Hb Hn Hmax Hbuf Hin. unfold disk_read. rewrite Hc. cbn [negb].
  rewrite wrap_small by lia.
  destruct (dread_ok d (part_start g + block) n buf) as (r & buf' & d' & Hr & Hok & Hcont & Hdata);
    [done|lia..|]. rewrite Hr. cbn [mbind option_bind].
  assert (r = n) as -> by (by eapply dread_works; [| | | |exact Hr]; [|lia|lia|]).
  rewrite Z.eqb_refl, Hdata, swrap_small by (try done; lia). by exists d'.
Qed.

Lemma disk_write_spec d block n buf : cur_dev g = true → 0 ≤ part_start g → dev_ok d → 0 ≤ block → 0 < n →
  part_start g + total_sector g < 2 ^ 31 → block + n ≤ total_sector g →
  n * bsize ≤ Z.of_nat (length buf) →
  (part_start g + block + n) * bsize ≤ Z.of_nat (length (contents d)) →
  ∃ d', disk_write g d block n buf = (n, d') ∧ dev_ok d' ∧
    contents d' = splice (contents d) (Z.to_nat ((part_start g + block) * bsize))
                    (take (Z.to_nat (n * bsize)) buf).
Proof.
  intros Hc Hp Hd Hb Hn Hmax Htot Hbuf Hin. unfold disk_write. rewrite Hc. cbn [negb].
  rewrite !wrap_small by lia. rewrite (proj2 (Z.ltb_ge _ _)) by lia.
  destruct (dwrite _ _ _ _) as [r d'] eqn:Hr.
  assert (r = n) as -> by (by eapply dwrite_works; [| | | |exact Hr]; [|lia|lia|]).
  destruct (dwrite_ok _ _ _ _ _ _ Hd Hr) as [Hok Hdata].
  rewrite (proj2 (Z.eqb_neq n 0)), swrap_small by lia. cbn [negb andb].
  exists d'. split_and!; [done|done|apply Hdata; try done; lia].
Qed.

(** Where the part of the table in the buffer is, and how the code computes it. *)
Lemma part_facts fs pre len num : fat_layout fs pre len → 0 ≤ num → num * FATBUFBLOCKS < fatlength fs →
  0 < part_blocks fs num ≤ FATBUFBLOCKS ∧
  num * FATBUFBLOCKS + part_blocks fs num ≤ fatlength fs ∧ fatlength fs < 2 ^ 31 ∧
  u32 (num * FATBUFBLOCKS) = num * FATBUFBLOCKS ∧
  (if fatlength fs <? u32 (num * FATBUFBLOCKS + FATBUFBLOCKS)
   then fatlength fs - num * FATBUFBLOCKS else FATBUFBLOCKS) = part_blocks fs num.
Proof.
  intros [Hc Hw Hs Hev Hsm (Hf0 & Hf1 & Hf2) Hin Htot Hpre Hlen] Hn0 Hn. unfold part_blocks, FATBUFBLOCKS in *.
  assert (Hfl : fatlength fs < 2 ^ 31) by (destruct (fats fs =? 2); lia).
  rewrite !wrap_small by lia. bools; lia.
Qed.

Lemma part_fits fs pre len num : fat_layout fs pre len → 0 ≤ num → num * FATBUFBLOCKS < fatlength fs →
  0 ≤ FATBUFBLOCKS * sect_size fs * num ∧ 0 < part_blocks fs num * sect_size fs ≤ FATBUFSIZE fs ∧
  FATBUFBLOCKS * sect_size fs * num + part_blocks fs num * sect_size fs ≤ len.
Proof.
  intros Hl Hn0 Hn. destruct (part_facts _ _ _ _ Hl Hn0 Hn) as (Hp1 & Hp2 & _).
  destruct Hl as [_ _ Hs _ _ _ _ _ _ ->]. pose proof bsize_pos. unfold FATBUFSIZE, FATBUFBLOCKS in *. nia.
Qed.

(** One copy of the table is written where it lies on the device. *)
Lemma write_part fs d pre F X post num block n buf : fat_layout fs pre (Z.of_nat (length F)) → dev_ok d →
  contents d = pre ++ X ++ F ++ post → 0 ≤ num → num * FATBUFBLOCKS < fatlength fs →
  Z.of_nat (length buf) = FATBUFSIZE fs → n = part_blocks fs num →
  block = num * FATBUFBLOCKS + fat_sect fs + Z.of_nat (length X) / sect_size fs →
  Z.of_nat (length X) / sect_size fs * sect_size fs = Z.of_nat (length X) →
  block + n ≤ total_sector g →
  ∃ d', disk_write g d block n buf = (n, d') ∧ dev_ok d' ∧
    contents d' = pre ++ X ++ overlay F (FATBUFBLOCKS * sect_size fs * num) (n * sect_size fs) buf ++ post.
Proof.
  intros Hl Hd Hcont Hn0 Hn Hbuf -> -> HX Htot.
  destruct (part_facts _ _ _ _ Hl Hn0 Hn) as (Hp1 & Hp2 & Hp3 & _ & _).
  destruct Hl as [Hc Hw Hs Hev Hsm (Hf0 & Hf1 & Hf2) Hin Htm Hpre Hlen]. unfold FATBUFSIZE, FATBUFBLOCKS in *.
  pose proof bsize_pos as Hpos. rewrite <-Hs in Hpos. set (ss := sect_size fs) in *.
  set (n := part_blocks fs num) in *. set (x := Z.of_nat (length X) / ss) in *.
  assert (Hx0 : 0 ≤ x) by (apply Z.div_pos; lia).
  assert (Hlenc : Z.of_nat (length (contents d)) =
    Z.of_nat (length pre) + x * ss + fatlength fs * ss + Z.of_nat (length post))
    by (rewrite Hcont, !length_app; lia).
  destruct (disk_write_spec d (num * 6 + fat_sect fs + x) n buf) as (d' & Hw' & Hd' & Hcont'); try done; try lia.
  - rewrite <-Hs. fold ss. nia.
  - rewrite <-Hs. fold ss. nia.
  - exists d'. split_and!; [done|done|]. rewrite Hcont', <-Hs, Hcont. fold ss.
    unfold overlay. rewrite app_assoc.
    replace (Z.to_nat ((part_start g + (num * 6 + fat_sect fs + x)) * ss))
      with (length (pre ++ X) + Z.to_nat (6 * ss * num))%nat by (rewrite length_app; nia).
    rewrite splice_app; [by rewrite <-app_assoc|]. rewrite length_take. nia.
Qed.

Lemma flush_spec fs d pre rest B F : fat_state fs d pre rest B F →
  ∃ d', flush_dirty_fat_buffer g fs d = (0, with_buffer fs (fatbuf fs) (fatbufnum fs) 0, d') ∧
    fat_state (with_buffer fs (fatbuf fs) (fatbufnum fs) 0) d' pre rest B B.
Proof.
  intros [Hl Hcont Hd Hbuf (HF & HB & Hfb) Hview]. unfold flush_dirty_fat_buffer.
  assert (Hsv : ∀ fs', same_volume fs fs' → fat_layout fs' pre (Z.of_nat (length F)))
    by (intros fs' Hsame; by apply (layout_same fs)).
  destruct (Z.eqb_spec (fat_dirty fs) 0) as [Hdirty|Hdirty]; cbn [orb].
  { exists d. assert (E : with_buffer fs (fatbuf fs) (fatbufnum fs) 0 = fs) by (destruct fs; cbn in *; by rewrite Hdirty).
    assert (B = F) as -> by (destruct Hview as [(_ & _ & ->)|(_ & _ & _ & HBF)]; [done|auto]).
    rewrite E. split; [done|]. by constructor. }
  destruct Hview as [(_ & H0 & _)|(Hn0 & Hn & HBv & _)]; [done|].
  rewrite (proj2 (Z.eqb_neq _ (-1))) by lia.
  destruct (part_facts _ _ _ _ Hl Hn0 Hn) as (Hp1 & Hp2 & Hp3 & -> & Hget).
  replace (if fatlength fs <? u32 (fatbufnum fs * FATBUFBLOCKS + FATBUFBLOCKS)
    then s32 (fatlength fs - fatbufnum fs * FATBUFBLOCKS) else FATBUFBLOCKS) with (part_blocks fs (fatbufnum fs)).
  2: { rewrite <-Hget. unfold FATBUFBLOCKS in *. bools; [|done]. by rewrite swrap_small by lia. }
  destruct (part_fits _ _ _ _ Hl Hn0 Hn) as (Hr0 & Hrl & Hfit). rewrite <-Hbuf in Hrl.
  change (FATBUFBLOCKS * sect_size fs * fatbufnum fs) with (part_start_byte fs) in Hr0, Hfit.
  set (n := part_blocks fs (fatbufnum fs)) in *. pose proof Hl as Hl'.
  destruct Hl as [Hc Hw Hs Hev Hsm (Hf0 & Hf1 & Hf2) Hin Htm Hpre Hlen]. unfold copies in Hcont.
  pose proof bsize_pos as Hpos. rewrite <-Hs in Hpos.
  assert (HlenB : length B = length F).
  { rewrite HBv. apply length_overlay; lia. }
  assert (Hdiv : Z.of_nat (length F) / sect_size fs = fatlength fs) by (rewrite Hlen; apply Z.div_mul; lia).
  assert (Hf : fat_sect fs + (if fats fs =? 2 then 2 else 1) * fatlength fs < 2 ^ 31) by lia.
  unfold FATBUFBLOCKS in *. rewrite !(wrap_small 32) by (destruct (fats fs =? 2); lia).
  destruct (write_part fs d pre F [] (if fats fs =? 2 then F ++ rest else rest) (fatbufnum fs)
    (fatbufnum fs * 6 + fat_sect fs) n (fatbuf fs)) as (d1 & Hw1 & Hd1 & Hc1); try done.
  { rewrite Hcont. cbn. by destruct (fats fs =? 2); [rewrite <-app_assoc|]. }
  { unfold FATBUFBLOCKS. cbn [length]. change (Z.of_nat 0) with 0. rewrite Zdiv_0_l. lia. }
  { destruct (fats fs =? 2); lia. }
  rewrite Hw1, (proj2 (Z.ltb_ge n 0)) by lia.
  assert (Hsame : same_volume fs (with_buffer fs (fatbuf fs) (fatbufnum fs) 0)) by (by eexists _, _, _).
  assert (HBB : overlay B (part_start_byte fs) (n * sect_size fs) (fatbuf fs) = B).
  { apply splice_id; [rewrite length_take; lia|]. rewrite HBv. unfold overlay.
    apply take_drop_splice. rewrite length_take. lia. }
  assert (Hview' : ∀ d', dev_ok d' → contents d' = pre ++ copies fs B ++ rest →
    fat_state (with_buffer fs (fatbuf fs) (fatbufnum fs) 0) d' pre rest B B).
  { intros d' Hd' Hc'. constructor; try done; [rewrite HlenB; by apply Hsv|].
    right. by split_and!; [| |exact (eq_sym HBB)|]. }
  change (FATBUFBLOCKS * sect_size fs * fatbufnum fs) with (part_start_byte fs) in Hc1. rewrite <-HBv in Hc1.
  unfold copies in Hview'. destruct (fats fs =? 2) eqn:E2.
  - destruct (write_part fs d1 pre F B rest (fatbufnum fs) (fatbufnum fs * 6 + fat_sect fs + fatlength fs) n (fatbuf fs))
      as (d2 & Hw2 & Hd2 & Hc2); try done.
    { rewrite HlenB, Hdiv. unfold FATBUFBLOCKS. lia. }
    { rewrite HlenB, Hdiv. lia. }
    { lia. }
    rewrite Hw2, (proj2 (Z.ltb_ge n 0)) by lia. exists d2. split; [done|]. apply Hview'; [done|].
    rewrite Hc2. change (FATBUFBLOCKS * sect_size fs * fatbufnum fs) with (part_start_byte fs). rewrite <-HBv.
    by rewrite <-app_assoc.
  - exists d1. split; [done|]. by apply Hview'.
Qed.

Lemma take_drop_middle (pre X post : list Z) (r n : nat) : (r + n ≤ length X)%nat →
  take n (drop (length pre + r) (pre ++ X ++ post)) = take n (drop r X).
Proof.
  intros Hr. rewrite drop_app_add, drop_app_le, take_app_le by (rewrite ?length_drop; lia). done.
Qed.

Lemma read_block_spec fs d pre rest B F num : fat_state fs d pre rest B F →
  0 ≤ num → num * FATBUFBLOCKS < fatlength fs →
  ∃ fs' d' F', read_block g fs d num = Some (None, fs', d') ∧ fat_state fs' d' pre rest B F' ∧
    fatbufnum fs' = num ∧ same_volume fs fs'.
Proof.
  intros Hst Hn0 Hn. unfold read_block. pose proof (fs_layout _ _ _ _ _ _ Hst) as Hl.
  destruct (part_facts _ _ _ _ Hl Hn0 Hn) as (Hp1 & Hp2 & Hp3 & Hblk & Hget).
  destruct (Z.eqb_spec num (u32 (fatbufnum fs))) as [E|E].
  { exists fs, d, F. split_and!; [done|done| |apply same_volume_refl].
    unfold FATBUFBLOCKS in *. destruct (fs_view _ _ _ _ _ _ Hst) as [(E1 & _)|(E1 & E2 & _)]; unfold FATBUFBLOCKS in *.
    - rewrite E1 in E. change (u32 (-1)) with (2 ^ 32 - 1) in E. lia.
    - rewrite wrap_small in E by lia. done. }
  rewrite !Hblk. replace (if fatlength fs <? u32 (num * FATBUFBLOCKS + FATBUFBLOCKS)
    then u32 (fatlength fs - num * FATBUFBLOCKS) else FATBUFBLOCKS) with (part_blocks fs num).
  2: { rewrite <-Hget. unfold FATBUFBLOCKS in *. bools; [|done]. by rewrite wrap_small by lia. }
  destruct (flush_spec fs d pre rest B F Hst) as (d1 & -> & Hst1). cbn [Z.ltb Z.compare].
  set (fs1 := with_buffer fs (fatbuf fs) (fatbufnum fs) 0) in *.
  destruct Hst1 as [Hl1 Hcont Hd1 Hbuf (HB & _ & Hfb) _].
  destruct (part_fits _ _ _ _ Hl1 Hn0 Hn) as (Hr0 & Hrl & Hfit). rewrite <-Hbuf in Hrl.
  pose proof Hl1 as [Hc _ Hs _ Hsm (Hf0 & Hf1 & Hf2) Hin Htm Hpre Hlen]. pose proof bsize_pos as Hpos.
  change (part_blocks fs1 num) with (part_blocks fs num) in *. change (fat_sect fs) with (fat_sect fs1).
  change (fatlength fs) with (fatlength fs1) in *.
  assert (Hin' : fat_sect fs1 + fatlength fs1 ≤ total_sector g) by (destruct (fats fs1 =? 2); lia).
  set (n := part_blocks fs num) in *. set (r := FATBUFBLOCKS * sect_size fs1 * num) in *.
  unfold FATBUFSIZE, FATBUFBLOCKS in *. rewrite wrap_small by lia.
  assert (Hlenc : Z.of_nat (length pre) + r + n * sect_size fs1 ≤ Z.of_nat (length (contents d1))).
  { clear -Hcont Hfit. rewrite Hcont, !length_app. unfold copies. destruct (fats fs1 =? 2); rewrite ?length_app; lia. }
  assert (Hoff : (part_start g + (num * 6 + fat_sect fs1)) * sect_size fs1 = Z.of_nat (length pre) + r)
    by (rewrite Hpre; unfold r; ring).
  destruct (disk_read_spec d1 (num * 6 + fat_sect fs1) n (fatbuf fs1)) as (d2 & -> & Hd2 & Hc2).
  1-6: first [done | lia].
  { rewrite <-Hs. clear -Hrl Hbuf Hsm. lia. }
  { rewrite <-Hs, Z.mul_add_distr_r, Hoff. exact Hlenc. }
  cbn [mbind option_bind]. rewrite (proj2 (Z.ltb_ge n 0)), swrap_small by lia.
  rewrite <-Hs, Hoff, Hcont.
  replace (Z.to_nat (Z.of_nat (length pre) + r)) with (length pre + Z.to_nat r)%nat by lia.
  assert (Hc0 : pre ++ copies fs1 B ++ rest = pre ++ B ++ (if fats fs1 =? 2 then B ++ rest else rest))
    by (unfold copies; destruct (fats fs1 =? 2); by rewrite <-?app_assoc).
  rewrite Hc0, take_drop_middle by lia.
  set (new := take _ _ ++ drop _ (fatbuf fs1)).
  assert (Hlent : length (take (Z.to_nat (n * sect_size fs1)) (drop (Z.to_nat r) B)) = Z.to_nat (n * sect_size fs1))
    by (rewrite length_take, length_drop; clear -Hr0 Hrl Hfit; lia).
  assert (Hnew : Z.of_nat (length new) = Z.of_nat (length (fatbuf fs1)))
    by (unfold new; rewrite length_app, Hlent, length_drop; clear -Hrl; lia).
  eexists _, d2, B. split; [done|]. split; [|by split; [|by eexists _, _, _]].
  constructor; try done.
  - apply (layout_same fs1); [by eexists _, _, _|done].
  - rewrite Hc2, Hcont. done.
  - cbn. rewrite Hnew. done.
  - cbn. split_and!; try done. unfold new. apply Forall_app. split; [by apply Forall_take, Forall_drop|by apply Forall_drop].
  - right. cbn. split_and!; try done. unfold overlay.
    change (part_blocks (with_buffer fs1 new num 0) num) with n. unfold part_start_byte. cbn.
    change (6 * sect_size fs * num) with r. change (sect_size fs) with (sect_size fs1).
    replace (take (Z.to_nat (n * sect_size fs1)) new) with (take (Z.to_nat (n * sect_size fs1)) (drop (Z.to_nat r) B)).
    + rewrite splice_same; [done|]. clear -Hr0 Hrl Hfit. lia.
    + unfold new. by rewrite take_app_length' by (symmetry; exact Hlent).
Qed.

(** The position of an entry. *)
Lemma fat_position_spec fs pre len e : fat_layout fs pre len → 0 ≤ e < entries_in (fatsize fs) len →
  ∃ num off, fat_position fs e = Some (num, off) ∧ 0 ≤ num ∧ num * FATBUFBLOCKS < fatlength fs ∧
    0 ≤ off < entries_in (fatsize fs) (FATBUFSIZE fs) ∧
    (fatsize fs = 12 → Z.odd off = Z.odd e) ∧
    spot (fatsize fs) e = FATBUFBLOCKS * sect_size fs * num + spot (fatsize fs) off ∧
    spot (fatsize fs) off + spots (fatsize fs) ≤ part_blocks fs num * sect_size fs.
Proof.
  intros [Hc Hw Hs Hev Hsm (Hf0 & Hf1 & Hf2) Hin Htm Hpre Hlen] He.
  pose proof (spot_inside _ _ _ Hw He) as [_ Hspot]. pose proof bsize_pos as Hpos. rewrite <-Hs in Hpos.
  apply Z.even_spec in Hev as [h Hh]. assert (Hh0 : 0 < h) by lia.
  assert (Hmain : ∀ K, 0 < K < 2 ^ 32 →
    let num := e / K in let off := e mod K in
    spot (fatsize fs) e = 12 * (h * num) + spot (fatsize fs) off →
    spot (fatsize fs) off + spots (fatsize fs) ≤ 12 * h →
    0 ≤ num ∧ num * FATBUFBLOCKS < fatlength fs ∧ u32 (e - num * K) = off ∧
    spot (fatsize fs) off + spots (fatsize fs) ≤ part_blocks fs num * sect_size fs).
  { intros K HK num off Hsp Hfit. pose proof (Z.mod_pos_bound e K) as Ho. pose proof (Z.div_mod e K) as Hdm.
    assert (Hn0 : 0 ≤ num) by (apply Z.div_pos; lia).
    assert (Hoff0 : 0 < spots (fatsize fs) ∧ 0 ≤ spot (fatsize fs) off).
    { assert (0 ≤ off) by (unfold off; lia). unfold spot, spots. widths Hw; split; divs. }
    assert (Hlt : h * (num * 6) < h * fatlength fs) by lia. apply Z.mul_lt_mono_pos_l in Hlt; [|done].
    split_and!; [done|done| |].
    - replace (e - num * K) with off by (unfold off; rewrite Z.mod_eq by lia; fold num; lia).
      apply wrap_small. unfold off. lia.
    - unfold part_blocks, FATBUFBLOCKS. rewrite Hh, <-Z.mul_min_distr_nonneg_r by lia. apply Z.min_glb; lia. }
  assert (Hat : ∃ K, fat_position fs e = Some (e / K, u32 (e - e / K * K)) ∧ 0 < K < 2 ^ 32 ∧
    spot (fatsize fs) e = 12 * (h * (e / K)) + spot (fatsize fs) (e mod K) ∧
    spot (fatsize fs) (e mod K) + spots (fatsize fs) ≤ 12 * h ∧
    e mod K < entries_in (fatsize fs) (FATBUFSIZE fs) ∧ (fatsize fs = 12 → Z.odd (e mod K) = Z.odd e)).
  { unfold fat_position, FAT32BUFSIZE, FAT16BUFSIZE, FAT12BUFSIZE, FATBUFSIZE, FATBUFBLOCKS, spot, spots, entries_in.
    rewrite Hh. replace (2 * h * 6 * 2 / 3) with (8 * h) by divs. replace (2 * h * 6 / 2) with (6 * h) by divs.
    replace (2 * h * 6 / 4) with (3 * h) by divs.
    widths Hw; [exists (8 * h)|exists (6 * h)|exists (3 * h)]; (split; [done|]);
      match goal with |- 0 < ?K < _ ∧ _ => pose proof (Z.mod_pos_bound e K) as Ho; pose proof (Z.div_mod e K) as Hdm;
        set (q := e / K) in *; set (o := e mod K) in * end; (split; [lia|]); split_and!; try done; try divs.
    intros _. rewrite Hdm, Z.odd_add, !Z.odd_mul by lia. done. }
  destruct Hat as (K & Hpos' & HK & Hsp & Hfit & Hoff & Hodd).
  destruct (Hmain K HK Hsp Hfit) as (Hn0 & Hn & Ho & Hb). rewrite Ho in Hpos'.
  exists (e / K), (e mod K). split; [done|]. split_and!; try done; try (apply Z.mod_pos_bound; lia).
  rewrite Hsp. unfold FATBUFBLOCKS. rewrite Hh. lia.
Qed.

Lemma state_overlay fs d pre rest B F : fat_state fs d pre rest B F → 0 ≤ fatbufnum fs →
  let r := part_start_byte fs in
  let rl := part_blocks fs (fatbufnum fs) * sect_size fs in
  B = overlay F r rl (fatbuf fs) ∧ 0 ≤ r ∧ 0 ≤ rl ≤ Z.of_nat (length (fatbuf fs)) ∧
  r + rl ≤ Z.of_nat (length F) ∧ length B = length F.
Proof.
  intros [Hl _ _ Hbuf _ Hview] Hn0 r rl. destruct Hview as [(E & _)|(_ & Hn & HB & _)]; [lia|].
  destruct (part_fits _ _ _ _ Hl Hn0 Hn) as (Hr0 & Hrl & Hfit). rewrite <-Hbuf in Hrl.
  assert (Hov : length (overlay F r rl (fatbuf fs)) = length F) by (apply length_overlay; [done|unfold rl; lia|done]).
  split_and!; try done; unfold rl; try lia. by rewrite HB.
Qed.

Lemma state_length fs d pre rest B F : fat_state fs d pre rest B F → length B = length F.
Proof.
  intros Hst. destruct (fs_view _ _ _ _ _ _ Hst) as [(_ & _ & ->)|(Hn0 & _)]; [done|].
  by apply (state_overlay _ _ _ _ _ _ Hst Hn0).
Qed.

Lemma get_fatent_spec fs d pre rest B F e : fat_state fs d pre rest B F →
  0 ≤ e < entries_in (fatsize fs) (Z.of_nat (length B)) → CHECK_CLUST e (fatsize fs) = false →
  ∃ fs' d' F', get_fatent g fs d e = Some (entry (fatsize fs) B e, fs', d') ∧
    fat_state fs' d' pre rest B F' ∧ same_volume fs fs'.
Proof.
  intros Hst He Hck. unfold get_fatent. rewrite Hck. rewrite (state_length _ _ _ _ _ _ Hst) in He.
  pose proof (fs_layout _ _ _ _ _ _ Hst) as Hl.
  destruct (fat_position_spec _ _ _ _ Hl He) as (num & off & -> & Hn0 & Hn & Hoff & Hodd & Hspot & Hfit).
  destruct (read_block_spec fs d pre rest B F num Hst Hn0 Hn) as (fs' & d' & F' & -> & Hst' & Hnum & Hsame).
  cbn [mbind option_bind]. exists fs', d', F'. split; [|done].
  pose proof Hst' as [Hl' Hc' Hd' Hbuf' (HF' & HB' & Hfb') Hview'].
  destruct Hsame as (buf & k & dirty & ->). cbn [fatbufnum with_buffer] in Hnum. subst k.
  destruct (state_overlay _ _ _ _ _ _ Hst') as (Hov & Hr0 & Hrl & Hrf & _); [done|].
  pose proof (fl_width _ _ _ Hl) as Hw.
  rewrite buf_entry_spec; [|done|done|rewrite Hbuf'; exact Hoff]. cbn [mbind option_bind fatsize with_buffer].
  do 3 f_equal. apply entry_agree; [done|exact Hodd|]. intros i Hi.
  rewrite Hov, Hspot, <-Z.add_assoc. symmetry.
  apply byte_overlay; [exact Hr0|exact Hrl|exact Hrf|]. cbn in Hfit |- *.
  pose proof (spot_inside _ _ _ Hw Hoff). change (part_blocks _ num) with (part_blocks fs num). lia.
Qed.

Lemma set_fatent_spec fs d pre rest B F e v : fat_state fs d pre rest B F →
  0 ≤ e < entries_in (fatsize fs) (Z.of_nat (length B)) → 0 ≤ v →
  ∃ fs' d' F', set_fatent_value g fs d e v = Some (0, fs', d') ∧
    fat_state fs' d' pre rest (put (fatsize fs) B e v) F' ∧ same_volume fs fs'.
Proof.
  intros Hst He Hv. unfold set_fatent_value. rewrite (state_length _ _ _ _ _ _ Hst) in He.
  pose proof (fs_layout _ _ _ _ _ _ Hst) as Hl.
  destruct (fat_position_spec _ _ _ _ Hl He) as (num & off & -> & Hn0 & Hn & Hoff & Hodd & Hspot & Hfit).
  destruct (read_block_spec fs d pre rest B F num Hst Hn0 Hn) as (fs' & d' & F' & -> & Hst' & Hnum & Hsame).
  cbn [mbind option_bind]. pose proof Hst' as [Hl' Hc' Hd' Hbuf' (HF' & HB' & Hfb') Hview'].
  destruct Hsame as (buf & k & dirty & ->). cbn [fatbufnum with_buffer] in Hnum. subst k.
  destruct (state_overlay _ _ _ _ _ _ Hst') as (Hov & Hr0 & Hrl & Hrf & _); [done|].
  pose proof (fl_width _ _ _ Hl) as Hw. pose proof (spot_inside _ _ _ Hw Hoff) as Hin.
  assert (Hev : Z.even (FATBUFSIZE fs) = true) by (unfold FATBUFSIZE; by rewrite Z.even_mul, (fl_even _ _ _ Hl)).
  rewrite buf_set_entry_spec; [|done|done|rewrite Hbuf'; exact Hev|done|rewrite Hbuf'; exact Hoff].
  cbn [mbind option_bind fatsize with_buffer]. eexists _, d', F'. split; [done|]. split; [|by eexists _, _, _].
  constructor; try done.
  - eapply layout_same; [|exact Hl']. by eexists _, _, _.
  - cbn. by rewrite length_put.
  - cbn. split_and!; [done|by apply put_range|by apply put_range].
  - right. cbn. split_and!; [done|exact Hn| |done]. rewrite Hov.
    cbn [fatbuf with_buffer] in *. symmetry.
    apply overlay_put; [done|exact Hr0|exact Hrl|exact Hrf|exact Hodd|exact Hspot|lia|exact Hfit].
Qed.
End volume.

(** ** The table as an array of entries *)

Inductive fat_request := Get (e : Z) | Put (e v : Z) | Flush.

Definition table_step (w : Z) (T : list Z) (r : fat_request) : Z * list Z :=
  match r with
  | Get e => (if CHECK_CLUST e w then 0 else default 0 (T !! Z.to_nat e), T)
  | Put e v => (0, <[Z.to_nat e := v mod 2 ^ w]> T)
  | Flush => (0, T)
  end.

Fixpoint table_run (w : Z) (T : list Z) (rs : list fat_request) : list Z * list Z :=
  match rs with
  | [] => ([], T)
  | r :: rs =>
      let '(a, T) := table_step w T r in
      let '(l, T) := table_run w T rs in (a :: l, T)
  end.

(** The clusters asked for are in the table, or no clusters at all. *)
Definition request_in (w len : Z) (r : fat_request) : Prop :=
  match r with
  | Get e => CHECK_CLUST e w = true ∨ 0 ≤ e < len
  | Put e v => 0 ≤ e < len ∧ 0 ≤ v < 2 ^ 32
  | Flush => True
  end.

Section refinement.
Context {HBD : BlockDev} (g : fat_globals).

Definition fat_step (fs : fsdata) (d : dev) (r : fat_request) : option (Z * fsdata * dev) :=
  match r with
  | Get e => get_fatent g fs d e
  | Put e v => set_fatent_value g fs d e v
  | Flush => Some (flush_dirty_fat_buffer g fs d)
  end.

Fixpoint fat_run (fs : fsdata) (d : dev) (rs : list fat_request) : option (list Z * fsdata * dev) :=
  match rs with
  | [] => Some ([], fs, d)
  | r :: rs =>
      '(a, fs, d) ← fat_step fs d r;
      '(l, fs, d) ← fat_run fs d rs;
      Some (a :: l, fs, d)
  end.

(** The entries [T] are those that the program sees. *)
Definition fat_table (fs : fsdata) (d : dev) (pre rest T : list Z) : Prop :=
  ∃ B F, fat_state g fs d pre rest B F ∧ T = table_of (fatsize fs) B.

Context {HDW : DevWorks}.

Lemma entries_nonneg fs d pre rest B F : fat_state g fs d pre rest B F →
  0 ≤ entries_in (fatsize fs) (Z.of_nat (length B)).
Proof.
  intros Hst. pose proof (fl_width _ _ _ _ (fs_layout _ _ _ _ _ _ _ Hst)) as Hw.
  unfold entries_in. widths Hw; divs.
Qed.

Lemma table_get fs d pre rest T e v : fat_table fs d pre rest T →
  CHECK_CLUST e (fatsize fs) = false → T !! Z.to_nat e = Some v →
  ∃ fs' d', get_fatent g fs d e = Some (v, fs', d') ∧ fat_table fs' d' pre rest T ∧ same_volume fs fs'.
Proof.
  intros (B & F & Hst & ->) Hck Hv. pose proof (entries_nonneg _ _ _ _ _ _ Hst) as Hn.
  assert (0 ≤ e) by (unfold CHECK_CLUST in Hck; destruct (Z.leb_spec e 1); [done|lia]).
  pose proof (lookup_lt_Some _ _ _ Hv) as Hlt.
  assert (He : 0 ≤ e < entries_in (fatsize fs) (Z.of_nat (length B)))
    by (rewrite <-length_table_of by done; lia).
  rewrite table_of_lookup in Hv by done. injection Hv as <-.
  destruct (get_fatent_spec g fs d pre rest B F e Hst He Hck) as (fs' & d' & F' & -> & Hst' & Hsame).
  exists fs', d'. split; [done|]. split; [|done]. exists B, F'. split; [done|].
  by destruct Hsame as (? & ? & ? & ->).
Qed.

Lemma table_set fs d pre rest T e v : fat_table fs d pre rest T →
  0 ≤ e < Z.of_nat (length T) → 0 ≤ v →
  ∃ fs' d', set_fatent_value g fs d e v = Some (0, fs', d') ∧
    fat_table fs' d' pre rest (<[Z.to_nat e := v mod 2 ^ fatsize fs]> T) ∧ same_volume fs fs'.
Proof.
  intros (B & F & Hst & ->) He Hv. pose proof (entries_nonneg _ _ _ _ _ _ Hst) as Hn.
  rewrite length_table_of in He by done.
  destruct (set_fatent_spec g fs d pre rest B F e v Hst He Hv) as (fs' & d' & F' & -> & Hst' & Hsame).
  exists fs', d'. split; [done|]. split; [|done]. exists (put (fatsize fs) B e v), F'. split; [done|].
  destruct Hsame as (? & ? & ? & ->). cbn. symmetry. apply table_put; [| |done].
  - apply (fl_width _ _ _ _ (fs_layout _ _ _ _ _ _ _ Hst)).
  - apply (fs_bytes _ _ _ _ _ _ _ Hst).
Qed.

Lemma table_flush fs d pre rest T : fat_table fs d pre rest T →
  ∃ fs' d' B, flush_dirty_fat_buffer g fs d = (0, fs', d') ∧ fat_table fs' d' pre rest T ∧
    same_volume fs fs' ∧ fat_dirty fs' = 0 ∧ contents d' = pre ++ copies fs B ++ rest ∧
    T = table_of (fatsize fs) B.
Proof.
  intros (B & F & Hst & ->). destruct (flush_spec g fs d pre rest B F Hst) as (d' & -> & Hst').
  eexists _, d', B. split; [done|]. split; [by exists B, B|]. split; [by eexists _, _, _|].
  split; [done|]. split; [|done]. apply (fs_contents _ _ _ _ _ _ _ Hst').
Qed.

Lemma table_check fs d e : CHECK_CLUST e (fatsize fs) = true → get_fatent g fs d e = Some (0, fs, d).
Proof. intros Hck. unfold get_fatent. by rewrite Hck. Qed.

Lemma fat_step_spec fs d pre rest T r : fat_table fs d pre rest T →
  request_in (fatsize fs) (Z.of_nat (length T)) r →
  ∃ fs' d', fat_step fs d r = Some ((table_step (fatsize fs) T r).1, fs', d') ∧
    fat_table fs' d' pre rest (table_step (fatsize fs) T r).2 ∧ same_volume fs fs'.
Proof.
  intros HT Hr. destruct r as [e|e v|]; cbn in *.
  - destruct (CHECK_CLUST e (fatsize fs)) eqn:Hck.
    + exists fs, d. rewrite table_check by done. split_and!; [done|done|apply same_volume_refl].
    + destruct Hr as [|He]; [done|]. destruct (lookup_lt_is_Some_2 T (Z.to_nat e)) as [v Hv]; [lia|].
      rewrite Hv. cbn. by apply table_get.
  - destruct Hr as [He Hv]. by apply table_set; [| |lia].
  - destruct (table_flush fs d pre rest T HT) as (fs' & d' & B & -> & HT' & Hsame & _). by exists fs', d'.
Qed.
End refinement.

(** C15. Refinement: through its buffer the allocation table behaves as an
    array of entries of 12, 16 or 32 bits. Any sequence of reads, writes and
    flushes gives the answers of the array, where a number that is no cluster
    reads as 0 and a written value is cut to the width; a write changes no
    other entry, the rest of the device stays as it is, and after a flush the
    table on the device holds the entries, and so does the second table of a
    volume with exactly two (the code writes a second one only then). *)
Theorem fat_table_refines `{!BlockDev, !DevWorks} g fs d pre rest T rs :
  fat_table g fs d pre rest T → Forall (request_in (fatsize fs) (Z.of_nat (length T))) rs →
  ∃ fs' d', fat_run g fs d rs = Some ((table_run (fatsize fs) T rs).1, fs', d') ∧
    fat_table g fs' d' pre rest (table_run (fatsize fs) T rs).2 ∧
    ∃ fs'' d'' B, flush_dirty_fat_buffer g fs' d' = (0, fs'', d'') ∧
      contents d'' = pre ++ copies fs B ++ rest ∧
      table_of (fatsize fs) B = (table_run (fatsize fs) T rs).2.
Proof.
  intros HT Hrs. assert (Hrun : ∃ fs' d', fat_run g fs d rs = Some ((table_run (fatsize fs) T rs).1, fs', d') ∧
    fat_table g fs' d' pre rest (table_run (fatsize fs) T rs).2 ∧ same_volume fs fs').
  { revert fs d T HT Hrs. induction rs as [|r rs IH]; intros fs d T HT Hrs.
    { exists fs, d. split_and!; [done|done|apply same_volume_refl]. }
    inversion Hrs as [|? ? Hr Hrs']; subst. cbn [fat_run table_run].
    destruct (fat_step_spec g fs d pre rest T r HT Hr) as (fs1 & d1 & -> & HT1 & Hs1). cbn [mbind option_bind].
    destruct (table_step (fatsize fs) T r) as [a T1] eqn:Et. cbn [fst snd] in HT1 |- *.
    assert (Hlen : length T1 = length T).
    { destruct r; cbn in Et; injection Et as <- <-; [done|apply length_insert|done]. }
    assert (Hsz : fatsize fs1 = fatsize fs) by (by destruct Hs1 as (? & ? & ? & ->)).
    rewrite <-Hlen, <-Hsz in Hrs'. destruct (IH fs1 d1 T1 HT1 Hrs') as (fs2 & d2 & -> & HT2 & Hs2).
    cbn [mbind option_bind]. rewrite Hsz in HT2 |- *. destruct (table_run (fatsize fs) T1 rs) as [l T2].
    exists fs2, d2. split_and!; [done|done|by eapply same_volume_trans]. }
  destruct Hrun as (fs' & d' & -> & HT' & Hsame). exists fs', d'. split; [done|]. split; [done|].
  destruct (table_flush g fs' d' pre rest _ HT') as (fs'' & d'' & B & Hfl & _ & _ & _ & Hc & HB).
  destruct Hsame as (? & ? & ? & ->). by exists fs'', d'', B.
Qed.

(** ** Examples *)

(** A volume of 30 sectors of 4 bytes after one other sector: two tables of 8
    sectors, 21 entries of 12 bits. *)
Definition small : fsdata :=
  {| fatbuf := replicate 24 0; fatsize := 12; fatlength := 8; fat_sect := 1; fat_dirty := 0;
     rootdir_sect := 17; sect_size := 4; clust_size := 1; data_begin := 16; fatbufnum := -1;
     rootdir_size := 1; root_cluster := 0; total_sect := 30; fats := 2 |}.

Definition small_globals : fat_globals := {| cur_dev := true; part_start := 1; total_sector := 30 |}.
Definition four_pos : 0 < 4 := eq_refl.
Definition small_dev : BlockDev := ramdisk 4 four_pos.
Definition small_disk : list Z := replicate 124 0.

Lemma small_table : @fat_table small_dev small_globals small small_disk (replicate 8 0) (replicate 52 0) (replicate 21 0).
Proof.
  exists (replicate 32 0), (replicate 32 0). split; [|reflexivity]. split.
  - split; try done; cbn; try lia. by left.
  - reflexivity.
  - exact I.
  - reflexivity.
  - split_and!; exact (Forall_replicate is_byte _ 0 (conj (Z.le_refl 0) (eq_refl : 0 < 256))) .
  - by left.
Qed.

Definition small_requests : list fat_request := [Put 3 0x123; Put 17 0xabc; Get 3; Flush; Get 17; Get 16; Get 1].

Lemma fat_table_refines_witness :
  ∃ fs' d', @fat_run small_dev small_globals small small_disk small_requests =
      Some ((table_run 12 (replicate 21 0) small_requests).1, fs', d') ∧
    @fat_table small_dev small_globals fs' d' (replicate 8 0) (replicate 52 0)
      (table_run 12 (replicate 21 0) small_requests).2 ∧
    ∃ fs'' d'' B, @flush_dirty_fat_buffer small_dev small_globals fs' d' = (0, fs'', d'') ∧
      @contents small_dev d'' = replicate 8 0 ++ copies small B ++ replicate 52 0 ∧
      table_of 12 B = (table_run 12 (replicate 21 0) small_requests).2.
Proof.
  apply (@fat_table_refines small_dev (ramdisk_works 4 four_pos) small_globals small small_disk
    (replicate 8 0) (replicate 52 0) (replicate 21 0) small_requests small_table).
  repeat constructor; cbn; try lia; by left.
Defined.

Example small_answers :
  (r ← @fat_run small_dev small_globals small small_disk small_requests; Some r.1.1) =
  Some [0; 0; 0x123; 0; 0xabc; 0; 0].
Proof. vm_compute. reflexivity. Qed.

(** A disk whose sectors from the ninth on cannot be read; the driver has
    overwritten the buffer when it gives up. *)
Definition worn_read (m : list Z) (s n : Z) (buf : list Z) : option (Z * list Z * list Z) :=
  if s + n <=? 8 then ramdisk_read 4 m s n buf else Some (n - 1, replicate (length buf) 255, m).

Lemma worn_read_ok m s n buf : True → 0 ≤ s → 0 ≤ n → s + n < 2 ^ 32 →
  n * 4 ≤ Z.of_nat (length buf) < 2 ^ 32 →
  ∃ r buf' m', worn_read m s n buf = Some (r, buf', m') ∧ True ∧ m' = m ∧
    (r = n → buf' = take (Z.to_nat (n * 4)) (drop (Z.to_nat (s * 4)) m) ++ drop (Z.to_nat (n * 4)) buf).
Proof.
  intros _ Hs Hn Hsn Hbuf. unfold worn_read. destruct (s + n <=? 8); [by apply ramdisk_read_ok|].
  eexists _, _, _. split; [done|]. split_and!; [done|done|lia].
Qed.

Definition worn_dev : BlockDev := {|
  dev := list Z; bsize := 4; contents := λ m, m; dev_ok := λ _, True;
  dread := worn_read; dwrite := ramdisk_write 4; bsize_pos := four_pos;
  dread_ok := worn_read_ok; dwrite_ok := ramdisk_write_ok 4
|}.

(** A failed read leaves what the driver put into the buffer there, under the
    number of the block that was in it before: entry 3, which is 0, reads as 0
    first and as 0xfff after entry 17 could not be read. *)
Example get_fatent_stale :
  (r ← @fat_run worn_dev small_globals small small_disk [Get 3; Get 17; Get 3]; Some r.1.1) =
  Some [0; 0; 0xfff].
Proof. vm_compute. reflexivity. Qed.

(** Without a device, or when the buffer cannot be written back, [get_fatent]
    returns -1, not the 0 that its comment promises. *)
Example get_fatent_write_error :
  let fs := with_buffer small (replicate 24 0) 0 1 in
  (r ← @get_fatent small_dev {| cur_dev := true; part_start := 1; total_sector := 2 |} fs small_disk 17;
   Some r.1.1) = Some (2 ^ 32 - 1).
Proof. vm_compute. reflexivity. Qed.
