(* ===== verification/FatFile.v ===== *)
(** * FatFile: reading the files of a FAT volume (fs/fat/fat.c)

    The clusters of a file are read along its chain in the allocation table,
    each run of consecutive ones at once.  A buffer of the caller is its address, which the code
    tests for alignment, and its bytes; a copy outside of it has no result.
    Buffers on the stack and from [malloc] start with zeros: the code uses them
    only after it has filled them.  A [loff_t] is an integer; the values here
    are far below 2^63. *)

From Stdlib Require Import ZArith Lia List.
From stdpp Require Import base numbers list option.
From S2P Require Import Prelude BlockDev FatTable.

Definition ARCH_DMA_MINALIGN : Z := 64.
Definition ENOMEM : Z := 12.

Record dir_entry := {
  name : list Z; ext : list Z; attr : Z; lcase : Z; ctime_ms : Z; ctime : Z; cdate : Z; adate : Z;
  starthi : Z; dtime : Z; date : Z; start : Z; dsize : Z
}.

Definition START (fs : fsdata) (dent : dir_entry) : Z :=
  u32 (start dent + (if negb (fatsize fs =? 32) then 0 else Z.shiftl (starthi dent) 16)).

Definition set_start_cluster (fs : fsdata) (dent : dir_entry) (start_cluster : Z) : dir_entry :=
  {| name := name dent; ext := ext dent; attr := attr dent; lcase := lcase dent;
     ctime_ms := ctime_ms dent; ctime := ctime dent; cdate := cdate dent; adate := adate dent;
     starthi := if fatsize fs =? 32 then u16 (Z.shiftr (Z.land start_cluster 0xffff0000) 16) else starthi dent;
     dtime := dtime dent; date := date dent;
     start := u16 (Z.land start_cluster 0xffff); dsize := dsize dent |}.

Definition clust_to_sect (fs : fsdata) (clust : Z) : Z := u32 (data_begin fs + clust * clust_size fs).
Definition bytesperclust (fs : fsdata) : Z := clust_size fs * sect_size fs.

Definition misaligned (addr : Z) : bool := negb (Z.land (u32 addr) (ARCH_DMA_MINALIGN - 1) =? 0).

(** Copies to and from position [off] of a buffer. *)
Definition store_at (area : list Z) (off : Z) (bytes : list Z) : option (list Z) :=
  if (0 <=? off) && (off + Z.of_nat (length bytes) <=? Z.of_nat (length area))
  then Some (splice area (Z.to_nat off) bytes) else None.

Definition load_at (data : list Z) (off n : Z) : option (list Z) :=
  if (0 <=? off) && (0 <=? n) && (off + n <=? Z.of_nat (length data))
  then Some (take (Z.to_nat n) (drop (Z.to_nat off) data)) else None.

Definition zero_buf (n : Z) : list Z := replicate (Z.to_nat n) 0.

Section operations.
Context {HBD : BlockDev} (g : fat_globals).
Implicit Types (fs : fsdata) (d : dev) (area data : list Z).

(** ** Reading *)

(** [size] bytes of the cluster to position [off] of the buffer. *)
Definition get_cluster fs d (clustnum addr : Z) area (off size : Z) : option (Z * list Z * dev) :=
  let ss := sect_size fs in
  let startsect := if 0 <? clustnum then clust_to_sect fs clustnum else rootdir_sect fs in
  r ← (if misaligned (addr + off) then
         loop (S (Z.to_nat size)) (λ '(d, area, off, startsect, size),
           if ss <=? size then
             '(ret, tmpbuf, d) ← disk_read g d startsect 1 (zero_buf ss);
             if negb (ret =? 1) then Some (Return (area, d))
             else
               area ← store_at area off tmpbuf;
               Some (Next (d, area, off + ss, u32 (startsect + 1), size - ss))
           else Some (Break (d, area, off, startsect, size)))
         (d, area, off, startsect, size)
       else
         let idx := size / ss in
         '(ret, buf, d) ← disk_read g d startsect idx (drop (Z.to_nat off) area);
         let area := take (Z.to_nat off) area ++ buf in
         Some (if negb (u32 ret =? idx) then inr (area, d)
               else inl (d, area, off + idx * ss, u32 (startsect + idx), size - idx * ss)));
  match r with
  | inr (area, d) => Some (-1, area, d)
  | inl (d, area, off, startsect, size) =>
      if size =? 0 then Some (0, area, d)
      else
        '(ret, tmpbuf, d) ← disk_read g d startsect 1 (zero_buf ss);
        if negb (ret =? 1) then Some (-1, area, d)
        else
          bytes ← load_at tmpbuf 0 size;
          area ← store_at area off bytes;
          Some (0, area, d)
  end.

(** How the search for consecutive clusters ends. *)
Inductive run_end :=
| EndOfFile (fs : fsdata) (d : dev) (endclust : Z)
| Elsewhere (fs : fsdata) (d : dev) (endclust actsize newclust : Z)
| Invalid (fs : fsdata) (d : dev).

(** [next] gives the cluster after another one. *)
Definition consecutive (next : fsdata → dev → Z → option (Z * fsdata * dev))
    fs d (curclust filesize : Z) : option run_end :=
  let bpc := bytesperclust fs in
  o ← loop (S (S (Z.to_nat (filesize / bpc)))) (λ '(fs, d, endclust, actsize),
      if actsize <? filesize then
        '(newclust, fs, d) ← next fs d endclust;
        if negb (u32 (newclust - 1) =? endclust) then Some (Return (Elsewhere fs d endclust actsize newclust))
        else if CHECK_CLUST newclust (fatsize fs) then Some (Return (Invalid fs d))
        else Some (Next (fs, d, newclust, actsize + bpc))
      else Some (Break (fs, d, endclust, actsize)))
    (fs, d, curclust, bpc);
  Some (match o with inl (fs, d, endclust, _) => EndOfFile fs d endclust | inr e => e end).

(** The result is the returned value, [*gotsize], the buffer and the state. *)
Abbreviation outcome := (Z * Z * list Z * fsdata * dev)%type.

(** The clusters from [curclust] on, one run of consecutive ones after the
    other. *)
Definition get_runs fs d (curclust filesize addr : Z) area (off gotsize : Z) : option outcome :=
  let bpc := bytesperclust fs in
  o ← loop (S (S (Z.to_nat (filesize / bpc)))) (λ '(fs, d, curclust, filesize, area, off, gotsize),
      e ← consecutive (get_fatent g) fs d curclust filesize;
      match e with
      | Invalid fs d => Some (Return (0, gotsize, area, fs, d))
      | EndOfFile fs d _ =>
          '(ret, area, d) ← get_cluster fs d curclust addr area off (u32 filesize);
          Some (Return (if negb (ret =? 0) then (-1, gotsize, area, fs, d)
                        else (0, gotsize + filesize, area, fs, d)))
      | Elsewhere fs d endclust actsize _ =>
          '(ret, area, d) ← get_cluster fs d curclust addr area off (u32 actsize);
          if negb (ret =? 0) then Some (Return (-1, gotsize, area, fs, d))
          else
            '(curclust, fs, d) ← get_fatent g fs d endclust;
            let gotsize := gotsize + s32 actsize in
            if CHECK_CLUST curclust (fatsize fs) then Some (Return (0, gotsize, area, fs, d))
            else Some (Next (fs, d, curclust, filesize - actsize, area, off + actsize, gotsize))
      end)
    (fs, d, curclust, filesize, area, off, gotsize);
  match o with inl _ => None | inr r => Some r end.

(** [tmp_mem] tells whether the buffer for a first part can be allocated. *)
Definition get_contents (tmp_mem : bool) fs d (dentptr : dir_entry) (pos addr : Z) area (maxsize : Z)
    : option outcome :=
  let filesize := dsize dentptr in
  let bpc := bytesperclust fs in
  if filesize <=? pos then Some (0, 0, area, fs, d)
  else
    let filesize := if (0 <? maxsize) && (pos + maxsize <? filesize) then pos + maxsize else filesize in
    o ← loop (S (S (Z.to_nat (pos / bpc)))) (λ '(fs, d, curclust, actsize),
        if actsize <=? pos then
          '(curclust, fs, d) ← get_fatent g fs d curclust;
          if CHECK_CLUST curclust (fatsize fs) then Some (Return (0, 0, area, fs, d))
          else Some (Next (fs, d, curclust, actsize + bpc))
        else Some (Break (fs, d, curclust, actsize)))
      (fs, d, START fs dentptr, bpc);
    match o with
    | inr r => Some r
    | inl (fs, d, curclust, actsize) =>
        let actsize := actsize - bpc in
        let filesize := filesize - actsize in
        let pos := pos - actsize in
        if pos =? 0 then get_runs fs d curclust filesize addr area 0 0
        else
          let actsize := Z.min filesize bpc in
          if negb tmp_mem then Some (- ENOMEM, 0, area, fs, d)
          else
            '(ret, tmp_buffer, d) ← get_cluster fs d curclust 0 (zero_buf actsize) 0 actsize;
            if negb (ret =? 0) then Some (-1, 0, area, fs, d)
            else
              let filesize := filesize - actsize in
              let actsize := actsize - pos in
              bytes ← load_at tmp_buffer pos actsize;
              area ← store_at area 0 bytes;
              if filesize =? 0 then Some (0, actsize, area, fs, d)
              else
                '(curclust, fs, d) ← get_fatent g fs d curclust;
                if CHECK_CLUST curclust (fatsize fs) then Some (0, actsize, area, fs, d)
                else get_runs fs d curclust filesize addr area actsize actsize
    end.
End operations.

(** ** Pieces of lists *)

Section lists.
Context {A : Type}.
Implicit Types (l x y : list A) (o n m : nat).

Lemma splice_extend l o x y : (o + length x + length y ≤ length l)%nat →
  splice (splice l o x) (o + length x) y = splice l o (x ++ y).
Proof.
  intros H. apply list_eq. intros i.
  destruct (decide (o + length x ≤ i < o + length x + length y)%nat).
  - rewrite splice_lookup_new, splice_lookup_new by (rewrite ?length_splice, ?length_app; lia).
    rewrite lookup_app_r by lia. f_equal. lia.
  - rewrite splice_lookup_old by (rewrite ?length_splice; lia).
    destruct (decide (o ≤ i < o + length x)%nat).
    + rewrite !splice_lookup_new by (rewrite ?length_app; lia). by rewrite lookup_app_l by lia.
    + rewrite !splice_lookup_old by (rewrite ?length_app; lia). done.
Qed.

Lemma splice_nil l o : (o ≤ length l)%nat → splice l o [] = l.
Proof. intros H. unfold splice. cbn. by rewrite Nat.add_0_r, take_drop. Qed.

Lemma take_split (l : list A) n m : take n l ++ take m (drop n l) = take (n + m) l.
Proof. apply take_take_drop. Qed.

(** The next piece of a copy of [l]. *)
Lemma splice_next area l o n m : (n + m ≤ length l)%nat → (o + n + m ≤ length area)%nat →
  splice (splice area o (take n l)) (o + n) (take m (drop n l)) = splice area o (take (n + m) l).
Proof.
  intros Hl Ha. pose proof (splice_extend area o (take n l) (take m (drop n l))) as E.
  rewrite take_split, !length_take, length_drop, !Nat.min_l in E by lia. apply E. lia.
Qed.
End lists.

Lemma store_at_spec area off bytes : 0 ≤ off → off + Z.of_nat (length bytes) ≤ Z.of_nat (length area) →
  store_at area off bytes = Some (splice area (Z.to_nat off) bytes).
Proof.
  intros H0 H1. unfold store_at. by rewrite (proj2 (Z.leb_le _ _)), (proj2 (Z.leb_le _ _)) by lia.
Qed.

Lemma load_at_spec data off n : 0 ≤ off → 0 ≤ n → off + n ≤ Z.of_nat (length data) →
  load_at data off n = Some (take (Z.to_nat n) (drop (Z.to_nat off) data)).
Proof. intros H0 H1 H2. unfold load_at. by rewrite !(proj2 (Z.leb_le _ _)) by lia. Qed.

Lemma length_zero_buf n : length (zero_buf n) = Z.to_nat n.
Proof. apply length_replicate. Qed.

(** ** The data area *)

(** The first sector after the copies of the table. *)
Definition data_sect (fs : fsdata) : Z := fat_sect fs + (if fats fs =? 2 then 2 else 1) * fatlength fs.

(** The first byte of a cluster in the bytes after the table. *)
Definition cluster_off (fs : fsdata) (c : Z) : Z :=
  (data_begin fs + c * clust_size fs - data_sect fs) * sect_size fs.

Definition cluster_data (fs : fsdata) (rest : list Z) (c : Z) : list Z :=
  take (Z.to_nat (bytesperclust fs)) (drop (Z.to_nat (cluster_off fs c)) rest).

Section data.
Context {HBD : BlockDev} {HDW : DevWorks} (g : fat_globals).
Implicit Types (fs : fsdata) (d : dev) (pre rest T area data : list Z).

Record data_layout fs rest : Prop := {
  dl_clust : 0 < clust_size fs;
  dl_bpc : bytesperclust fs < 2 ^ 31;
  dl_begin : data_sect fs ≤ data_begin fs + 2 * clust_size fs;
  dl_rest : (total_sector g - data_sect fs) * sect_size fs ≤ Z.of_nat (length rest)
}.

(** A cluster of the partition. *)
Definition clust_in fs (c : Z) : Prop := 2 ≤ c ∧ data_begin fs + (c + 1) * clust_size fs ≤ total_sector g.

Lemma data_layout_same fs fs' rest : same_volume fs fs' → data_layout fs rest → data_layout fs' rest.
Proof. intros (b & n & k & ->) []. by constructor. Qed.

Lemma data_layout_rest fs rest rest' : length rest' = length rest → data_layout fs rest → data_layout fs rest'.
Proof. intros E []. constructor; try done. by rewrite E. Qed.

(** The table does not change while the data are read. *)
Lemma table_dev fs d d' pre rest T : fat_table g fs d pre rest T → dev_ok d' → contents d' = contents d →
  fat_table g fs d' pre rest T.
Proof. intros (B & F & [] & ->) Hd Hc. exists B, F. split; [|done]. constructor; try done. by rewrite Hc. Qed.

(** The facts on the volume that the data operations need. *)
Lemma table_geometry fs d pre rest T : fat_table g fs d pre rest T →
  cur_dev g = true ∧ 0 ≤ part_start g ∧ part_start g + total_sector g < 2 ^ 31 ∧ dev_ok d ∧
  0 ≤ data_sect fs ≤ total_sector g ∧ sect_size fs = bsize ∧ 0 < sect_size fs < 2 ^ 16 ∧ fat_width (fatsize fs) ∧
  ∃ before, contents d = before ++ rest ∧ Z.of_nat (length before) = (part_start g + data_sect fs) * sect_size fs.
Proof.
  intros (B & F & Hst & _). pose proof (fs_layout _ _ _ _ _ _ _ Hst) as Hl.
  pose proof Hl as [Hc Hw Hs Hev Hsm (Hf0 & Hf1 & Hf2) Hin Htm Hpre Hlen]. pose proof bsize_pos as Hpos.
  unfold data_sect. split_and!; try done; try (destruct (fats fs =? 2); lia).
  - apply (fs_dev _ _ _ _ _ _ _ Hst).
  - exists (pre ++ copies fs F). split; [rewrite (fs_contents _ _ _ _ _ _ _ Hst); by rewrite <-app_assoc|].
    rewrite length_app, Nat2Z.inj_add, Hpre. unfold copies. destruct (fats fs =? 2); rewrite ?length_app; lia.
Qed.

Lemma read_data fs d pre rest T s n buf : fat_table g fs d pre rest T → data_layout fs rest →
  data_sect fs ≤ s → 0 ≤ n → s + n ≤ total_sector g → n * sect_size fs ≤ Z.of_nat (length buf) < 2 ^ 32 →
  ∃ d', disk_read g d s n buf =
      Some (n, splice buf 0 (take (Z.to_nat (n * sect_size fs))
                               (drop (Z.to_nat ((s - data_sect fs) * sect_size fs)) rest)), d') ∧
    fat_table g fs d' pre rest T ∧ contents d' = contents d.
Proof.
  intros HT Hl Hs Hn Hsn Hbuf.
  destruct (table_geometry _ _ _ _ _ HT) as (Hc & Hp & Htot & Hd & Hds & Hss & Hpos & _ & before & Hcont & Hbef).
  pose proof (dl_rest _ _ Hl) as Hrest.
  assert (Hoff : (part_start g + s) * sect_size fs = Z.of_nat (length before) + (s - data_sect fs) * sect_size fs)
    by (rewrite Hbef; ring).
  assert (Hend : (s - data_sect fs) * sect_size fs + n * sect_size fs ≤ Z.of_nat (length rest)).
  { rewrite <-Z.mul_add_distr_r. etransitivity; [|exact Hrest]. apply Z.mul_le_mono_nonneg_r; lia. }
  assert (Hx : 0 ≤ (s - data_sect fs) * sect_size fs) by (apply Z.mul_nonneg_nonneg; lia).
  assert (Hy : 0 ≤ n * sect_size fs) by (apply Z.mul_nonneg_nonneg; lia).
  destruct (disk_read_spec g d s n buf) as (d' & -> & Hd' & Hc').
  1-6: first [done | lia].
  { by rewrite <-Hss. }
  { rewrite <-Hss, Z.mul_add_distr_r, Hoff, Hcont, length_app. lia. }
  exists d'. split; [|split; [by eapply table_dev|done]].
  rewrite <-Hss, Hoff, Hcont. replace (Z.to_nat (Z.of_nat (length before) + (s - data_sect fs) * sect_size fs))
    with (length before + Z.to_nat ((s - data_sect fs) * sect_size fs))%nat by lia.
  rewrite drop_app_add. unfold splice. cbn [take app]. rewrite Nat.add_0_l, length_take, length_drop, Nat.min_l by lia.
  done.
Qed.

(** One sector into a buffer of its size. *)
Lemma read_sector fs d pre rest T s : fat_table g fs d pre rest T → data_layout fs rest →
  data_sect fs ≤ s → s + 1 ≤ total_sector g →
  ∃ d', disk_read g d s 1 (zero_buf (sect_size fs)) =
      Some (1, take (Z.to_nat (sect_size fs)) (drop (Z.to_nat ((s - data_sect fs) * sect_size fs)) rest), d') ∧
    fat_table g fs d' pre rest T ∧ contents d' = contents d ∧
    (s - data_sect fs) * sect_size fs + sect_size fs ≤ Z.of_nat (length rest).
Proof.
  intros HT Hl Hs Hs1. destruct (table_geometry _ _ _ _ _ HT) as (_ & _ & _ & _ & _ & _ & Hpos & _).
  destruct (read_data fs d pre rest T s 1 (zero_buf (sect_size fs)) HT Hl) as (d' & -> & HT' & Hc');
    [lia|lia|lia|rewrite length_zero_buf; lia|].
  assert (Hend : (s - data_sect fs) * sect_size fs + sect_size fs ≤ Z.of_nat (length rest)).
  { etransitivity; [|apply (dl_rest _ _ Hl)]. rewrite <-Z.mul_succ_l. apply Z.mul_le_mono_nonneg_r; lia. }
  exists d'. split_and!; try done. rewrite Z.mul_1_l. unfold splice. cbn [take app].
  rewrite (drop_ge (zero_buf _)), app_nil_r; [done|]. rewrite length_take, length_drop, length_zero_buf.
  assert (0 ≤ (s - data_sect fs) * sect_size fs) by (apply Z.mul_nonneg_nonneg; lia). lia.
Qed.

(** The position of a cluster and of the sectors from it on. *)
Lemma cluster_start fs d pre rest T c size : fat_table g fs d pre rest T → data_layout fs rest → 2 ≤ c →
  0 ≤ size → (data_begin fs + c * clust_size fs) * sect_size fs + size ≤ total_sector g * sect_size fs →
  let s := data_begin fs + c * clust_size fs in
  data_sect fs ≤ s ≤ total_sector g ∧ clust_to_sect fs c = s ∧ 0 ≤ cluster_off fs c ∧
  cluster_off fs c = (s - data_sect fs) * sect_size fs ∧
  cluster_off fs c + size ≤ Z.of_nat (length rest).
Proof.
  intros HT Hl Hc Hsize Hin s.
  destruct (table_geometry _ _ _ _ _ HT) as (_ & Hp & Htot & _ & Hds & _ & Hpos & _).
  pose proof Hl as [Hcl Hb Hbeg Hrest].
  assert (Hs : data_sect fs ≤ s) by (unfold s; nia).
  assert (Hst : s ≤ total_sector g) by (apply (Z.mul_le_mono_pos_r _ _ (sect_size fs)); lia).
  split_and!; try done.
  - apply wrap_small. fold s. lia.
  - unfold cluster_off. fold s. apply Z.mul_nonneg_nonneg; lia.
  - unfold cluster_off. fold s. rewrite !Z.mul_sub_distr_r in *. lia.
Qed.

Lemma mul_step (j k ss : Z) : 0 ≤ j → j + 1 ≤ k → 0 ≤ ss → 0 ≤ j * ss ∧ j * ss + ss ≤ k * ss.
Proof.
  intros Hj Hk Hs. split; [by apply Z.mul_nonneg_nonneg|].
  rewrite <-Z.mul_succ_l. apply Z.mul_le_mono_nonneg_r; lia.
Qed.

(** The pieces that the loop on sectors has copied. *)
Lemma get_sectors fs d pre rest T c size addr area off (D := drop (Z.to_nat (cluster_off fs c)) rest) :
  fat_table g fs d pre rest T → data_layout fs rest → 2 ≤ c → 0 ≤ off → 0 ≤ size →
  off + size ≤ Z.of_nat (length area) < 2 ^ 32 →
  (data_begin fs + c * clust_size fs) * sect_size fs + size ≤ total_sector g * sect_size fs →
  let s := data_begin fs + c * clust_size fs in
  let k := size / sect_size fs in
  ∃ d', (if misaligned (addr + off) then
         loop (S (Z.to_nat size)) (λ '(d, area, off, startsect, size),
           if sect_size fs <=? size then
             '(ret, tmpbuf, d) ← disk_read g d startsect 1 (zero_buf (sect_size fs));
             if negb (ret =? 1) then Some (Return (area, d))
             else
               area ← store_at area off tmpbuf;
               Some (Next (d, area, off + sect_size fs, u32 (startsect + 1), size - sect_size fs))
           else Some (Break (d, area, off, startsect, size)))
         (d, area, off, s, size)
       else
         let idx := size / sect_size fs in
         '(ret, buf, d) ← disk_read g d s idx (drop (Z.to_nat off) area);
         let area := take (Z.to_nat off) area ++ buf in
         Some (if negb (u32 ret =? idx) then inr (area, d)
               else inl (d, area, off + idx * sect_size fs, u32 (s + idx), size - idx * sect_size fs))) =
    Some (inl (d', splice area (Z.to_nat off) (take (Z.to_nat (k * sect_size fs)) D),
               off + k * sect_size fs, s + k, size - k * sect_size fs)) ∧
    fat_table g fs d' pre rest T ∧ contents d' = contents d.
Proof.
  intros HT Hl Hc Hoff Hsize Harea Hin s k.
  destruct (cluster_start _ _ _ _ _ _ _ HT Hl Hc Hsize Hin) as (Hs & _ & Hco0 & Hco & Hend). fold s in Hs, Hco, Hin.
  destruct (table_geometry _ _ _ _ _ HT) as (_ & Hp & Htot & _ & Hds & _ & Hpos & _).
  set (ss := sect_size fs) in *.
  assert (Hk : 0 ≤ k ∧ k * ss ≤ size < k * ss + ss)
    by (unfold k; pose proof (Z.div_mod size ss); pose proof (Z.mod_pos_bound size ss); split; [apply Z.div_pos|]; lia).
  destruct Hk as [Hk0 Hk].
  assert (Hsk : s + k ≤ total_sector g) by (apply (Z.mul_le_mono_pos_r _ _ ss); lia).
  assert (HD : k * ss ≤ Z.of_nat (length D)) by (unfold D; rewrite length_drop; lia).
  assert (HDd : ∀ j, 0 ≤ j → drop (Z.to_nat ((s + j - data_sect fs) * ss)) rest = drop (Z.to_nat (j * ss)) D).
  { intros j Hj. unfold D. rewrite drop_drop. f_equal. rewrite Hco. assert (0 ≤ j * ss) by nia. lia. }
  destruct (misaligned (addr + off)).
  - loop_ix (Z.to_nat k)
      (λ (n : nat) '((d1, area1, off1, s1, size1) : dev * list Z * Z * Z * Z), ∃ j, 0 ≤ j ≤ k ∧ n = Z.to_nat (k - j) ∧
         area1 = splice area (Z.to_nat off) (take (Z.to_nat (j * ss)) D) ∧ off1 = off + j * ss ∧ s1 = s + j ∧
         size1 = size - j * ss ∧ fat_table g fs d1 pre rest T ∧ contents d1 = contents d)
      (λ (o : dev * list Z * Z * Z * Z + list Z * dev), ∃ d',
         o = inl (d', splice area (Z.to_nat off) (take (Z.to_nat (k * ss)) D), off + k * ss, s + k, size - k * ss) ∧
         fat_table g fs d' pre rest T ∧ contents d' = contents d).
    + intros n [[[[d1 area1] off1] s1] size1] (j & Hj & -> & -> & -> & -> & -> & HT1 & Hc1).
      destruct (Z.leb_spec ss (size - j * ss)) as [Hle|Hgt].
      * assert (Hjk : j + 1 ≤ k)
          by (destruct (Z.le_gt_cases (j + 1) k); [done|exfalso; assert (j = k) as -> by lia; lia]).
        destruct (read_sector fs d1 pre rest T (s + j) HT1 Hl) as (d2 & Hr1 & HT2 & Hc2 & Hr2); [lia|lia|].
        fold ss in Hr1, Hr2. rewrite Hr1. cbn [mbind option_bind]. change (negb (1 =? 1)) with false. cbv iota. rewrite HDd by lia.
        assert (Hjs : 0 ≤ j * ss ∧ j * ss + ss ≤ k * ss) by (apply mul_step; lia).
        assert (Hpl : length (take (Z.to_nat ss) (drop (Z.to_nat (j * ss)) D)) = Z.to_nat ss)
          by (rewrite length_take, length_drop; lia).
        assert (Hal : length (splice area (Z.to_nat off) (take (Z.to_nat (j * ss)) D)) = length area)
          by (apply length_splice; rewrite length_take; lia).
        rewrite store_at_spec by (rewrite ?Hpl, ?Hal; lia). cbn [mbind option_bind].
        eexists. split; [done|]. exists (Z.to_nat (k - (j + 1))). split; [lia|]. exists (j + 1).
        rewrite (wrap_small 32 (s + j + 1)), (Z.mul_add_distr_r j 1 ss), Z.mul_1_l by lia.
        split_and!; try done; try lia; [|congruence]. rewrite !Z2Nat.inj_add by lia. apply splice_next; lia.
      * assert (j = k) as ->.
        { destruct (Z.le_gt_cases k j); [lia|]. pose proof (mul_step j k ss). lia. }
        eexists. split; [done|]. by exists d1.
    + exists 0. rewrite Z.mul_0_l, !Z.add_0_r, !Z.sub_0_r. change (Z.to_nat 0) with 0%nat.
      rewrite take_0, splice_nil by lia. split_and!; try done; lia.
    + pose proof (Z.mul_le_mono_nonneg_l 1 ss k). lia.
    + destruct HQ as (d' & -> & HT' & Hc'). exists d'. done.
  - destruct (read_data fs d pre rest T s k (drop (Z.to_nat off) area) HT Hl) as (d' & Hr & HT' & Hc');
      [lia|lia|lia|fold ss; rewrite length_drop; lia|].
    cbn zeta. fold k. rewrite Hr. fold ss in Hr |- *. cbn [mbind option_bind].
    rewrite wrap_small, Z.eqb_refl, wrap_small by lia. cbn [negb]. exists d'. split; [|done]. do 3 f_equal.
    specialize (HDd 0 (Z.le_refl 0)). rewrite Z.add_0_r in HDd. rewrite HDd. cbn [drop Z.to_nat Z.mul].
    rewrite drop_0. unfold splice. cbn [take app]. rewrite Nat.add_0_l, drop_drop. done.
Qed.

(** [get_cluster] copies the bytes that follow the start of the cluster. *)
Lemma get_cluster_spec fs d pre rest T c size addr area off :
  fat_table g fs d pre rest T → data_layout fs rest → 2 ≤ c → 0 ≤ off → 0 ≤ size →
  off + size ≤ Z.of_nat (length area) < 2 ^ 32 →
  (data_begin fs + c * clust_size fs) * sect_size fs + size ≤ total_sector g * sect_size fs →
  ∃ d', get_cluster g fs d c addr area off size =
      Some (0, splice area (Z.to_nat off) (take (Z.to_nat size) (drop (Z.to_nat (cluster_off fs c)) rest)), d') ∧
    fat_table g fs d' pre rest T ∧ contents d' = contents d.
Proof.
  intros HT Hl Hc Hoff Hsize Harea Hin.
  destruct (cluster_start _ _ _ _ _ _ _ HT Hl Hc Hsize Hin) as (Hs & Hsect & Hco0 & Hco & Hend).
  destruct (table_geometry _ _ _ _ _ HT) as (_ & Hp & Htot & _ & Hds & _ & Hpos & _).
  unfold get_cluster. rewrite (proj2 (Z.ltb_lt 0 c)), Hsect by lia.
  destruct (get_sectors fs d pre rest T c size addr area off HT Hl Hc Hoff Hsize Harea Hin)
    as (d' & Hr & HT' & Hc'). cbn zeta in Hr |- *. rewrite Hr. cbn [mbind option_bind]. clear Hr.
  set (ss := sect_size fs) in *. set (s := data_begin fs + c * clust_size fs) in *. set (k := size / ss) in *.
  set (D := drop (Z.to_nat (cluster_off fs c)) rest).
  assert (Hk : 0 ≤ k ∧ k * ss ≤ size < k * ss + ss)
    by (unfold k; pose proof (Z.div_mod size ss); pose proof (Z.mod_pos_bound size ss); split; [apply Z.div_pos|]; lia).
  destruct Hk as [Hk0 Hk]. destruct (Z.eqb_spec (size - k * ss) 0) as [E|E].
  { exists d'. split; [|done]. by replace (k * ss) with size by lia. }
  assert (Hsk : s + k + 1 ≤ total_sector g)
    by (assert (s + k < total_sector g) by (apply (Z.mul_lt_mono_pos_r ss); lia); lia).
  destruct (read_sector fs d' pre rest T (s + k) HT' Hl) as (d2 & Hr & HT2 & Hc2 & Hr2); [lia|lia|].
  fold ss in Hr, Hr2. rewrite Hr. cbn [mbind option_bind]. change (negb (1 =? 1)) with false. cbv iota.
  assert (0 ≤ k * ss) by (apply Z.mul_nonneg_nonneg; lia).
  assert (HDd : drop (Z.to_nat ((s + k - data_sect fs) * ss)) rest = drop (Z.to_nat (k * ss)) D).
  { unfold D. rewrite drop_drop. f_equal. lia. }
  assert (HDl : Z.of_nat (length D) = Z.of_nat (length rest) - cluster_off fs c) by (unfold D; rewrite length_drop; lia).
  rewrite HDd. set (tmp := take (Z.to_nat ss) _).
  assert (Htmp : length tmp = Z.to_nat ss) by (unfold tmp; rewrite length_take, length_drop; lia).
  rewrite load_at_spec by lia. cbn [mbind option_bind]. change (Z.to_nat 0) with 0%nat. rewrite drop_0.
  assert (Hlp : length (take (Z.to_nat (size - k * ss)) tmp) = Z.to_nat (size - k * ss)) by (rewrite length_take; lia).
  assert (Hla : length (splice area (Z.to_nat off) (take (Z.to_nat (k * ss)) D)) = length area)
    by (apply length_splice; rewrite length_take; lia).
  rewrite store_at_spec by (rewrite ?Hlp, ?Hla; lia). cbn [mbind option_bind].
  exists d2. split; [|split; [done|congruence]]. do 3 f_equal. unfold tmp. rewrite take_take, Nat.min_l by lia.
  rewrite Z2Nat.inj_add by lia. rewrite splice_next by lia. do 2 f_equal. lia.
Qed.

(** ** Chains of clusters *)

(** The clusters of a file from a cluster on; the entry of the last one may be
    anything. *)
Fixpoint chain fs T (cs : list Z) : Prop :=
  match cs with
  | [] => True
  | c :: cs =>
      CHECK_CLUST c (fatsize fs) = false ∧ clust_in fs c ∧
      match cs with [] => True | c' :: _ => T !! Z.to_nat c = Some c' end ∧ chain fs T cs
  end.

Definition file_data fs rest (cs : list Z) : list Z := cs ≫= cluster_data fs rest.

Lemma chain_same fs fs' T cs : same_volume fs fs' → chain fs T cs → chain fs' T cs.
Proof. intros (b & n & k & ->). induction cs as [|c cs IH]; [done|]. intros (? & ? & ? & ?). by split_and!; auto. Qed.

Lemma chain_elem fs T cs e : chain fs T cs → e ∈ cs →
  CHECK_CLUST e (fatsize fs) = false ∧ (is_Some (T !! Z.to_nat e) ∨ list.last cs = Some e).
Proof.
  induction cs as [|c cs IH]; [by intros _ ?%not_elem_of_nil|]. intros (Hck & _ & Hlink & Hch) He.
  apply elem_of_cons in He as [->|He].
  - split; [done|]. destruct cs; [by right|left; by eexists].
  - destruct (IH Hch He) as [H1 [H2|H2]]; (split; [done|]); [by left|right]. destruct cs; [done|]. by rewrite last_cons_cons.
Qed.

Lemma chain_app fs T cs1 cs2 : chain fs T (cs1 ++ cs2) → chain fs T cs2.
Proof. induction cs1 as [|c cs1 IH]; [done|]. intros (_ & _ & _ & Hch). auto. Qed.

(** The entry of a cluster that is not the last one. *)
Lemma chain_link fs T cs1 c c' cs2 : chain fs T (cs1 ++ c :: c' :: cs2) → T !! Z.to_nat c = Some c'.
Proof. intros Hch%chain_app. apply Hch. Qed.

Lemma length_cluster_data fs d pre rest T c : fat_table g fs d pre rest T → data_layout fs rest → clust_in fs c →
  length (cluster_data fs rest c) = Z.to_nat (bytesperclust fs).
Proof.
  intros HT Hl [Hc Hin]. unfold cluster_data, bytesperclust in *.
  destruct (table_geometry _ _ _ _ _ HT) as (_ & _ & _ & _ & _ & _ & Hpos & _). pose proof (dl_clust _ _ Hl) as Hcl.
  destruct (cluster_start fs d pre rest T c (clust_size fs * sect_size fs) HT Hl Hc) as (_ & _ & Ho & _ & Hend);
    [apply Z.mul_nonneg_nonneg; lia|rewrite <-Z.mul_add_distr_r; apply Z.mul_le_mono_nonneg_r; lia|].
  rewrite length_take, length_drop. assert (0 ≤ clust_size fs * sect_size fs) by (apply Z.mul_nonneg_nonneg; lia). lia.
Qed.

Lemma length_file_data fs d pre rest T cs : fat_table g fs d pre rest T → data_layout fs rest →
  Forall (clust_in fs) cs →
  Z.of_nat (length (file_data fs rest cs)) = Z.of_nat (length cs) * bytesperclust fs.
Proof.
  intros HT Hl Hcs. destruct (table_geometry _ _ _ _ _ HT) as (_ & _ & _ & _ & _ & _ & Hpos & _).
  pose proof (dl_clust _ _ Hl) as Hcl.
  assert (0 ≤ bytesperclust fs) by (apply Z.mul_nonneg_nonneg; lia).
  induction Hcs as [|c cs Hc Hcs IH]; [done|]. unfold file_data in *. cbn [mbind list_bind length].
  rewrite length_app, (length_cluster_data fs d pre rest T c) by done. lia.
Qed.

Lemma chain_in fs T cs : chain fs T cs → Forall (clust_in fs) cs.
Proof. induction cs as [|c cs IH]; [constructor|]. intros (_ & Hc & _ & Hch). constructor; auto. Qed.

(** Consecutive clusters are consecutive bytes. *)
Lemma run_data fs d pre rest T c (k : nat) : fat_table g fs d pre rest T → data_layout fs rest →
  Forall (clust_in fs) (seqZ c (Z.of_nat k)) → (0 < k)%nat →
  file_data fs rest (seqZ c (Z.of_nat k)) =
    take (Z.to_nat (Z.of_nat k * bytesperclust fs)) (drop (Z.to_nat (cluster_off fs c)) rest).
Proof.
  intros HT Hl Hin Hk. destruct (table_geometry _ _ _ _ _ HT) as (_ & _ & _ & _ & _ & _ & Hpos & _).
  pose proof Hl as [Hcl _ Hbeg _]. assert (Hb : 0 < bytesperclust fs) by (apply Z.mul_pos_pos; lia).
  assert (Hoff : ∀ c, 2 ≤ c → 0 ≤ cluster_off fs c ∧ cluster_off fs (c + 1) = cluster_off fs c + bytesperclust fs).
  { intros c' Hc'. unfold cluster_off, bytesperclust. split; [apply Z.mul_nonneg_nonneg; nia|ring]. }
  revert c Hin. induction k as [|k IH]; intros c Hin; [lia|].
  rewrite Nat2Z.inj_succ, seqZ_cons in Hin |- * by lia. rewrite Z.pred_succ in Hin |- *.
  inversion Hin as [|? ? Hc Hin']; subst. destruct (Hoff c) as [Ho1 Ho2]; [apply Hc|].
  unfold file_data in *. cbn [mbind list_bind]. destruct (Nat.eq_dec k 0%nat) as [->|Hk0].
  { change (Z.of_nat 0%nat) with 0. change (seqZ (Z.succ c) 0) with (@nil Z). cbn [mbind list_bind].
    rewrite app_nil_r. unfold cluster_data. f_equal. lia. }
  change (Z.succ c) with (c + 1) in *. rewrite IH by (done || lia). unfold cluster_data.
  replace (Z.to_nat (Z.succ (Z.of_nat k) * bytesperclust fs))
    with (Z.to_nat (bytesperclust fs) + Z.to_nat (Z.of_nat k * bytesperclust fs))%nat by lia.
  rewrite <-take_split, drop_drop, Ho2. do 3 f_equal. lia.
Qed.

Lemma check_range e w : CHECK_CLUST e w = false → 2 ≤ e < 2 ^ 28.
Proof. unfold CHECK_CLUST. destruct (w =? 32), (w =? 16); cbn [negb]; intros [H1 H2]%orb_false_iff; lia. Qed.

Lemma seqZ_snoc (c : Z) (k : nat) : seqZ c (Z.of_nat (S k)) = seqZ c (Z.of_nat k) ++ [c + Z.of_nat k].
Proof. apply seqZ_S. Qed.

(** What the search for consecutive clusters finds on a chain that is long
    enough. *)
Definition run_found fs pre rest T (cs : list Z) (c n : Z) (e : run_end) : Prop :=
  match e with
  | Invalid _ _ => False
  | EndOfFile fs' d' endclust => fat_table g fs' d' pre rest T ∧ same_volume fs fs' ∧
      ∃ (k : nat) cs2, cs = seqZ c (Z.of_nat (S k)) ++ cs2 ∧ n ≤ Z.of_nat (S k) * bytesperclust fs
  | Elsewhere fs' d' endclust actsize newclust => fat_table g fs' d' pre rest T ∧ same_volume fs fs' ∧
      ∃ (k : nat) cs2, cs = seqZ c (Z.of_nat (S k)) ++ newclust :: cs2 ∧ endclust = c + Z.of_nat k ∧
        actsize = Z.of_nat (S k) * bytesperclust fs ∧ actsize < n
  end.

Lemma consecutive_get fs d pre rest T c cs n : fat_table g fs d pre rest T → 0 < bytesperclust fs →
  chain fs T (c :: cs) → 0 < n ≤ Z.of_nat (length (c :: cs)) * bytesperclust fs →
  ∃ e, consecutive (get_fatent g) fs d c n = Some e ∧ run_found fs pre rest T (c :: cs) c n e.
Proof.
  intros HT Hb Hch Hn. unfold consecutive. set (bpc := bytesperclust fs) in *.
  assert (Hq : 0 ≤ n / bpc) by (apply Z.div_pos; lia). pose proof (Z.mul_div_le n bpc Hb) as Hqb.
  loop_ix (Z.to_nat (n / bpc))
    (λ (m : nat) '((fs1, d1, endc, act) : fsdata * dev * Z * Z), ∃ (k : nat) cs2,
       c :: cs = seqZ c (Z.of_nat (S k)) ++ cs2 ∧ endc = c + Z.of_nat k ∧ act = Z.of_nat (S k) * bpc ∧
       fat_table g fs1 d1 pre rest T ∧ same_volume fs fs1 ∧ Z.of_nat k ≤ n / bpc ∧ m = Z.to_nat (n / bpc - Z.of_nat k))
    (λ o : fsdata * dev * Z * Z + run_end, run_found fs pre rest T (c :: cs) c n
            (match o with inl (fs, d, endclust, _) => EndOfFile fs d endclust | inr e => e end)).
  - intros m [[[fs1 d1] endc] act] (k & cs2 & Hcs & -> & -> & HT1 & Hs1 & Hk & ->).
    destruct (Z.ltb_spec (Z.of_nat (S k) * bpc) n) as [Hlt|Hge].
    + assert (Hlen : Z.of_nat (length (c :: cs)) = Z.of_nat (S k) + Z.of_nat (length cs2))
        by (rewrite Hcs, length_app, length_seqZ; lia).
      destruct cs2 as [|c' cs2]; [rewrite Hlen, Z.add_0_r in Hn; lia|].
      assert (Hch2 : chain fs T (c' :: cs2)) by (rewrite Hcs in Hch; by apply chain_app in Hch).
      rewrite Hcs, seqZ_snoc, <-app_assoc in Hch. cbn [app] in Hch. pose proof (chain_link _ _ _ _ _ _ Hch) as Hlink.
      apply chain_app in Hch as (Hck & _). destruct Hch2 as (Hck' & _).
      assert (Hsz : fatsize fs1 = fatsize fs) by (by destruct Hs1 as (? & ? & ? & ->)). rewrite <-Hsz in Hck, Hck'.
      destruct (table_get g fs1 d1 pre rest T _ _ HT1 Hck Hlink) as (fs2 & d2 & -> & HT2 & Hs2).
      cbn [mbind option_bind]. pose proof (check_range _ _ Hck'). rewrite wrap_small by lia.
      assert (Hs12 : same_volume fs fs2) by (by eapply same_volume_trans).
      destruct (Z.eqb_spec (c' - 1) (c + Z.of_nat k)) as [Ec|Ec]; cbn [negb].
      * assert (fatsize fs2 = fatsize fs1) as -> by (by destruct Hs2 as (? & ? & ? & ->)). rewrite Hck'.
        assert (Hk1 : Z.of_nat (S k) ≤ n / bpc) by (apply Z.div_le_lower_bound; lia).
        eexists. split; [done|]. exists (Z.to_nat (n / bpc - Z.of_nat (S k))). split; [lia|].
        exists (S k), cs2. split_and!; try done; try lia.
        rewrite Hcs, (seqZ_snoc c (S k)), <-app_assoc. cbn [app]. do 2 f_equal. lia.
      * eexists. split; [done|]. split; [done|]. split; [done|]. by exists k, cs2.
    + eexists. split; [done|]. split; [done|]. split; [done|]. by exists k, cs2.
  - exists 0%nat, cs. split_and!; try done; try lia. apply same_volume_refl.
  - lia.
  - eexists. split; [done|]. exact HQ.
Qed.

(** A run of consecutive clusters lies inside of the partition. *)
Lemma run_in fs c (k : nat) : 0 < sect_size fs → Forall (clust_in fs) (seqZ c (Z.of_nat (S k))) →
  2 ≤ c ∧ (data_begin fs + c * clust_size fs) * sect_size fs + Z.of_nat (S k) * bytesperclust fs ≤
            total_sector g * sect_size fs.
Proof.
  intros Hpos Hin. rewrite seqZ_snoc, Forall_app in Hin. destruct Hin as [Hin1 Hin2].
  inversion Hin2 as [|? ? [_ Hlast] _]; subst. split.
  - destruct k as [|k]; [inversion Hin2 as [|? ? [? _] _]; subst; lia|].
    rewrite Nat2Z.inj_succ, seqZ_cons in Hin1 by lia. by inversion Hin1 as [|? ? [? _] _].
  - apply (Z.mul_le_mono_pos_r _ _ (sect_size fs) Hpos) in Hlast. unfold bytesperclust. lia.
Qed.

(** [get_cluster] on a part of a run. *)
Lemma get_run fs d pre rest T c (k : nat) n addr area off : fat_table g fs d pre rest T → data_layout fs rest →
  Forall (clust_in fs) (seqZ c (Z.of_nat (S k))) → 0 ≤ n ≤ Z.of_nat (S k) * bytesperclust fs →
  0 ≤ off → off + n ≤ Z.of_nat (length area) < 2 ^ 32 →
  ∃ d', get_cluster g fs d c addr area off n =
      Some (0, splice area (Z.to_nat off) (take (Z.to_nat n) (file_data fs rest (seqZ c (Z.of_nat (S k))))), d') ∧
    fat_table g fs d' pre rest T.
Proof.
  intros HT Hl Hin Hn Hoff Harea.
  destruct (table_geometry _ _ _ _ _ HT) as (_ & _ & _ & _ & _ & _ & Hpos & _).
  destruct (run_in fs c k) as [Hc Hend]; [lia|done|].
  destruct (get_cluster_spec fs d pre rest T c n addr area off HT Hl Hc Hoff) as (d' & -> & HT' & _); [lia|done|lia|].
  exists d'. split; [|done]. do 4 f_equal.
  rewrite (run_data fs d pre rest T c (S k)) by (done || lia). by rewrite take_take, Nat.min_l by lia.
Qed.

Lemma file_data_app fs rest cs1 cs2 : file_data fs rest (cs1 ++ cs2) = file_data fs rest cs1 ++ file_data fs rest cs2.
Proof. apply bind_app. Qed.

Lemma file_data_same fs fs' rest cs : same_volume fs fs' → file_data fs' rest cs = file_data fs rest cs.
Proof. by intros (? & ? & ? & ->). Qed.

(** A run continues the copy of [D] into the buffer. *)
Lemma run_copy fs d pre rest T cur cs1 (k : nat) cs2 rem x m D addr area off :
  fat_table g fs d pre rest T → data_layout fs rest → Forall (clust_in fs) (cur :: cs1) →
  cur :: cs1 = seqZ cur (Z.of_nat (S k)) ++ cs2 →
  take (Z.to_nat rem) (file_data fs rest (cur :: cs1)) = drop (Z.to_nat x) D →
  0 ≤ m ≤ Z.of_nat (S k) * bytesperclust fs → m ≤ rem → 0 ≤ x → x + m ≤ Z.of_nat (length D) →
  0 ≤ off → off + Z.of_nat (length D) ≤ Z.of_nat (length area) < 2 ^ 31 →
  ∃ d', get_cluster g fs d cur addr (splice area (Z.to_nat off) (take (Z.to_nat x) D)) (off + x) m =
      Some (0, splice area (Z.to_nat off) (take (Z.to_nat (x + m)) D), d') ∧ fat_table g fs d' pre rest T.
Proof.
  intros HT Hl Hin Hcs Hdata Hm Hrem Hx Hxm Hoff Harea. rewrite Hcs, Forall_app in Hin. destruct Hin as [Hin _].
  assert (Hal : length (splice area (Z.to_nat off) (take (Z.to_nat x) D)) = length area)
    by (apply length_splice; rewrite length_take; lia).
  destruct (get_run fs d pre rest T cur k m addr (splice area (Z.to_nat off) (take (Z.to_nat x) D)) (off + x)
    HT Hl Hin) as (d' & -> & HT'); [lia|lia|rewrite Hal; lia|].
  exists d'. split; [|done]. do 3 f_equal.
  assert (E : take (Z.to_nat m) (file_data fs rest (seqZ cur (Z.of_nat (S k)))) =
    take (Z.to_nat m) (drop (Z.to_nat x) D)).
  { rewrite <-Hdata, take_take, Nat.min_l, Hcs, file_data_app, take_app_le; [done| |lia].
    pose proof (length_file_data _ _ _ _ _ _ HT Hl Hin) as Hlen. rewrite length_seqZ in Hlen. lia. }
  rewrite E, !Z2Nat.inj_add by lia. apply splice_next; lia.
Qed.

Lemma get_runs_spec fs d pre rest T c cs n addr area off got (D := take (Z.to_nat n) (file_data fs rest (c :: cs))) :
  fat_table g fs d pre rest T → data_layout fs rest → chain fs T (c :: cs) →
  0 < n ≤ Z.of_nat (length (c :: cs)) * bytesperclust fs → 0 ≤ off →
  off + n ≤ Z.of_nat (length area) < 2 ^ 31 →
  ∃ fs' d', get_runs g fs d c n addr area off got = Some (0, got + n, splice area (Z.to_nat off) D, fs', d') ∧
    fat_table g fs' d' pre rest T ∧ same_volume fs fs'.
Proof.
  intros HT Hl Hch Hn Hoff Harea. unfold get_runs. set (bpc := bytesperclust fs) in *.
  destruct (table_geometry _ _ _ _ _ HT) as (_ & _ & _ & _ & _ & _ & Hpos & _).
  assert (Hb : 0 < bpc) by (apply Z.mul_pos_pos; [apply (dl_clust _ _ Hl)|lia]).
  assert (HDl : Z.of_nat (length D) = n).
  { unfold D. rewrite length_take. pose proof (length_file_data _ _ _ _ _ _ HT Hl (chain_in _ _ _ Hch)). unfold bpc in *. lia. }
  loop_ix (Z.to_nat (n / bpc))
    (λ (m : nat) '((fs1, d1, cur, rem, area1, off1, got1) : fsdata * dev * Z * Z * list Z * Z * Z), ∃ x cs1,
       0 ≤ x ∧ rem = n - x ∧ chain fs T (cur :: cs1) ∧ 0 < rem ≤ Z.of_nat (length (cur :: cs1)) * bpc ∧
       area1 = splice area (Z.to_nat off) (take (Z.to_nat x) D) ∧ off1 = off + x ∧ got1 = got + x ∧
       take (Z.to_nat rem) (file_data fs rest (cur :: cs1)) = drop (Z.to_nat x) D ∧
       fat_table g fs1 d1 pre rest T ∧ same_volume fs fs1 ∧ m = Z.to_nat (rem / bpc))
    (λ (o : fsdata * dev * Z * Z * list Z * Z * Z + Z * Z * list Z * fsdata * dev), ∃ fs' d',
       o = inr (0, got + n, splice area (Z.to_nat off) D, fs', d') ∧
       fat_table g fs' d' pre rest T ∧ same_volume fs fs').
  - intros m [[[[[[fs1 d1] cur] rem] area1] off1] got1]
      (x & cs1 & Hx & -> & Hch1 & Hrem & -> & -> & -> & Hdata & HT1 & Hs1 & ->).
    assert (Hb1 : bytesperclust fs1 = bpc) by (by destruct Hs1 as (? & ? & ? & ->)).
    assert (Hl1 : data_layout fs1 rest) by (by eapply data_layout_same).
    destruct (consecutive_get fs1 d1 pre rest T cur cs1 (n - x) HT1) as (e & -> & He);
      [lia|by eapply chain_same|rewrite Hb1; lia|].
    pose proof (chain_in _ _ _ Hch1) as Hin1. cbn [mbind option_bind].
    assert (Har : length (splice area (Z.to_nat off) (take (Z.to_nat x) D)) = length area)
      by (apply length_splice; rewrite length_take; lia).
    destruct e as [fs2 d2 endc|fs2 d2 endc act nw|]; [| |done].
    + destruct He as (HT2 & Hs2 & k & cs2 & Hcs & Hend).
      assert (Hs02 : same_volume fs fs2) by (by eapply same_volume_trans).
      rewrite wrap_small by lia.
      destruct (run_copy fs2 d2 pre rest T cur cs1 k cs2 (n - x) x (n - x) D addr area off) as (d3 & -> & HT3);
        try done; try lia; try (by eapply data_layout_same); try (by rewrite (file_data_same fs)).
      { by destruct Hs02 as (? & ? & ? & ->). }
      { assert (bytesperclust fs2 = bytesperclust fs1) as -> by (by destruct Hs2 as (? & ? & ? & ->)). lia. }
      cbn [mbind option_bind]. eexists. split; [done|]. exists fs2, d3. split; [|done].
      rewrite (take_ge D) by lia. do 5 f_equal. lia.
    + destruct He as (HT2 & Hs2 & k & cs2 & Hcs & -> & -> & Hlt).
      assert (Hs02 : same_volume fs fs2) by (by eapply same_volume_trans). rewrite Hb1 in Hlt |- *.
      set (m := Z.of_nat (S k) * bpc) in *. assert (Hm : bpc ≤ m) by (unfold m; lia).
      rewrite wrap_small, !swrap_small by lia.
      destruct (run_copy fs2 d2 pre rest T cur cs1 k (nw :: cs2) (n - x) x m D addr area off) as (d3 & -> & HT3);
        try done; try lia; try (by eapply data_layout_same); try (by rewrite (file_data_same fs)).
      { by destruct Hs02 as (? & ? & ? & ->). }
      { assert (bytesperclust fs2 = bpc) as -> by (by destruct Hs02 as (? & ? & ? & ->)). unfold m. lia. }
      cbn [mbind option_bind]. change (negb (0 =? 0)) with false. cbv iota.
      assert (Hch2 : chain fs T (nw :: cs2)) by (rewrite Hcs in Hch1; by apply chain_app in Hch1).
      rewrite Hcs, seqZ_snoc, <-app_assoc in Hch1. pose proof (chain_link _ _ _ _ _ _ Hch1) as Hlink.
      apply chain_app in Hch1 as (Hck & _). pose proof Hch2 as (Hck2 & _).
      assert (Hsz : fatsize fs2 = fatsize fs) by (by destruct Hs02 as (? & ? & ? & ->)). rewrite <-Hsz in Hck, Hck2.
      destruct (table_get g fs2 d3 pre rest T _ _ HT3 Hck Hlink) as (fs4 & d4 & -> & HT4 & Hs4).
      cbn [mbind option_bind]. assert (fatsize fs4 = fatsize fs2) as -> by (by destruct Hs4 as (? & ? & ? & ->)).
      rewrite Hck2. eexists. split; [done|]. exists (Z.to_nat ((n - x - m) / bpc)). split.
      { apply Z2Nat.inj_lt; [apply Z.div_pos; lia|apply Z.div_pos; lia|].
        replace (n - x) with (n - x - m + Z.of_nat (S k) * bpc) at 2 by (unfold m; lia).
        rewrite Z.div_add by lia. lia. }
      assert (Hlen : Z.of_nat (length (cur :: cs1)) = Z.of_nat (S k) + Z.of_nat (length (nw :: cs2)))
        by (rewrite Hcs, length_app, length_seqZ; lia).
      exists (x + m), cs2. split_and!; try done; try lia; [|by eapply same_volume_trans].
      pose proof Hin1 as Hin2. rewrite Hcs, Forall_app in Hin2. destruct Hin2 as [Hin2 _].
      pose proof (length_file_data _ _ _ _ _ _ HT Hl Hin2) as Hfl. rewrite length_seqZ in Hfl. fold bpc in Hfl.
      rewrite Z2Nat.inj_add, <-drop_drop, <-Hdata, Hcs, file_data_app by lia.
      replace (Z.to_nat m) with (length (file_data fs rest (seqZ cur (Z.of_nat (S k))))) by (unfold m; lia).
      rewrite take_app_ge, drop_app_length by (unfold m in *; lia). f_equal. unfold m in *. lia.
  - exists 0, cs. change (Z.to_nat 0) with 0%nat. rewrite take_0, drop_0, splice_nil by lia.
    split_and!; try done; try lia; try (by rewrite Z.sub_0_r); apply same_volume_refl.
  - lia.
  - destruct HQ as (fs' & d' & -> & HT' & Hs'). by exists fs', d'.
Qed.

(** The cluster at position [pos]. *)
Lemma seek_spec fs d pre rest T c cs pos area : fat_table g fs d pre rest T → 0 < bytesperclust fs →
  chain fs T (c :: cs) → 0 ≤ pos < Z.of_nat (length (c :: cs)) * bytesperclust fs →
  ∃ fs' d' cs1 cur cs2, c :: cs = cs1 ++ cur :: cs2 ∧ Z.of_nat (length cs1) = pos / bytesperclust fs ∧
    loop (S (S (Z.to_nat (pos / bytesperclust fs)))) (λ '(fs0, d, curclust, actsize),
        if actsize <=? pos then
          '(curclust, fs0, d) ← get_fatent g fs0 d curclust;
          if CHECK_CLUST curclust (fatsize fs0) then Some (Return (0, 0, area, fs0, d))
          else Some (Next (fs0, d, curclust, actsize + bytesperclust fs))
        else Some (Break (fs0, d, curclust, actsize)))
      (fs, d, c, bytesperclust fs) = Some (inl (fs', d', cur, (pos / bytesperclust fs + 1) * bytesperclust fs)) ∧
    fat_table g fs' d' pre rest T ∧ same_volume fs fs'.
Proof.
  intros HT Hb Hch Hpos. set (bpc := bytesperclust fs) in *. set (q := pos / bpc).
  assert (Hq : 0 ≤ q ∧ q * bpc ≤ pos < q * bpc + bpc)
    by (unfold q; pose proof (Z.div_mod pos bpc); pose proof (Z.mod_pos_bound pos bpc); split; [apply Z.div_pos|]; lia).
  loop_ix (Z.to_nat q)
    (λ (m : nat) '((fs1, d1, cur, act) : fsdata * dev * Z * Z), ∃ cs1 cs2, c :: cs = cs1 ++ cur :: cs2 ∧
       Z.of_nat (length cs1) ≤ q ∧ act = (Z.of_nat (length cs1) + 1) * bpc ∧ m = Z.to_nat (q - Z.of_nat (length cs1)) ∧
       fat_table g fs1 d1 pre rest T ∧ same_volume fs fs1)
    (λ (o : fsdata * dev * Z * Z + Z * Z * list Z * fsdata * dev), ∃ fs' d' cs1 cur cs2, c :: cs = cs1 ++ cur :: cs2 ∧
       Z.of_nat (length cs1) = q ∧ o = inl (fs', d', cur, (q + 1) * bpc) ∧
       fat_table g fs' d' pre rest T ∧ same_volume fs fs').
  - intros m [[[fs1 d1] cur] act] (cs1 & cs2 & Hcs & Hle & -> & -> & HT1 & Hs1).
    destruct (Z.leb_spec ((Z.of_nat (length cs1) + 1) * bpc) pos) as [Hp|Hp].
    + assert (Hlt : Z.of_nat (length cs1) + 1 ≤ q).
      { destruct (Z.le_gt_cases (Z.of_nat (length cs1) + 1) q); [done|]. exfalso.
        assert (Z.of_nat (length cs1) = q) as E by lia. rewrite E in Hp. lia. }
      assert (Hlen : Z.of_nat (length (c :: cs)) = Z.of_nat (length cs1) + 1 + Z.of_nat (length cs2))
        by (rewrite Hcs, length_app; cbn [length]; lia).
      destruct cs2 as [|nw cs2]; [change (length []) with 0%nat in Hlen; rewrite Hlen, Z.add_0_r in Hpos; lia|].
      rewrite Hcs in Hch. pose proof (chain_link _ _ _ _ _ _ Hch) as Hlink.
      apply chain_app in Hch as (Hck & _ & _ & Hck2 & _).
      assert (Hsz : fatsize fs1 = fatsize fs) by (by destruct Hs1 as (? & ? & ? & ->)). rewrite <-Hsz in Hck, Hck2.
      destruct (table_get g fs1 d1 pre rest T _ _ HT1 Hck Hlink) as (fs2 & d2 & -> & HT2 & Hs2).
      cbn [mbind option_bind]. assert (fatsize fs2 = fatsize fs1) as -> by (by destruct Hs2 as (? & ? & ? & ->)).
      rewrite Hck2. eexists. split; [done|]. exists (Z.to_nat (q - (Z.of_nat (length cs1) + 1))). split; [lia|].
      exists (cs1 ++ [cur]), cs2. rewrite length_app, <-app_assoc, Nat2Z.inj_add. cbn [length app].
      split_and!; try done; try lia. by eapply same_volume_trans.
    + assert (Z.of_nat (length cs1) = q) as E.
      { destruct (Z.le_gt_cases q (Z.of_nat (length cs1))); [lia|].
        pose proof (mul_step (Z.of_nat (length cs1)) q bpc). lia. }
      rewrite E. eexists. split; [done|]. by exists fs1, d1, cs1, cur, cs2.
  - exists [], cs. cbn [length app]. split_and!; try done; try lia. apply same_volume_refl.
  - lia.
  - destruct HQ as (fs' & d' & cs1 & cur & cs2 & Hcs & Hlen & -> & HT' & Hs').
    by exists fs', d', cs1, cur, cs2.
Qed.

(** The number of bytes that are read. *)
Definition read_size (filesize pos maxsize : Z) : Z :=
  if filesize <=? pos then 0
  else (if (0 <? maxsize) && (pos + maxsize <? filesize) then pos + maxsize else filesize) - pos.

Lemma get_contents_spec fs d pre rest T dent cs pos addr area maxsize (n := read_size (dsize dent) pos maxsize) :
  fat_table g fs d pre rest T → data_layout fs rest → chain fs T cs →
  (dsize dent ≠ 0 → head cs = Some (START fs dent)) →
  0 ≤ dsize dent ≤ Z.of_nat (length cs) * bytesperclust fs → 0 ≤ pos →
  n ≤ Z.of_nat (length area) < 2 ^ 31 →
  ∃ fs' d', get_contents g true fs d dent pos addr area maxsize =
      Some (0, n, splice area 0 (take (Z.to_nat n) (drop (Z.to_nat pos) (file_data fs rest cs))), fs', d') ∧
    fat_table g fs' d' pre rest T ∧ same_volume fs fs'.
Proof.
  intros HT Hl Hch Hhead Hsize Hpos Harea. unfold get_contents. unfold n, read_size in *. clear n.
  destruct (Z.leb_spec (dsize dent) pos) as [Hend|Hin].
  { exists fs, d. change (Z.to_nat 0) with 0%nat. rewrite take_0, splice_nil by lia. split; [done|].
    split; [done|apply same_volume_refl]. }
  set (last := if (0 <? maxsize) && (pos + maxsize <? dsize dent) then pos + maxsize else dsize dent) in *.
  assert (Hlast : pos < last ≤ dsize dent)
    by (unfold last; destruct (Z.ltb_spec 0 maxsize), (Z.ltb_spec (pos + maxsize) (dsize dent)); cbn [andb]; lia).
  destruct (table_geometry _ _ _ _ _ HT) as (_ & _ & _ & _ & _ & _ & Hss & _).
  assert (Hb : 0 < bytesperclust fs) by (apply Z.mul_pos_pos; [apply (dl_clust _ _ Hl)|lia]).
  destruct cs as [|c cs]; [cbn in Hsize; lia|]. specialize (Hhead ltac:(lia)). injection Hhead as ->.
  destruct (seek_spec fs d pre rest T _ cs pos area HT Hb Hch) as (fs1 & d1 & cs1 & cur & cs2 & Hcs & Hlen & -> & HT1 & Hs1);
    [lia|]. cbn [mbind option_bind].
  set (bpc := bytesperclust fs) in *. set (b := pos / bpc * bpc).
  assert (Hbp : 0 ≤ b ≤ pos ∧ pos < b + bpc).
  { unfold b. pose proof (Z.div_mod pos bpc). pose proof (Z.mod_pos_bound pos bpc).
    assert (0 ≤ pos / bpc) by (apply Z.div_pos; lia). assert (0 ≤ pos / bpc * bpc) by (apply Z.mul_nonneg_nonneg; lia). lia. }
  replace ((pos / bpc + 1) * bpc - bpc) with b by (unfold b; lia).
  rewrite Hcs in Hch, Hsize. pose proof (chain_in _ _ _ Hch) as Hin1. rewrite Forall_app in Hin1. destruct Hin1 as [Hin1 Hin2].
  pose proof (length_file_data _ _ _ _ _ _ HT Hl Hin1) as Hl1. pose proof (length_file_data _ _ _ _ _ _ HT Hl Hin2) as Hl2.
  fold bpc in Hl1, Hl2. rewrite Hlen in Hl1. fold b in Hl1. rewrite length_app, Nat2Z.inj_add, Hlen, Z.mul_add_distr_r in Hsize.
  fold b in Hsize. apply chain_app in Hch.
  assert (Hdrop : drop (Z.to_nat pos) (file_data fs rest (START fs dent :: cs)) =
    drop (Z.to_nat (pos - b)) (file_data fs rest (cur :: cs2))).
  { rewrite Hcs, file_data_app, drop_app_ge by lia. f_equal. lia. }
  rewrite Hdrop. assert (Hb1 : bytesperclust fs1 = bpc) by (by destruct Hs1 as (? & ? & ? & ->)).
  assert (Hdl1 : data_layout fs1 rest) by (by eapply data_layout_same).
  destruct (Z.eqb_spec (pos - b) 0) as [Ep|Ep].
  - destruct (get_runs_spec fs1 d1 pre rest T cur cs2 (last - b) addr area 0 0 HT1 Hdl1) as (fs2 & d2 & -> & HT2 & Hs2);
      [by eapply chain_same|rewrite Hb1; lia|lia|lia|].
    exists fs2, d2. split; [|split; [done|by eapply same_volume_trans]].
    rewrite (file_data_same fs) by done. rewrite Ep. replace (last - pos) with (last - b) by lia.
    change (Z.to_nat 0) with 0%nat. by rewrite drop_0.
  - cbn [negb]. pose proof (dl_bpc _ _ Hl) as Hbmax. fold bpc in Hbmax. set (p := pos - b) in *. set (act := Z.min (last - b) bpc).
    assert (Hact : 0 ≤ p < act ∧ act ≤ bpc ∧ act ≤ last - b ∧ (act < last - b → act = bpc)) by (unfold act, p; lia).
    inversion Hin2 as [|? ? Hcur Hin3]; subst.
    assert (Hin1' : Forall (clust_in fs1) (seqZ cur (Z.of_nat 1))).
    { constructor; [|constructor]. by destruct Hs1 as (? & ? & ? & ->). }
    destruct (get_run fs1 d1 pre rest T cur 0 act 0 (zero_buf act) 0 HT1 Hdl1 Hin1') as (d2 & -> & HT2);
      [rewrite Hb1; lia|lia|rewrite length_zero_buf; lia|].
    cbn [mbind option_bind]. change (negb (0 =? 0)) with false. cbv iota.
    rewrite (file_data_same fs) by done. set (C := cluster_data fs rest cur).
    assert (HC : length C = Z.to_nat bpc) by (by eapply length_cluster_data).
    assert (Hone : file_data fs rest (seqZ cur (Z.of_nat 1)) = C) by apply app_nil_r. rewrite Hone.
    assert (Htmp : splice (zero_buf act) (Z.to_nat 0) (take (Z.to_nat act) C) = take (Z.to_nat act) C).
    { unfold splice. change (Z.to_nat 0) with 0%nat. rewrite take_0, drop_ge, app_nil_r; [done|].
      rewrite length_zero_buf, length_take. lia. }
    assert (Htl : length (take (Z.to_nat act) C) = Z.to_nat act) by (rewrite length_take; lia).
    rewrite Htmp, load_at_spec by lia. cbn [mbind option_bind].
    rewrite (take_ge (drop _ _)) by (rewrite length_drop, Htl; lia).
    set (X := drop (Z.to_nat p) (take (Z.to_nat act) C)).
    assert (HX : Z.of_nat (length X) = act - p) by (unfold X; rewrite length_drop, Htl; lia).
    rewrite store_at_spec by lia. cbn [mbind option_bind]. change (Z.to_nat 0) with 0%nat.
    change (file_data fs rest (cur :: cs2)) with (C ++ file_data fs rest cs2).
    destruct (Z.eqb_spec (last - b - act) 0) as [Ea|Ea].
    + exists fs1, d2. split; [|done]. replace (last - pos) with (act - p) by (unfold p; lia). do 3 f_equal.
      rewrite drop_app_le, take_app_le by (rewrite ?length_drop; lia). f_equal.
      unfold X. rewrite skipn_firstn_comm. by rewrite Z2Nat.inj_sub by lia.
    + assert (act = bpc) as Eact by lia. destruct cs2 as [|nw cs3]; [cbn [length] in Hsize; lia|].
      pose proof Hch as (Hck & _ & Hlink & Hch3). pose proof Hch3 as (Hck3 & _).
      assert (Hsz : fatsize fs1 = fatsize fs) by (by destruct Hs1 as (? & ? & ? & ->)). rewrite <-Hsz in Hck, Hck3.
      destruct (table_get g fs1 d2 pre rest T _ _ HT2 Hck Hlink) as (fs3 & d3 & -> & HT3 & Hs3).
      cbn [mbind option_bind]. assert (fatsize fs3 = fatsize fs1) as -> by (by destruct Hs3 as (? & ? & ? & ->)).
      rewrite Hck3. assert (Hs03 : same_volume fs fs3) by (by eapply same_volume_trans).
      assert (Hb3 : bytesperclust fs3 = bpc) by (by destruct Hs03 as (? & ? & ? & ->)).
      assert (Hsa : length (splice area 0 X) = length area) by (apply length_splice; lia).
      destruct (get_runs_spec fs3 d3 pre rest T nw cs3 (last - b - act) addr (splice area 0 X) (act - p) (act - p) HT3)
        as (fs4 & d4 & -> & HT4 & Hs4);
        [by eapply data_layout_same|by eapply chain_same|rewrite Hb3; cbn [length] in *; lia|lia|rewrite Hsa; lia|].
      exists fs4, d4. split; [|split; [done|by eapply same_volume_trans]].
      rewrite (file_data_same fs) by done. replace (act - p + (last - b - act)) with (last - pos) by (unfold p; lia).
      do 3 f_equal. replace (Z.to_nat (act - p)) with (0 + length X)%nat by lia.
      rewrite splice_extend.
      * do 2 f_equal. rewrite drop_app_le, take_app_ge by (rewrite ?length_drop; lia).
        f_equal; [unfold X; by rewrite take_ge by lia|]. f_equal. rewrite length_drop. unfold p. lia.
      * rewrite length_take. lia.
Qed.

(** The entry of a directory reads as [bytes]: any part of them, at any
    position. *)
Definition reads fs d dent (bytes : list Z) : Prop := ∀ pos maxsize addr area,
  let n := read_size (dsize dent) pos maxsize in 0 ≤ pos → n ≤ Z.of_nat (length area) < 2 ^ 31 →
  ∃ fs' d', get_contents g true fs d dent pos addr area maxsize =
    Some (0, n, splice area 0 (take (Z.to_nat n) (drop (Z.to_nat pos) bytes)), fs', d').

(** A file of the volume. *)
Definition file_of fs T dent (cs : list Z) : Prop := chain fs T cs ∧
  (dsize dent ≠ 0 → head cs = Some (START fs dent)) ∧
  0 ≤ dsize dent ≤ Z.of_nat (length cs) * bytesperclust fs.

Lemma read_size_range size pos maxsize : 0 ≤ pos → 0 ≤ size →
  read_size size pos maxsize = 0 ∨ 0 ≤ read_size size pos maxsize ≤ size - pos.
Proof.
  intros Hp Hs. unfold read_size. destruct (Z.leb_spec size pos); [by left|].
  destruct (Z.ltb_spec 0 maxsize), (Z.ltb_spec (pos + maxsize) size); cbn [andb]; right; lia.
Qed.

Lemma file_reads fs d pre rest T dent cs : fat_table g fs d pre rest T → data_layout fs rest →
  file_of fs T dent cs → reads fs d dent (take (Z.to_nat (dsize dent)) (file_data fs rest cs)).
Proof.
  intros HT Hl (Hch & Hhead & Hsize) pos maxsize addr area n Hpos Harea.
  destruct (get_contents_spec fs d pre rest T dent cs pos addr area maxsize HT Hl Hch Hhead Hsize Hpos Harea)
    as (fs' & d' & -> & _). fold n. exists fs', d'. do 4 f_equal.
  destruct (read_size_range (dsize dent) pos maxsize Hpos ltac:(lia)) as [E|E]; fold n in E.
  - by rewrite E.
  - rewrite skipn_firstn_comm, take_take, Nat.min_l by lia. done.
Qed.
End data.

(** C16. Reading a file: from any position, with or without a limit on the
    number of bytes, and for any alignment of the caller's buffer,
    [get_contents] returns 0 and puts the bytes of the file, gathered along its
    chain in the table, at the start of the buffer; the rest of the buffer, the
    table and the device stay as they are. *)
Theorem get_contents_correct `{!BlockDev, !DevWorks} g fs d pre rest T dent cs pos addr area maxsize
    (n := read_size (dsize dent) pos maxsize) :
  fat_table g fs d pre rest T → data_layout g fs rest → file_of g fs T dent cs →
  0 ≤ pos → n ≤ Z.of_nat (length area) < 2 ^ 31 →
  ∃ fs' d', get_contents g true fs d dent pos addr area maxsize =
      Some (0, n, splice area 0 (take (Z.to_nat n) (drop (Z.to_nat pos) (file_data fs rest cs))), fs', d') ∧
    fat_table g fs' d' pre rest T ∧ same_volume fs fs'.
Proof. intros HT Hl (Hch & Hhead & Hsize). by apply get_contents_spec. Qed.

(** ** Examples *)

(** The volume [small] with two files: "ABCDEFGH" in the clusters 3 and 5, and
    "1234" in cluster 4. *)
Definition file_fat : list Z := [0; 0; 0; 0; 0x50; 0; 0xff; 0xff; 0xff] ++ replicate 23 0.
Definition file_rest : list Z := replicate 8 0 ++ [65; 66; 67; 68; 49; 50; 51; 52; 69; 70; 71; 72] ++ replicate 32 0.
Definition file_disk : list Z := replicate 8 0 ++ file_fat ++ file_fat ++ file_rest.
Definition file_table : list Z := [0; 0; 0; 5; 0xfff; 0xfff] ++ replicate 15 0.

Definition entry_at (first size : Z) : dir_entry :=
  {| name := []; ext := []; attr := 0; lcase := 0; ctime_ms := 0; ctime := 0; cdate := 0; adate := 0;
     starthi := 0; dtime := 0; date := 0; start := first; dsize := size |}.

Lemma small_state : @fat_table small_dev small_globals small file_disk (replicate 8 0) file_rest file_table.
Proof.
  exists file_fat, file_fat. split; [|reflexivity]. split.
  - split; try done; cbn; try lia. by left.
  - reflexivity.
  - exact I.
  - reflexivity.
  - split_and!; repeat constructor; lia.
  - by left.
Qed.

Lemma small_layout : data_layout small_globals small file_rest.
Proof. by split; vm_compute. Qed.

Lemma small_file first size cs : @chain small_globals small file_table cs → head cs = Some first →
  0 ≤ size ≤ Z.of_nat (length cs) * 4 → 0 ≤ first < 2 ^ 16 → @file_of small_globals small file_table (entry_at first size) cs.
Proof.
  intros Hch Hhead Hsize Hf. split; [done|]. split; [|done]. intros _. rewrite Hhead. unfold START, entry_at. cbn.
  by rewrite Z.add_0_r, wrap_small by lia.
Qed.

Lemma small_chain : @chain small_globals small file_table [3; 5].
Proof. unfold chain, clust_in. split_and!; done. Qed.

Lemma get_contents_correct_witness :
  ∃ fs' d', @get_contents small_dev small_globals true small file_disk (entry_at 3 7) 2 4 (replicate 6 0) 0 =
      Some (0, 5, [67; 68; 69; 70; 71; 0], fs', d') ∧
    @fat_table small_dev small_globals fs' d' (replicate 8 0) file_rest file_table ∧ same_volume small fs'.
Proof.
  apply (@get_contents_correct small_dev (ramdisk_works 4 four_pos) small_globals small file_disk
    (replicate 8 0) file_rest file_table (entry_at 3 7) [3; 5] 2 4 (replicate 6 0) 0 small_state small_layout).
  - apply small_file; [apply small_chain|done|cbn; lia|lia].
  - lia.
  - vm_compute. split; [discriminate|reflexivity].
Defined.
