(* ===== verification/FatWrite.v ===== *)
(** * FatWrite: writing and deleting files of a FAT volume (fs/fat/fat_write.c)

    [set_contents] overwrites the clusters that a file has, and allocates free
    clusters for the rest; [clear_fatent] frees the clusters of a file.  The
    assertions of the code are not compiled in and have no counterpart.  The
    searches for free clusters end at the first entry that reads as 0; their
    fuel [fat_fuel] is the number of entries that the table and the rest of its
    last buffer can hold. *)

From Stdlib Require Import ZArith Lia List.
From stdpp Require Import base numbers list option.
From S2P Require Import Prelude BlockDev FatTable FatFile.

Section operations.
Context {HBD : BlockDev} (g : fat_globals).
Implicit Types (fs : fsdata) (d : dev) (area data : list Z).

(** [size] bytes from position [off] of the buffer to the sectors from
    [startsect] on; the rest of the last sector is filled with zeros. *)
Definition set_sectors fs d (startsect addr : Z) data (off size : Z) : option (Z * dev) :=
  let ss := sect_size fs in
  r ← (if misaligned (addr + off) then
         loop (S (Z.to_nat size)) (λ '(d, off, startsect, size),
           if ss <=? size then
             tmpbuf ← load_at data off ss;
             let '(ret, d) := disk_write g d startsect 1 tmpbuf in
             if negb (ret =? 1) then Some (Return d)
             else Some (Next (d, off + ss, u32 (startsect + 1), size - ss))
           else Some (Break (d, off, startsect, size)))
         (d, off, startsect, size)
       else if ss <=? size then
         let nsects := size / ss in
         bytes ← load_at data off (nsects * ss);
         let '(ret, d) := disk_write g d startsect nsects bytes in
         Some (if negb (u32 ret =? nsects) then inr d
               else inl (d, off + nsects * ss, u32 (startsect + nsects), size - nsects * ss))
       else Some (inl (d, off, startsect, size)));
  match r with
  | inr d => Some (-1, d)
  | inl (d, off, startsect, size) =>
      if size =? 0 then Some (0, d)
      else
        bytes ← load_at data off size;
        tmpbuf ← store_at (zero_buf ss) 0 bytes;
        let '(ret, d) := disk_write g d startsect 1 tmpbuf in
        Some (if negb (ret =? 1) then -1 else 0, d)
  end.

Definition set_cluster fs d (clustnum addr : Z) data (off size : Z) : option (Z * dev) :=
  set_sectors fs d (clust_to_sect fs clustnum) addr data off size.

(** A part of a cluster is replaced in [tmpbuf_cluster]. *)
Definition modify_cluster fs d (startsect pos : Z) data (off wsize : Z) : option (Z * dev) :=
  '(ret, tmpbuf_cluster, d) ← disk_read g d startsect (clust_size fs) (zero_buf (bytesperclust fs));
  if negb (ret =? clust_size fs) then Some (-1, d)
  else
    bytes ← load_at data off wsize;
    tmpbuf_cluster ← store_at tmpbuf_cluster pos bytes;
    let '(ret, d) := disk_write g d startsect (clust_size fs) tmpbuf_cluster in
    Some (if negb (ret =? clust_size fs) then -1 else 0, d).

(** Existing clusters that follow each other; the result has [*gotsize]. *)
Definition get_set_cluster fs d (clustnum pos addr : Z) data (off size : Z) : option (Z * Z * dev) :=
  let bpc := bytesperclust fs in
  if size =? 0 then Some (0, 0, d)
  else
    let startsect := clust_to_sect fs clustnum in
    let wsize := if pos =? 0 then 0 else Z.min (bpc - pos) size in
    '(ret, d) ← (if pos =? 0 then Some (0, d) else modify_cluster fs d startsect pos data off wsize);
    let startsect := if pos =? 0 then startsect else u32 (startsect + clust_size fs) in
    let size := size - wsize in
    let off := off + wsize in
    let gotsize := wsize in
    if negb (ret =? 0) then Some (-1, 0, d)
    else if negb (pos =? 0) && (size =? 0) then Some (0, gotsize, d)
    else
      r ← (if bpc <=? size then
             let clustcount := size / bpc in
             if negb (misaligned (addr + off)) then
               let wsize := clustcount * bpc in
               bytes ← load_at data off wsize;
               let '(ret, d) := disk_write g d startsect (clustcount * clust_size fs) bytes in
               Some (if negb (ret =? clustcount * clust_size fs) then inr (gotsize, d)
                     else inl (d, size - wsize, off + wsize, gotsize + wsize,
                               u32 (startsect + clustcount * clust_size fs)))
             else
               o ← loop (S (Z.to_nat clustcount)) (λ '(d, size, off, gotsize, startsect, i),
                   if i <? clustcount then
                     tmpbuf_cluster ← load_at data off bpc;
                     let '(ret, d) := disk_write g d startsect (clust_size fs) tmpbuf_cluster in
                     if negb (ret =? clust_size fs) then Some (Return (gotsize, d))
                     else Some (Next (d, size - bpc, off + bpc, gotsize + bpc,
                                      u32 (startsect + clust_size fs), i + 1))
                   else Some (Break (d, size, off, gotsize, startsect, i)))
                 (d, size, off, gotsize, startsect, 0);
               Some (match o with
                     | inl (d, size, off, gotsize, startsect, _) => inl (d, size, off, gotsize, startsect)
                     | inr e => inr e
                     end)
           else Some (inl (d, size, off, gotsize, startsect)));
      match r with
      | inr (gotsize, d) => Some (-1, gotsize, d)
      | inl (d, size, off, gotsize, startsect) =>
          if size =? 0 then Some (0, gotsize, d)
          else
            '(ret, d) ← modify_cluster fs d startsect 0 data off size;
            Some (if negb (ret =? 0) then (-1, gotsize, d) else (0, gotsize + size, d))
      end.

(** The searches go through the entries of the table and the rest of its last
    buffer at most. *)
Definition fat_fuel fs : nat :=
  S (Z.to_nat (entries_in (fatsize fs) (fatlength fs * sect_size fs + FATBUFSIZE fs))).

Definition find_empty_cluster fs d : option (Z * fsdata * dev) :=
  '(fs, d, e) ← loop_brk (fat_fuel fs) (λ '(fs, d, e),
      '(fat_val, fs, d) ← get_fatent g fs d e;
      if fat_val =? 0 then Some (Break (fs, d, e)) else Some (Next (fs, d, u32 (e + 1))))
    (fs, d, 3);
  Some (s32 e, fs, d).

Definition determine_fatent fs d (e : Z) : option (Z * fsdata * dev) :=
  '(fs, d, next_entry) ← loop_brk (fat_fuel fs) (λ '(fs, d, next_entry),
      '(next_fat, fs, d) ← get_fatent g fs d next_entry;
      if next_fat =? 0 then
        '(_, fs, d) ← set_fatent_value g fs d e next_entry;
        Some (Break (fs, d, next_entry))
      else Some (Next (fs, d, u32 (next_entry + 1))))
    (fs, d, u32 (e + 1));
  Some (next_entry, fs, d).

Definition clear_fatent fs d (e : Z) : option (Z * fsdata * dev) :=
  '(fs, d, _) ← loop_brk (fat_fuel fs) (λ '(fs, d, e),
      if negb (CHECK_CLUST e (fatsize fs)) then
        '(fat_val, fs, d) ← get_fatent g fs d e;
        if negb (fat_val =? 0) then
          '(_, fs, d) ← set_fatent_value g fs d e 0;
          Some (Next (fs, d, fat_val))
        else Some (Break (fs, d, e))
      else Some (Break (fs, d, e)))
    (fs, d, e);
  let '(ret, fs, d) := flush_dirty_fat_buffer g fs d in
  Some (if ret <? 0 then -1 else 0, fs, d).

Definition check_overflow fs (clustnum filesize : Z) : Z :=
  let startsect := if 0 <? clustnum then clust_to_sect fs clustnum else rootdir_sect fs in
  let sect_num := u32 (filesize / sect_size fs) in
  let sect_num := if negb (filesize mod sect_size fs =? 0) then u32 (sect_num + 1) else sect_num in
  if u32 (total_sector g) <? u32 (startsect + sect_num) then -1 else 0.

(** The mark for the end of a file. *)
Definition eof_mark fs : Z :=
  if fatsize fs =? 12 then 0xfff else if fatsize fs =? 16 then 0xffff else 0xfffffff.

(** The result is the returned value, [*gotsize], the directory entry and the
    state. *)
Abbreviation written := (Z * Z * dir_entry * fsdata * dev)%type.

(** New clusters are allocated from [curclust] on and written. *)
Definition set_runs fs d (dentptr : dir_entry) (curclust filesize addr : Z) data (off gotsize : Z)
    : option written :=
  let bpc := bytesperclust fs in
  o ← loop (S (S (Z.to_nat (filesize / bpc)))) (λ '(fs, d, curclust, filesize, off, gotsize),
      e ← consecutive determine_fatent fs d curclust filesize;
      match e with
      | Invalid fs d => Some (Return (0, gotsize, dentptr, fs, d))
      | EndOfFile fs d endclust =>
          '(ret, d) ← set_cluster fs d curclust addr data off (u32 filesize);
          if negb (ret =? 0) then Some (Return (-1, gotsize, dentptr, fs, d))
          else
            '(_, fs, d) ← set_fatent_value g fs d endclust (eof_mark fs);
            Some (Return (0, gotsize + filesize, dentptr, fs, d))
      | Elsewhere fs d endclust actsize newclust =>
          '(ret, d) ← set_cluster fs d curclust addr data off (u32 actsize);
          if negb (ret =? 0) then Some (Return (-1, gotsize, dentptr, fs, d))
          else
            let gotsize := gotsize + actsize in
            if CHECK_CLUST newclust (fatsize fs) then Some (Return (0, gotsize, dentptr, fs, d))
            else Some (Next (fs, d, newclust, filesize - actsize, off + actsize, gotsize))
      end)
    (fs, d, curclust, filesize, off, gotsize);
  match o with inl _ => None | inr r => Some r end.

(** From the label [set_clusters] on. *)
Definition set_clusters fs d (dentptr : dir_entry) (curclust filesize addr : Z) data (off gotsize : Z)
    : option written :=
  r ← (if curclust =? 0 then
         '(c, fs, d) ← find_empty_cluster fs d;
         Some (inl (u32 c, set_start_cluster fs dentptr (u32 c), fs, d))
       else
         '(newclust, fs, d) ← get_fatent g fs d curclust;
         if IS_LAST_CLUST newclust (fatsize fs) then
           '(newclust, fs, d) ← determine_fatent fs d curclust;
           '(_, fs, d) ← set_fatent_value g fs d curclust newclust;
           Some (inl (newclust, dentptr, fs, d))
         else Some (inr (-1, gotsize, dentptr, fs, d)));
  match r with
  | inr w => Some w
  | inl (curclust, dentptr, fs, d) =>
      if negb (check_overflow fs curclust filesize =? 0) then Some (-1, gotsize, dentptr, fs, d)
      else set_runs fs d dentptr curclust filesize addr data off gotsize
  end.

(** The clusters of the file from [curclust] on, until the range written or the
    file ends.  The code keeps the last value of [newclust] where the first test
    ends the loop at once; the value is not used then, because [cur_pos] reaches
    [filesize]. *)
Definition allocated fs d (curclust cur_pos filesize : Z)
    : option (Z * Z * Z * fsdata * dev + fsdata * dev) :=
  let bpc := bytesperclust fs in
  o ← loop (S (S (Z.to_nat (filesize / bpc)))) (λ '(fs, d, actsize, endclust, newclust),
      if filesize <=? cur_pos + actsize then Some (Break (fs, d, actsize, endclust, newclust))
      else
        '(newclust, fs, d) ← get_fatent g fs d endclust;
        if IS_LAST_CLUST newclust (fatsize fs) then Some (Break (fs, d, actsize, endclust, newclust))
        else if CHECK_CLUST newclust (fatsize fs) then Some (Return (fs, d))
        else Some (Next (fs, d, actsize + bpc, newclust, newclust)))
    (fs, d, bpc, curclust, 0);
  Some (match o with
        | inl (fs, d, actsize, endclust, newclust) => inl (actsize, endclust, newclust, fs, d)
        | inr e => inr e
        end).

(** The result is [*gotsize], [cur_pos] and [endclust], or [*gotsize] where the
    function returns -1. *)
Definition overwrite fs d (curclust cur_pos pos filesize addr : Z) data
    : option (Z * Z * Z * fsdata * dev + Z * fsdata * dev) :=
  let bpc := bytesperclust fs in
  o ← loop (S (S (Z.to_nat (filesize / bpc)))) (λ '(fs, d, curclust, cur_pos, endclust, off),
      a ← allocated fs d curclust cur_pos filesize;
      match a with
      | inr (fs, d) => Some (Return (off, fs, d))
      | inl (actsize, endclust, newclust, fs, d) =>
          let offset := if pos <? cur_pos then 0 else pos - cur_pos in
          let wsize := Z.min (cur_pos + actsize) filesize - pos in
          '(ret, _, d) ← get_set_cluster fs d curclust offset addr data off wsize;
          if negb (ret =? 0) then Some (Return (off, fs, d))
          else
            let off := off + wsize in
            let cur_pos := cur_pos + (offset + wsize) in
            if (filesize <=? cur_pos) || IS_LAST_CLUST newclust (fatsize fs)
            then Some (Break (fs, d, newclust, cur_pos, endclust, off))
            else Some (Next (fs, d, newclust, cur_pos, endclust, off))
      end)
    (fs, d, curclust, cur_pos, 0, 0);
  Some (match o with
        | inl (fs, d, _, cur_pos, endclust, off) => inl (off, cur_pos, endclust, fs, d)
        | inr e => inr e
        end).

(** The cluster at position [pos]: the cluster and the end of its bytes. *)
Definition seek_cluster fs d (curclust pos : Z) : option (Z * Z * fsdata * dev + fsdata * dev) :=
  let bpc := bytesperclust fs in
  o ← loop (S (S (Z.to_nat (pos / bpc)))) (λ '(fs, d, curclust, cur_pos),
      if (pos <=? cur_pos) || IS_LAST_CLUST curclust (fatsize fs)
      then Some (Break (fs, d, curclust, cur_pos))
      else
        '(newclust, fs, d) ← get_fatent g fs d curclust;
        if negb (IS_LAST_CLUST newclust (fatsize fs)) && CHECK_CLUST newclust (fatsize fs)
        then Some (Return (fs, d))
        else Some (Next (fs, d, newclust, cur_pos + bpc)))
    (fs, d, curclust, bpc);
  Some (match o with
        | inl (fs, d, curclust, cur_pos) => inl (curclust, cur_pos, fs, d)
        | inr e => inr e
        end).

Definition set_contents fs d (dentptr : dir_entry) (pos addr : Z) data (maxsize : Z) : option written :=
  let bpc := bytesperclust fs in
  let curclust := START fs dentptr in
  let filesize := pos + maxsize in
  if filesize =? 0 then
    if curclust =? 0 then Some (0, 0, dentptr, fs, d)
    else if negb (CHECK_CLUST curclust (fatsize fs)) || IS_LAST_CLUST curclust (fatsize fs) then
      '(_, fs, d) ← clear_fatent fs d curclust;
      Some (0, 0, set_start_cluster fs dentptr 0, fs, d)
    else Some (-1, 0, dentptr, fs, d)
  else if curclust =? 0 then set_clusters fs d dentptr curclust filesize addr data 0 0
  else
    a ← seek_cluster fs d curclust pos;
    match a with
    | inr (fs, d) => Some (-1, 0, dentptr, fs, d)
    | inl (curclust, cur_pos, fs, d) =>
        if IS_LAST_CLUST curclust (fatsize fs)
        then set_clusters fs d dentptr curclust filesize addr data 0 0
        else
          o ← overwrite fs d curclust (cur_pos - bpc) pos filesize addr data;
          match o with
          | inr (gotsize, fs, d) => Some (-1, gotsize, dentptr, fs, d)
          | inl (gotsize, cur_pos, endclust, fs, d) =>
              if filesize <=? cur_pos then
                '(newclust, fs, d) ← get_fatent g fs d endclust;
                if negb (IS_LAST_CLUST newclust (fatsize fs)) then
                  '(_, fs, d) ← clear_fatent fs d newclust;
                  '(_, fs, d) ← set_fatent_value g fs d endclust (eof_mark fs);
                  Some (0, gotsize, dentptr, fs, d)
                else Some (0, gotsize, dentptr, fs, d)
              else set_clusters fs d dentptr endclust (filesize - cur_pos) addr data gotsize gotsize
          end
    end.
End operations.

Section data.
Context {HBD : BlockDev} {HDW : DevWorks} (g : fat_globals).
Implicit Types (fs : fsdata) (d : dev) (pre rest T area data : list Z).

(** ** Writing data *)

Lemma write_data fs d pre rest T s n buf : fat_table g fs d pre rest T → data_layout g fs rest →
  data_sect fs ≤ s → 0 < n → s + n ≤ total_sector g → n * sect_size fs ≤ Z.of_nat (length buf) →
  ∃ d', disk_write g d s n buf = (n, d') ∧
    fat_table g fs d' pre (splice rest (Z.to_nat ((s - data_sect fs) * sect_size fs))
                             (take (Z.to_nat (n * sect_size fs)) buf)) T ∧
    (s - data_sect fs) * sect_size fs + n * sect_size fs ≤ Z.of_nat (length rest).
Proof.
  intros HT Hl Hs Hn Hsn Hbuf.
  destruct (table_geometry g _ _ _ _ _ HT) as (Hc & Hp & Htot & Hd & Hds & Hss & Hpos & _ & before & Hcont & Hbef).
  pose proof (dl_rest _ _ _ Hl) as Hrest.
  assert (Hoff : (part_start g + s) * sect_size fs = Z.of_nat (length before) + (s - data_sect fs) * sect_size fs)
    by (rewrite Hbef; ring).
  assert (Hend : (s - data_sect fs) * sect_size fs + n * sect_size fs ≤ Z.of_nat (length rest)).
  { rewrite <-Z.mul_add_distr_r. etransitivity; [|exact Hrest]. apply Z.mul_le_mono_nonneg_r; lia. }
  assert (Hx : 0 ≤ (s - data_sect fs) * sect_size fs) by (apply Z.mul_nonneg_nonneg; lia).
  assert (Hy : 0 ≤ n * sect_size fs) by (apply Z.mul_nonneg_nonneg; lia).
  destruct (disk_write_spec g d s n buf) as (d' & -> & Hd' & Hc').
  1-7: first [done | lia].
  { by rewrite <-Hss. }
  { rewrite <-Hss, Z.mul_add_distr_r, Hoff, Hcont, length_app. lia. }
  exists d'. split; [done|]. split; [|done].
  assert (Hlt : length (take (Z.to_nat (n * sect_size fs)) buf) = Z.to_nat (n * sect_size fs)) by (rewrite length_take; lia).
  rewrite <-Hss, Hoff in Hc'. destruct HT as (B & F & Hst & ->). exists B, F. split; [|done].
  pose proof Hst as [Hl' Hcont' _ Hbuf' Hbytes Hview]. constructor; try done. rewrite Hc', Hcont.
  assert (Hbl : before = pre ++ copies fs F).
  { rewrite Hcont' in Hcont. rewrite app_assoc in Hcont. by apply app_inj_1 in Hcont as [? _];
    [|apply Nat2Z.inj; rewrite Hbef, length_app, Nat2Z.inj_add; rewrite (fl_pre _ _ _ _ Hl');
      unfold data_sect, copies; pose proof (fl_len _ _ _ _ Hl'); destruct (fats fs =? 2); rewrite ?length_app; lia]. }
  replace (Z.to_nat (Z.of_nat (length before) + (s - data_sect fs) * sect_size fs))
    with (length before + Z.to_nat ((s - data_sect fs) * sect_size fs))%nat by lia.
  pose proof (splice_app before rest [] (Z.to_nat ((s - data_sect fs) * sect_size fs))
    (take (Z.to_nat (n * sect_size fs)) buf)) as E. rewrite !app_nil_r in E. rewrite E by lia.
  by rewrite Hbl, <-app_assoc.
Qed.

(** The bytes after [size] bytes in their last sector. *)
Definition padding fs (size : Z) : Z := (- size) mod sect_size fs.

(** The sectors that the loop has written. *)
Lemma set_sectors_loop fs d pre rest T c size data off (E := drop (Z.to_nat off) data) :
  fat_table g fs d pre rest T → data_layout g fs rest → 2 ≤ c → 0 ≤ off → 0 ≤ size →
  off + size ≤ Z.of_nat (length data) →
  (data_begin fs + c * clust_size fs) * sect_size fs + size ≤ total_sector g * sect_size fs →
  let s := data_begin fs + c * clust_size fs in
  let k := size / sect_size fs in
  ∃ d', loop (S (Z.to_nat size)) (λ '(d, off, startsect, size),
           if sect_size fs <=? size then
             tmpbuf ← load_at data off (sect_size fs);
             let '(ret, d) := disk_write g d startsect 1 tmpbuf in
             if negb (ret =? 1) then Some (Return d)
             else Some (Next (d, off + sect_size fs, u32 (startsect + 1), size - sect_size fs))
           else Some (Break (d, off, startsect, size)))
         (d, off, s, size) =
    Some (inl (d', off + k * sect_size fs, s + k, size - k * sect_size fs)) ∧
    fat_table g fs d' pre (splice rest (Z.to_nat (cluster_off fs c)) (take (Z.to_nat (k * sect_size fs)) E)) T.
Proof.
  intros HT Hl Hc Hoff Hsize Hdata Hin s k.
  destruct (cluster_start g _ _ _ _ _ _ _ HT Hl Hc Hsize Hin) as (Hs & _ & Hco0 & Hco & Hend). fold s in Hs, Hco, Hin.
  destruct (table_geometry g _ _ _ _ _ HT) as (_ & Hp & Htot & _ & Hds & _ & Hpos & _).
  set (ss := sect_size fs) in *. set (co := cluster_off fs c) in *.
  assert (Hk : 0 ≤ k ∧ k * ss ≤ size < k * ss + ss)
    by (unfold k; pose proof (Z.div_mod size ss); pose proof (Z.mod_pos_bound size ss); split; [apply Z.div_pos|]; lia).
  destruct Hk as [Hk0 Hk].
  assert (Hsk : s + k ≤ total_sector g) by (apply (Z.mul_le_mono_pos_r _ _ ss); lia).
  assert (HE : Z.of_nat (length E) = Z.of_nat (length data) - off) by (unfold E; rewrite length_drop; lia).
  loop_ix (Z.to_nat k)
    (λ (n : nat) '((d1, off1, s1, size1) : dev * Z * Z * Z), ∃ j, 0 ≤ j ≤ k ∧ n = Z.to_nat (k - j) ∧
       off1 = off + j * ss ∧ s1 = s + j ∧ size1 = size - j * ss ∧
       fat_table g fs d1 pre (splice rest (Z.to_nat co) (take (Z.to_nat (j * ss)) E)) T)
    (λ (o : dev * Z * Z * Z + dev), ∃ d', o = inl (d', off + k * ss, s + k, size - k * ss) ∧
       fat_table g fs d' pre (splice rest (Z.to_nat co) (take (Z.to_nat (k * ss)) E)) T).
  - intros n [[[d1 off1] s1] size1] (j & Hj & -> & -> & -> & -> & HT1).
    destruct (Z.leb_spec ss (size - j * ss)) as [Hle|Hgt].
    + assert (Hjk : j + 1 ≤ k)
        by (destruct (Z.le_gt_cases (j + 1) k); [done|exfalso; assert (j = k) as -> by lia; lia]).
      assert (Hjs : 0 ≤ j * ss ∧ j * ss + ss ≤ k * ss) by (apply mul_step; lia).
      rewrite load_at_spec by lia. cbn [mbind option_bind].
      assert (Hlj : length (take (Z.to_nat (j * ss)) E) = Z.to_nat (j * ss)) by (rewrite length_take; lia).
      destruct (write_data fs d1 pre _ T (s + j) 1 (take (Z.to_nat ss) (drop (Z.to_nat (off + j * ss)) data)) HT1)
        as (d2 & -> & HT2 & _).
      { eapply data_layout_rest; [|exact Hl]. apply length_splice. lia. }
      { lia. } { lia. } { lia. }
      { rewrite Z.mul_1_l, length_take, length_drop. fold ss. lia. }
      change (negb (1 =? 1)) with false. cbv iota. eexists. split; [done|].
      exists (Z.to_nat (k - (j + 1))). split; [lia|]. exists (j + 1).
      rewrite (wrap_small 32 (s + j + 1)), (Z.mul_add_distr_r j 1 ss), Z.mul_1_l by lia.
      split_and!; try done; try lia. fold ss in HT2. rewrite Z.mul_1_l, take_take, Nat.min_id in HT2.
      replace (Z.to_nat ((s + j - data_sect fs) * ss)) with (Z.to_nat co + Z.to_nat (j * ss))%nat in HT2 by lia.
      replace (drop (Z.to_nat (off + j * ss)) data) with (drop (Z.to_nat (j * ss)) E) in HT2
        by (unfold E; rewrite drop_drop; f_equal; lia).
      rewrite splice_next in HT2 by lia. by rewrite Z2Nat.inj_add by lia.
    + assert (j = k) as ->.
      { destruct (Z.le_gt_cases k j); [lia|]. pose proof (mul_step j k ss). lia. }
      eexists. split; [done|]. by exists d1.
  - exists 0. rewrite Z.mul_0_l, !Z.add_0_r, !Z.sub_0_r. change (Z.to_nat 0) with 0%nat.
    rewrite take_0, splice_nil by lia. split_and!; try done; lia.
  - pose proof (Z.mul_le_mono_nonneg_l 1 ss k). lia.
  - destruct HQ as (d' & -> & HT'). by exists d'.
Qed.

(** [set_cluster] writes the bytes from the start of the cluster on, and zeros
    to the end of the last sector. *)
Lemma set_cluster_spec fs d pre rest T c size addr data off (E := drop (Z.to_nat off) data) :
  fat_table g fs d pre rest T → data_layout g fs rest → 2 ≤ c → 0 ≤ off → 0 ≤ size →
  off + size ≤ Z.of_nat (length data) →
  (data_begin fs + c * clust_size fs) * sect_size fs + size ≤ total_sector g * sect_size fs →
  ∃ d', set_cluster g fs d c addr data off size = Some (0, d') ∧
    fat_table g fs d' pre
      (splice rest (Z.to_nat (cluster_off fs c)) (take (Z.to_nat size) E ++ zero_buf (padding fs size))) T ∧
    cluster_off fs c + size + padding fs size ≤ Z.of_nat (length rest).
Proof.
  intros HT Hl Hc Hoff Hsize Hdata Hin.
  destruct (cluster_start g _ _ _ _ _ _ _ HT Hl Hc Hsize Hin) as (Hs & Hsect & Hco0 & Hco & Hend).
  destruct (table_geometry g _ _ _ _ _ HT) as (_ & Hp & Htot & _ & Hds & _ & Hpos & _).
  unfold set_cluster, set_sectors. rewrite Hsect.
  set (ss := sect_size fs) in *. set (s := data_begin fs + c * clust_size fs) in *. set (k := size / ss).
  set (co := cluster_off fs c) in *.
  assert (Hk : 0 ≤ k ∧ k * ss ≤ size < k * ss + ss)
    by (unfold k; pose proof (Z.div_mod size ss); pose proof (Z.mod_pos_bound size ss); split; [apply Z.div_pos|]; lia).
  destruct Hk as [Hk0 Hk]. assert (Hkss : 0 ≤ k * ss) by (apply Z.mul_nonneg_nonneg; lia).
  assert (HE : Z.of_nat (length E) = Z.of_nat (length data) - off) by (unfold E; rewrite length_drop; lia).
  assert (Hlk : length (take (Z.to_nat (k * ss)) E) = Z.to_nat (k * ss)) by (rewrite length_take; lia).
  assert (Hfirst : ∃ d1, (if misaligned (addr + off) then
       loop (S (Z.to_nat size)) (λ '(d, off, startsect, size),
           if ss <=? size then
             tmpbuf ← load_at data off ss;
             let '(ret, d) := disk_write g d startsect 1 tmpbuf in
             if negb (ret =? 1) then Some (Return d)
             else Some (Next (d, off + ss, u32 (startsect + 1), size - ss))
           else Some (Break (d, off, startsect, size)))
         (d, off, s, size)
     else if ss <=? size then
         let nsects := size / ss in
         bytes ← load_at data off (nsects * ss);
         let '(ret, d) := disk_write g d s nsects bytes in
         Some (if negb (u32 ret =? nsects) then inr d
               else inl (d, off + nsects * ss, u32 (s + nsects), size - nsects * ss))
       else Some (inl (d, off, s, size))) = Some (inl (d1, off + k * ss, s + k, size - k * ss)) ∧
    fat_table g fs d1 pre (splice rest (Z.to_nat co) (take (Z.to_nat (k * ss)) E)) T).
  { destruct (misaligned (addr + off)); [by apply (set_sectors_loop fs d pre rest T c size data off)|].
    destruct (Z.leb_spec ss size) as [Hge|Hlt].
    - assert (Hk1 : 0 < k) by (destruct (Z.eq_dec k 0) as [E0|]; [rewrite E0 in Hk; lia|lia]).
      cbn zeta. fold k. rewrite load_at_spec by lia. cbn [mbind option_bind]. fold E.
      assert (Hsk : s + k ≤ total_sector g) by (apply (Z.mul_le_mono_pos_r _ _ ss); lia).
      destruct (write_data fs d pre rest T s k (take (Z.to_nat (k * ss)) E) HT Hl) as (d1 & -> & HT1 & _);
        [lia|lia|lia|fold ss; lia|].
      rewrite !wrap_small, Z.eqb_refl by lia. exists d1. split; [done|].
      fold ss in HT1. by rewrite take_take, Nat.min_id, <-Hco in HT1.
    - assert (k = 0) as E0 by (apply Z.div_small; lia). rewrite E0, Z.mul_0_l, !Z.add_0_r, Z.sub_0_r.
      exists d. split; [done|]. change (Z.to_nat 0) with 0%nat. by rewrite take_0, splice_nil by lia. }
  destruct Hfirst as (d1 & Hf & HT1). cbn zeta in Hf |- *. fold k in Hf. fold ss. rewrite Hf. cbn [mbind option_bind].
  assert (Hpad : padding fs size = if size - k * ss =? 0 then 0 else ss - (size - k * ss)).
  { unfold padding. fold ss. bools.
    - replace (- size) with ((- k) * ss) by lia. apply Z.mod_mul. lia.
    - replace (- size) with (ss - (size - k * ss) + (- k - 1) * ss) by lia.
      rewrite Z.mod_add, Z.mod_small by lia. done. }
  rewrite Hpad. destruct (Z.eqb_spec (size - k * ss) 0) as [Er|Er].
  { exists d1. split; [done|]. replace (k * ss) with size in HT1 by lia.
    change (zero_buf 0) with (@nil Z). rewrite app_nil_r. split; [done|]. lia. }
  set (r := size - k * ss) in *.
  rewrite load_at_spec by lia. cbn [mbind option_bind].
  set (piece := take (Z.to_nat r) _).
  assert (Hpl : length piece = Z.to_nat r) by (unfold piece; rewrite length_take, length_drop; lia).
  rewrite store_at_spec by (rewrite ?Hpl, ?length_zero_buf; lia). cbn [mbind option_bind].
  assert (Htmp : splice (zero_buf ss) (Z.to_nat 0) piece = piece ++ zero_buf (ss - r)).
  { unfold splice. change (Z.to_nat 0) with 0%nat. rewrite take_0. cbn [app]. f_equal.
    unfold zero_buf. rewrite drop_replicate. f_equal. lia. }
  rewrite Htmp. assert (Hsk : s + k + 1 ≤ total_sector g)
    by (assert (s + k < total_sector g) by (apply (Z.mul_lt_mono_pos_r ss); lia); lia).
  assert (Hl1 : length (splice rest (Z.to_nat co) (take (Z.to_nat (k * ss)) E)) = length rest)
    by (apply length_splice; lia).
  destruct (write_data fs d1 pre _ T (s + k) 1 (piece ++ zero_buf (ss - r)) HT1) as (d2 & -> & HT2 & Hw2).
  { by eapply data_layout_rest. } { lia. } { lia. } { lia. }
  { rewrite length_app, Hpl, length_zero_buf. fold ss. lia. }
  change (negb (1 =? 1)) with false. cbv iota. exists d2. split; [done|]. fold ss in HT2, Hw2. rewrite Hl1 in Hw2.
  split; [|lia]. rewrite Z.mul_1_l in HT2.
  assert (Hpz : length (piece ++ zero_buf (ss - r)) = Z.to_nat ss)
    by (rewrite length_app, Hpl, length_zero_buf; lia).
  rewrite (take_ge (piece ++ _)) in HT2 by lia.
  replace (Z.to_nat ((s + k - data_sect fs) * ss)) with (Z.to_nat co + length (take (Z.to_nat (k * ss)) E))%nat in HT2 by lia.
  rewrite splice_extend in HT2 by lia. rewrite app_assoc in HT2.
  replace (take (Z.to_nat size) E) with (take (Z.to_nat (k * ss)) E ++ piece); [done|].
  unfold piece. replace (drop (Z.to_nat (off + k * ss)) data) with (drop (Z.to_nat (k * ss)) E)
    by (unfold E; rewrite drop_drop; f_equal; lia).
  rewrite take_split. f_equal. lia.
Qed.

(** ** Allocation *)

(** The free clusters from [e0] on, below [limit]. *)
Definition free_list T (limit e0 : Z) : list Z :=
  filter (λ e, T !! Z.to_nat e = Some 0) (seqZ e0 (limit - e0)).

Lemma free_list_cons T limit e0 f fl : free_list T limit e0 = f :: fl →
  e0 ≤ f < limit ∧ T !! Z.to_nat f = Some 0 ∧ (∀ e, e0 ≤ e < f → T !! Z.to_nat e ≠ Some 0) ∧
  fl = free_list T limit (f + 1).
Proof.
  unfold free_list. remember (Z.to_nat (limit - e0)) as m eqn:Hm. revert e0 Hm.
  induction m as [|m IH]; intros e0 Hm.
  { rewrite seqZ_nil by lia. done. }
  rewrite seqZ_cons, filter_cons by lia.
  replace (Z.pred (limit - e0)) with (limit - (e0 + 1)) by lia. change (Z.succ e0) with (e0 + 1).
  destruct (decide (T !! Z.to_nat e0 = Some 0)) as [E|E].
  - intros [= <- <-]. split_and!; try done; lia.
  - intros Hf. destruct (IH (e0 + 1)) as (H1 & H2 & H3 & H4); [lia|done|].
    split_and!; try done; try lia. intros e He. destruct (Z.eq_dec e e0) as [->|]; [done|]. apply H3. lia.
Qed.

Lemma free_list_elem T limit e0 f : f ∈ free_list T limit e0 ↔ T !! Z.to_nat f = Some 0 ∧ e0 ≤ f < limit.
Proof. unfold free_list. rewrite list_elem_of_filter, elem_of_seqZ. naive_solver lia. Qed.

Lemma filter_iff_in {A} (P Q : A → Prop) `{∀ x, Decision (P x), ∀ x, Decision (Q x)} (l : list A) :
  (∀ x, x ∈ l → P x ↔ Q x) → filter P l = filter Q l.
Proof.
  induction l as [|x l IH]; intros Hl; [done|]. rewrite !filter_cons, IH by (intros y Hy; apply Hl; by right).
  assert (Hx : P x ↔ Q x) by (apply Hl; by left). by destruct (decide (P x)), (decide (Q x)); naive_solver.
Qed.

Lemma free_list_update T limit e0 e v : 0 ≤ e < e0 →
  free_list (<[Z.to_nat e := v]> T) limit e0 = free_list T limit e0.
Proof.
  intros He. unfold free_list. apply filter_iff_in. intros f [Hf _]%elem_of_seqZ.
  by rewrite list_lookup_insert_ne by lia.
Qed.

(** The clusters below [limit] are in the table and in the partition. *)
Definition clusters_ok fs T (limit : Z) : Prop := ∀ c, 2 ≤ c < limit →
  clust_in g fs c ∧ CHECK_CLUST c (fatsize fs) = false ∧ c < Z.of_nat (length T).

Lemma clusters_ok_same fs fs' T T' limit : same_volume fs fs' → length T' = length T →
  clusters_ok fs T limit → clusters_ok fs' T' limit.
Proof. intros (b & n & k & ->) E Hok c Hc. rewrite E. apply Hok, Hc. Qed.

Lemma fuel_enough fs d pre rest T : fat_table g fs d pre rest T → (length T < fat_fuel fs)%nat.
Proof.
  intros (B & F & Hst & ->). pose proof (fs_layout _ _ _ _ _ _ _ Hst) as Hl. unfold fat_fuel.
  apply Nat2Z.inj_lt. rewrite length_table_of by (by eapply entries_nonneg).
  rewrite (state_length _ _ _ _ _ _ _ Hst), <-(fl_len _ _ _ _ Hl).
  pose proof (fl_width _ _ _ _ Hl) as Hw. pose proof (fl_sect _ _ _ _ Hl). pose proof bsize_pos.
  unfold entries_in, FATBUFSIZE, FATBUFBLOCKS. widths Hw; divs.
Qed.

(** A cluster number fits into an entry. *)
Lemma check_small c w : fat_width w → CHECK_CLUST c w = false → c mod 2 ^ w = c.
Proof.
  intros Hw Hck. pose proof (check_range _ _ Hck). apply Z.mod_small. unfold CHECK_CLUST in Hck.
  widths Hw; cbn [negb] in Hck; apply orb_false_iff in Hck as [_ ?%Z.leb_gt]; lia.
Qed.

(** Entries that are not free are passed over. *)
Lemma get_used fs d pre rest T limit e f : fat_table g fs d pre rest T → clusters_ok fs T limit →
  2 ≤ e ≤ f → f < limit → T !! Z.to_nat f = Some 0 → (∀ e', e ≤ e' < f → T !! Z.to_nat e' ≠ Some 0) →
  ∃ v fs' d', get_fatent g fs d e = Some (v, fs', d') ∧ fat_table g fs' d' pre rest T ∧ same_volume fs fs' ∧
    (v = 0 ↔ e = f).
Proof.
  intros HT Hok He Hlim Hf Hbefore. destruct (Hok e) as (_ & Hck & Hlen); [lia|].
  destruct (lookup_lt_is_Some_2 T (Z.to_nat e)) as [v Hv]; [lia|].
  destruct (table_get g fs d pre rest T e v HT Hck Hv) as (fs' & d' & -> & HT' & Hs).
  exists v, fs', d'. split_and!; try done. split; [|intros ->; congruence].
  intros ->. destruct (Z.eq_dec e f); [done|]. exfalso. apply (Hbefore e); [lia|done].
Qed.

Lemma determine_spec fs d pre rest T limit e f fl : fat_table g fs d pre rest T → clusters_ok fs T limit →
  2 ≤ e < limit → free_list T limit (e + 1) = f :: fl →
  ∃ fs' d', determine_fatent g fs d e = Some (f, fs', d') ∧
    fat_table g fs' d' pre rest (<[Z.to_nat e := f]> T) ∧ same_volume fs fs'.
Proof.
  intros HT Hok He Hfree. destruct (free_list_cons _ _ _ _ _ Hfree) as (Hf & Hf0 & Hbefore & _).
  destruct (Hok e) as (_ & Hcke & Hlene); [lia|]. destruct (Hok f) as (_ & Hckf & Hlenf); [lia|].
  pose proof (check_range _ _ Hcke). pose proof (check_range _ _ Hckf).
  destruct (table_geometry g _ _ _ _ _ HT) as (_ & _ & _ & _ & _ & _ & _ & Hw & _).
  unfold determine_fatent. rewrite wrap_small by lia.
  loop_ix (Z.to_nat (f - (e + 1)))
    (λ (m : nat) '((fs1, d1, n) : fsdata * dev * Z), e + 1 ≤ n ≤ f ∧ m = Z.to_nat (f - n) ∧
       fat_table g fs1 d1 pre rest T ∧ same_volume fs fs1)
    (λ (o : fsdata * dev * Z), ∃ fs' d', o = (fs', d', f) ∧
       fat_table g fs' d' pre rest (<[Z.to_nat e := f]> T) ∧ same_volume fs fs').
  - intros m [[fs1 d1] n] (Hn & -> & HT1 & Hs1).
    assert (Hok1 : clusters_ok fs1 T limit) by (by eapply clusters_ok_same).
    destruct (get_used fs1 d1 pre rest T limit n f HT1 Hok1) as (v & fs2 & d2 & -> & HT2 & Hs2 & Hv);
      [lia|lia|done|intros e' He'; apply Hbefore; lia|]. cbn [mbind option_bind].
    assert (Hs02 : same_volume fs fs2) by (by eapply same_volume_trans).
    destruct (Z.eqb_spec v 0) as [E|E].
    + apply Hv in E as ->.
      destruct (table_set g fs2 d2 pre rest T e f HT2) as (fs3 & d3 & -> & HT3 & Hs3); [lia|lia|].
      cbn [mbind option_bind]. eexists. split; [done|]. exists fs3, d3. split; [done|].
      assert (fatsize fs2 = fatsize fs) as Hsz by (by destruct Hs02 as (? & ? & ? & ->)).
      rewrite Hsz, check_small in HT3 by done. split; [done|]. by eapply same_volume_trans.
    + assert (n ≠ f) by (intros Hnf; by apply E, Hv). eexists. split; [done|].
      exists (Z.to_nat (f - (n + 1))). split; [lia|]. rewrite wrap_small by lia. split_and!; try done; lia.
  - split_and!; try done; try lia. apply same_volume_refl.
  - pose proof (fuel_enough _ _ _ _ _ HT). lia.
  - destruct HQ as (fs' & d' & -> & HT' & Hs'). by exists fs', d'.
Qed.

Lemma find_empty_spec fs d pre rest T limit f fl : fat_table g fs d pre rest T → clusters_ok fs T limit →
  free_list T limit 3 = f :: fl →
  ∃ fs' d', find_empty_cluster g fs d = Some (f, fs', d') ∧ fat_table g fs' d' pre rest T ∧ same_volume fs fs'.
Proof.
  intros HT Hok Hfree. destruct (free_list_cons _ _ _ _ _ Hfree) as (Hf & Hf0 & Hbefore & _).
  destruct (Hok f) as (_ & Hckf & Hlenf); [lia|]. pose proof (check_range _ _ Hckf).
  unfold find_empty_cluster.
  loop_ix (Z.to_nat (f - 3))
    (λ (m : nat) '((fs1, d1, n) : fsdata * dev * Z), 3 ≤ n ≤ f ∧ m = Z.to_nat (f - n) ∧
       fat_table g fs1 d1 pre rest T ∧ same_volume fs fs1)
    (λ (o : fsdata * dev * Z), ∃ fs' d', o = (fs', d', f) ∧ fat_table g fs' d' pre rest T ∧ same_volume fs fs').
  - intros m [[fs1 d1] n] (Hn & -> & HT1 & Hs1).
    assert (Hok1 : clusters_ok fs1 T limit) by (by eapply clusters_ok_same).
    destruct (get_used fs1 d1 pre rest T limit n f HT1 Hok1) as (v & fs2 & d2 & -> & HT2 & Hs2 & Hv);
      [lia|lia|done|intros e' He'; apply Hbefore; lia|]. cbn [mbind option_bind].
    assert (Hs02 : same_volume fs fs2) by (by eapply same_volume_trans).
    destruct (Z.eqb_spec v 0) as [E|E].
    + apply Hv in E as ->. eexists. split; [done|]. by exists fs2, d2.
    + assert (n ≠ f) by (intros Hnf; by apply E, Hv). eexists. split; [done|].
      exists (Z.to_nat (f - (n + 1))). split; [lia|]. rewrite wrap_small by lia. split_and!; try done; lia.
  - split_and!; try done; try lia. apply same_volume_refl.
  - pose proof (fuel_enough _ _ _ _ _ HT). lia.
  - destruct HQ as (fs' & d' & -> & HT' & Hs'). cbn [mbind option_bind]. rewrite swrap_small by lia. by exists fs', d'.
Qed.

Lemma padding_le fs m q : 0 < sect_size fs → m ≤ q * sect_size fs →
  0 ≤ padding fs m ∧ m + padding fs m ≤ q * sect_size fs.
Proof.
  intros Hpos Hm. unfold padding. set (ss := sect_size fs) in *. pose proof (Z.mod_pos_bound (- m) ss Hpos).
  pose proof (Z.div_mod (- m) ss). assert (Hd : - q ≤ - m / ss) by (apply Z.div_le_lower_bound; lia).
  split; [lia|]. apply (Z.mul_le_mono_nonneg_l _ _ ss) in Hd; lia.
Qed.

(** A run is written: its bytes, and the other clusters as before. *)
Lemma write_run fs d pre rest T cur (k : nat) m addr data off :
  fat_table g fs d pre rest T → data_layout g fs rest → Forall (clust_in g fs) (seqZ cur (Z.of_nat (S k))) →
  0 ≤ m ≤ Z.of_nat (S k) * bytesperclust fs → 0 ≤ off → off + m ≤ Z.of_nat (length data) →
  ∃ d' rest', set_cluster g fs d cur addr data off m = Some (0, d') ∧
    fat_table g fs d' pre rest' T ∧ length rest' = length rest ∧
    take (Z.to_nat m) (file_data fs rest' (seqZ cur (Z.of_nat (S k)))) = take (Z.to_nat m) (drop (Z.to_nat off) data) ∧
    (∀ c, clust_in g fs c → c ∉ seqZ cur (Z.of_nat (S k)) → cluster_data fs rest' c = cluster_data fs rest c).
Proof.
  intros HT Hl Hin Hm Hoff Hdata.
  destruct (table_geometry g _ _ _ _ _ HT) as (_ & _ & _ & _ & _ & _ & Hpos & _). pose proof (dl_clust _ _ _ Hl) as Hcl.
  destruct (run_in g fs cur k) as [Hc Hend]; [lia|done|].
  destruct (set_cluster_spec fs d pre rest T cur m addr data off HT Hl Hc Hoff) as (d' & Hset & HT' & Hfit); [lia|done|lia|].
  destruct (cluster_start g fs d pre rest T cur m HT Hl Hc) as (_ & _ & Hco & _); [lia|lia|].
  assert (Hpad : 0 ≤ padding fs m ∧ m + padding fs m ≤ Z.of_nat (S k) * bytesperclust fs).
  { replace (Z.of_nat (S k) * bytesperclust fs) with (Z.of_nat (S k) * clust_size fs * sect_size fs)
      by (unfold bytesperclust; lia). apply padding_le; unfold bytesperclust in *; lia. }
  set (new := take (Z.to_nat m) (drop (Z.to_nat off) data) ++ zero_buf (padding fs m)) in *.
  assert (Hpl : length (take (Z.to_nat m) (drop (Z.to_nat off) data)) = Z.to_nat m) by (rewrite length_take, length_drop; lia).
  assert (Hnl : Z.of_nat (length new) = m + padding fs m) by (unfold new; rewrite length_app, Hpl, length_zero_buf; lia).
  set (rest' := splice rest (Z.to_nat (cluster_off fs cur)) new) in *.
  assert (Hlr : length rest' = length rest) by (apply length_splice; lia).
  exists d', rest'. split; [done|]. split; [done|]. split; [done|]. split.
  - rewrite (run_data g fs d' pre rest' T cur (S k)) by (done || lia || by eapply data_layout_rest).
    rewrite take_take, Nat.min_l by lia.
    assert (E : take (Z.to_nat m) (drop (Z.to_nat (cluster_off fs cur)) rest') =
      take (Z.to_nat m) (take (length new) (drop (Z.to_nat (cluster_off fs cur)) rest'))) by (rewrite take_take, Nat.min_l by lia; done).
    rewrite E. unfold rest'. rewrite take_drop_splice by lia. unfold new. by rewrite take_app_le, take_take, Nat.min_id by lia.
  - intros c [Hc2 Hcin] Hnot. rewrite elem_of_seqZ in Hnot. unfold cluster_data, rest'.
    assert (Hb : 0 < bytesperclust fs) by (apply Z.mul_pos_pos; lia).
    assert (Hstep : ∀ a b, a ≤ b → cluster_off fs a + (b - a) * bytesperclust fs = cluster_off fs b)
      by (intros a b _; unfold cluster_off, bytesperclust; ring).
    assert (Hc0 : 0 ≤ cluster_off fs c)
      by (unfold cluster_off; pose proof (dl_begin _ _ _ Hl); apply Z.mul_nonneg_nonneg; nia).
    apply take_drop_splice_other; [lia|]. destruct (Z.lt_ge_cases c cur) as [Hlt|Hge].
    + left. pose proof (Hstep c cur). pose proof (mul_step 0 (cur - c) (bytesperclust fs)). lia.
    + right. pose proof (Hstep cur c Hge) as Ec.
      assert (Z.of_nat (S k) * bytesperclust fs ≤ (c - cur) * bytesperclust fs) by (apply Z.mul_le_mono_nonneg_r; lia). lia.
Qed.

(** ** Links *)

Fixpoint link T (cs : list Z) : list Z :=
  match cs with
  | c :: ((c' :: _) as cs') => link (<[Z.to_nat c := c']> T) cs'
  | _ => T
  end.

Lemma length_link T cs : length (link T cs) = length T.
Proof.
  revert T. induction cs as [|c [|c' cs] IH]; intros T; [done..|]. cbn [link] in *. by rewrite IH, length_insert.
Qed.

Lemma link_snoc T cs c c' : link T (cs ++ [c; c']) = <[Z.to_nat c := c']> (link T (cs ++ [c])).
Proof.
  revert T. induction cs as [|x [|y cs] IH]; intros T; [done..|].
  cbn [app link] in *. apply IH.
Qed.

(** What the search for free clusters finds. *)
Definition run_alloc fs pre rest T (limit c n : Z) (fl : list Z) (e : run_end) : Prop :=
  match e with
  | Invalid _ _ => False
  | EndOfFile fs' d' endclust => same_volume fs fs' ∧ ∃ (k : nat) fl2, c :: fl = seqZ c (Z.of_nat (S k)) ++ fl2 ∧
      endclust = c + Z.of_nat k ∧ Z.of_nat k * bytesperclust fs < n ≤ Z.of_nat (S k) * bytesperclust fs ∧
      fat_table g fs' d' pre rest (link T (seqZ c (Z.of_nat (S k))))
  | Elsewhere fs' d' endclust actsize newclust => same_volume fs fs' ∧
      ∃ (k : nat) fl2, c :: fl = seqZ c (Z.of_nat (S k)) ++ newclust :: fl2 ∧
        actsize = Z.of_nat (S k) * bytesperclust fs ∧ actsize < n ∧
        let T' := link T (seqZ c (Z.of_nat (S k)) ++ [newclust]) in
        fat_table g fs' d' pre rest T' ∧ free_list T' limit (newclust + 1) = fl2
  end.

Lemma consecutive_alloc fs d pre rest T limit c fl n : fat_table g fs d pre rest T → 0 < bytesperclust fs →
  clusters_ok fs T limit → 2 ≤ c < limit → free_list T limit (c + 1) = fl →
  0 < n ≤ Z.of_nat (length (c :: fl)) * bytesperclust fs →
  ∃ e, consecutive (determine_fatent g) fs d c n = Some e ∧ run_alloc fs pre rest T limit c n fl e.
Proof.
  intros HT Hb Hok Hc Hfree Hn. unfold consecutive. set (bpc := bytesperclust fs) in *.
  assert (Hq : 0 ≤ n / bpc) by (apply Z.div_pos; lia). pose proof (Z.mul_div_le n bpc Hb) as Hqb.
  loop_ix (Z.to_nat (n / bpc))
    (λ (m : nat) '((fs1, d1, endc, act) : fsdata * dev * Z * Z), ∃ (k : nat) fl2,
       c :: fl = seqZ c (Z.of_nat (S k)) ++ fl2 ∧ endc = c + Z.of_nat k ∧ act = Z.of_nat (S k) * bpc ∧
       fat_table g fs1 d1 pre rest (link T (seqZ c (Z.of_nat (S k)))) ∧
       free_list (link T (seqZ c (Z.of_nat (S k)))) limit (c + Z.of_nat k + 1) = fl2 ∧ c + Z.of_nat k < limit ∧
       same_volume fs fs1 ∧ Z.of_nat k * bpc < n ∧ Z.of_nat k ≤ n / bpc ∧ m = Z.to_nat (n / bpc - Z.of_nat k))
    (λ o : fsdata * dev * Z * Z + run_end, run_alloc fs pre rest T limit c n fl
            (match o with inl (fs, d, endclust, _) => EndOfFile fs d endclust | inr e => e end)).
  - intros m [[[fs1 d1] endc] act] (k & fl2 & Hcs & -> & -> & HT1 & Hfree1 & Hlim & Hs1 & Hkn & Hk & ->).
    destruct (Z.ltb_spec (Z.of_nat (S k) * bpc) n) as [Hlt|Hge].
    + assert (Hlen : Z.of_nat (length (c :: fl)) = Z.of_nat (S k) + Z.of_nat (length fl2))
        by (rewrite Hcs, length_app, length_seqZ; lia).
      destruct fl2 as [|f fl3]; [rewrite Hlen, Z.add_0_r in Hn; lia|].
      assert (Hok1 : clusters_ok fs1 (link T (seqZ c (Z.of_nat (S k)))) limit)
        by (eapply clusters_ok_same; [exact Hs1|apply length_link|exact Hok]).
      destruct (determine_spec fs1 d1 pre rest _ limit (c + Z.of_nat k) f fl3 HT1 Hok1) as (fs2 & d2 & -> & HT2 & Hs2);
        [lia|done|]. cbn [mbind option_bind].
      destruct (free_list_cons _ _ _ _ _ Hfree1) as (Hf & _ & _ & Hfl3).
      destruct (Hok f) as (_ & Hckf & _); [lia|]. pose proof (check_range _ _ Hckf). rewrite wrap_small by lia.
      assert (Hs12 : same_volume fs fs2) by (by eapply same_volume_trans).
      assert (Hlk : <[Z.to_nat (c + Z.of_nat k) := f]> (link T (seqZ c (Z.of_nat (S k)))) =
        link T (seqZ c (Z.of_nat (S k)) ++ [f])).
      { rewrite seqZ_snoc, <-app_assoc. cbn [app]. by rewrite link_snoc. }
      assert (Hfree2 : free_list (link T (seqZ c (Z.of_nat (S k)) ++ [f])) limit (f + 1) = fl3)
        by (rewrite <-Hlk, free_list_update by lia; done).
      rewrite Hlk in HT2. destruct (Z.eqb_spec (f - 1) (c + Z.of_nat k)) as [Ec|Ec]; cbn [negb].
      * assert (fatsize fs2 = fatsize fs) as -> by (by destruct Hs12 as (? & ? & ? & ->)). rewrite Hckf.
        assert (Hk1 : Z.of_nat (S k) ≤ n / bpc) by (apply Z.div_le_lower_bound; lia).
        assert (Hseq : seqZ c (Z.of_nat (S k)) ++ [f] = seqZ c (Z.of_nat (S (S k)))).
        { rewrite (seqZ_snoc c (S k)). do 2 f_equal. lia. }
        rewrite Hseq in *. eexists. split; [done|]. exists (Z.to_nat (n / bpc - Z.of_nat (S k))). split; [lia|].
        exists (S k), fl3. split_and!; try done; try lia.
        -- rewrite Hcs, <-Hseq, <-app_assoc. done.
        -- by replace (c + Z.of_nat (S k) + 1) with (f + 1) by lia.
      * eexists. split; [done|]. split; [done|]. by exists k, fl3.
    + eexists. split; [done|]. split; [done|]. by exists k, fl2.
  - exists 0%nat, fl. split_and!; try done; try lia; [by rewrite Z.add_0_r|apply same_volume_refl].
  - lia.
  - eexists. split; [done|]. exact HQ.
Qed.

Lemma link_app T cs1 c cs2 : link T (cs1 ++ c :: cs2) = link (link T (cs1 ++ [c])) (c :: cs2).
Proof.
  revert T. induction cs1 as [|x [|y cs1] IH]; intros T; [done..|]. cbn [app link] in *. apply IH.
Qed.

Lemma free_list_NoDup T limit e0 : NoDup (free_list T limit e0).
Proof. apply list_relations.list.NoDup_filter, NoDup_seqZ. Qed.

(** The clusters of a new file: the first one and the free ones after it. *)
Lemma new_clusters fs T limit c fl : clusters_ok fs T limit → 2 ≤ c < limit → free_list T limit (c + 1) = fl →
  NoDup (c :: fl) ∧ Forall (λ f, 2 ≤ f < limit) (c :: fl) ∧ Forall (clust_in g fs) (c :: fl).
Proof.
  intros Hok Hc Hfree.
  assert (Hr : Forall (λ f, 2 ≤ f < limit) (c :: fl)).
  { constructor; [done|]. apply list_relations.list.Forall_forall. intros f Hf. rewrite <-Hfree in Hf. apply free_list_elem in Hf as [_ Hf]. lia. }
  split_and!; [|done|eapply list_relations.list.Forall_impl; [exact Hr|intros f Hf; apply Hok, Hf]].
  constructor; [|rewrite <-Hfree; apply free_list_NoDup].
  intros Hf. rewrite <-Hfree in Hf. apply free_list_elem in Hf as [_ Hf]. lia.
Qed.

Lemma file_data_other fs rest rest' cs : (∀ c, c ∈ cs → cluster_data fs rest' c = cluster_data fs rest c) →
  file_data fs rest' cs = file_data fs rest cs.
Proof.
  unfold file_data. induction cs as [|c cs IH]; intros H; [done|]. cbn [mbind list_bind].
  rewrite H by (by left). f_equal. apply IH. intros c' Hc'. apply H. by right.
Qed.

Lemma eof_fits w : fat_width w →
  (if w =? 12 then 0xfff else if w =? 16 then 0xffff else 0xfffffff) mod 2 ^ w =
  (if w =? 12 then 0xfff else if w =? 16 then 0xffff else 0xfffffff).
Proof. intros [-> | [-> | ->]]; done. Qed.

(** The state of the writing of a new file: [dn] are the clusters done. *)
Record writing fs pre rest T limit (c : Z) (fl : list Z) (n off : Z) data
    (dn fl1 rest1 : list Z) (fs1 : fsdata) (d1 : dev) (cur x : Z) : Prop := {
  wr_list : c :: fl = dn ++ cur :: fl1;
  wr_x : x = Z.of_nat (length dn) * bytesperclust fs;
  wr_more : x < n;
  wr_table : fat_table g fs1 d1 pre rest1 (link T (dn ++ [cur]));
  wr_free : free_list (link T (dn ++ [cur])) limit (cur + 1) = fl1;
  wr_same : same_volume fs fs1;
  wr_len : length rest1 = length rest;
  wr_data : file_data fs rest1 dn = take (Z.to_nat x) (drop (Z.to_nat off) data);
  wr_other : ∀ c', clust_in g fs c' → c' ∉ dn → cluster_data fs rest1 c' = cluster_data fs rest c'
}.

(** A run of [m] bytes is written. *)
Lemma writing_run fs pre rest T limit c fl n off data dn fl1 rest1 fs1 d1 cur x fs2 d2 T2 (k : nat) fl2 m addr :
  writing fs pre rest T limit c fl n off data dn fl1 rest1 fs1 d1 cur x →
  data_layout g fs rest → clusters_ok fs T limit → 2 ≤ c < limit → free_list T limit (c + 1) = fl →
  same_volume fs fs2 → fat_table g fs2 d2 pre rest1 T2 →
  cur :: fl1 = seqZ cur (Z.of_nat (S k)) ++ fl2 → 0 < bytesperclust fs →
  0 ≤ m ≤ Z.of_nat (S k) * bytesperclust fs → x + m ≤ n → 0 ≤ off → off + n ≤ Z.of_nat (length data) →
  let run := seqZ cur (Z.of_nat (S k)) in
  ∃ d3 rest2, set_cluster g fs2 d2 cur addr data (off + x) m = Some (0, d3) ∧ fat_table g fs2 d3 pre rest2 T2 ∧
    length rest2 = length rest ∧ Forall (clust_in g fs) (dn ++ run) ∧
    take (Z.to_nat (x + m)) (file_data fs rest2 (dn ++ run)) = take (Z.to_nat (x + m)) (drop (Z.to_nat off) data) ∧
    (∀ c', clust_in g fs c' → c' ∉ dn ++ run → cluster_data fs rest2 c' = cluster_data fs rest c').
Proof.
  intros [Hlist Hx Hmore Ht Hf Hs Hlen Hdata Hother] Hl Hok Hc Hfree Hs2 HT2 Hcs Hb Hm Hxm Hoff Hend run.
  destruct (new_clusters fs T limit c fl Hok Hc Hfree) as (Hnd & _ & Hin). rewrite Hlist, Hcs in Hnd, Hin.
  rewrite app_assoc in Hnd, Hin. apply list_relations.list.NoDup_app in Hnd as (Hnd & _ & _). apply list_relations.list.NoDup_app in Hnd as (_ & Hdis & _).
  rewrite Forall_app in Hin. destruct Hin as [Hin _]. pose proof Hin as Hin'. rewrite Forall_app in Hin'. destruct Hin' as [Hin1 Hin2].
  assert (Hx0 : 0 ≤ x) by (rewrite Hx; apply Z.mul_nonneg_nonneg; lia).
  assert (Hl1 : data_layout g fs2 rest1) by (eapply data_layout_same; [done|by eapply data_layout_rest]).
  destruct (write_run fs2 d2 pre rest1 T2 cur k m addr data (off + x) HT2 Hl1) as (d3 & rest2 & Hw & HT3 & Hl2 & Hd2 & Ho2);
    [by destruct Hs2 as (? & ? & ? & ->)|by destruct Hs2 as (? & ? & ? & ->)|lia|lia|].
  assert (Ho2' : ∀ c', clust_in g fs c' → c' ∉ run → cluster_data fs rest2 c' = cluster_data fs rest1 c')
    by (by destruct Hs2 as (? & ? & ? & ->)).
  rewrite (file_data_same fs) in Hd2 by done. fold run in Hd2.
  exists d3, rest2. split; [done|]. split; [done|]. split; [congruence|]. split; [done|]. split.
  - rewrite file_data_app, (file_data_other fs rest1 rest2 dn).
    + rewrite Hdata. rewrite Z2Nat.inj_add by lia.
      assert (Hlx : length (take (Z.to_nat x) (drop (Z.to_nat off) data)) = Z.to_nat x) by (rewrite length_take, length_drop; lia).
      rewrite take_app_ge by lia. rewrite Hlx. replace (Z.to_nat x + Z.to_nat m - Z.to_nat x)%nat with (Z.to_nat m) by lia.
      rewrite Hd2. rewrite Z2Nat.inj_add, <-drop_drop by lia. apply take_split.
    + intros c' Hc'. apply Ho2'; [by rewrite list_relations.list.Forall_forall in Hin1; apply Hin1|by apply Hdis].
  - intros c' Hc' Hnot. rewrite not_elem_of_app in Hnot. destruct Hnot as [Hn1 Hn2]. rewrite Ho2' by done. by apply Hother.
Qed.

(** What the writing of a new file of [n] bytes leaves: its clusters [cs] are
    the first ones of [c :: fl]. *)
Definition new_file fs pre rest T c fl n off data (cs : list Z) fs' d' : Prop :=
  ∃ fl2 last rest', c :: fl = cs ++ fl2 ∧ list.last cs = Some last ∧
    (Z.of_nat (length cs) - 1) * bytesperclust fs < n ≤ Z.of_nat (length cs) * bytesperclust fs ∧
    fat_table g fs' d' pre rest' (<[Z.to_nat last := eof_mark fs]> (link T cs)) ∧ same_volume fs fs' ∧
    length rest' = length rest ∧
    take (Z.to_nat n) (file_data fs rest' cs) = take (Z.to_nat n) (drop (Z.to_nat off) data) ∧
    (∀ c', clust_in g fs c' → c' ∉ cs → cluster_data fs rest' c' = cluster_data fs rest c').

Section new_file.
Variables (fs : fsdata) (pre rest T : list Z) (limit c : Z) (fl : list Z) (n off : Z) (data : list Z).
Hypotheses (Hl : data_layout g fs rest) (Hok : clusters_ok fs T limit) (Hc : 2 ≤ c < limit)
  (Hfree : free_list T limit (c + 1) = fl) (Hn : 0 < n ≤ Z.of_nat (length (c :: fl)) * bytesperclust fs)
  (Hoff : 0 ≤ off) (Hend : off + n ≤ Z.of_nat (length data)).

Lemma writing_start d : fat_table g fs d pre rest T →
  writing fs pre rest T limit c fl n off data [] fl rest fs d c 0.
Proof.
  intros HT. split; cbn [app length link]; try done; try lia; apply same_volume_refl.
Qed.

Lemma writing_alloc dn fl1 rest1 fs1 d1 cur x : 0 < bytesperclust fs →
  writing fs pre rest T limit c fl n off data dn fl1 rest1 fs1 d1 cur x →
  ∃ e, consecutive (determine_fatent g) fs1 d1 cur (n - x) = Some e ∧
    run_alloc fs1 pre rest1 (link T (dn ++ [cur])) limit cur (n - x) fl1 e.
Proof.
  intros Hb [Hlist Hx Hmore Ht Hf Hs Hlen _ _].
  assert (Eb : bytesperclust fs1 = bytesperclust fs) by (by destruct Hs as (? & ? & ? & ->)).
  apply consecutive_alloc; try done; try lia.
  - eapply clusters_ok_same; [exact Hs|apply length_link|exact Hok].
  - destruct (new_clusters fs T limit c fl Hok Hc Hfree) as (_ & Hr & _). rewrite Hlist, Forall_app, Forall_cons_iff in Hr. tauto.
  - rewrite Eb. assert (E : Z.of_nat (length (c :: fl)) = Z.of_nat (length dn) + Z.of_nat (length (cur :: fl1)))
      by (rewrite Hlist, length_app; lia).
    rewrite E, Z.mul_add_distr_r in Hn. lia.
Qed.

(** A run that the file does not end in. *)
Lemma writing_next dn fl1 rest1 fs1 d1 cur x fs2 d2 endc act newc addr : 0 < bytesperclust fs →
  writing fs pre rest T limit c fl n off data dn fl1 rest1 fs1 d1 cur x →
  run_alloc fs1 pre rest1 (link T (dn ++ [cur])) limit cur (n - x) fl1 (Elsewhere fs2 d2 endc act newc) →
  ∃ (k : nat) d3 fl2 rest2, act = Z.of_nat (S k) * bytesperclust fs ∧ act < n - x ∧
    CHECK_CLUST newc (fatsize fs2) = false ∧
    set_cluster g fs2 d2 cur addr data (off + x) act = Some (0, d3) ∧
    writing fs pre rest T limit c fl n off data (dn ++ seqZ cur (Z.of_nat (S k))) fl2 rest2 fs2 d3 newc (x + act).
Proof.
  intros Hb HW (Hs12 & k & fl2 & Hcs & Hact & Hlt & HT2 & Hf2).
  pose proof (wr_same _ _ _ _ _ _ _ _ _ _ _ _ _ _ _ _ _ HW) as Hs1.
  assert (Hs2 : same_volume fs fs2) by (by eapply same_volume_trans).
  assert (Eb : bytesperclust fs1 = bytesperclust fs) by (by destruct Hs1 as (? & ? & ? & ->)). rewrite Eb in Hact.
  assert (Hk : 0 < Z.of_nat (S k) * bytesperclust fs) by (apply Z.mul_pos_pos; lia).
  destruct (writing_run fs pre rest T limit c fl n off data dn fl1 rest1 fs1 d1 cur x fs2 d2 _ k (newc :: fl2) act addr
    HW Hl Hok Hc Hfree Hs2 HT2 Hcs Hb) as (d3 & rest2 & Hset & HT3 & Hlen2 & Hin & Hdata & Hother); try lia.
  destruct HW as [Hlist Hx Hmore _ _ _ _ _ _]. exists k, d3, fl2, rest2. split; [done|]. split; [lia|].
  assert (Hlist2 : c :: fl = (dn ++ seqZ cur (Z.of_nat (S k))) ++ newc :: fl2) by (by rewrite Hlist, Hcs, app_assoc).
  destruct (new_clusters fs T limit c fl Hok Hc Hfree) as (_ & Hr & _).
  rewrite Hlist2, Forall_app, Forall_cons_iff in Hr. destruct Hr as (_ & Hnew & _).
  destruct (Hok newc Hnew) as (_ & Hck & _).
  split; [by destruct Hs2 as (? & ? & ? & ->)|]. split; [done|].
  assert (Elink : link T ((dn ++ seqZ cur (Z.of_nat (S k))) ++ [newc]) =
    link (link T (dn ++ [cur])) (seqZ cur (Z.of_nat (S k)) ++ [newc])).
  { rewrite <-app_assoc, (seqZ_cons cur) by lia. cbn [app]. by rewrite link_app. }
  assert (Hlen3 : Z.of_nat (length (dn ++ seqZ cur (Z.of_nat (S k)))) = Z.of_nat (length dn) + Z.of_nat (S k))
    by (rewrite length_app, length_seqZ; lia).
  split; try done; try lia; rewrite ?Elink; try done.
  rewrite <-Hdata. rewrite (take_ge (file_data _ _ _)); [done|].
  assert (Hin2 : Forall (clust_in g fs2) (dn ++ seqZ cur (Z.of_nat (S k)))) by (by destruct Hs2 as (? & ? & ? & ->)).
  pose proof (length_file_data g _ _ _ _ _ _ HT3 (data_layout_same g _ _ _ Hs2 (data_layout_rest g _ _ _ Hlen2 Hl)) Hin2) as Hfl.
  rewrite (file_data_same fs) in Hfl by done.
  assert (bytesperclust fs2 = bytesperclust fs) by (by destruct Hs2 as (? & ? & ? & ->)).
  assert (x + act = Z.of_nat (length (dn ++ seqZ cur (Z.of_nat (S k)))) * bytesperclust fs) by (rewrite Hlen3, Hx, Hact; ring).
  lia.
Qed.

(** The run that the file ends in. *)
Lemma writing_end dn fl1 rest1 fs1 d1 cur x fs2 d2 endc addr : 0 < bytesperclust fs →
  writing fs pre rest T limit c fl n off data dn fl1 rest1 fs1 d1 cur x →
  run_alloc fs1 pre rest1 (link T (dn ++ [cur])) limit cur (n - x) fl1 (EndOfFile fs2 d2 endc) →
  ∃ d3 fs' d' cs, set_cluster g fs2 d2 cur addr data (off + x) (n - x) = Some (0, d3) ∧
    set_fatent_value g fs2 d3 endc (eof_mark fs2) = Some (0, fs', d') ∧
    new_file fs pre rest T c fl n off data cs fs' d'.
Proof.
  intros Hb HW (Hs12 & k & fl2 & Hcs & -> & Hlt & HT2).
  pose proof (wr_same _ _ _ _ _ _ _ _ _ _ _ _ _ _ _ _ _ HW) as Hs1.
  assert (Hs2 : same_volume fs fs2) by (by eapply same_volume_trans).
  assert (Eb : bytesperclust fs1 = bytesperclust fs) by (by destruct Hs1 as (? & ? & ? & ->)). rewrite Eb in Hlt.
  pose proof (wr_more _ _ _ _ _ _ _ _ _ _ _ _ _ _ _ _ _ HW) as Hmore.
  destruct (writing_run fs pre rest T limit c fl n off data dn fl1 rest1 fs1 d1 cur x fs2 d2 _ k fl2 (n - x) addr
    HW Hl Hok Hc Hfree Hs2 HT2 Hcs Hb) as (d3 & rest2 & Hset & HT3 & Hlen2 & _ & Hdata & Hother); try lia.
  destruct HW as [Hlist Hx _ _ _ _ _ _ _]. replace (x + (n - x)) with n in Hdata by lia.
  set (cs := dn ++ seqZ cur (Z.of_nat (S k))) in *.
  assert (Hlist2 : c :: fl = cs ++ fl2) by (unfold cs; by rewrite Hlist, Hcs, app_assoc).
  assert (Ecs : cs = (dn ++ seqZ cur (Z.of_nat k)) ++ [cur + Z.of_nat k])
    by (unfold cs; rewrite (seqZ_snoc cur k); by rewrite app_assoc).
  assert (Hlast : 2 ≤ cur + Z.of_nat k < limit).
  { destruct (new_clusters fs T limit c fl Hok Hc Hfree) as (_ & Hr & _).
    rewrite Hlist2, Ecs, !Forall_app, Forall_cons_iff in Hr. tauto. }
  destruct (Hok _ Hlast) as (_ & _ & Hlen).
  assert (Hw : fat_width (fatsize fs2)) by (destruct (table_geometry g _ _ _ _ _ HT3) as (_ & _ & _ & _ & _ & _ & _ & Hw & _); exact Hw).
  destruct (table_set g fs2 d3 pre rest2 _ (cur + Z.of_nat k) (eof_mark fs2) HT3) as (fs' & d' & Hset' & HT' & Hs').
  { rewrite !length_link. lia. }
  { unfold eof_mark. by destruct (fatsize fs2 =? 12), (fatsize fs2 =? 16). }
  exists d3, fs', d', cs. split; [done|]. split; [done|].
  assert (Elink : link T cs = link (link T (dn ++ [cur])) (seqZ cur (Z.of_nat (S k))))
    by (unfold cs; rewrite (seqZ_cons cur) by lia; by rewrite link_app).
  assert (Eeof : eof_mark fs2 mod 2 ^ fatsize fs2 = eof_mark fs)
    by (unfold eof_mark at 1; rewrite eof_fits by done; by destruct Hs2 as (? & ? & ? & ->)).
  rewrite Eeof, <-Elink in HT'.
  exists fl2, (cur + Z.of_nat k), rest2. split; [done|]. split; [by rewrite Ecs, last_snoc|].
  split; [|split_and!; try done; by eapply same_volume_trans].
  assert (E : Z.of_nat (length cs) = Z.of_nat (length dn) + Z.of_nat (S k)) by (unfold cs; rewrite length_app, length_seqZ; lia).
  rewrite E, Hx in *. split; [|lia].
  replace (Z.of_nat (length dn) + Z.of_nat (S k) - 1) with (Z.of_nat (length dn) + Z.of_nat k) by lia. lia.
Qed.

Lemma set_runs_spec d dent addr got : fat_table g fs d pre rest T → n < 2 ^ 32 →
  ∃ cs fs' d', set_runs g fs d dent c n addr data off got = Some (0, got + n, dent, fs', d') ∧
    new_file fs pre rest T c fl n off data cs fs' d'.
Proof.
  intros HT Hn32. destruct (table_geometry g _ _ _ _ _ HT) as (_ & _ & _ & _ & _ & _ & Hss & _).
  assert (Hb : 0 < bytesperclust fs) by (apply Z.mul_pos_pos; [apply (dl_clust _ _ _ Hl)|lia]).
  unfold set_runs. set (bpc := bytesperclust fs) in *. assert (Hq : 0 ≤ n / bpc) by (apply Z.div_pos; lia).
  loop_ix (Z.to_nat (n / bpc))
    (λ (m : nat) '((fs1, d1, cur, rem, off1, got1) : fsdata * dev * Z * Z * Z * Z), ∃ dn fl1 rest1 x,
       writing fs pre rest T limit c fl n off data dn fl1 rest1 fs1 d1 cur x ∧ rem = n - x ∧ off1 = off + x ∧
       got1 = got + x ∧ m = (Z.to_nat (n / bpc) - length dn)%nat)
    (λ (o : fsdata * dev * Z * Z * Z * Z + Z * Z * dir_entry * fsdata * dev), ∃ cs fs' d',
       o = inr (0, got + n, dent, fs', d') ∧ new_file fs pre rest T c fl n off data cs fs' d').
  - intros m [[[[[fs1 d1] cur] rem] off1] got1] (dn & fl1 & rest1 & x & HW & -> & -> & -> & ->).
    destruct (writing_alloc dn fl1 rest1 fs1 d1 cur x Hb HW) as (e & -> & He). cbn [mbind option_bind].
    pose proof (wr_more _ _ _ _ _ _ _ _ _ _ _ _ _ _ _ _ _ HW) as Hmore.
    pose proof (wr_x _ _ _ _ _ _ _ _ _ _ _ _ _ _ _ _ _ HW) as Hx. fold bpc in Hx.
    assert (Hx0 : 0 ≤ x) by (rewrite Hx; apply Z.mul_nonneg_nonneg; lia).
    destruct e as [fs2 d2 endc|fs2 d2 endc act newc|]; [| |done].
    + destruct (writing_end dn fl1 rest1 fs1 d1 cur x fs2 d2 endc addr Hb HW He) as (d3 & fs' & d' & cs & Hset & Hset' & Hnew).
      rewrite wrap_small, Hset by lia. cbn [mbind option_bind Z.eqb negb]. rewrite Hset'. cbn [mbind option_bind].
      eexists. split; [done|]. exists cs, fs', d'. split; [|done].
      by replace (got + x + (n - x)) with (got + n) by lia.
    + destruct (writing_next dn fl1 rest1 fs1 d1 cur x fs2 d2 endc act newc addr Hb HW He)
        as (k & d3 & fl2 & rest2 & Hact & Hlt & Hck & Hset & HW'). fold bpc in Hact.
      assert (Hk : 0 < act) by (rewrite Hact; apply Z.mul_pos_pos; lia).
      rewrite wrap_small, Hset by lia. cbn [mbind option_bind Z.eqb negb]. rewrite Hck.
      eexists. split; [done|]. exists (Z.to_nat (n / bpc) - length (dn ++ seqZ cur (Z.of_nat (S k))))%nat.
      assert (Hd : Z.of_nat (length dn) + 1 ≤ n / bpc).
      { apply Z.div_le_lower_bound; [done|]. assert (1 * bpc ≤ Z.of_nat (S k) * bpc) by (apply Z.mul_le_mono_nonneg_r; lia). lia. }
      split; [rewrite length_app, length_seqZ; lia|]. exists (dn ++ seqZ cur (Z.of_nat (S k))), fl2, rest2, (x + act).
      split_and!; try done; lia.
  - exists [], fl, rest, 0. split; [by apply writing_start|]. split_and!; cbn; lia.
  - lia.
  - destruct HQ as (cs & fs' & d' & -> & Hnew). by exists cs, fs', d'.
Qed.
End new_file.

(** ** A file that was written *)

Lemma link_other T cs e : 0 ≤ e → Forall (λ c, 0 ≤ c) cs → e ∉ cs → link T cs !! Z.to_nat e = T !! Z.to_nat e.
Proof.
  intros He. revert T. induction cs as [|c [|c' cs] IH]; intros T Hpos Hnot; [done..|].
  apply Forall_cons_iff in Hpos as [Hc Hpos]. apply not_elem_of_cons in Hnot as [Hne Hnot].
  change (link T (c :: c' :: cs)) with (link (<[Z.to_nat c := c']> T) (c' :: cs)). rewrite IH by done. apply list_lookup_insert_ne. lia.
Qed.

Lemma link_lookup T cs1 x y cs2 : Forall (λ c, 0 ≤ c < Z.of_nat (length T)) (cs1 ++ x :: y :: cs2) →
  NoDup (cs1 ++ x :: y :: cs2) → link T (cs1 ++ x :: y :: cs2) !! Z.to_nat x = Some y.
Proof.
  revert T. induction cs1 as [|c cs1 IH]; intros T Hr Hnd; cbn [app] in *;
    apply Forall_cons_iff in Hr as [Hx Hr]; apply list_relations.list.NoDup_cons in Hnd as [Hnot Hnd].
  - change (link T (x :: y :: cs2)) with (link (<[Z.to_nat x := y]> T) (y :: cs2)). rewrite link_other; [|lia| |done].
    + apply list_lookup_insert_eq. lia.
    + eapply list_relations.list.Forall_impl; [exact Hr|]. cbn. lia.
  - assert (E : ∃ c' cs', cs1 ++ x :: y :: cs2 = c' :: cs') by (destruct cs1; eauto).
    destruct E as (c' & cs' & E). rewrite E. change (link T (c :: c' :: cs')) with (link (<[Z.to_nat c := c']> T) (c' :: cs')).
    rewrite <-E. apply IH; [by rewrite length_insert|done].
Qed.

Definition ends fs T (cs : list Z) : Prop := ∃ l v, list.last cs = Some l ∧ T !! Z.to_nat l = Some v ∧
  CHECK_CLUST v (fatsize fs) = true.

Lemma eof_ends fs : fat_width (fatsize fs) → CHECK_CLUST (eof_mark fs) (fatsize fs) = true.
Proof. unfold eof_mark. by intros [-> | [-> | ->]]. Qed.

(** The clusters of a new file are a chain. *)
Lemma new_chain fs T limit cs l : clusters_ok fs T limit → Forall (λ c, 2 ≤ c < limit) cs → NoDup cs →
  list.last cs = Some l → fat_width (fatsize fs) →
  chain g fs (<[Z.to_nat l := eof_mark fs]> (link T cs)) cs ∧ ends fs (<[Z.to_nat l := eof_mark fs]> (link T cs)) cs.
Proof.
  intros Hok Hr Hnd Hlast Hw. set (T' := <[Z.to_nat l := eof_mark fs]> (link T cs)).
  assert (Hr' : Forall (λ c, 0 ≤ c < Z.of_nat (length T)) cs).
  { eapply list_relations.list.Forall_impl; [exact Hr|]. intros c Hc. cbv beta in Hc |- *. destruct (Hok c Hc) as (_ & _ & ?). lia. }
  split.
  - assert (Hsuf : ∀ cs1 cs2, cs = cs1 ++ cs2 → chain g fs T' cs2); [|by apply (Hsuf [])].
    intros cs1 cs2. revert cs1. induction cs2 as [|c cs2 IH]; intros cs1 E; [done|].
    assert (Hc : 2 ≤ c < limit) by (rewrite E, Forall_app, Forall_cons_iff in Hr; tauto).
    destruct (Hok c Hc) as (Hin & Hck & _). cbn [chain]. split; [done|]. split; [done|].
    split; [|apply (IH (cs1 ++ [c])); by rewrite <-app_assoc].
    destruct cs2 as [|c' cs2]; [done|]. unfold T'. rewrite list_lookup_insert_ne.
    + rewrite E in *. by apply link_lookup.
    + assert (l ≠ c).
      { rewrite E, last_app_cons, last_cons_cons in Hlast. apply last_Some_elem_of in Hlast.
        rewrite E, list_relations.list.NoDup_app, list_relations.list.NoDup_cons in Hnd. destruct Hnd as (_ & _ & Hnot & _). congruence. }
      assert (2 ≤ l); [|lia]. rewrite list_relations.list.Forall_forall in Hr.
      apply last_Some_elem_of in Hlast. destruct (Hr l Hlast). lia.
  - exists l, (eof_mark fs). split; [done|]. split; [|by apply eof_ends].
    apply list_lookup_insert_eq. rewrite length_link. apply last_Some_elem_of in Hlast.
    rewrite list_relations.list.Forall_forall in Hr'. specialize (Hr' l Hlast). cbn in Hr'. lia.
Qed.

Lemma start_set fs dent c : fat_width (fatsize fs) → CHECK_CLUST c (fatsize fs) = false →
  START fs (set_start_cluster fs dent c) = c.
Proof.
  intros Hw Hck. pose proof (check_small _ _ Hw Hck) as Hc. pose proof (check_range _ _ Hck).
  unfold START, set_start_cluster. cbn [start starthi].
  assert (El : Z.land c 0xffff = c mod 2 ^ 16) by (change 0xffff with (Z.ones 16); apply Z.land_ones; lia).
  assert (Eh : Z.shiftr (Z.land c 0xffff0000) 16 = c / 2 ^ 16).
  { rewrite Z.shiftr_land. change (Z.shiftr 0xffff0000 16) with (Z.ones 16).
    rewrite Z.shiftr_div_pow2, Z.land_ones by lia. apply Z.mod_small.
    split; [apply Z.div_pos; lia|]. apply Z.div_lt_upper_bound; lia. }
  rewrite El, Eh. rewrite !(wrap_small 16).
  - pose proof (Z.mod_pos_bound c (2 ^ 16) eq_refl). pose proof (Z.div_mod c (2 ^ 16)).
    rewrite Z.shiftl_mul_pow2 by lia. destruct Hw as [Hw|[Hw|Hw]]; rewrite Hw in *; cbn [Z.eqb negb Pos.eqb].
    1, 2: rewrite wrap_small by lia; rewrite Z.add_0_r; apply Z.mod_small; rewrite <-Hc; split;
      [apply Z.mod_pos_bound; lia|eapply Z.lt_le_trans; [apply Z.mod_pos_bound; lia|done]].
    rewrite wrap_small; lia.
  - split; [apply Z.div_pos; lia|]. apply Z.div_lt_upper_bound; lia.
  - apply Z.mod_pos_bound. lia.
Qed.

Lemma set_contents_new fs d pre rest T limit c fl dent addr data n : fat_table g fs d pre rest T →
  data_layout g fs rest → clusters_ok fs T limit → START fs dent = 0 → free_list T limit 3 = c :: fl →
  0 < n ≤ Z.of_nat (length (c :: fl)) * bytesperclust fs → n ≤ Z.of_nat (length data) → n < 2 ^ 32 →
  check_overflow g fs c n = 0 →
  ∃ cs fs' d', set_contents g fs d dent 0 addr data n = Some (0, n, set_start_cluster fs dent c, fs', d') ∧
    new_file fs pre rest T c fl n 0 data cs fs' d'.
Proof.
  intros HT Hl Hok Hstart Hfree Hn Hdata Hn32 Hover. unfold set_contents. rewrite Hstart, Z.add_0_l.
  destruct (Z.eqb_spec n 0); [lia|]. cbn [Z.eqb]. unfold set_clusters. cbn [Z.eqb].
  destruct (find_empty_spec fs d pre rest T limit c fl HT Hok Hfree) as (fs1 & d1 & -> & HT1 & Hs1).
  destruct (free_list_cons _ _ _ _ _ Hfree) as (Hc & _ & _ & Hfl). assert (Hc2 : 2 ≤ c < limit) by lia.
  destruct (Hok c Hc2) as (_ & Hck & _). pose proof (check_range _ _ Hck).
  cbn [mbind option_bind]. rewrite wrap_small by lia.
  assert (check_overflow g fs1 c n = check_overflow g fs c n) as -> by (by destruct Hs1 as (? & ? & ? & ->)).
  rewrite Hover. cbn [Z.eqb negb].
  assert (Eb : bytesperclust fs1 = bytesperclust fs) by (by destruct Hs1 as (? & ? & ? & ->)).
  destruct (set_runs_spec fs1 pre rest T limit c fl n 0 data (data_layout_same g _ _ _ Hs1 Hl)
    (clusters_ok_same _ _ _ _ _ Hs1 eq_refl Hok) Hc2 (eq_sym Hfl) ltac:(by rewrite Eb) ltac:(lia) ltac:(lia)
    d1 (set_start_cluster fs1 dent c) addr 0 HT1 Hn32) as (cs & fs' & d' & -> & Hnew).
  exists cs, fs', d'. rewrite Z.add_0_l. split; [by destruct Hs1 as (? & ? & ? & ->)|].
  destruct Hnew as (fl2 & last & rest' & H1 & H2 & H3 & H4 & H5 & H6 & H7 & H8).
  exists fl2, last, rest'. split; [done|]. split; [done|].
  assert (Hs : same_volume fs fs') by (by eapply same_volume_trans).
  destruct Hs1 as (? & ? & ? & ->). split; [exact H3|]. split; [exact H4|]. split; [done|].
  split; [exact H6|]. split; [exact H7|exact H8].
Qed.

(** What a new file means for the volume. *)
Lemma new_file_volume fs d pre rest T limit c fl dent data n cs fs' d' : fat_table g fs d pre rest T →
  data_layout g fs rest → clusters_ok fs T limit → free_list T limit 3 = c :: fl → dsize dent = n →
  0 < n → n ≤ Z.of_nat (length data) → new_file fs pre rest T c fl n 0 data cs fs' d' →
  ∃ rest' T', fat_table g fs' d' pre rest' T' ∧ data_layout g fs' rest' ∧
    file_of g fs' T' (set_start_cluster fs dent c) cs ∧ ends fs' T' cs ∧ NoDup cs ∧
    take (Z.to_nat n) (file_data fs' rest' cs) = take (Z.to_nat n) data ∧
    (∀ e, 0 ≤ e → e ∉ cs → T' !! Z.to_nat e = T !! Z.to_nat e) ∧
    (∀ e, clust_in g fs e → e ∉ cs → cluster_data fs' rest' e = cluster_data fs rest e) ∧ length T' = length T.
Proof.
  intros HT Hl Hok Hfree Hd Hn0 Hn (fl2 & last & rest' & Hcs & Hlast & Hsize & HT' & Hs & Hlen & Hdata & Hother).
  destruct (table_geometry g _ _ _ _ _ HT) as (_ & _ & _ & _ & _ & _ & _ & Hw & _).
  destruct (free_list_cons _ _ _ _ _ Hfree) as (Hc & _ & _ & Hfl). assert (Hc2 : 2 ≤ c < limit) by lia.
  destruct (Hok c Hc2) as (_ & Hck & _).
  destruct (new_clusters fs T limit c fl Hok Hc2 (eq_sym Hfl)) as (Hnd & Hr & _).
  rewrite Hcs in Hnd, Hr. apply list_relations.list.NoDup_app in Hnd as (Hnd & _ & _). apply Forall_app in Hr as [Hr _].
  destruct (new_chain fs T limit cs last Hok Hr Hnd Hlast Hw) as [Hch Hends].
  assert (Hhead : head cs = Some c) by (destruct cs; [done|]; by injection Hcs as -> _).
  eexists rest', _. split; [exact HT'|]. split; [eapply data_layout_same, data_layout_rest; done|].
  assert (Hfile : file_of g fs (<[Z.to_nat last:=eof_mark fs]> (link T cs)) (set_start_cluster fs dent c) cs).
  { split; [done|]. rewrite start_set by done. split; [done|]. cbn. lia. }
  assert (Hne : ∀ e, e ∉ cs → e ≠ last) by (intros e He ->; apply last_Some_elem_of in Hlast; done).
  assert (Hl0 : 0 ≤ last).
  { apply last_Some_elem_of in Hlast. rewrite list_relations.list.Forall_forall in Hr. destruct (Hr _ Hlast). lia. }
  split; [|split; [|split; [done|split; [|split; [|split]]]]].
  - destruct Hfile as (H1 & H2 & H3). split; [by eapply chain_same|]. by destruct Hs as (? & ? & ? & ->).
  - by destruct Hs as (? & ? & ? & ->).
  - by rewrite (file_data_same fs), Hdata by done.
  - intros e He Hnot. rewrite list_lookup_insert_ne by (specialize (Hne e Hnot); lia). apply link_other; [done| |done].
    eapply list_relations.list.Forall_impl; [exact Hr|]. cbn. lia.
  - destruct Hs as (? & ? & ? & ->). exact Hother.
  - by rewrite length_insert, length_link.
Qed.

Lemma new_file_prefix fs pre rest T c fl n off data cs fs' d' : new_file fs pre rest T c fl n off data cs fs' d' →
  cs `prefix_of` c :: fl ∧ same_volume fs fs'.
Proof. intros (fl2 & l & rest' & Hcs & _ & _ & _ & Hs & _). split; [by exists fl2|done]. Qed.

Lemma cluster_same fs fs' rest c : same_volume fs fs' → cluster_data fs' rest c = cluster_data fs rest c.
Proof. by intros (? & ? & ? & ->). Qed.

Lemma file_of_same fs fs' T dent cs : same_volume fs fs' → file_of g fs T dent cs → file_of g fs' T dent cs.
Proof. intros Hs (Hch & Hrest). split; [by eapply chain_same|]. by destruct Hs as (? & ? & ? & ->). Qed.

(** The other files stay as they are. *)
Lemma file_of_other fs T T' dent cs : file_of g fs T dent cs →
  (∀ c, c ∈ cs → T' !! Z.to_nat c = T !! Z.to_nat c) → file_of g fs T' dent cs.
Proof.
  intros (Hch & Hhead & Hsize) Hsame. split; [|done]. clear Hhead Hsize.
  induction cs as [|c cs IH]; [done|]. destruct Hch as (Hck & Hin & Hlink & Hch). split; [done|]. split; [done|].
  split; [|apply IH; [done|]; intros c' Hc'; apply Hsame; by right].
  destruct cs; [done|]. by rewrite Hsame by left.
Qed.

(** ** Deleting *)

Definition unlink T (cs : list Z) : list Z := foldl (λ T c, <[Z.to_nat c := 0]> T) T cs.

Lemma unlink_snoc T cs c : unlink T (cs ++ [c]) = <[Z.to_nat c := 0]> (unlink T cs).
Proof. unfold unlink. by rewrite foldl_app. Qed.

Lemma length_unlink T cs : length (unlink T cs) = length T.
Proof. induction cs as [|c cs IH] using rev_ind; [done|]. by rewrite unlink_snoc, length_insert. Qed.

Lemma unlink_other T cs e : 0 ≤ e → Forall (λ c, 0 ≤ c) cs → e ∉ cs → unlink T cs !! Z.to_nat e = T !! Z.to_nat e.
Proof.
  intros He. induction cs as [|c cs IH] using rev_ind; intros Hr Hnot; [done|].
  apply Forall_app in Hr as [Hr Hc%Forall_inv]. rewrite not_elem_of_app in Hnot. destruct Hnot as [H1 H2].
  rewrite unlink_snoc, list_lookup_insert_ne; [by apply IH|]. intros E. apply H2, list_elem_of_singleton. lia.
Qed.

Lemma unlink_free T cs e : Forall (λ c, 0 ≤ c < Z.of_nat (length T)) cs → e ∈ cs →
  unlink T cs !! Z.to_nat e = Some 0.
Proof.
  induction cs as [|c cs IH] using rev_ind; intros Hr He; [by apply not_elem_of_nil in He|].
  apply Forall_app in Hr as [Hr Hc%Forall_inv]. rewrite unlink_snoc. destruct (decide (e = c)) as [->|Hne].
  - apply list_lookup_insert_eq. rewrite length_unlink. lia.
  - apply elem_of_app in He as [He|He%list_elem_of_singleton]; [|done].
    assert (0 ≤ e) by (rewrite list_relations.list.Forall_forall in Hr; apply (Hr e He)).
    rewrite list_lookup_insert_ne by lia. by apply IH.
Qed.

(** There are not more clusters in a chain g than entries. *)
Lemma NoDup_bound (cs : list Z) m : NoDup cs → Forall (λ c, 0 ≤ c < m) cs → Z.of_nat (length cs) ≤ Z.max 0 m.
Proof.
  intros Hnd Hr. assert (Hsub : cs ⊆+ seqZ 0 m).
  { apply NoDup_submseteq; [done|]. intros c Hc. rewrite list_relations.list.Forall_forall in Hr.
    apply elem_of_seqZ. destruct (Hr c Hc). lia. }
  apply submseteq_length in Hsub. rewrite length_seqZ in Hsub. lia.
Qed.

Lemma clear_step fs d pre rest T c v : fat_table g fs d pre rest T → CHECK_CLUST c (fatsize fs) = false →
  T !! Z.to_nat c = Some v → v ≠ 0 →
  ∃ fs1 d1 fs' d' x, get_fatent g fs d c = Some (v, fs1, d1) ∧ set_fatent_value g fs1 d1 c 0 = Some (x, fs', d') ∧
    fat_table g fs' d' pre rest (<[Z.to_nat c := 0]> T) ∧ same_volume fs fs'.
Proof.
  intros HT Hck Hv Hv0. pose proof (check_range _ _ Hck).
  destruct (table_get g fs d pre rest T c v HT Hck Hv) as (fs1 & d1 & Hget & HT1 & Hs1).
  apply lookup_lt_Some in Hv.
  destruct (table_set g fs1 d1 pre rest T c 0 HT1) as (fs2 & d2 & Hset & HT2 & Hs2); [lia|lia|].
  exists fs1, d1, fs2, d2, 0. split_and!; try done. by eapply same_volume_trans.
Qed.

Lemma chain_next fs T all dn x rem : chain g fs T all → all = dn ++ x :: rem → ends fs T all →
  ∃ v, T !! Z.to_nat x = Some v ∧ match rem with [] => CHECK_CLUST v (fatsize fs) = true | y :: _ => v = y ∧ v ≠ 0 end.
Proof.
  intros Hch -> (l & v & Hlast & Hv & Hend). destruct rem as [|y rem].
  - rewrite last_snoc in Hlast. injection Hlast as <-. by exists v.
  - exists y. split; [by apply (chain_link g fs T dn x y rem)|]. split; [done|].
    destruct (chain_elem g fs T _ y Hch) as [Hck _]; [apply elem_of_app; right; right; by left|].
    pose proof (check_range _ _ Hck). lia.
Qed.

Lemma chain_range fs T cs : chain g fs T cs → ends fs T cs → Forall (λ c, 0 ≤ c < Z.of_nat (length T)) cs.
Proof.
  intros Hch (l & v & Hlast & Hv & _). apply list_relations.list.Forall_forall. intros e He.
  destruct (chain_elem g fs T cs e Hch He) as [Hck Hnext]. pose proof (check_range _ _ Hck).
  destruct Hnext as [[n Hn%lookup_lt_Some]|Hl]; [lia|].
  rewrite Hlast in Hl. injection Hl as <-. apply lookup_lt_Some in Hv. lia.
Qed.

Lemma clear_spec fs d pre rest T c cs : fat_table g fs d pre rest T → chain g fs T (c :: cs) →
  ends fs T (c :: cs) → NoDup (c :: cs) →
  ∃ fs' d', clear_fatent g fs d c = Some (0, fs', d') ∧ fat_table g fs' d' pre rest (unlink T (c :: cs)) ∧
    same_volume fs fs' ∧ fat_dirty fs' = 0 ∧
    ∃ B, contents d' = pre ++ copies fs B ++ rest ∧ table_of (fatsize fs) B = unlink T (c :: cs).
Proof.
  intros HT Hch (l & v & Hlast & Hv & Hend) Hnd. set (all := c :: cs) in *.
  assert (Hr : Forall (λ c, 0 ≤ c < Z.of_nat (length T)) all) by (eapply chain_range; [done|]; by exists l, v).
  assert (Hbound : (length all < fat_fuel fs)%nat).
  { pose proof (NoDup_bound all _ Hnd Hr). pose proof (fuel_enough _ _ _ _ _ HT). lia. }
  unfold clear_fatent.
  loop_ix (length all)
    (λ (m : nat) '((fs1, d1, e) : fsdata * dev * Z), ∃ dn rem, all = dn ++ rem ∧ m = length rem ∧
       fat_table g fs1 d1 pre rest (unlink T dn) ∧ same_volume fs fs1 ∧
       match rem with [] => CHECK_CLUST e (fatsize fs) = true | x :: _ => e = x end)
    (λ '((fs1, d1, e) : fsdata * dev * Z), fat_table g fs1 d1 pre rest (unlink T all) ∧ same_volume fs fs1).
  - intros m [[fs1 d1] e] (dn & rem & Hall & -> & HT1 & Hs1 & He).
    assert (fatsize fs1 = fatsize fs) as -> by (by destruct Hs1 as (? & ? & ? & ->)).
    destruct rem as [|x rem].
    { rewrite He. cbn [negb]. eexists. split; [done|]. rewrite app_nil_r in Hall. by rewrite Hall. }
    subst e. assert (Hx : x ∈ all) by (rewrite Hall; apply elem_of_app; right; by left).
    destruct (chain_elem g fs T all x Hch Hx) as [Hck _]. rewrite Hck. cbn [negb].
    destruct (chain_next fs T all dn x rem Hch Hall) as (v1 & Hv1 & Hnext); [by exists l, v|].
    assert (Hnot : x ∉ dn).
    { intros Hin. pose proof Hnd as Hnd'. rewrite Hall in Hnd'.
      apply list_relations.list.NoDup_app in Hnd' as (_ & Hdis & _). apply (Hdis x Hin). by left. }
    assert (Hv1' : unlink T dn !! Z.to_nat x = Some v1).
    { rewrite <-Hv1. rewrite Hall, Forall_app, Forall_cons_iff in Hr. destruct Hr as (Hdn & Hx0 & _).
      apply unlink_other; [lia| |done]. eapply list_relations.list.Forall_impl; [exact Hdn|]. cbn. lia. }
    assert (Hsz : fatsize fs1 = fatsize fs) by (by destruct Hs1 as (? & ? & ? & ->)).
    assert (Hall' : all = (dn ++ [x]) ++ rem) by (by rewrite Hall, <-app_assoc).
    destruct (Z.eqb_spec v1 0) as [E|E].
    + rewrite <-Hsz in Hck. destruct (table_get g fs1 d1 pre rest _ x v1 HT1 Hck Hv1') as (fs2 & d2 & -> & HT2 & Hs2).
      cbn [mbind option_bind]. rewrite E. cbn [Z.eqb negb]. eexists. split; [done|].
      destruct rem as [|y rem]; [|destruct Hnext; by subst]. rewrite app_nil_r in Hall'.
      rewrite Hall', unlink_snoc, list_insert_id by (by rewrite Hv1', E). split; [done|by eapply same_volume_trans].
    + rewrite <-Hsz in Hck. destruct (clear_step fs1 d1 pre rest _ x v1 HT1 Hck Hv1' E)
        as (fs2 & d2 & fs3 & d3 & r & -> & Hset & HT3 & Hs3).
      cbn [mbind option_bind]. apply Z.eqb_neq in E. rewrite E. cbn [negb]. rewrite Hset. cbn [mbind option_bind].
      eexists. split; [done|]. exists (length rem). split; [cbn; lia|]. exists (dn ++ [x]), rem.
      rewrite unlink_snoc. split_and!; [done|done|done|by eapply same_volume_trans|]. destruct rem; [done|by destruct Hnext].
  - exists [], all. split_and!; try done. apply same_volume_refl.
  - lia.
  - destruct st as [[fs1 d1] e]. destruct HQ as [HT1 Hs1]. cbn [mbind option_bind].
    destruct (table_flush g fs1 d1 pre rest _ HT1) as (fs2 & d2 & B & -> & HT2 & Hs2 & Hdirty & Hc & HB).
    exists fs2, d2. split_and!; try done; [by eapply same_volume_trans|].
    exists B. by destruct Hs1 as (? & ? & ? & ->).
Qed.

Lemma reads_other fs d pre rest T fs' d' pre' rest' T' dent cs :
  fat_table g fs d pre rest T → data_layout g fs rest → fat_table g fs' d' pre' rest' T' → data_layout g fs' rest' →
  same_volume fs fs' → file_of g fs T dent cs →
  (∀ e, e ∈ cs → 2 ≤ e → T' !! Z.to_nat e = T !! Z.to_nat e) →
  (∀ e, e ∈ cs → clust_in g fs e → cluster_data fs' rest' e = cluster_data fs rest e) →
  ∃ bytes, reads g fs d dent bytes ∧ reads g fs' d' dent bytes.
Proof.
  intros HT Hl HT' Hl' Hs Hf Hsame Hdsame. exists (take (Z.to_nat (dsize dent)) (file_data fs rest cs)).
  split; [by eapply file_reads|].
  pose proof (chain_in g _ _ _ (proj1 Hf)) as Hin. rewrite list_relations.list.Forall_forall in Hin.
  rewrite <-(file_data_other fs rest rest' cs), <-(file_data_same fs fs' rest') by
    (done || intros e He; rewrite <-(cluster_same fs fs') by done; apply Hdsame; auto).
  apply (file_reads g fs' d' pre' rest' T'); [done..|]. apply (file_of_other fs' T).
  - by apply (file_of_same fs fs').
  - intros e He. apply Hsame; [done|]. by destruct (Hin e He).
Qed.

(** Deleting a file whose clusters were free restores the table. *)
Lemma unlink_restores fs T T' cs limit e0 : chain g fs T' cs → ends fs T' cs → length T' = length T →
  (∀ e, e ∈ cs → e ∈ free_list T limit e0) →
  (∀ e, 0 ≤ e → e ∉ cs → T' !! Z.to_nat e = T !! Z.to_nat e) → unlink T' cs = T.
Proof.
  intros Hch Hends Hlen Hfree Hsame. pose proof (chain_range fs T' cs Hch Hends) as Hr. apply list_eq. intros i.
  destruct (decide (Z.of_nat i ∈ cs)) as [Hin|Hnot]; rewrite <-(Nat2Z.id i).
  - rewrite unlink_free by done. specialize (Hfree _ Hin). by apply free_list_elem in Hfree as [-> _].
  - rewrite unlink_other; [apply Hsame; [lia|done]|lia| |done].
    eapply list_relations.list.Forall_impl; [exact Hr|]. cbn. lia.
Qed.
End data.

(** ** Properties *)

(** C6. Round trip of a new file: [set_contents] writes all of its bytes into
    the first free clusters, the entry it returns reads as these bytes, at any
    position, and every other file of the volume reads as before.  The table
    differs at the clusters of the file only, which were free. *)
Theorem fat_write_read `{!BlockDev, !DevWorks} g fs d pre rest T limit c fl dent addr data :
  fat_table g fs d pre rest T → data_layout g fs rest → clusters_ok g fs T limit →
  START fs dent = 0 → free_list T limit 3 = c :: fl →
  0 < dsize dent ≤ Z.of_nat (length (c :: fl)) * bytesperclust fs →
  dsize dent ≤ Z.of_nat (length data) → dsize dent < 2 ^ 32 → check_overflow g fs c (dsize dent) = 0 →
  ∃ cs dent' fs' d' rest' T', set_contents g fs d dent 0 addr data (dsize dent) = Some (0, dsize dent, dent', fs', d') ∧
    cs `prefix_of` c :: fl ∧ fat_table g fs' d' pre rest' T' ∧ file_of g fs' T' dent' cs ∧
    (∀ e, 0 ≤ e → e ∉ cs → T' !! Z.to_nat e = T !! Z.to_nat e) ∧
    reads g fs' d' dent' (take (Z.to_nat (dsize dent)) data) ∧
    ∀ dent2 cs2, file_of g fs T dent2 cs2 → (∀ e, e ∈ cs2 → T !! Z.to_nat e ≠ Some 0) →
      ∃ bytes, reads g fs d dent2 bytes ∧ reads g fs' d' dent2 bytes.
Proof.
  intros HT Hl Hok Hstart Hfree Hn Hdata Hn32 Hover.
  destruct (set_contents_new g fs d pre rest T limit c fl dent addr data _ HT Hl Hok Hstart Hfree Hn Hdata Hn32 Hover)
    as (cs & fs' & d' & Hset & Hnew). pose proof (new_file_prefix _ _ _ _ _ _ _ _ _ _ _ _ _ Hnew) as [Hpre Hs].
  destruct (new_file_volume g fs d pre rest T limit c fl dent data _ cs fs' d' HT Hl Hok Hfree eq_refl ltac:(lia) Hdata Hnew)
    as (rest' & T' & HT' & Hl' & Hfile & _ & _ & Hread & Hsame & Hdsame & _).
  exists cs, (set_start_cluster fs dent c), fs', d', rest', T'.
  split; [done|]. split; [done|]. split; [done|]. split; [done|]. split; [done|]. split.
  - rewrite <-Hread. by apply (file_reads g fs' d' pre rest' T' (set_start_cluster fs dent c) cs).
  - intros dent2 cs2 Hf2 Hused.
    assert (Hnot : ∀ e, e ∈ cs2 → e ∉ cs).
    { intros e He Hin. apply (Hused e He), (free_list_elem T limit 3 e). rewrite Hfree. by eapply elem_of_prefix. }
    apply (reads_other g fs d pre rest T fs' d' pre rest' T' dent2 cs2); try done;
      intros e He Hin; [apply Hsame; [lia|]|apply Hdsame; [done|]]; auto.
Qed.


(** C24. Round trip: deleting a file that was just written gives the table back
    as it was, so no cluster is lost. *)
Theorem fat_write_delete `{!BlockDev, !DevWorks} g fs d pre rest T limit c fl dent addr data :
  fat_table g fs d pre rest T → data_layout g fs rest → clusters_ok g fs T limit →
  START fs dent = 0 → free_list T limit 3 = c :: fl →
  0 < dsize dent ≤ Z.of_nat (length (c :: fl)) * bytesperclust fs →
  dsize dent ≤ Z.of_nat (length data) → dsize dent < 2 ^ 32 → check_overflow g fs c (dsize dent) = 0 →
  ∃ dent' fs1 d1 fs' d' rest', set_contents g fs d dent 0 addr data (dsize dent) = Some (0, dsize dent, dent', fs1, d1) ∧
    clear_fatent g fs1 d1 (START fs1 dent') = Some (0, fs', d') ∧ fat_table g fs' d' pre rest' T.
Proof.
  intros HT Hl Hok Hstart Hfree Hn Hdata Hn32 Hover.
  destruct (set_contents_new g fs d pre rest T limit c fl dent addr data _ HT Hl Hok Hstart Hfree Hn Hdata Hn32 Hover)
    as (cs & fs1 & d1 & Hset & Hnew). pose proof (new_file_prefix _ _ _ _ _ _ _ _ _ _ _ _ _ Hnew) as [Hpre _].
  destruct (new_file_volume g fs d pre rest T limit c fl dent data _ cs fs1 d1 HT Hl Hok Hfree eq_refl ltac:(lia) Hdata Hnew)
    as (rest' & T' & HT' & Hl' & (Hch & Hhead & Hsize) & Hends & Hnd & _ & Hsame & _ & Hlen).
  assert (Hd : dsize (set_start_cluster fs dent c) ≠ 0) by (change (dsize dent ≠ 0); lia). specialize (Hhead Hd).
  destruct cs as [|c' cs]; [done|]. injection Hhead as ->.
  destruct (clear_spec g fs1 d1 pre rest' T' _ cs HT' Hch Hends Hnd) as (fs' & d' & Hclear & HT2 & _).
  exists (set_start_cluster fs dent c), fs1, d1, fs', d', rest'. split; [done|]. split; [done|].
  rewrite (unlink_restores g fs1 T T' _ limit 3 Hch Hends Hlen) in HT2; [done| |done].
  intros e He. rewrite Hfree. by eapply elem_of_prefix.
Qed.

(** ** Examples *)

Lemma small_clusters : clusters_ok small_globals small file_table 14.
Proof.
  intros c Hc. split; [split; cbn; lia|]. split; [|cbn; lia]. unfold CHECK_CLUST. cbn.
  apply orb_false_iff. split; apply Z.leb_gt; lia.
Qed.

Definition ten_bytes : list Z := [48; 49; 50; 51; 52; 53; 54; 55; 56; 57].

(** The first free clusters are 6, 7 and 8. *)
Lemma fat_write_read_witness :
  ∃ cs dent' fs' d' rest' T', @set_contents small_dev small_globals small file_disk (entry_at 0 10) 0 0 ten_bytes 10 =
      Some (0, 10, dent', fs', d') ∧
    cs `prefix_of` [6; 7; 8; 9; 10; 11; 12; 13] ∧
    @fat_table small_dev small_globals fs' d' (replicate 8 0) rest' T' ∧ file_of small_globals fs' T' dent' cs ∧
    (∀ e, 0 ≤ e → e ∉ cs → T' !! Z.to_nat e = file_table !! Z.to_nat e) ∧
    @reads small_dev small_globals fs' d' dent' ten_bytes ∧
    ∀ dent2 cs2, file_of small_globals small file_table dent2 cs2 →
      (∀ e, e ∈ cs2 → file_table !! Z.to_nat e ≠ Some 0) →
      ∃ bytes, @reads small_dev small_globals small file_disk dent2 bytes ∧
        @reads small_dev small_globals fs' d' dent2 bytes.
Proof.
  apply (@fat_write_read small_dev (ramdisk_works 4 four_pos) small_globals small file_disk (replicate 8 0) file_rest
    file_table 14 6 [7; 8; 9; 10; 11; 12; 13] (entry_at 0 10) 0 ten_bytes small_state small_layout small_clusters);
    [done|reflexivity|by split; vm_compute|by vm_compute|by vm_compute|reflexivity].
Defined.

Lemma fat_write_delete_witness :
  ∃ dent' fs1 d1 fs' d' rest', @set_contents small_dev small_globals small file_disk (entry_at 0 10) 0 0 ten_bytes 10 =
      Some (0, 10, dent', fs1, d1) ∧
    @clear_fatent small_dev small_globals fs1 d1 (START fs1 dent') = Some (0, fs', d') ∧
    @fat_table small_dev small_globals fs' d' (replicate 8 0) rest' file_table.
Proof.
  apply (@fat_write_delete small_dev (ramdisk_works 4 four_pos) small_globals small file_disk (replicate 8 0) file_rest
    file_table 14 6 [7; 8; 9; 10; 11; 12; 13] (entry_at 0 10) 0 ten_bytes small_state small_layout small_clusters);
    [done|reflexivity|by split; vm_compute|by vm_compute|by vm_compute|reflexivity].
Defined.


(** What a file holds after one was written. *)
Definition read_after (w : option (Z * Z * dir_entry * fsdata * list Z)) (dent : dir_entry) : option (Z * Z * list Z) :=
  '(_, _, _, fs, d) ← w;
  '(ret, got, area, _, _) ← @get_contents small_dev small_globals true fs d dent 0 0 (replicate 8 0) 0;
  Some (ret, got, area).

(** The eight bytes of the file in the clusters 3 and 5 are written again: the
    clusters are taken for consecutive ones, so the second half of the bytes
    goes to cluster 4, which is another file. *)
Example set_contents_fragmented :
  let w := @set_contents small_dev small_globals small file_disk (entry_at 3 8) 0 0 [97; 98; 99; 100; 101; 102; 103; 104] 8 in
  (r ← w; Some (r.1.1.1.1, r.1.1.1.2)) = Some (0, 8) ∧
  read_after w (entry_at 3 8) = Some (0, 8, [97; 98; 99; 100; 69; 70; 71; 72]) ∧
  read_after w (entry_at 4 4) = Some (0, 4, [101; 102; 103; 104; 0; 0; 0; 0]).
Proof. by vm_compute. Qed.

(** A volume without a free cluster: every entry is the mark for the end of a
    file. *)
Definition full_volume : fsdata := with_buffer small (replicate 24 255) 0 0.
Definition full_disk : list Z := replicate 8 0 ++ replicate 64 255 ++ replicate 52 0.

(** The search does not stop at the last cluster: it finds number 32, where the
    table has 21 entries.  The overflow is noticed, but only after the entry of
    the file in cluster 3, which grows from 4 to 8 bytes, refers to it. *)
Example set_contents_full :
  (r ← @find_empty_cluster small_dev small_globals full_volume full_disk; Some r.1.1) = Some 32 ∧
  ('(ret, got, _, fs, d) ← @set_contents small_dev small_globals full_volume full_disk (entry_at 3 8) 0 0
                             [1; 2; 3; 4; 5; 6; 7; 8] 8;
   r ← @get_fatent small_dev small_globals fs d 3; Some (ret, got, r.1.1)) = Some (-1, 4, 32).
Proof. by vm_compute. Qed.

(** A part of an existing file is written: the file ends behind it. *)
Example set_contents_truncates :
  let w := @set_contents small_dev small_globals small file_disk (entry_at 3 2) 0 0 [97; 98] 2 in
  ('(_, _, _, fs, d) ← w; r ← @get_fatent small_dev small_globals fs d 3; Some r.1.1) = Some 0xfff.
Proof. by vm_compute. Qed.
