(* ===== verification/Crc32.v ===== *)
(** * Crc32: the checksum of lib/crc32.c

    A register of 32 bits holds the polynomial with the lowest power in the
    highest bit.  [crc32_no_comp] takes whole words where the buffer is aligned,
    through a table of 256 entries; the reference is the register that is fed
    one bit after the other.  The table is the static one; what
    CONFIG_DYNAMIC_CRC_TABLE computes instead is [make_crc_table]. *)

From Stdlib Require Import ZArith Lia List.
From stdpp Require Import base numbers list option gmap.
From S2P Require Import Prelude Memory.

(** ** The table *)

Definition crc_table : list Z := [
  0x00000000; 0x77073096; 0xee0e612c; 0x990951ba; 0x076dc419; 0x706af48f; 0xe963a535;
  0x9e6495a3; 0x0edb8832; 0x79dcb8a4; 0xe0d5e91e; 0x97d2d988; 0x09b64c2b; 0x7eb17cbd;
  0xe7b82d07; 0x90bf1d91; 0x1db71064; 0x6ab020f2; 0xf3b97148; 0x84be41de; 0x1adad47d;
  0x6ddde4eb; 0xf4d4b551; 0x83d385c7; 0x136c9856; 0x646ba8c0; 0xfd62f97a; 0x8a65c9ec;
  0x14015c4f; 0x63066cd9; 0xfa0f3d63; 0x8d080df5; 0x3b6e20c8; 0x4c69105e; 0xd56041e4;
  0xa2677172; 0x3c03e4d1; 0x4b04d447; 0xd20d85fd; 0xa50ab56b; 0x35b5a8fa; 0x42b2986c;
  0xdbbbc9d6; 0xacbcf940; 0x32d86ce3; 0x45df5c75; 0xdcd60dcf; 0xabd13d59; 0x26d930ac;
  0x51de003a; 0xc8d75180; 0xbfd06116; 0x21b4f4b5; 0x56b3c423; 0xcfba9599; 0xb8bda50f;
  0x2802b89e; 0x5f058808; 0xc60cd9b2; 0xb10be924; 0x2f6f7c87; 0x58684c11; 0xc1611dab;
  0xb6662d3d; 0x76dc4190; 0x01db7106; 0x98d220bc; 0xefd5102a; 0x71b18589; 0x06b6b51f;
  0x9fbfe4a5; 0xe8b8d433; 0x7807c9a2; 0x0f00f934; 0x9609a88e; 0xe10e9818; 0x7f6a0dbb;
  0x086d3d2d; 0x91646c97; 0xe6635c01; 0x6b6b51f4; 0x1c6c6162; 0x856530d8; 0xf262004e;
  0x6c0695ed; 0x1b01a57b; 0x8208f4c1; 0xf50fc457; 0x65b0d9c6; 0x12b7e950; 0x8bbeb8ea;
  0xfcb9887c; 0x62dd1ddf; 0x15da2d49; 0x8cd37cf3; 0xfbd44c65; 0x4db26158; 0x3ab551ce;
  0xa3bc0074; 0xd4bb30e2; 0x4adfa541; 0x3dd895d7; 0xa4d1c46d; 0xd3d6f4fb; 0x4369e96a;
  0x346ed9fc; 0xad678846; 0xda60b8d0; 0x44042d73; 0x33031de5; 0xaa0a4c5f; 0xdd0d7cc9;
  0x5005713c; 0x270241aa; 0xbe0b1010; 0xc90c2086; 0x5768b525; 0x206f85b3; 0xb966d409;
  0xce61e49f; 0x5edef90e; 0x29d9c998; 0xb0d09822; 0xc7d7a8b4; 0x59b33d17; 0x2eb40d81;
  0xb7bd5c3b; 0xc0ba6cad; 0xedb88320; 0x9abfb3b6; 0x03b6e20c; 0x74b1d29a; 0xead54739;
  0x9dd277af; 0x04db2615; 0x73dc1683; 0xe3630b12; 0x94643b84; 0x0d6d6a3e; 0x7a6a5aa8;
  0xe40ecf0b; 0x9309ff9d; 0x0a00ae27; 0x7d079eb1; 0xf00f9344; 0x8708a3d2; 0x1e01f268;
  0x6906c2fe; 0xf762575d; 0x806567cb; 0x196c3671; 0x6e6b06e7; 0xfed41b76; 0x89d32be0;
  0x10da7a5a; 0x67dd4acc; 0xf9b9df6f; 0x8ebeeff9; 0x17b7be43; 0x60b08ed5; 0xd6d6a3e8;
  0xa1d1937e; 0x38d8c2c4; 0x4fdff252; 0xd1bb67f1; 0xa6bc5767; 0x3fb506dd; 0x48b2364b;
  0xd80d2bda; 0xaf0a1b4c; 0x36034af6; 0x41047a60; 0xdf60efc3; 0xa867df55; 0x316e8eef;
  0x4669be79; 0xcb61b38c; 0xbc66831a; 0x256fd2a0; 0x5268e236; 0xcc0c7795; 0xbb0b4703;
  0x220216b9; 0x5505262f; 0xc5ba3bbe; 0xb2bd0b28; 0x2bb45a92; 0x5cb36a04; 0xc2d7ffa7;
  0xb5d0cf31; 0x2cd99e8b; 0x5bdeae1d; 0x9b64c2b0; 0xec63f226; 0x756aa39c; 0x026d930a;
  0x9c0906a9; 0xeb0e363f; 0x72076785; 0x05005713; 0x95bf4a82; 0xe2b87a14; 0x7bb12bae;
  0x0cb61b38; 0x92d28e9b; 0xe5d5be0d; 0x7cdcefb7; 0x0bdbdf21; 0x86d3d2d4; 0xf1d4e242;
  0x68ddb3f8; 0x1fda836e; 0x81be16cd; 0xf6b9265b; 0x6fb077e1; 0x18b74777; 0x88085ae6;
  0xff0f6a70; 0x66063bca; 0x11010b5c; 0x8f659eff; 0xf862ae69; 0x616bffd3; 0x166ccf45;
  0xa00ae278; 0xd70dd2ee; 0x4e048354; 0x3903b3c2; 0xa7672661; 0xd06016f7; 0x4969474d;
  0x3e6e77db; 0xaed16a4a; 0xd9d65adc; 0x40df0b66; 0x37d83bf0; 0xa9bcae53; 0xdebb9ec5;
  0x47b2cf7f; 0x30b5ffe9; 0xbdbdf21c; 0xcabac28a; 0x53b39330; 0x24b4a3a6; 0xbad03605;
  0xcdd70693; 0x54de5729; 0x23d967bf; 0xb3667a2e; 0xc4614ab8; 0x5d681b02; 0x2a6f2b94;
  0xb40bbe37; 0xc30c8ea1; 0x5a05df1b; 0x2d02ef8d
].

(** The terms of the polynomial, without x^32. *)
Definition crc_terms : list Z := [0; 1; 2; 4; 5; 7; 8; 10; 11; 12; 16; 22; 23; 26].

Definition crc_poly : Z := foldl (λ poly t, Z.lor poly (Z.shiftl 1 (31 - t))) 0 crc_terms.

(** One bit is shifted out of the register. *)
Definition crc_shift (c : Z) : Z :=
  if negb (Z.land c 1 =? 0) then Z.lxor crc_poly (Z.shiftr c 1) else Z.shiftr c 1.

Definition make_crc_table : list Z :=
  (λ n, Nat.iter 8 crc_shift (Z.of_nat n)) <$> seq 0 256.

(** ** The checksum *)

Definition DO_CRC (crc x : Z) : option Z :=
  t ← arr_get crc_table (Z.land (Z.lxor crc x) 255);
  Some (Z.lxor t (Z.shiftr crc 8)).

(** The bytes at [p] one by one, up to the end or, where [align] says so, to
    the next aligned address. *)
Definition crc_single (m : mem) (align : bool) (crc p len : Z) : option (Z * Z * Z) :=
  loop_brk 4 (λ '(crc, p, len),
    x ← load m p;
    crc ← DO_CRC crc x;
    let p := p + 1 in
    let len := len - 1 in
    if negb (len =? 0) && negb (align && (Z.land p 3 =? 0))
    then Some (Next (crc, p, len)) else Some (Break (crc, p, len)))
  (crc, p, len).

Definition crc_words (m : mem) (crc b len : Z) : option (Z * Z * Z) :=
  loop_brk (S (Z.to_nat len)) (λ '(crc, b, len),
    if len =? 0 then Some (Break (crc, b, len))
    else
      w ← load32 m b;
      crc ← DO_CRC (Z.lxor crc w) 0;
      crc ← DO_CRC crc 0;
      crc ← DO_CRC crc 0;
      crc ← DO_CRC crc 0;
      Some (Next (crc, b + 4, len - 1)))
  (crc, b, len).

Definition crc32_no_comp (m : mem) (crc buf len : Z) : option Z :=
  '(crc, b, len) ← (if negb (Z.land buf 3 =? 0) && negb (len =? 0)
                    then crc_single m true crc buf len else Some (crc, buf, len));
  let rem_len := Z.land len 3 in
  '(crc, b, _) ← crc_words m crc b (Z.shiftr len 2);
  if negb (rem_len =? 0) then
    '(crc, _, _) ← crc_single m false crc b rem_len;
    Some crc
  else Some crc.

Definition crc32 (m : mem) (crc p len : Z) : option Z :=
  crc ← crc32_no_comp m (Z.lxor crc 0xffffffff) p len;
  Some (Z.lxor crc 0xffffffff).

(** With a watchdog ([wd]) the data are taken in chunks. *)
Definition crc32_wd (wd : bool) (m : mem) (crc buf len chunk_sz : Z) : option Z :=
  if wd then
    '(crc, _) ← loop_brk (S (Z.to_nat len)) (λ '(crc, curr),
        if curr <? buf + len then
          let chunk := buf + len - curr in
          let chunk := if chunk_sz <? chunk then chunk_sz else chunk in
          crc ← crc32 m crc curr chunk;
          Some (Next (crc, curr + chunk))
        else Some (Break (crc, curr)))
      (crc, buf);
    Some crc
  else crc32 m crc buf len.

(** ** The reference *)

(** The register takes one bit, and a list of bits. *)
Definition crc_feed (c : Z) (b : bool) : Z := crc_shift (Z.lxor c (Z.b2z b)).
Definition crc_bits (c : Z) (l : list bool) : Z := foldl crc_feed c l.

(** The low [n] bits of [x], the lowest first. *)
Fixpoint bits (n : nat) (x : Z) : list bool :=
  match n with O => [] | S n => Z.odd x :: bits n (Z.shiftr x 1) end.

Definition byte_bits (l : list Z) : list bool := l ≫= bits 8.

(** The checksum of the bytes [l] with the start value [crc]. *)
Definition crc32_of (crc : Z) (l : list Z) : Z :=
  Z.lxor (crc_bits (Z.lxor crc 0xffffffff) (byte_bits l)) 0xffffffff.

(** ** The register *)

Definition reg (c : Z) : Prop := 0 ≤ c < 2 ^ 32.

Abbreviation steps n c := (Nat.iter n crc_shift c).

Lemma crc_poly_value : crc_poly = 0xedb88320.
Proof. reflexivity. Qed.

Lemma crc_shift_odd c : crc_shift c = Z.lxor (if Z.odd c then crc_poly else 0) (Z.shiftr c 1).
Proof.
  unfold crc_shift. change 1 with (Z.ones 1) at 1. rewrite Z.land_ones by lia.
  change (2 ^ 1) with 2. rewrite Zmod_odd. by destruct (Z.odd c).
Qed.

Lemma odd_lxor a b : Z.odd (Z.lxor a b) = xorb (Z.odd a) (Z.odd b).
Proof. rewrite <-!Z.bit0_odd. apply Z.lxor_spec. Qed.

Lemma crc_shift_lxor a b : crc_shift (Z.lxor a b) = Z.lxor (crc_shift a) (crc_shift b).
Proof.
  rewrite !crc_shift_odd, odd_lxor, Z.shiftr_lxor. apply Z.bits_inj'. intros n _.
  rewrite !Z.lxor_spec. destruct (Z.odd a), (Z.odd b); cbn [xorb];
    rewrite ?Z.bits_0; repeat (destruct (Z.testbit _ _)); done.
Qed.

Lemma steps_lxor n a b : steps n (Z.lxor a b) = Z.lxor (steps n a) (steps n b).
Proof. induction n as [|n IH]; [done|]. rewrite !Nat.iter_succ, IH. apply crc_shift_lxor. Qed.

Lemma crc_shift_double h : crc_shift (2 * h) = h.
Proof.
  rewrite crc_shift_odd. replace (Z.odd (2 * h)) with false by (by rewrite Z.odd_mul).
  rewrite Z.lxor_0_l, Z.shiftr_div_pow2 by lia. change (2 ^ 1) with 2. rewrite Z.mul_comm. by apply Z.div_mul.
Qed.

Lemma crc_shift_reg c : reg c → reg (crc_shift c).
Proof.
  intros Hc. rewrite crc_shift_odd. apply lxor_range; [lia|by destruct (Z.odd c)|].
  unfold reg in Hc. rewrite Z.shiftr_div_pow2 by lia. split; [apply Z.div_pos; lia|]. apply Z.div_lt_upper_bound; lia.
Qed.

Lemma steps_reg n c : reg c → reg (steps n c).
Proof. intros Hc. induction n as [|n IH]; [done|]. rewrite Nat.iter_succ. by apply crc_shift_reg. Qed.

(** A register that is not zero does not become zero. *)
Lemma crc_shift_nonzero c : reg c → crc_shift c = 0 → c = 0.
Proof.
  intros Hc. rewrite crc_shift_odd. intros E%Z.lxor_eq. unfold reg in Hc.
  rewrite Z.shiftr_div_pow2 in E by lia. pose proof (Z.div_mod c (2 ^ 1)) as Hd. change (2 ^ 1) with 2 in *.
  rewrite Zmod_odd in Hd. destruct (Z.odd c); [|lia]. rewrite crc_poly_value in E. lia.
Qed.

Lemma steps_nonzero n c : reg c → c ≠ 0 → steps n c ≠ 0.
Proof.
  intros Hc Hne. induction n as [|n IH]; [done|]. rewrite Nat.iter_succ. intros E.
  by apply IH, crc_shift_nonzero; [apply steps_reg|].
Qed.

(** The low bits of [c] go through the register, the others move down. *)
Lemma steps_split n c : 0 ≤ c → steps n c = Z.lxor (steps n (c mod 2 ^ Z.of_nat n)) (Z.shiftr c (Z.of_nat n)).
Proof.
  intros Hc. assert (Hhigh : ∀ k h, steps k (2 ^ Z.of_nat k * h) = h).
  { induction k as [|k IH]; intros h; [apply Z.mul_1_l|]. rewrite Nat.iter_succ_r.
    rewrite Nat2Z.inj_succ, Z.pow_succ_r by lia.
    replace (2 * 2 ^ Z.of_nat k * h) with (2 * (2 ^ Z.of_nat k * h)) by ring. by rewrite crc_shift_double, IH. }
  rewrite Z.shiftr_div_pow2 by lia. rewrite <-(Hhigh n (c / 2 ^ Z.of_nat n)) at 1. rewrite <-steps_lxor. f_equal.
  rewrite <-Z.land_ones, <-Z.shiftr_div_pow2, Z.mul_comm, <-Z.shiftl_mul_pow2 by lia.
  apply Z.bits_inj'. intros i Hi. rewrite Z.lxor_spec, Z.land_spec, Z.testbit_ones_nonneg, Z.shiftl_spec by lia.
  destruct (Z.ltb_spec i (Z.of_nat n)).
  - rewrite (Z.testbit_neg_r _ (i - Z.of_nat n)) by lia. by rewrite andb_true_r, xorb_false_r.
  - rewrite Z.shiftr_spec by lia. replace (i - Z.of_nat n + Z.of_nat n) with i by lia. by rewrite andb_false_r.
Qed.

Lemma make_crc_table_eq : make_crc_table = crc_table.
Proof. vm_compute. reflexivity. Qed.

Lemma crc_table_lookup i : 0 ≤ i < 256 → arr_get crc_table i = Some (steps 8 i).
Proof.
  intros Hi. apply arr_get_Some. split; [lia|]. rewrite <-make_crc_table_eq. unfold make_crc_table.
  rewrite list_lookup_fmap, lookup_seq_lt by lia. cbn [fmap option_fmap option_map]. do 2 f_equal. lia.
Qed.

Lemma DO_CRC_spec c x : 0 ≤ c → is_byte x → DO_CRC c x = Some (steps 8 (Z.lxor c x)).
Proof.
  intros Hc Hx. unfold DO_CRC, is_byte in *. change 255 with (Z.ones 8). rewrite Z.land_ones by lia.
  rewrite crc_table_lookup by (apply Z.mod_pos_bound; lia). cbn [mbind option_bind].
  rewrite (steps_split 8 (Z.lxor c x)) by (apply Z.lxor_nonneg; lia). do 2 f_equal.
  change (Z.of_nat 8) with 8. rewrite Z.shiftr_lxor, (Z.shiftr_div_pow2 x), (Z.div_small x) by lia. by rewrite Z.lxor_0_r.
Qed.

(** ** Bits *)

Lemma length_bits n x : length (bits n x) = n.
Proof. revert x. induction n as [|n IH]; intros x; [done|]. cbn. by rewrite IH. Qed.

Lemma bits_app n k x : bits (n + k) x = bits n x ++ bits k (Z.shiftr x (Z.of_nat n)).
Proof.
  revert x. induction n as [|n IH]; intros x; [by rewrite Z.shiftr_0_r|]. cbn [bits app Nat.add].
  rewrite IH, Z.shiftr_shiftr by lia. do 4 f_equal. lia.
Qed.

(** [bits n] looks at the low [n] bits only. *)
Lemma bits_low n x h : bits n (x + 2 ^ Z.of_nat n * h) = bits n x.
Proof.
  revert x. induction n as [|n IH]; intros x; [done|]. cbn [bits].
  rewrite Nat2Z.inj_succ, Z.pow_succ_r, <-Z.mul_assoc by lia. f_equal.
  - rewrite Z.odd_add, Z.odd_mul. cbn. by rewrite xorb_false_r.
  - rewrite !Z.shiftr_div_pow2 by lia. change (2 ^ 1) with 2.
    rewrite (Z.mul_comm 2 (2 ^ _ * h)), Z.div_add by lia. apply IH.
Qed.

Lemma crc_bits_app c l k : crc_bits c (l ++ k) = crc_bits (crc_bits c l) k.
Proof. apply foldl_app. Qed.

(** Feeding the low bits of [x] is mixing them in at once. *)
Lemma crc_bits_bits n c x : 0 ≤ x → crc_bits c (bits n x) = steps n (Z.lxor c (x mod 2 ^ Z.of_nat n)).
Proof.
  revert c x. induction n as [|n IH]; intros c x Hx.
  { cbn. by rewrite Z.mod_1_r, Z.lxor_0_r. }
  change (crc_bits c (bits (S n) x)) with (crc_bits (crc_feed c (Z.odd x)) (bits n (Z.shiftr x 1))).
  rewrite IH by (by apply Z.shiftr_nonneg). rewrite Nat.iter_succ_r. f_equal. unfold crc_feed.
  rewrite !crc_shift_lxor, Z.lxor_assoc. f_equal. rewrite !crc_shift_odd.
  rewrite Nat2Z.inj_succ, Z.pow_succ_r by lia.
  assert (Ho : Z.odd (x mod (2 * 2 ^ Z.of_nat n)) = Z.odd x).
  { rewrite <-Z.pow_succ_r, <-Z.bit0_odd, Z.mod_pow2_bits_low by lia. apply Z.bit0_odd. }
  assert (Hs : Z.shiftr (x mod (2 * 2 ^ Z.of_nat n)) 1 = Z.shiftr x 1 mod 2 ^ Z.of_nat n).
  { rewrite !Z.shiftr_div_pow2 by lia. change (2 ^ 1) with 2.
    assert (0 < 2 ^ Z.of_nat n) by (apply Z.pow_pos_nonneg; lia).
    rewrite Z.rem_mul_r, Z.add_comm, Z.mul_comm, Z.div_add_l by lia.
    rewrite (Z.div_small (x mod 2)) by (apply Z.mod_pos_bound; lia). lia. }
  rewrite Ho, Hs. f_equal. by destruct (Z.odd x).
Qed.

Lemma crc_bits_reg c l : reg c → reg (crc_bits c l).
Proof.
  revert c. induction l as [|b l IH]; intros c Hc; [done|]. apply IH, crc_shift_reg, lxor_range; [lia|done|].
  by destruct b.
Qed.

Lemma crc_byte c b : is_byte b → crc_bits c (bits 8 b) = steps 8 (Z.lxor c b).
Proof. intros Hb. unfold is_byte in Hb. rewrite crc_bits_bits by lia. by rewrite Z.mod_small by (cbn; lia). Qed.

(** Four bytes are a word. *)
Lemma crc_word c b0 b1 b2 b3 : is_byte b0 → is_byte b1 → is_byte b2 → is_byte b3 →
  crc_bits c (byte_bits [b0; b1; b2; b3]) = steps 32 (Z.lxor c (b0 + 2 ^ 8 * b1 + 2 ^ 16 * b2 + 2 ^ 24 * b3)).
Proof.
  unfold is_byte. intros H0 H1 H2 H3. set (w := b0 + 2 ^ 8 * b1 + 2 ^ 16 * b2 + 2 ^ 24 * b3).
  assert (Hw : 0 ≤ w < 2 ^ 32) by (unfold w; lia).
  rewrite <-(Z.mod_small w (2 ^ Z.of_nat 32)), <-crc_bits_bits by (cbn; lia). f_equal.
  change 32%nat with (8 + (8 + (8 + 8)))%nat. rewrite !bits_app, !Z.shiftr_shiftr, !Z.shiftr_div_pow2 by lia.
  cbn [byte_bits mbind list_bind app]. rewrite app_nil_r.
  assert (E1 : w / 2 ^ Z.of_nat 8 = b1 + 2 ^ 8 * (b2 + 2 ^ 8 * b3)).
  { symmetry. apply (Z.div_unique _ _ _ b0); unfold w; cbn; lia. }
  assert (E2 : w / 2 ^ (Z.of_nat 8 + Z.of_nat 8) = b2 + 2 ^ 8 * b3).
  { symmetry. apply (Z.div_unique _ _ _ (b0 + 2 ^ 8 * b1)); unfold w; cbn; lia. }
  assert (E3 : w / 2 ^ (Z.of_nat 8 + Z.of_nat 8 + Z.of_nat 8) = b3).
  { symmetry. apply (Z.div_unique _ _ _ (b0 + 2 ^ 8 * b1 + 2 ^ 16 * b2)); unfold w; cbn; lia. }
  rewrite E1, E2, E3. unfold byte_bits. cbn [mbind list_bind app].
  rewrite (bits_low 8 b1), (bits_low 8 b2) by lia.
  replace w with (b0 + 2 ^ Z.of_nat 8 * (b1 + 2 ^ 8 * b2 + 2 ^ 16 * b3)) by (unfold w; cbn; lia).
  by rewrite bits_low.
Qed.

(** ** The functions *)

Lemma byte_bits_app l k : byte_bits (l ++ k) = byte_bits l ++ byte_bits k.
Proof. apply bind_app. Qed.

Lemma byte_bits_cons b l : byte_bits (b :: l) = bits 8 b ++ byte_bits l.
Proof. done. Qed.

Lemma byte_bits_one b : byte_bits [b] = bits 8 b.
Proof. apply app_nil_r. Qed.

Lemma land3 p : Z.land p 3 = p mod 4.
Proof. change 3 with (Z.ones 2). by rewrite Z.land_ones. Qed.

Lemma load_head m p b l : bytes_at m p (b :: l) → load m p = Some b.
Proof. by intros [H _]%bytes_at_cons. Qed.

(** Up to [fuel] bytes one by one. *)
Lemma crc_single_spec m (align : bool) l c p : reg c → bytes_at m p l → Forall is_byte l → l ≠ [] →
  (if align then Z.land p 3 ≠ 0 else (length l ≤ 4)%nat) →
  ∃ l1 l2, l = l1 ++ l2 ∧
    crc_single m align c p (Z.of_nat (length l)) =
      Some (crc_bits c (byte_bits l1), p + Z.of_nat (length l1), Z.of_nat (length l2)) ∧
    (l2 = [] ∨ align = true ∧ Z.land (p + Z.of_nat (length l1)) 3 = 0).
Proof.
  intros Hc Hb Hl Hne Hfuel. unfold crc_single. rewrite land3 in Hfuel.
  assert (Hf : if align then 0 < p mod 4 ∧ 4 - p mod 4 ≤ Z.of_nat 4 else (length l ≤ 4)%nat)
    by (pose proof (Z.mod_pos_bound p 4); destruct align; lia).
  clear Hfuel. revert l c p Hc Hb Hl Hne Hf. generalize 4%nat as fuel.
  induction fuel as [|fuel IH]; intros [|b l] c p Hc Hb Hl Hne Hf; try done.
  { exfalso. destruct align; cbn in Hf; [pose proof (Z.mod_pos_bound p 4)|]; lia. }
  pose proof (load_head _ _ _ _ Hb) as Hld. apply bytes_at_cons in Hb as [_ Hb]. inversion Hl as [|? ? Hbb Hl']; subst.
  assert (Hstep : DO_CRC c b = Some (crc_bits c (bits 8 b)))
    by (rewrite crc_byte by done; apply DO_CRC_spec; [apply Hc|done]).
  assert (Hlen : Z.of_nat (length (b :: l)) - 1 = Z.of_nat (length l)) by (cbn; lia).
  destruct l as [|b2 l].
  - exists [b], []. split; [done|]. split; [|by left].
    rewrite (loop_brk_break _ _ _ (crc_bits c (bits 8 b), p + 1, 0)).
    + by rewrite byte_bits_one.
    + rewrite Hld. cbn [mbind option_bind]. by rewrite Hstep.
  - destruct (align && (Z.land (p + 1) 3 =? 0)) eqn:Eal.
    + exists [b], (b2 :: l). split; [done|]. apply andb_true_iff in Eal as [-> Eal%Z.eqb_eq]. split; [|by right].
      rewrite (loop_brk_break _ _ _ (crc_bits c (bits 8 b), p + 1, Z.of_nat (length (b2 :: l)))).
      * by rewrite byte_bits_one.
      * rewrite Hld. cbn [mbind option_bind]. rewrite Hstep. cbn [mbind option_bind]. by rewrite Hlen, Eal, andb_false_r.
    + destruct (IH (b2 :: l) (crc_bits c (bits 8 b)) (p + 1)) as (l1 & l2 & E & Hrun & Hend);
        [by apply crc_bits_reg|done|done|done| |].
      { destruct align; [|cbn in *; lia]. cbn [andb] in Eal. apply Z.eqb_neq in Eal. rewrite land3 in Eal.
        rewrite Zplus_mod in *. pose proof (Z.mod_pos_bound p 4). change (1 mod 4) with 1 in *.
        destruct (Z.eq_dec (p mod 4) 3) as [E3|E3]; [by rewrite E3 in Eal|].
        rewrite (Z.mod_small (p mod 4 + 1)) by lia. lia. }
      exists (b :: l1), l2. split; [by rewrite E|].
      rewrite (loop_brk_next _ _ _ (crc_bits c (bits 8 b), p + 1, Z.of_nat (length (b2 :: l)))).
      * rewrite Hrun, byte_bits_cons, crc_bits_app.
        replace (p + 1 + Z.of_nat (length l1)) with (p + Z.of_nat (length (b :: l1))) in * by (cbn; lia). done.
      * rewrite Hld. cbn [mbind option_bind]. rewrite Hstep. cbn [mbind option_bind].
        rewrite Hlen, Eal. cbn [negb]. by rewrite (proj2 (Z.eqb_neq (Z.of_nat (length (b2 :: l))) 0)) by (cbn; lia).
Qed.

Lemma steps_add n k c : steps (n + k) c = steps n (steps k c).
Proof. apply Nat.iter_add. Qed.

Lemma steps_32 c : steps 32 c = steps 8 (steps 8 (steps 8 (steps 8 c))).
Proof. by rewrite <-!steps_add. Qed.

Lemma DO_CRC_0 c : 0 ≤ c → DO_CRC c 0 = Some (steps 8 c).
Proof. intros Hc. rewrite DO_CRC_spec by done. by rewrite Z.lxor_0_r. Qed.

(** The four steps of a word. *)
Lemma DO_CRC_word c b0 b1 b2 b3 : reg c → is_byte b0 → is_byte b1 → is_byte b2 → is_byte b3 →
  ∃ c1 c2 c3, DO_CRC (Z.lxor c (b0 + 2 ^ 8 * b1 + 2 ^ 16 * b2 + 2 ^ 24 * b3)) 0 = Some c1 ∧
    DO_CRC c1 0 = Some c2 ∧ DO_CRC c2 0 = Some c3 ∧ DO_CRC c3 0 = Some (crc_bits c (byte_bits [b0; b1; b2; b3])).
Proof.
  intros Hc H0 H1 H2 H3. rewrite crc_word, steps_32 by done.
  assert (Hw : reg (Z.lxor c (b0 + 2 ^ 8 * b1 + 2 ^ 16 * b2 + 2 ^ 24 * b3)))
    by (apply lxor_range; [lia|done|unfold is_byte in *; lia]).
  revert Hw. generalize (Z.lxor c (b0 + 2 ^ 8 * b1 + 2 ^ 16 * b2 + 2 ^ 24 * b3)) as x. intros x Hx.
  exists (steps 8 x), (steps 8 (steps 8 x)), (steps 8 (steps 8 (steps 8 x))).
  assert (Hr : ∀ y, reg y → DO_CRC y 0 = Some (steps 8 y)) by (intros y [Hy _]; by apply DO_CRC_0).
  split; [by apply Hr|]. split; [by apply Hr, steps_reg|]. split; [by apply Hr, steps_reg, steps_reg|].
  by apply Hr, steps_reg, steps_reg, steps_reg.
Qed.

Lemma crc_words_spec m n : ∀ l c b, reg c → bytes_at m b l → Forall is_byte l → length l = (4 * n)%nat →
  crc_words m c b (Z.of_nat n) = Some (crc_bits c (byte_bits l), b + Z.of_nat (length l), 0).
Proof.
  unfold crc_words. rewrite Nat2Z.id.
  induction n as [|n IH]; intros l c b Hc Hb Hl Hlen.
  { destruct l; [|done]. rewrite (loop_brk_break _ _ _ (c, b, 0)) by done. by rewrite Z.add_0_r. }
  destruct l as [|b0 [|b1 [|b2 [|b3 l]]]]; try (cbn in Hlen; lia).
  rewrite !bytes_at_cons in Hb. destruct Hb as (H0 & H1 & H2 & H3 & Hb). rewrite !Forall_cons_iff in Hl.
  destruct Hl as (B0 & B1 & B2 & B3 & Hl).
  set (w := b0 + 2 ^ 8 * b1 + 2 ^ 16 * b2 + 2 ^ 24 * b3).
  assert (Hld : load32 m b = Some w).
  { unfold load32, load. rewrite H0, H1. replace (b + 2) with (b + 1 + 1) by lia. rewrite H2.
    replace (b + 3) with (b + 1 + 1 + 1) by lia. by rewrite H3. }
  rewrite (loop_brk_next _ _ _ (crc_bits c (byte_bits [b0; b1; b2; b3]), b + 4, Z.of_nat n)).
  - replace (b + 4) with (b + 1 + 1 + 1 + 1) by lia.
    rewrite (IH l) by (try apply crc_bits_reg; try done; cbn in Hlen; lia).
    rewrite <-crc_bits_app, <-byte_bits_app. cbn [app length]. do 3 f_equal. lia.
  - rewrite (proj2 (Z.eqb_neq (Z.of_nat (S n)) 0)) by lia. rewrite Hld. cbn [mbind option_bind].
    destruct (DO_CRC_word c b0 b1 b2 b3 Hc B0 B1 B2 B3) as (c1 & c2 & c3 & E1 & E2 & E3 & E4).
    fold w in E1. rewrite E1. cbn [mbind option_bind]. rewrite E2. cbn [mbind option_bind]. rewrite E3.
    cbn [mbind option_bind]. rewrite E4. cbn [mbind option_bind].
    by replace (Z.of_nat (S n) - 1) with (Z.of_nat n) by lia.
Qed.

Lemma crc32_no_comp_spec m c p l : reg c → bytes_at m p l → Forall is_byte l →
  crc32_no_comp m c p (Z.of_nat (length l)) = Some (crc_bits c (byte_bits l)).
Proof.
  intros Hc Hb Hl. unfold crc32_no_comp.
  assert (Halign : ∃ l1 l2, l = l1 ++ l2 ∧
    (if negb (Z.land p 3 =? 0) && negb (Z.of_nat (length l) =? 0)
     then crc_single m true c p (Z.of_nat (length l)) else Some (c, p, Z.of_nat (length l))) =
    Some (crc_bits c (byte_bits l1), p + Z.of_nat (length l1), Z.of_nat (length l2))).
  { destruct (Z.eqb_spec (Z.land p 3) 0) as [|Hp]; [|destruct (Z.eqb_spec (Z.of_nat (length l)) 0) as [|Hne]].
    1, 2: exists [], l; by rewrite Z.add_0_r.
    destruct (crc_single_spec m true l c p Hc Hb Hl) as (l1 & l2 & E & H & _); [by destruct l|done|].
    by exists l1, l2. }
  destruct Halign as (l1 & l2 & -> & ->). cbn [mbind option_bind].
  apply bytes_at_app in Hb as [_ Hb]. apply Forall_app in Hl as [_ Hl].
  set (c1 := crc_bits c (byte_bits l1)). assert (Hc1 : reg c1) by by apply crc_bits_reg.
  set (q := (length l2 / 4)%nat). set (r := (length l2 mod 4)%nat).
  assert (Hq : (length l2 = 4 * q + r)%nat ∧ (r < 4)%nat)
    by (split; [apply Nat.div_mod_eq|by apply Nat.mod_upper_bound]).
  assert (Er : Z.land (Z.of_nat (length l2)) 3 = Z.of_nat r) by (rewrite land3; unfold r; by rewrite Nat2Z.inj_mod).
  assert (Eq : Z.shiftr (Z.of_nat (length l2)) 2 = Z.of_nat q) by (rewrite Z.shiftr_div_pow2 by lia; unfold q; by rewrite Nat2Z.inj_div).
  rewrite Er, Eq. rewrite <-(take_drop (4 * q) l2) in Hb, Hl. apply bytes_at_app in Hb as [Hb1 Hb2].
  apply Forall_app in Hl as [Hl1 Hl2].
  assert (Ht : length (take (4 * q) l2) = (4 * q)%nat) by (rewrite length_take; lia).
  rewrite (crc_words_spec m q (take (4 * q) l2)) by done. cbn [mbind option_bind].
  assert (Hd : length (drop (4 * q) l2) = r) by (rewrite length_drop; lia).
  rewrite byte_bits_app, crc_bits_app. fold c1.
  assert (El : crc_bits c1 (byte_bits l2) = crc_bits (crc_bits c1 (byte_bits (take (4 * q) l2))) (byte_bits (drop (4 * q) l2)))
    by (by rewrite <-crc_bits_app, <-byte_bits_app, take_drop).
  rewrite El.
  destruct (Z.eqb_spec (Z.of_nat r) 0) as [E0|E0]; cbn [negb].
  - assert (drop (4 * q) l2 = []) as -> by (apply length_zero_iff_nil; lia). done.
  - rewrite <-Hd at 1. set (c2 := crc_bits c1 _).
    destruct (crc_single_spec m false (drop (4 * q) l2) c2 (p + Z.of_nat (length l1) + Z.of_nat (length (take (4 * q) l2))))
      as (k1 & k2 & E & -> & [->|[? _]]); try done.
    + by apply crc_bits_reg.
    + intros E. apply E0. by rewrite <-Hd, E.
    + lia.
    + rewrite app_nil_r in E. by rewrite E.
Qed.

Lemma crc32_spec m c p l : reg c → bytes_at m p l → Forall is_byte l →
  crc32 m c p (Z.of_nat (length l)) = Some (crc32_of c l).
Proof.
  intros Hc Hb Hl. unfold crc32. rewrite crc32_no_comp_spec by (done || (apply lxor_range; [lia|done|lia])). done.
Qed.

Lemma crc32_of_reg c l : reg c → reg (crc32_of c l).
Proof. intros Hc. apply lxor_range; [lia| |lia]. apply crc_bits_reg. apply lxor_range; [lia|done|lia]. Qed.

Lemma crc32_of_app c l k : crc32_of c (l ++ k) = crc32_of (crc32_of c l) k.
Proof.
  unfold crc32_of. rewrite byte_bits_app, crc_bits_app. do 2 f_equal.
  by rewrite Z.lxor_assoc, Z.lxor_nilpotent, Z.lxor_0_r.
Qed.

(** The chunks of the watchdog make no difference. *)
Lemma crc32_wd_spec wd m c p l chunk_sz : reg c → bytes_at m p l → Forall is_byte l → 0 < chunk_sz →
  crc32_wd wd m c p (Z.of_nat (length l)) chunk_sz = Some (crc32_of c l).
Proof.
  intros Hc Hb Hl Hch. unfold crc32_wd. destruct wd; [|by apply crc32_spec].
  set (len := Z.of_nat (length l)).
  loop_ix (length l)
    (λ (n : nat) '((crc, curr) : Z * Z), ∃ l1 l2, l = l1 ++ l2 ∧ crc = crc32_of c l1 ∧ curr = p + Z.of_nat (length l1) ∧ n = length l2)
    (λ '((crc, curr) : Z * Z), crc = crc32_of c l).
  - intros n [crc curr] (l1 & l2 & E & -> & -> & ->).
    assert (Hlen : len = Z.of_nat (length l1) + Z.of_nat (length l2)) by (unfold len; rewrite E, length_app; lia).
    rewrite Hlen. destruct (Z.ltb_spec (p + Z.of_nat (length l1)) (p + (Z.of_nat (length l1) + Z.of_nat (length l2)))) as [Hlt|Hge].
    + replace (p + (Z.of_nat (length l1) + Z.of_nat (length l2)) - (p + Z.of_nat (length l1))) with (Z.of_nat (length l2)) by lia.
      set (k := Z.to_nat (Z.min chunk_sz (Z.of_nat (length l2)))).
      assert (Ek : (if chunk_sz <? Z.of_nat (length l2) then chunk_sz else Z.of_nat (length l2)) = Z.of_nat k)
        by (unfold k; destruct (Z.ltb_spec chunk_sz (Z.of_nat (length l2))); lia).
      rewrite Ek. assert (Hk : (0 < k ≤ length l2)%nat) by (unfold k; lia).
      assert (Hkl : length (take k l2) = k) by (rewrite length_take; lia).
      rewrite E, bytes_at_app in Hb. destruct Hb as [_ Hb]. rewrite E, Forall_app in Hl. destruct Hl as [_ Hl].
      rewrite <-Hkl. rewrite crc32_spec; [|by apply crc32_of_reg| |].
      * cbn [mbind option_bind]. eexists. split; [done|]. exists (length (drop k l2)). split; [rewrite length_drop; lia|].
        exists (l1 ++ take k l2), (drop k l2). rewrite <-app_assoc, take_drop, crc32_of_app, length_app.
        split_and!; try done. lia.
      * rewrite <-(take_drop k l2), bytes_at_app in Hb. apply Hb.
      * by apply Forall_take.
    + eexists. split; [done|]. assert (l2 = []) as -> by (apply length_zero_iff_nil; lia). by rewrite app_nil_r in E; subst.
  - exists [], l. split_and!; try done; [|by rewrite Z.add_0_r].
    unfold crc32_of. cbn. by rewrite Z.lxor_assoc, Z.lxor_nilpotent, Z.lxor_0_r.
  - unfold len. lia.
  - destruct st as [crc curr]. cbn [mbind option_bind]. by rewrite HQ.
Qed.

(** ** Errors *)

Lemma crc_bits_cons c b l : crc_bits c (b :: l) = crc_bits (crc_feed c b) l.
Proof. done. Qed.

(** The difference of two registers is the register of the differences. *)
Lemma crc_bits_lxor l k : ∀ c d, length l = length k →
  Z.lxor (crc_bits c l) (crc_bits d k) = crc_bits (Z.lxor c d) (zip_with xorb l k).
Proof.
  revert k. induction l as [|b l IH]; intros [|e k] c d Hlen; try done. injection Hlen as Hlen.
  change (zip_with xorb (b :: l) (e :: k)) with (xorb b e :: zip_with xorb l k).
  rewrite !crc_bits_cons, IH by done.
  f_equal. unfold crc_feed. rewrite <-crc_shift_lxor. f_equal.
  apply Z.bits_inj'. intros i _. rewrite !Z.lxor_spec. destruct b, e; cbn [xorb Z.b2z];
    rewrite ?Z.bits_0; repeat (destruct (Z.testbit _ _)); done.
Qed.

(** A list of bits as a number. *)
Fixpoint of_bits (l : list bool) : Z :=
  match l with [] => 0 | b :: l => Z.b2z b + 2 * of_bits l end.

Lemma of_bits_range l : 0 ≤ of_bits l < 2 ^ Z.of_nat (length l).
Proof.
  induction l as [|b l IH]; [done|]. cbn [of_bits length]. rewrite Nat2Z.inj_succ, Z.pow_succ_r by lia.
  destruct b; cbn [Z.b2z]; lia.
Qed.

Lemma bits_of_bits l : bits (length l) (of_bits l) = l.
Proof.
  induction l as [|b l IH]; [done|]. cbn [length bits of_bits]. f_equal.
  - rewrite Z.odd_add, Z.odd_mul. by destruct b.
  - rewrite Z.shiftr_div_pow2 by lia. change (2 ^ 1) with 2.
    replace ((Z.b2z b + 2 * of_bits l) / 2) with (of_bits l); [done|].
    apply (Z.div_unique _ _ _ (Z.b2z b)); destruct b; cbn; lia.
Qed.

Lemma of_bits_zero l : of_bits l = 0 → l = replicate (length l) false.
Proof.
  induction l as [|b l IH]; [done|]. cbn. pose proof (of_bits_range l). destruct b; cbn [Z.b2z]; [lia|].
  intros H0. by rewrite <-IH by lia.
Qed.

Lemma crc_bits_zeros c n : crc_bits c (replicate n false) = steps n c.
Proof.
  revert c. induction n as [|n IH]; intros c; [done|]. rewrite Nat.iter_succ_r.
  change (crc_bits c (replicate (S n) false)) with (crc_bits (crc_feed c false) (replicate n false)).
  rewrite IH. unfold crc_feed. cbn [Z.b2z]. by rewrite Z.lxor_0_r.
Qed.

Lemma zip_xorb_same l : zip_with xorb l l = replicate (length l) false.
Proof. induction l as [|b l IH]; [done|]. cbn. by rewrite IH, xorb_nilpotent. Qed.

Lemma zip_xorb_zero l k : length l = length k → zip_with xorb l k = replicate (length l) false → l = k.
Proof.
  revert k. induction l as [|b l IH]; intros [|e k] Hlen; try done. injection Hlen as Hlen.
  cbn. intros [= Hb Hl]. f_equal; [by destruct b, e|by apply IH].
Qed.

(** Two messages that differ in a burst of at most 32 bits. *)
Lemma crc_burst c a b1 b2 t : length b1 = length b2 → (length b1 ≤ 32)%nat → b1 ≠ b2 →
  crc_bits c (a ++ b1 ++ t) ≠ crc_bits c (a ++ b2 ++ t).
Proof.
  intros Hlen H32 Hne E. assert (E0 : Z.lxor (crc_bits c (a ++ b1 ++ t)) (crc_bits c (a ++ b2 ++ t)) = 0)
    by (rewrite E; apply Z.lxor_nilpotent).
  rewrite crc_bits_lxor in E0 by (rewrite !length_app; lia).
  rewrite Z.lxor_nilpotent, zip_with_app, zip_with_app, !zip_xorb_same in E0 by done.
  rewrite !crc_bits_app, !crc_bits_zeros in E0.
  set (e := zip_with xorb b1 b2) in *. assert (He : length e = length b1) by (unfold e; rewrite length_zip_with; lia).
  assert (H0 : ∀ n, steps n 0 = 0) by (induction n as [|n IH]; [done|by rewrite Nat.iter_succ, IH]).
  rewrite H0 in E0. rewrite <-(bits_of_bits e) in E0.
  pose proof (of_bits_range e) as Hr. rewrite crc_bits_bits, Z.lxor_0_l, Z.mod_small in E0 by lia.
  assert (Hreg : reg (of_bits e)).
  { split; [lia|]. eapply Z.lt_le_trans; [apply Hr|]. apply Z.pow_le_mono_r; lia. }
  revert E0. apply steps_nonzero; [by apply steps_reg|]. apply steps_nonzero; [done|].
  intros Hz. apply of_bits_zero in Hz. rewrite He in Hz. apply Hne, (zip_xorb_zero b1 b2 Hlen). done.
Qed.

(** The bits of [l1] and [l2] differ in a burst of at most 32. *)
Definition burst (l1 l2 : list Z) : Prop := ∃ a b1 b2 t,
  byte_bits l1 = a ++ b1 ++ t ∧ byte_bits l2 = a ++ b2 ++ t ∧
  length b1 = length b2 ∧ (length b1 ≤ 32)%nat ∧ b1 ≠ b2.

Lemma crc32_of_burst crc l1 l2 : burst l1 l2 → crc32_of crc l1 ≠ crc32_of crc l2.
Proof.
  intros (a & b1 & b2 & t & E1 & E2 & Hlen & H32 & Hne). unfold crc32_of. rewrite E1, E2. intros E.
  apply (crc_burst (Z.lxor crc 0xffffffff) a b1 b2 t Hlen H32 Hne).
  apply (f_equal (λ x, Z.lxor x 0xffffffff)) in E.
  by rewrite !Z.lxor_assoc, Z.lxor_nilpotent, !Z.lxor_0_r in E.
Qed.

(** ** Properties *)

(** C5. Equivalence: for any buffer, length and alignment, with or without the
    chunks of the watchdog, the word-wise checksum through the table is the
    register of the polynomial fed with every bit of the buffer, and the static
    table is the one that make_crc_table computes. *)
Theorem crc32_correct wd m crc p l chunk_sz :
  reg crc → bytes_at m p l → Forall is_byte l → 0 < chunk_sz →
  crc32 m crc p (Z.of_nat (length l)) = Some (crc32_of crc l) ∧
  crc32_wd wd m crc p (Z.of_nat (length l)) chunk_sz = Some (crc32_of crc l) ∧
  make_crc_table = crc_table.
Proof. intros. split; [by apply crc32_spec|]. split; [by apply crc32_wd_spec|apply make_crc_table_eq]. Qed.

(** C20. Error detection: two buffers that differ in a burst of at most 32 bits
    have different checksums, wherever they are in memory. *)
Theorem crc32_detects_bursts m crc p1 p2 l1 l2 :
  reg crc → bytes_at m p1 l1 → bytes_at m p2 l2 → Forall is_byte l1 → Forall is_byte l2 → burst l1 l2 →
  ∃ c1 c2, crc32 m crc p1 (Z.of_nat (length l1)) = Some c1 ∧ crc32 m crc p2 (Z.of_nat (length l2)) = Some c2 ∧ c1 ≠ c2.
Proof.
  intros Hc H1 H2 Hl1 Hl2 Hb. exists (crc32_of crc l1), (crc32_of crc l2).
  split; [by apply crc32_spec|]. split; [by apply crc32_spec|]. by apply crc32_of_burst.
Qed.

(** ** Examples *)

(** The check value of the algorithm: the checksum of "123456789". *)
Definition digits : list Z := [49; 50; 51; 52; 53; 54; 55; 56; 57].

Lemma digits_bytes : Forall is_byte digits.
Proof. unfold digits, is_byte. repeat constructor; lia. Qed.

Example crc32_digits : crc32 (mem_of 0x1001 digits) 0 0x1001 9 = Some 0xcbf43926.
Proof. vm_compute. reflexivity. Qed.

Lemma crc32_correct_witness :
  crc32 (mem_of 0x1001 digits) 0 0x1001 9 = Some (crc32_of 0 digits) ∧
  crc32_wd true (mem_of 0x1001 digits) 0 0x1001 9 4 = Some (crc32_of 0 digits) ∧ make_crc_table = crc_table.
Proof.
  apply (crc32_correct true (mem_of 0x1001 digits) 0 0x1001 digits 4);
    [done|apply bytes_at_mem_of|exact digits_bytes|done].
Defined.

Lemma crc32_detects_bursts_witness :
  ∃ c1 c2, crc32 (mem_of 0 [7; 1; 2; 9]) 0 0 2 = Some c1 ∧ crc32 (mem_of 0 [7; 1; 2; 9]) 0 2 2 = Some c2 ∧ c1 ≠ c2.
Proof.
  apply (crc32_detects_bursts (mem_of 0 [7; 1; 2; 9]) 0 0 2 [7; 1] [2; 9]).
  - done.
  - by intros [|[|i]] x [= <-].
  - by intros [|[|i]] x [= <-].
  - unfold is_byte. repeat constructor; lia.
  - unfold is_byte. repeat constructor; lia.
  - exists [], (take 12 (byte_bits [7; 1])), (take 12 (byte_bits [2; 9])), (replicate 4 false).
    split_and!; try done. cbn. lia.
Defined.
