(* ===== verification/Checksum.v ===== *)
(** * Checksum: the internet checksum and the small polynomials

    The checksum of IP headers and ICMP messages (net/checksum.c) and the
    checksums of 16, 8 and 7 bits (lib/crc16.c, lib/crc8.c, lib/crc7.c), which
    file transfers over a serial line, bit-banged SPI cards and the Chrome
    embedded controller use.  A buffer is an array of bytes, read from an index. *)

From Stdlib Require Import ZArith Lia List.
From stdpp Require Import base numbers list option.
From S2P Require Import Prelude Memory.

(** ** The internet checksum *)

(** An addition of [int]: no result when it overflows. *)
Definition int_add (a b : Z) : option Z := if (- 2 ^ 31 <=? a + b) && (a + b <? 2 ^ 31) then Some (a + b) else None.

(** The words at [p], the low byte first: the sum, the pointer and [nbytes]. *)
Definition sum_words (buf : list Z) (p nbytes : Z) : option (Z * Z * Z) :=
  loop_brk (S (length buf)) (λ '(sum, p, nbytes),
    if 1 <? nbytes then
      x ← arr_get buf p; y ← arr_get buf (p + 1);
      sum ← int_add sum (x + 256 * y);
      Some (Next (sum, p + 2, nbytes - 2))
    else Some (Break (sum, p, nbytes))) (0, p, nbytes).

Definition compute_ip_checksum (buf : list Z) (p nbytes : Z) : option Z :=
  '(sum, p, nbytes) ← sum_words buf p nbytes;
  sum ← (if nbytes =? 1 then oddbyte ← arr_get buf p; int_add sum oddbyte else Some sum);
  let sum := Z.shiftr sum 16 + Z.land sum 0xffff in
  let sum := sum + Z.shiftr sum 16 in
  Some (Z.land (Z.lnot sum) 0xffff).

Definition add_ip_checksums (offset sum new : Z) : Z :=
  let sum := Z.land (Z.lnot sum) 0xffff in
  let new := Z.land (Z.lnot new) 0xffff in
  let new := if negb (Z.land offset 1 =? 0)
             then Z.lor (Z.land (Z.shiftr new 8) 0xff) (Z.land (Z.shiftl new 8) 0xff00) else new in
  let checksum := sum + new in
  let checksum := if 0xffff <? checksum then checksum - 0xffff else checksum in
  Z.land (Z.lnot checksum) 0xffff.

Definition ip_checksum_ok (buf : list Z) (addr nbytes : Z) : option bool :=
  r ← compute_ip_checksum buf addr nbytes; Some (Z.land r 0xfffe =? 0).

(** ** Polynomials *)

Definition crc16_tab : list Z := [
  0x0000; 0x1021; 0x2042; 0x3063; 0x4084; 0x50a5; 0x60c6; 0x70e7; 0x8108; 0x9129; 0xa14a; 0xb16b;
  0xc18c; 0xd1ad; 0xe1ce; 0xf1ef; 0x1231; 0x0210; 0x3273; 0x2252; 0x52b5; 0x4294; 0x72f7; 0x62d6;
  0x9339; 0x8318; 0xb37b; 0xa35a; 0xd3bd; 0xc39c; 0xf3ff; 0xe3de; 0x2462; 0x3443; 0x0420; 0x1401;
  0x64e6; 0x74c7; 0x44a4; 0x5485; 0xa56a; 0xb54b; 0x8528; 0x9509; 0xe5ee; 0xf5cf; 0xc5ac; 0xd58d;
  0x3653; 0x2672; 0x1611; 0x0630; 0x76d7; 0x66f6; 0x5695; 0x46b4; 0xb75b; 0xa77a; 0x9719; 0x8738;
  0xf7df; 0xe7fe; 0xd79d; 0xc7bc; 0x48c4; 0x58e5; 0x6886; 0x78a7; 0x0840; 0x1861; 0x2802; 0x3823;
  0xc9cc; 0xd9ed; 0xe98e; 0xf9af; 0x8948; 0x9969; 0xa90a; 0xb92b; 0x5af5; 0x4ad4; 0x7ab7; 0x6a96;
  0x1a71; 0x0a50; 0x3a33; 0x2a12; 0xdbfd; 0xcbdc; 0xfbbf; 0xeb9e; 0x9b79; 0x8b58; 0xbb3b; 0xab1a;
  0x6ca6; 0x7c87; 0x4ce4; 0x5cc5; 0x2c22; 0x3c03; 0x0c60; 0x1c41; 0xedae; 0xfd8f; 0xcdec; 0xddcd;
  0xad2a; 0xbd0b; 0x8d68; 0x9d49; 0x7e97; 0x6eb6; 0x5ed5; 0x4ef4; 0x3e13; 0x2e32; 0x1e51; 0x0e70;
  0xff9f; 0xefbe; 0xdfdd; 0xcffc; 0xbf1b; 0xaf3a; 0x9f59; 0x8f78; 0x9188; 0x81a9; 0xb1ca; 0xa1eb;
  0xd10c; 0xc12d; 0xf14e; 0xe16f; 0x1080; 0x00a1; 0x30c2; 0x20e3; 0x5004; 0x4025; 0x7046; 0x6067;
  0x83b9; 0x9398; 0xa3fb; 0xb3da; 0xc33d; 0xd31c; 0xe37f; 0xf35e; 0x02b1; 0x1290; 0x22f3; 0x32d2;
  0x4235; 0x5214; 0x6277; 0x7256; 0xb5ea; 0xa5cb; 0x95a8; 0x8589; 0xf56e; 0xe54f; 0xd52c; 0xc50d;
  0x34e2; 0x24c3; 0x14a0; 0x0481; 0x7466; 0x6447; 0x5424; 0x4405; 0xa7db; 0xb7fa; 0x8799; 0x97b8;
  0xe75f; 0xf77e; 0xc71d; 0xd73c; 0x26d3; 0x36f2; 0x0691; 0x16b0; 0x6657; 0x7676; 0x4615; 0x5634;
  0xd94c; 0xc96d; 0xf90e; 0xe92f; 0x99c8; 0x89e9; 0xb98a; 0xa9ab; 0x5844; 0x4865; 0x7806; 0x6827;
  0x18c0; 0x08e1; 0x3882; 0x28a3; 0xcb7d; 0xdb5c; 0xeb3f; 0xfb1e; 0x8bf9; 0x9bd8; 0xabbb; 0xbb9a;
  0x4a75; 0x5a54; 0x6a37; 0x7a16; 0x0af1; 0x1ad0; 0x2ab3; 0x3a92; 0xfd2e; 0xed0f; 0xdd6c; 0xcd4d;
  0xbdaa; 0xad8b; 0x9de8; 0x8dc9; 0x7c26; 0x6c07; 0x5c64; 0x4c45; 0x3ca2; 0x2c83; 0x1ce0; 0x0cc1;
  0xef1f; 0xff3e; 0xcf5d; 0xdf7c; 0xaf9b; 0xbfba; 0x8fd9; 0x9ff8; 0x6e17; 0x7e36; 0x4e55; 0x5e74;
  0x2e93; 0x3eb2; 0x0ed1; 0x1ef0
].

Definition crc7_syndrome_table : list Z := [
  0x00; 0x09; 0x12; 0x1b; 0x24; 0x2d; 0x36; 0x3f; 0x48; 0x41; 0x5a; 0x53; 0x6c; 0x65; 0x7e; 0x77;
  0x19; 0x10; 0x0b; 0x02; 0x3d; 0x34; 0x2f; 0x26; 0x51; 0x58; 0x43; 0x4a; 0x75; 0x7c; 0x67; 0x6e;
  0x32; 0x3b; 0x20; 0x29; 0x16; 0x1f; 0x04; 0x0d; 0x7a; 0x73; 0x68; 0x61; 0x5e; 0x57; 0x4c; 0x45;
  0x2b; 0x22; 0x39; 0x30; 0x0f; 0x06; 0x1d; 0x14; 0x63; 0x6a; 0x71; 0x78; 0x47; 0x4e; 0x55; 0x5c;
  0x64; 0x6d; 0x76; 0x7f; 0x40; 0x49; 0x52; 0x5b; 0x2c; 0x25; 0x3e; 0x37; 0x08; 0x01; 0x1a; 0x13;
  0x7d; 0x74; 0x6f; 0x66; 0x59; 0x50; 0x4b; 0x42; 0x35; 0x3c; 0x27; 0x2e; 0x11; 0x18; 0x03; 0x0a;
  0x56; 0x5f; 0x44; 0x4d; 0x72; 0x7b; 0x60; 0x69; 0x1e; 0x17; 0x0c; 0x05; 0x3a; 0x33; 0x28; 0x21;
  0x4f; 0x46; 0x5d; 0x54; 0x6b; 0x62; 0x79; 0x70; 0x07; 0x0e; 0x15; 0x1c; 0x23; 0x2a; 0x31; 0x38;
  0x41; 0x48; 0x53; 0x5a; 0x65; 0x6c; 0x77; 0x7e; 0x09; 0x00; 0x1b; 0x12; 0x2d; 0x24; 0x3f; 0x36;
  0x58; 0x51; 0x4a; 0x43; 0x7c; 0x75; 0x6e; 0x67; 0x10; 0x19; 0x02; 0x0b; 0x34; 0x3d; 0x26; 0x2f;
  0x73; 0x7a; 0x61; 0x68; 0x57; 0x5e; 0x45; 0x4c; 0x3b; 0x32; 0x29; 0x20; 0x1f; 0x16; 0x0d; 0x04;
  0x6a; 0x63; 0x78; 0x71; 0x4e; 0x47; 0x5c; 0x55; 0x22; 0x2b; 0x30; 0x39; 0x06; 0x0f; 0x14; 0x1d;
  0x25; 0x2c; 0x37; 0x3e; 0x01; 0x08; 0x13; 0x1a; 0x6d; 0x64; 0x7f; 0x76; 0x49; 0x40; 0x5b; 0x52;
  0x3c; 0x35; 0x2e; 0x27; 0x18; 0x11; 0x0a; 0x03; 0x74; 0x7d; 0x66; 0x6f; 0x50; 0x59; 0x42; 0x4b;
  0x17; 0x1e; 0x05; 0x0c; 0x33; 0x3a; 0x21; 0x28; 0x5f; 0x56; 0x4d; 0x44; 0x7b; 0x72; 0x69; 0x60;
  0x0e; 0x07; 0x1c; 0x15; 0x2a; 0x23; 0x38; 0x31; 0x46; 0x4f; 0x54; 0x5d; 0x62; 0x6b; 0x70; 0x79
].

(** The loops over a buffer. *)
Definition over_bytes (step : Z → Z → option Z) (buf : list Z) (p crc len : Z) : option Z :=
  r ← loop_brk (S (Z.to_nat len)) (λ '(crc, i),
        if i <? len then x ← arr_get buf (p + i); crc ← step crc x; Some (Next (crc, i + 1))
        else Some (Break (crc, i))) (crc, 0);
  Some r.1.

Definition crc16_byte (cksum b : Z) : option Z :=
  t ← arr_get crc16_tab (Z.land (Z.lxor (Z.shiftr cksum 8) b) 0xff); Some (u16 (Z.lxor t (Z.shiftl cksum 8))).

Definition crc16_ccitt (cksum : Z) (buf : list Z) (p len : Z) : option Z := over_bytes crc16_byte buf p cksum len.

(** The checksum with its high byte first. *)
Definition crc16_ccitt_wd_buf (buf : list Z) (p len : Z) (out : list Z) (q : Z) : option (list Z) :=
  crc ← crc16_ccitt 0 buf p len;
  out ← arr_set out q (Z.shiftr crc 8); arr_set out (q + 1) (Z.land crc 0xff).

Definition POLY : Z := u32 (Z.shiftl 0x1070 3).

Definition _crc8 (data : Z) : Z :=
  u8 (Z.shiftr (Nat.iter 8 (λ data, u16 (Z.shiftl (if negb (Z.land data 0x8000 =? 0) then Z.lxor data POLY else data) 1)) data) 8).

Definition crc8 (crc : Z) (buf : list Z) (p len : Z) : option Z :=
  over_bytes (λ crc x, Some (_crc8 (u16 (Z.shiftl (Z.lxor crc x) 8)))) buf p crc len.

Definition crc7_byte (crc data : Z) : option Z := arr_get crc7_syndrome_table (Z.lxor (Z.shiftl crc 1) data).

Definition crc7 (crc : Z) (buf : list Z) (p len : Z) : option Z := over_bytes crc7_byte buf p crc len.

(** ** The register of a polynomial *)

Section register.
(** [w] bits; the terms of the polynomial without the highest one. *)
Context (w poly : Z).

(** A bit leaves at the top. *)
Definition shift (c : Z) : Z :=
  if Z.testbit c (w - 1) then Z.lxor (wrap w (2 * c)) poly else wrap w (2 * c).

Definition feed (c : Z) (b : bool) : Z := shift (Z.lxor c (if b then 2 ^ (w - 1) else 0)).

(** The bits of a byte, the highest first. *)
Definition msb (x : Z) : list bool := Z.testbit x <$> [7; 6; 5; 4; 3; 2; 1; 0].

Definition feed_byte (c x : Z) : Z := foldl feed c (msb x).

(** The remainder of the division of the bytes [l] by the polynomial. *)
Definition remainder (c : Z) (l : list Z) : Z := foldl feed c (l ≫= msb).

Lemma remainder_bytes l : ∀ c, remainder c l = foldl feed_byte c l.
Proof. induction l as [|x l IH]; intros c; [done|]. unfold remainder in *. rewrite bind_cons, foldl_app. by rewrite IH. Qed.
End register.

(** Two bytes of a buffer. *)
Lemma over_bytes_spec (step : Z → Z → option Z) (F : Z → Z → Z) (P : Z → Prop) buf l1 l l2 c :
  (∀ c x, P c → is_byte x → step c x = Some (F c x) ∧ P (F c x)) → P c → Forall is_byte l → buf = l1 ++ l ++ l2 →
  over_bytes step buf (Z.of_nat (length l1)) c (Z.of_nat (length l)) = Some (foldl F c l).
Proof.
  intros Hstep HP Hl Hbuf. unfold over_bytes. rewrite Nat2Z.id.
  loop_ix (length l) (λ n '(c', i), ∃ l3 l4, l = l3 ++ l4 ∧ n = length l4 ∧ i = Z.of_nat (length l3) ∧ c' = foldl F c l3 ∧ P c')
    (λ st : Z * Z, st.1 = foldl F c l).
  - intros n [c' i] (l3 & [|x l4] & Hl34 & -> & -> & Hc & HP'); subst l.
    + rewrite app_nil_r. rewrite Z.ltb_irrefl. eexists. by split.
    + rewrite (proj2 (Z.ltb_lt _ _)) by (rewrite length_app; cbn; lia).
      rewrite (arr_get_at buf (l1 ++ l3) x (l4 ++ l2)) by (first [rewrite Hbuf; list_eq|rewrite length_app; lia]).
      cbn [mbind option_bind]. assert (Hx : is_byte x) by (apply Forall_app in Hl as [_ Hl]; by apply Forall_cons_iff in Hl as [? _]).
      destruct (Hstep c' x HP' Hx) as [-> HPx]. eexists. split; [reflexivity|]. exists (length l4). split; [cbn; lia|].
      exists (l3 ++ [x]), l4. split; [list_eq|]. split; [done|]. split; [rewrite length_app; cbn; lia|]. split; [by rewrite foldl_app, Hc|done].
  - exists [], l. by split_and!.
  - lia.
  - cbn [mbind option_bind]. by rewrite HQ.
Qed.

(** ** The register is linear *)

Lemma wrap_lxor w a b : 0 ≤ w → wrap w (Z.lxor a b) = Z.lxor (wrap w a) (wrap w b).
Proof.
  intros Hw. unfold wrap. rewrite <-!Z.land_ones by lia. apply Z.bits_inj'. intros n Hn.
  rewrite Z.lxor_spec, !Z.land_spec, Z.lxor_spec. by destruct (Z.testbit a n), (Z.testbit b n), (Z.testbit (Z.ones w) n).
Qed.

Section linear.
Context (w poly : Z) (w_pos : 0 < w) (poly_range : 0 ≤ poly < 2 ^ w).

Lemma wrap_double_lxor a b : wrap w (2 * Z.lxor a b) = Z.lxor (wrap w (2 * a)) (wrap w (2 * b)).
Proof.
  rewrite <-wrap_lxor by lia. f_equal. pose proof (Z.shiftl_lxor a b 1) as H. rewrite !Z.shiftl_mul_pow2 in H by lia.
  change (2 ^ 1) with 2 in H. by rewrite !(Z.mul_comm 2).
Qed.

Lemma shift_lxor a b : shift w poly (Z.lxor a b) = Z.lxor (shift w poly a) (shift w poly b).
Proof.
  unfold shift. rewrite Z.lxor_spec, wrap_double_lxor. apply Z.bits_inj'. intros n _.
  destruct (Z.testbit a (w - 1)), (Z.testbit b (w - 1)); cbn [xorb]; rewrite !Z.lxor_spec;
    repeat destruct (Z.testbit _ n); done.
Qed.

Lemma feed_lxor a b x y : feed w poly (Z.lxor a b) (xorb x y) = Z.lxor (feed w poly a x) (feed w poly b y).
Proof.
  unfold feed. rewrite <-shift_lxor. f_equal. apply Z.bits_inj'. intros n _.
  destruct x, y; cbn [xorb]; rewrite !Z.lxor_spec, ?Z.bits_0; repeat destruct (Z.testbit _ n); done.
Qed.

Lemma feeds_lxor l x y : ∀ a b,
  foldl (feed w poly) (Z.lxor a b) (Z.testbit (Z.lxor x y) <$> l) =
  Z.lxor (foldl (feed w poly) a (Z.testbit x <$> l)) (foldl (feed w poly) b (Z.testbit y <$> l)).
Proof.
  induction l as [|i l IH]; intros a b; [done|]. cbn [fmap list_fmap foldl]. by rewrite Z.lxor_spec, feed_lxor, IH.
Qed.

Lemma feed_byte_lxor a b x y :
  feed_byte w poly (Z.lxor a b) (Z.lxor x y) = Z.lxor (feed_byte w poly a x) (feed_byte w poly b y).
Proof. apply feeds_lxor. Qed.

Lemma feed_range c b : 0 ≤ feed w poly c b < 2 ^ w.
Proof.
  unfold feed, shift. destruct (Z.testbit _ _); [apply lxor_range; [lia| |done]|]; apply wrap_range; lia.
Qed.

Lemma feed_byte_range c x : 0 ≤ feed_byte w poly c x < 2 ^ w.
Proof. unfold feed_byte, msb. cbn [fmap list_fmap foldl]. apply feed_range. Qed.
End linear.

(** A statement on the numbers below a bound, as a computation. *)
Lemma all_below n (f : Z → bool) : forallb (λ a, f (Z.of_nat a)) (seq 0 n) = true → ∀ a, 0 ≤ a < Z.of_nat n → f a = true.
Proof.
  intros H a Ha. rewrite forallb_forall in H. specialize (H (Z.to_nat a)). rewrite in_seq, Z2Nat.id in H by lia. apply H. lia.
Qed.

(** The result is [v], as a computation. *)
Definition gives (o : option Z) (v : Z) : bool := match o with Some x => x =? v | None => false end.

Lemma gives_eq o v : gives o v = true → o = Some v.
Proof. destruct o as [x|]; [|done]. cbn. by intros ->%Z.eqb_eq. Qed.

(** *** Eight bits *)

Lemma crc8_same x : is_byte x → feed_byte 8 0x07 x x = 0.
Proof.
  intros Hx. apply Z.eqb_eq. revert x Hx. apply (all_below 256 (λ x, feed_byte 8 0x07 x x =? 0)). vm_compute. reflexivity.
Qed.

Lemma crc8_table x : is_byte x → feed_byte 8 0x07 x 0 = _crc8 (u16 (Z.shiftl x 8)).
Proof.
  intros Hx. apply Z.eqb_eq. revert x Hx.
  apply (all_below 256 (λ x, feed_byte 8 0x07 x 0 =? _crc8 (u16 (Z.shiftl x 8)))). vm_compute. reflexivity.
Qed.

Lemma crc8_step c x : is_byte c → is_byte x →
  Some (_crc8 (u16 (Z.shiftl (Z.lxor c x) 8))) = Some (feed_byte 8 0x07 c x) ∧ is_byte (feed_byte 8 0x07 c x).
Proof.
  intros Hc Hx. split; [|by apply feed_byte_range]. f_equal. rewrite <-crc8_table by (by apply (lxor_range 8)).
  pose proof (feed_byte_lxor 8 0x07 ltac:(lia) (Z.lxor c x) x 0 x) as H.
  rewrite Z.lxor_assoc, Z.lxor_nilpotent, Z.lxor_0_r, Z.lxor_0_l, (crc8_same x Hx), Z.lxor_0_r in H. by rewrite H.
Qed.

(** *** Seven bits *)

Lemma crc7_same c : 0 ≤ c < 128 → feed_byte 7 0x09 c (2 * c) = 0.
Proof.
  intros Hc. apply Z.eqb_eq. revert c Hc. apply (all_below 128 (λ c, feed_byte 7 0x09 c (2 * c) =? 0)). vm_compute. reflexivity.
Qed.

Lemma crc7_table x : is_byte x → arr_get crc7_syndrome_table x = Some (feed_byte 7 0x09 0 x).
Proof.
  intros Hx. apply gives_eq. revert x Hx.
  apply (all_below 256 (λ x, gives (arr_get crc7_syndrome_table x) (feed_byte 7 0x09 0 x))). vm_compute. reflexivity.
Qed.

Lemma crc7_step c x : 0 ≤ c < 128 → is_byte x → crc7_byte c x = Some (feed_byte 7 0x09 c x) ∧ 0 ≤ feed_byte 7 0x09 c x < 128.
Proof.
  intros Hc Hx. split; [|by apply feed_byte_range]. unfold crc7_byte. rewrite Z.shiftl_mul_pow2, (Z.mul_comm c) by lia.
  change (2 ^ 1) with 2. rewrite crc7_table by (apply (lxor_range 8); [lia|lia|exact Hx]). f_equal.
  pose proof (feed_byte_lxor 7 0x09 ltac:(lia) 0 c (Z.lxor (2 * c) x) (2 * c)) as H.
  rewrite (Z.lxor_comm (2 * c) x), Z.lxor_assoc, Z.lxor_nilpotent, Z.lxor_0_r, Z.lxor_0_l, (crc7_same c Hc), Z.lxor_0_r in H.
  by rewrite H, Z.lxor_comm.
Qed.

(** *** Sixteen bits *)

Lemma crc16_same x : is_byte x → feed_byte 16 0x1021 (256 * x) x = 0.
Proof.
  intros Hx. apply Z.eqb_eq. revert x Hx. apply (all_below 256 (λ x, feed_byte 16 0x1021 (256 * x) x =? 0)). vm_compute. reflexivity.
Qed.

Lemma crc16_low x : is_byte x → feed_byte 16 0x1021 x 0 = 256 * x.
Proof.
  intros Hx. apply Z.eqb_eq. revert x Hx. apply (all_below 256 (λ x, feed_byte 16 0x1021 x 0 =? 256 * x)). vm_compute. reflexivity.
Qed.

Lemma crc16_table x : is_byte x → arr_get crc16_tab x = Some (feed_byte 16 0x1021 (256 * x) 0).
Proof.
  intros Hx. apply gives_eq. revert x Hx.
  apply (all_below 256 (λ x, gives (arr_get crc16_tab x) (feed_byte 16 0x1021 (256 * x) 0))). vm_compute. reflexivity.
Qed.

Lemma lxor_mul256 a b : Z.lxor (256 * a) (256 * b) = 256 * Z.lxor a b.
Proof.
  pose proof (Z.shiftl_lxor a b 8) as H. rewrite !Z.shiftl_mul_pow2 in H by lia. change (2 ^ 8) with 256 in H.
  by rewrite !(Z.mul_comm 256).
Qed.

Lemma lxor_high_low h l : is_byte l → 0 ≤ h → Z.lxor (256 * h) l = 256 * h + l.
Proof.
  intros Hl Hh. rewrite Z.lxor_lor; [rewrite (Z.mul_comm 256); by apply (lor_low_high 8)|].
  apply Z.bits_inj'. intros n Hn. rewrite Z.land_spec, Z.bits_0. rewrite (Z.mul_comm 256). change 256 with (2 ^ 8).
  destruct (Z.lt_ge_cases n 8); [by rewrite Z.mul_pow2_bits_low|].
  assert (E : Z.testbit l n = false).
  { rewrite <-(Z.mod_small l (2 ^ 8)) by exact Hl. by apply Z.mod_pow2_bits_high. }
  by rewrite E, andb_false_r.
Qed.

Lemma crc16_high h x : is_byte x → feed_byte 16 0x1021 (256 * Z.lxor h x) 0 = feed_byte 16 0x1021 (256 * h) x.
Proof.
  intros Hx. rewrite <-lxor_mul256, <-(Z.lxor_nilpotent x), feed_byte_lxor by lia.
  by rewrite (crc16_same x Hx), Z.lxor_0_r.
Qed.

Lemma crc16_step c x : 0 ≤ c < 2 ^ 16 → is_byte x →
  crc16_byte c x = Some (feed_byte 16 0x1021 c x) ∧ 0 ≤ feed_byte 16 0x1021 c x < 2 ^ 16.
Proof.
  intros Hc Hx. split; [|by apply feed_byte_range]. unfold crc16_byte.
  set (h := c / 256). set (l := c mod 256).
  assert (Hhl : is_byte h ∧ is_byte l ∧ c = 256 * h + l) by (unfold is_byte; subst h l; Z.to_euclidean_division_equations; lia).
  destruct Hhl as (Hh & Hl & Ec). rewrite Z.shiftr_div_pow2, Z.shiftl_mul_pow2 by lia. change (2 ^ 8) with 256. fold h.
  pose proof (lxor_range 8 h x ltac:(lia) Hh Hx) as Hi.
  change 0xff with (Z.ones 8). rewrite Z.land_ones, Z.mod_small by lia.
  rewrite crc16_table by exact Hi. cbn [mbind option_bind]. f_equal. rewrite (crc16_high h x Hx).
  pose proof (feed_byte_lxor 16 0x1021 ltac:(lia) (256 * h) l x 0) as E.
  rewrite (lxor_high_low h l Hl (proj1 Hh)), <-Ec, Z.lxor_0_r, (crc16_low l Hl) in E.
  rewrite E, wrap_lxor by lia. f_equal; [apply wrap_small; by apply feed_byte_range|].
  replace (c * 256) with (256 * l + h * 2 ^ 16) by lia. rewrite wrap_add_mul by lia. apply wrap_small. unfold is_byte in Hl. lia.
Qed.

(** The three checksums are remainders of polynomials: x^16 + x^12 + x^5 + 1,
    x^8 + x^2 + x + 1 and x^7 + x^3 + 1. *)
Theorem crc_remainders buf l1 l l2 c : Forall is_byte l → buf = l1 ++ l ++ l2 →
  let p := Z.of_nat (length l1) in
  let n := Z.of_nat (length l) in
  (0 ≤ c < 2 ^ 16 → crc16_ccitt c buf p n = Some (remainder 16 0x1021 c l)) ∧
  (0 ≤ c < 2 ^ 8 → crc8 c buf p n = Some (remainder 8 0x07 c l)) ∧
  (0 ≤ c < 2 ^ 7 → crc7 c buf p n = Some (remainder 7 0x09 c l)).
Proof.
  intros Hl Hbuf. cbv zeta. rewrite !remainder_bytes. split_and!; intros Hc.
  - apply (over_bytes_spec _ _ _ _ _ _ l2 _ crc16_step); done.
  - apply (over_bytes_spec _ _ _ _ _ _ l2 _ crc8_step); done.
  - apply (over_bytes_spec _ _ _ _ _ _ l2 _ crc7_step); done.
Qed.

(** ** Sums of words *)

(** The bytes of [l] count once and 256 times in turn. *)
Fixpoint weighted (odd : bool) (l : list Z) : Z :=
  match l with [] => 0 | x :: l => (if odd then 256 * x else x) + weighted (negb odd) l end.

Abbreviation word_sum := (weighted false).

(** The sum with its carries added: from 0 to 0xffff, and 0 for 0 only. *)
Definition folded (s : Z) : Z := if s =? 0 then 0 else (s - 1) mod 0xffff + 1.

Lemma weighted_app odd a b : weighted odd (a ++ b) = weighted odd a + weighted (if Z.even (Z.of_nat (length a)) then odd else negb odd) b.
Proof.
  revert odd. induction a as [|x a IH]; intros odd; [done|]. cbn [app weighted length]. rewrite IH, Nat2Z.inj_succ, Z.even_succ.
  rewrite <-Z.negb_even. destruct (Z.even (Z.of_nat (length a))), odd; cbn [negb]; lia.
Qed.

Lemma weighted_bound odd l : Forall is_byte l → 0 ≤ weighted odd l ≤ 65280 * Z.of_nat (length l).
Proof.
  intros Hl. revert odd. induction Hl as [|x l Hx Hl IH]; intros odd; [cbn; lia|]. specialize (IH (negb odd)).
  unfold is_byte in Hx. cbn [weighted length]. destruct odd; lia.
Qed.

(** Two bytes add at most 0xffff. *)
Lemma word_sum_bound l : Forall is_byte l → 2 * word_sum l ≤ 0xffff * Z.of_nat (length l).
Proof.
  remember (length l) as n eqn:En. revert l En.
  induction n as [n IH] using lt_wf_ind. intros [|x [|y l]] En Hl; subst n.
  - cbn. lia.
  - apply Forall_cons_iff in Hl as [Hx _]. unfold is_byte in Hx. cbn. lia.
  - apply Forall_cons_iff in Hl as [Hx Hl]. apply Forall_cons_iff in Hl as [Hy Hl]. unfold is_byte in Hx, Hy.
    specialize (IH (length l) ltac:(cbn; lia) l eq_refl Hl). cbn [weighted negb length] in *. lia.
Qed.

(** One byte further the sum is multiplied by 256, but for multiples of 0xffff. *)
Lemma weighted_odd l : Forall is_byte l →
  ∃ k, 256 * word_sum l = weighted true l + 0xffff * k ∧ (word_sum l = 0 ↔ weighted true l = 0).
Proof.
  intros Hl. enough (H : (∃ k, 256 * word_sum l = weighted true l + 0xffff * k) ∧ (word_sum l = 0 ↔ weighted true l = 0)).
  { destruct H as [[k Hk] H]. by exists k. }
  induction Hl as [|x l Hx Hl [[k Hk] IH]]; [split; [by exists 0|done]|]. cbn [weighted negb].
  pose proof (weighted_bound true l Hl). pose proof (weighted_bound false l Hl). unfold is_byte in Hx. split; [|lia].
  exists (weighted false l - 256 * k). lia.
Qed.

Lemma folded_range s : 0 ≤ folded s ≤ 0xffff.
Proof. unfold folded. destruct (s =? 0); [lia|]. pose proof (Z.mod_pos_bound (s - 1) 0xffff). lia. Qed.

Lemma folded_unique s v k : 0 ≤ s → 0 ≤ v ≤ 0xffff → (v = 0 ↔ s = 0) → s = v + 0xffff * k → folded s = v.
Proof.
  intros Hs Hv H0 Hk. unfold folded. destruct (Z.eqb_spec s 0) as [->|Hne]; [lia|].
  assert (E : (s - 1) mod 0xffff = v - 1); [|lia]. symmetry. apply (Z.mod_unique_pos _ _ k); lia.
Qed.

Lemma folded_spec s : 0 ≤ s → ∃ j, s = folded s + 0xffff * j ∧ (folded s = 0 ↔ s = 0).
Proof.
  intros Hs. unfold folded. destruct (Z.eqb_spec s 0) as [->|Hne]; [by exists 0|].
  exists ((s - 1) / 0xffff). Z.to_euclidean_division_equations. lia.
Qed.

(** The folding at the end of [compute_ip_checksum]. *)
Lemma fold_carries s : 0 ≤ s < 2 ^ 31 →
  let s1 := Z.shiftr s 16 + Z.land s 0xffff in
  Z.land (Z.lnot (s1 + Z.shiftr s1 16)) 0xffff = 0xffff - folded s.
Proof.
  intros Hs. cbv zeta. change 0xffff with (Z.ones 16) at 1 2 3. rewrite !Z.land_ones, !Z.shiftr_div_pow2 by lia.
  change (2 ^ 16) with 65536. unfold Z.lnot. set (q := s / 65536). set (r := s mod 65536).
  assert (Hqr : 0 ≤ q < 32768 ∧ 0 ≤ r < 65536 ∧ s = q * 65536 + r) by (subst q r; Z.to_euclidean_division_equations; lia).
  set (c := (q + r) / 65536). assert (Hc : (c = 0 ∧ q + r < 65536) ∨ (c = 1 ∧ 65536 ≤ q + r)) by (subst c; Z.to_euclidean_division_equations; lia).
  assert (E : folded s = q + r + c - 65536 * c).
  { apply (folded_unique _ _ (q + c)); lia. }
  rewrite E. symmetry. apply (Z.mod_unique_pos _ _ (- 1 - c)); lia.
Qed.

(** ** The loop over the words *)

Lemma sum_loop n : ∀ l l1 l2 buf s fuel, (length l ≤ n)%nat → buf = l1 ++ l ++ l2 → Forall is_byte l →
  0 ≤ s → s + word_sum l < 2 ^ 31 → (length l < fuel)%nat →
  ∃ s' p' n', loop_brk fuel (λ '(sum, p, nbytes),
    if 1 <? nbytes then
      x ← arr_get buf p; y ← arr_get buf (p + 1);
      sum ← int_add sum (x + 256 * y);
      Some (Next (sum, p + 2, nbytes - 2))
    else Some (Break (sum, p, nbytes))) (s, Z.of_nat (length l1), Z.of_nat (length l)) = Some (s', p', n') ∧
    (n' = 0 ∧ s' = s + word_sum l ∨ n' = 1 ∧ ∃ x, arr_get buf p' = Some x ∧ 0 ≤ s' ∧ 0 ≤ x ∧ s' + x = s + word_sum l).
Proof.
  induction n as [|n IH]; intros l l1 l2 buf s fuel Hn Hbuf Hl Hs Hb Hf; (destruct fuel as [|fuel]; [lia|]).
  - destruct l; [|cbn in Hn; lia]. eexists _, _, _. split; [by apply loop_brk_break|]. left. cbn. lia.
  - destruct l as [|x [|y l]].
    + eexists _, _, _. split; [by apply loop_brk_break|]. left. cbn. lia.
    + eexists _, _, _. split; [by apply loop_brk_break|]. right. split; [done|]. exists x.
      split; [by apply (arr_get_at buf l1 x l2)|]. apply Forall_cons_iff in Hl as [Hx _]. unfold is_byte in Hx. cbn in *. lia.
    + apply Forall_cons_iff in Hl as [Hx Hl]. apply Forall_cons_iff in Hl as [Hy Hl]. unfold is_byte in Hx, Hy.
      pose proof (weighted_bound false l Hl) as Hw. cbn [weighted negb] in *. cbn [length] in *.
      destruct (IH l (l1 ++ [x; y]) l2 buf (s + (x + 256 * y)) fuel) as (s' & p' & n' & Hr & Hp); [lia|rewrite Hbuf; list_eq|done|lia..|].
      exists s', p', n'. split; [|destruct Hp as [[? ?]|(? & z & ? & ? & ? & ?)]; [left; lia|right; split; [done|]; exists z; repeat split; (done || lia)]].
      rewrite <-Hr. rewrite (loop_brk_next _ _ _ (s + (x + 256 * y), Z.of_nat (length (l1 ++ [x; y])), Z.of_nat (length l))); [done|].
      rewrite (proj2 (Z.ltb_lt _ _)) by lia. rewrite (arr_get_at buf l1 x (y :: l ++ l2) (Z.of_nat (length l1)) Hbuf eq_refl). cbn [mbind option_bind].
      rewrite (arr_get_at buf (l1 ++ [x]) y (l ++ l2)) by (first [rewrite Hbuf; list_eq|rewrite length_app; cbn; lia]). cbn [mbind option_bind].
      unfold int_add. rewrite (proj2 (Z.leb_le _ _)), (proj2 (Z.ltb_lt _ _)) by lia. cbn [andb mbind option_bind].
      do 3 f_equal; [f_equal; rewrite length_app; cbn; lia|lia].
Qed.

(** The checksum of the bytes is the complement of the sum of their words. *)
Lemma checksum_spec buf l1 l l2 p : buf = l1 ++ l ++ l2 → p = Z.of_nat (length l1) → Forall is_byte l → Z.of_nat (length l) ≤ 2 ^ 16 →
  compute_ip_checksum buf p (Z.of_nat (length l)) = Some (0xffff - folded (word_sum l)).
Proof.
  intros Hbuf -> Hl Hlen. pose proof (weighted_bound false l Hl) as Hw. pose proof (word_sum_bound l Hl) as Hw2. unfold compute_ip_checksum, sum_words.
  destruct (sum_loop (length l) l l1 l2 buf 0 (S (length buf))) as (s' & p' & n' & -> & Hp); [lia|done|done|lia|lia|rewrite Hbuf, !length_app; lia|].
  cbn [mbind option_bind]. destruct Hp as [[-> ->]|(-> & x & Hx & Hs & Hx0 & E)].
  - cbn [Z.eqb mbind option_bind]. rewrite fold_carries by lia. by rewrite Z.add_0_l.
  - cbn [Z.eqb Pos.eqb]. rewrite Hx. cbn [mbind option_bind]. unfold int_add.
    rewrite (proj2 (Z.leb_le _ _)), (proj2 (Z.ltb_lt _ _)) by lia. cbn [andb mbind option_bind].
    rewrite fold_carries by lia. by rewrite E, Z.add_0_l.
Qed.

(** ** Sums of parts *)

Lemma complement a : 0 ≤ a ≤ 0xffff → Z.land (Z.lnot (0xffff - a)) 0xffff = a ∧ Z.land (Z.lnot a) 0xffff = 0xffff - a.
Proof.
  intros Ha. change 0xffff with (Z.ones 16) at 2 3. rewrite !Z.land_ones by lia. change (2 ^ 16) with 65536. unfold Z.lnot.
  Z.to_euclidean_division_equations. lia.
Qed.

Lemma swap_bytes b : 0 ≤ b ≤ 0xffff →
  Z.lor (Z.land (Z.shiftr b 8) 0xff) (Z.land (Z.shiftl b 8) 0xff00) = b / 256 + 256 * (b mod 256).
Proof.
  intros Hb. change 0xff00 with (Z.shiftl (Z.ones 8) 8). rewrite <-Z.shiftl_land. change 0xff with (Z.ones 8).
  rewrite !Z.land_ones, Z.shiftl_mul_pow2, Z.shiftr_div_pow2 by lia. change (2 ^ 8) with 256.
  assert (Hh : 0 ≤ b / 256 < 256) by (Z.to_euclidean_division_equations; lia). rewrite (Z.mod_small (b / 256)) by done.
  rewrite Z.lor_comm. change 256 with (2 ^ 8) at 2. rewrite lor_low_high by (done || lia). change (2 ^ 8) with 256. lia.
Qed.

Lemma folded_add s t : 0 ≤ s → 0 ≤ t →
  folded (s + t) = let c := folded s + folded t in if 0xffff <? c then c - 0xffff else c.
Proof.
  intros Hs Ht. cbv zeta. unfold folded.
  destruct (Z.eqb_spec s 0), (Z.eqb_spec t 0), (Z.eqb_spec (s + t) 0); try lia;
    destruct (Z.ltb_spec 0xffff (0 + 0)); try lia; Z.to_euclidean_division_equations; bools; lia.
Qed.

Lemma folded_swap l : Forall is_byte l →
  let b := folded (word_sum l) in folded (weighted true l) = b / 256 + 256 * (b mod 256).
Proof.
  intros Hl b. destruct (weighted_odd l Hl) as (k & Hk & H0). pose proof (weighted_bound true l Hl). pose proof (weighted_bound false l Hl).
  pose proof (folded_range (word_sum l)) as Hb. fold b in Hb.
  destruct (folded_spec (word_sum l)) as (j & Ej & E0); [lia|]. fold b in Ej, E0.
  set (q := b / 256). set (r := b mod 256).
  assert (Hqr : 0 ≤ q < 256 ∧ 0 ≤ r < 256 ∧ b = 256 * q + r) by (subst q r; Z.to_euclidean_division_equations; lia).
  apply (folded_unique _ _ (256 * j + q - k)); lia.
Qed.

Lemma low_bit n : Z.land n 1 = if Z.even n then 0 else 1.
Proof.
  change 1 with (Z.ones 1) at 1. rewrite Z.land_ones by lia. change (2 ^ 1) with 2.
  rewrite Zmod_odd, <-Z.negb_even. by destruct (Z.even n).
Qed.

(** C35. compute_ip_checksum of two neighbouring parts of a buffer that have
    up to 65536 bytes together, the first one of any length, odd or even, is
    add_ip_checksums of the checksums of the two parts; none of the three
    computations overflows the int or reads outside the buffer. *)
Theorem ip_checksum_parts buf l1 a b l2 : buf = l1 ++ a ++ b ++ l2 → Forall is_byte a → Forall is_byte b →
  Z.of_nat (length a) + Z.of_nat (length b) ≤ 2 ^ 16 →
  let p := Z.of_nat (length l1) in
  let na := Z.of_nat (length a) in
  let nb := Z.of_nat (length b) in
  ∃ r ra rb, compute_ip_checksum buf p (na + nb) = Some r ∧ compute_ip_checksum buf p na = Some ra ∧
    compute_ip_checksum buf (p + na) nb = Some rb ∧ r = add_ip_checksums na ra rb.
Proof.
  intros Hbuf Ha Hb Hlen. cbv zeta. pose proof (weighted_bound false a Ha). pose proof (weighted_bound false b Hb). pose proof (weighted_bound true b Hb).
  exists (0xffff - folded (word_sum (a ++ b))), (0xffff - folded (word_sum a)), (0xffff - folded (word_sum b)).
  split; [|split; [|split]].
  - rewrite <-Nat2Z.inj_add, <-length_app. apply (checksum_spec _ l1 (a ++ b) l2); [rewrite Hbuf; list_eq|done|by apply Forall_app|rewrite length_app; lia].
  - apply (checksum_spec _ l1 a (b ++ l2)); (done || lia).
  - apply (checksum_spec _ (l1 ++ a) b l2); [rewrite Hbuf; list_eq|rewrite length_app; lia|done|lia].
  - unfold add_ip_checksums. pose proof (folded_range (word_sum a)) as Fa. pose proof (folded_range (word_sum b)) as Fb.
    rewrite (proj1 (complement _ Fa)), (proj1 (complement _ Fb)). cbv zeta. rewrite (swap_bytes _ Fb), <-(folded_swap b Hb).
    rewrite low_bit, weighted_app.
    destruct (Z.even (Z.of_nat (length a))); cbn [negb]; rewrite folded_add by lia; cbv zeta; symmetry; apply complement;
      pose proof (folded_range (weighted true b)); bools; lia.
Qed.

Lemma word_bytes r : 0 ≤ r ≤ 0xffff → is_byte (r mod 256) ∧ is_byte (r / 256) ∧ r mod 256 + 256 * (r / 256) = r.
Proof. intros Hr. unfold is_byte. Z.to_euclidean_division_equations. lia. Qed.

(** A header with its checksum at an even place is accepted. *)
Theorem ip_checksum_accepted l1 a b l2 r : Forall is_byte a → Forall is_byte b → Z.even (Z.of_nat (length a)) = true →
  Z.of_nat (length a) + 2 + Z.of_nat (length b) ≤ 2 ^ 16 →
  compute_ip_checksum (l1 ++ (a ++ [0; 0] ++ b) ++ l2) (Z.of_nat (length l1)) (Z.of_nat (length (a ++ [0; 0] ++ b))) = Some r →
  ip_checksum_ok (l1 ++ (a ++ [r mod 256; r / 256] ++ b) ++ l2) (Z.of_nat (length l1)) (Z.of_nat (length (a ++ [0; 0] ++ b))) = Some true.
Proof.
  intros Ha Hb Heven Hlen Hr. pose proof (weighted_bound false a Ha). pose proof (weighted_bound false b Hb).
  assert (Hzero : is_byte 0) by (unfold is_byte; lia).
  rewrite (checksum_spec _ l1 (a ++ [0; 0] ++ b) l2) in Hr; [|done|done|repeat (apply Forall_app; split); try done; by repeat constructor|rewrite !length_app; cbn; lia].
  injection Hr as <-. rewrite weighted_app, Heven. cbn [app weighted negb]. set (s := word_sum a + (0 + (256 * 0 + word_sum b))).
  pose proof (folded_range s) as Hs. set (r := 0xffff - folded s).
  pose proof (word_bytes r ltac:(subst r; lia)) as Hr.
  destruct Hr as (H1 & H2 & Hr). unfold ip_checksum_ok.
  replace (length (a ++ 0 :: 0 :: b)) with (length (a ++ [r mod 256; r / 256] ++ b)) by (rewrite !length_app; done).
  rewrite (checksum_spec _ l1 (a ++ [r mod 256; r / 256] ++ b) l2); [|done|done| |rewrite !length_app; cbn; lia].
  - rewrite weighted_app, Heven. cbn [app weighted negb mbind option_bind].
    assert (E : folded (word_sum a + (r mod 256 + (256 * (r / 256) + word_sum b))) = 0xffff); [|by rewrite E].
    destruct (folded_spec s) as (j & Ej & E0); [subst s; lia|]. apply (folded_unique _ _ j); subst r; lia.
  - apply Forall_app. split; [done|]. by repeat apply List.Forall_cons.
Qed.

(** ** Examples *)

Definition header_front : list Z := [0x45; 0; 0; 0x73; 0; 0; 0x40; 0; 0x40; 0x11].
Definition header_back : list Z := [0xc0; 0xa8; 0; 1; 0xc0; 0xa8; 0; 0xc7].

Ltac bytes := repeat apply List.Forall_cons; try apply List.Forall_nil; unfold is_byte; lia.

(** An odd number of bytes in front. *)
Lemma ip_checksum_parts_witness :
  ∃ r ra rb, compute_ip_checksum ([7] ++ 3 :: header_front ++ [1; 2; 3]) 1 (11 + 2) = Some r ∧
    compute_ip_checksum ([7] ++ 3 :: header_front ++ [1; 2; 3]) 1 11 = Some ra ∧
    compute_ip_checksum ([7] ++ 3 :: header_front ++ [1; 2; 3]) (1 + 11) 2 = Some rb ∧ r = add_ip_checksums 11 ra rb.
Proof. apply (ip_checksum_parts _ [7] (3 :: header_front) [1; 2] [3]); [done|bytes|bytes|cbn; lia]. Defined.

Lemma ip_checksum_accepted_witness :
  ip_checksum_ok ([] ++ (header_front ++ [0xb8; 0x61] ++ header_back) ++ []) 0 20 = Some true.
Proof. apply (ip_checksum_accepted [] header_front header_back [] 0x61b8); [bytes|bytes|done|cbn; lia|vm_compute; done]. Defined.

(** The sum is tested without its lowest bit: a header with a wrong byte passes. *)
Example wrong_byte_accepted :
  (ip_checksum_ok (header_front ++ [0xb7; 0x61] ++ header_back) 0 20, ip_checksum_ok (header_front ++ [0xb9; 0x61] ++ header_back) 0 20) =
  (Some true, Some false).
Proof. vm_compute. reflexivity. Qed.

Definition nine : list Z := [49; 50; 51; 52; 53; 54; 55; 56; 57].

Lemma crc_remainders_witness :
  crc16_ccitt 0 nine 0 9 = Some (remainder 16 0x1021 0 nine) ∧ crc8 0 nine 0 9 = Some (remainder 8 0x07 0 nine) ∧
  crc7 0 nine 0 9 = Some (remainder 7 0x09 0 nine).
Proof.
  destruct (crc_remainders nine [] nine [] 0) as (H1 & H2 & H3); [bytes|done|].
  split_and!; [apply H1|apply H2|apply H3]; lia.
Defined.

Example check_values : (crc16_ccitt 0 nine 0 9, crc8 0 nine 0 9, crc7 0 nine 0 9, crc16_ccitt_wd_buf nine 0 9 [7; 7; 7] 1) =
  (Some 0x31c3, Some 0xf4, Some 0x75, Some [7; 0x31; 0xc3]).
Proof. vm_compute. reflexivity. Qed.
