(* ===== verification/EnvStore.v ===== *)
(** * EnvStore: the environment as a whole (env/common.c, env/env.c, env/fat.c
    and the access functions of cmd/nvedit.c)

    The environment is the table of variables with a few global data.  It is
    stored as an image: a checksum, with redundant copies a serial number, and
    the text of the table.  The configuration - whether there are redundant
    copies, the size of the image, the default environment, which the build
    makes, and the list of storage drivers - are parameters.  The file system
    below env/fat.c is the class [EnvFile]. *)

From Stdlib Require Import ZArith Lia List String Ascii.
From stdpp Require Import base numbers list option gmap.
From S2P Require Import Prelude Memory Crc32 Hashtable EnvText EnvAttr EnvFlags EnvCallback.

#[local] Open Scope Z_scope.

Definition GD_FLG_ENV_READY : Z := 0x00080.
Definition GD_FLG_ENV_DEFAULT : Z := 0x02000.

Definition ENV_INVALID : Z := 0.
Definition ENV_VALID : Z := 1.
Definition ENV_REDUND : Z := 2.

Definition ENVL_UNKNOWN : Z := 0.
Definition ENVL_FAT : Z := 3.

Definition EIO : Z := 5.
Definition ENODEV : Z := 19.
Definition ENOMSG : Z := 42.

(** The parts of the global data that the environment uses, with the table, the
    counter [env_id] and the serial number [env_flags]. *)
Record env_gd := {
  env_valid : Z; gd_flags : Z; env_htab : hsearch_data; env_flags : Z; env_id : Z;
  env_load_prio : Z; env_has_init : Z; env_addr : option (list Z)
}.

Definition set_valid (v : Z) (gd : env_gd) : env_gd := {| gd with env_valid := v |}.
Definition set_htab (h : hsearch_data) (gd : env_gd) : env_gd := {| gd with env_htab := h |}.
Definition set_gd_flags (f : Z) (gd : env_gd) : env_gd := {| gd with gd_flags := f |}.
Definition set_serial (s : Z) (gd : env_gd) : env_gd := {| gd with env_flags := s |}.
Definition set_id (n : Z) (gd : env_gd) : env_gd := {| gd with env_id := n |}.
Definition set_prio (p : Z) (gd : env_gd) : env_gd := {| gd with env_load_prio := p |}.
Definition set_init (i : Z) (gd : env_gd) : env_gd := {| gd with env_has_init := i |}.
Definition set_addr (a : option (list Z)) (gd : env_gd) : env_gd := {| gd with env_addr := a |}.

(** The image: [struct environment_s] over the bytes of a buffer. *)
Record env_t := { e_crc : Z; e_flags : Z; e_data : list Z }.

Definition le32 (l : list Z) : Z :=
  foldr (λ b n, b + 256 * n) 0 (take 4 l).

Definition le32_bytes (x : Z) : list Z := [u8 x; u8 (x / 2 ^ 8); u8 (x / 2 ^ 16); u8 (x / 2 ^ 24)].

Section environment.
Context `{!EnvHooks, !Regex}.
Context (redund : bool) (CONFIG_ENV_SIZE : Z) (default_environment : list Z).

Definition ENV_HEADER_SIZE : Z := if redund then 5 else 4.
Definition ENV_SIZE : Z := CONFIG_ENV_SIZE - ENV_HEADER_SIZE.

Definition as_env (buf : list Z) : option env_t :=
  if Z.of_nat (length buf) =? CONFIG_ENV_SIZE
  then Some {| e_crc := le32 buf; e_flags := default 0 (buf !! 4%nat); e_data := drop (Z.to_nat ENV_HEADER_SIZE) buf |}
  else None.

Definition env_bytes (e : env_t) : list Z :=
  le32_bytes (e_crc e) ++ (if redund then [u8 (e_flags e)] else []) ++ e_data e.

(** The checksum of the data of an image at address [a]. *)
Definition data_crc (a : Z) (e : env_t) : option Z :=
  crc32 (mem_of (a + ENV_HEADER_SIZE) (e_data e)) 0 (a + ENV_HEADER_SIZE) ENV_SIZE.

(** ** env/common.c *)

Definition env_set_default (flags : Z) (gd : env_gd) : option env_gd :=
  if ENV_SIZE <? Z.of_nat (length default_environment) then Some gd
  else
    '(_, _, h) ← himport_r (Some (env_htab gd)) default_environment 0 flags false [];
    h ← h;
    Some (set_gd_flags (Z.lor (Z.lor (gd_flags gd) GD_FLG_ENV_READY) GD_FLG_ENV_DEFAULT) (set_htab h gd)).

Definition env_set_default_vars (vars : list str) (flags : Z) (gd : env_gd) : option (Z * env_gd) :=
  '(r, _, h) ← himport_r (Some (env_htab gd)) default_environment 0 (Z.lor flags H_NOCLEAR) false vars;
  h ← h;
  Some (r, set_htab h gd).

Definition env_import (a : Z) (buf : list Z) (check : bool) (gd : env_gd) : option (Z * env_gd) :=
  ep ← as_env buf;
  crc ← (if check then data_crc a ep else Some (e_crc ep));
  if negb (crc =? e_crc ep) then
    gd ← env_set_default 0 gd;
    Some (- ENOMSG, gd)
  else
    '(r, _, h) ← himport_r (Some (env_htab gd)) (e_data ep) 0 0 false [];
    h ← h;
    let gd := set_htab h gd in
    if negb (r =? 0) then Some (0, set_gd_flags (Z.lor (gd_flags gd) GD_FLG_ENV_READY) gd)
    else
      gd ← env_set_default 0 gd;
      Some (- EIO, gd).

(** A copy that could not be read is [None]. *)
Definition env_import_redund (a1 : Z) (buf1 : option (list Z)) (a2 : Z) (buf2 : option (list Z)) (gd : env_gd)
    : option (Z * env_gd) :=
  match buf1, buf2 with
  | None, None => gd ← env_set_default 0 gd; Some (- EIO, gd)
  | Some buf1, None => env_import a1 buf1 true (set_valid ENV_VALID gd)
  | None, Some buf2 => env_import a2 buf2 true (set_valid ENV_REDUND gd)
  | Some buf1, Some buf2 =>
      tmp_env1 ← as_env buf1;
      tmp_env2 ← as_env buf2;
      crc1 ← data_crc a1 tmp_env1;
      crc2 ← data_crc a2 tmp_env2;
      let crc1_ok := crc1 =? e_crc tmp_env1 in
      let crc2_ok := crc2 =? e_crc tmp_env2 in
      if negb crc1_ok && negb crc2_ok then gd ← env_set_default 0 gd; Some (- ENOMSG, gd)
      else
        let v :=
          if crc1_ok && negb crc2_ok then ENV_VALID
          else if negb crc1_ok && crc2_ok then ENV_REDUND
          else if (e_flags tmp_env1 =? 255) && (e_flags tmp_env2 =? 0) then ENV_REDUND
          else if (e_flags tmp_env2 =? 255) && (e_flags tmp_env1 =? 0) then ENV_VALID
          else if e_flags tmp_env2 <? e_flags tmp_env1 then ENV_VALID
          else if e_flags tmp_env1 <? e_flags tmp_env2 then ENV_REDUND
          else ENV_VALID in
        let '(a, buf, ep) := if v =? ENV_VALID then (a1, buf1, tmp_env1) else (a2, buf2, tmp_env2) in
        env_import a buf false (set_serial (e_flags ep) (set_valid v gd))
  end.

(** The result is the returned value, the image and the state. *)
Definition env_export (a : Z) (env_out : env_t) (gd : env_gd) : option (Z * env_t * env_gd) :=
  '(len, _, res) ← hexport_r (Some (env_htab gd)) 0 0 (Some (Some (e_data env_out))) ENV_SIZE [];
  if len <? 0 then Some (1, env_out, gd)
  else
    res ← res;
    let env_out := {| e_crc := e_crc env_out; e_flags := e_flags env_out; e_data := res |} in
    crc ← data_crc a env_out;
    let gd := if redund then set_serial (u8 (env_flags gd + 1)) gd else gd in
    Some (0, {| e_crc := crc; e_flags := if redund then env_flags gd else e_flags env_out; e_data := res |}, gd).

(** ** cmd/nvedit.c *)

Definition env_get_char (index : Z) (gd : env_gd) : option Z :=
  if env_valid gd =? ENV_INVALID then arr_get default_environment index
  else text ← env_addr gd; arr_get text index.

(** The position behind the '=' of entry [i2] if its name is [s1], or -1.  An
    entry without '=' that is [s1] makes the loop run past the end of [s1]. *)
Fixpoint env_match (s1 : str) (i2 : Z) (gd : env_gd) : option Z :=
  c ← env_get_char i2 gd;
  match s1 with
  | [] => if c =? 0 then None else Some (if c =? 61 then i2 + 1 else -1)
  | c1 :: s1 =>
      if c1 =? c then
        if c1 =? 61 then Some (i2 + 1) else env_match s1 (i2 + 1) gd
      else Some (-1)
  end.

(** The result is the number that the function returns and the characters in
    the buffer up to the terminator. *)
Definition env_get_f (name : str) (len : Z) (gd : env_gd) : option (Z * list Z) :=
  let fuel := S (Z.to_nat CONFIG_ENV_SIZE) in
  o ← loop (S fuel) (λ i,
      c ← env_get_char i gd;
      if c =? 0 then Some (Break i)
      else
        e ← loop (S fuel) (λ nxt,
            c ← env_get_char nxt gd;
            if c =? 0 then Some (Break nxt)
            else if c <? 0 then Some (Return c)
            else if CONFIG_ENV_SIZE <=? nxt then Some (Return (-1))
            else Some (Next (nxt + 1))) i;
        match e with
        | inr r => Some (Return (r, []))
        | inl nxt =>
            val ← env_match name i gd;
            if val <? 0 then Some (Next (nxt + 1))
            else
              w ← loop (S (Z.to_nat len)) (λ '(val, buf),
                  if Z.of_nat (length buf) <? len then
                    c ← env_get_char val gd;
                    if c <? 0 then Some (Return (c, buf))
                    else if c =? 0 then Some (Return (Z.of_nat (length buf), buf))
                    else Some (Next (val + 1, buf ++ [c]))
                  else Some (Break (val, buf)))
                (val, []);
              match w with
              | inr r => Some (Return r)
              | inl (_, buf) => Some (Return (Z.of_nat (length buf), removelast buf))
              end
        end) 0;
  Some (match o with inl _ => (-1, []) | inr r => r end).

(** [env_buf] has [len] bytes. *)
Definition env_get (name : str) (len : Z) (gd : env_gd) : option (option str) :=
  if negb (Z.land (gd_flags gd) GD_FLG_ENV_READY =? 0) then
    r ← hsearch_r name None ENV_FIND (env_htab gd) 0;
    match retval r with
    | None => Some None
    | Some i =>
        tbl ← table (htab_after r);
        n ← arr_get tbl i;
        Some (data (entry n))
    end
  else
    '(n, buf) ← env_get_f name len gd;
    Some (if 0 <? n then Some buf else None).

Definition env_get_default (name : str) (len : Z) (gd : env_gd) : option (option str) :=
  env_get name len (set_gd_flags (Z.land (gd_flags gd) (Z.lnot GD_FLG_ENV_READY)) (set_valid ENV_INVALID gd)).

Definition env_get_yesno (var : str) (len : Z) (gd : env_gd) : option Z :=
  s ← env_get var len gd;
  Some (match s with
        | None => -1
        | Some s => let c := default 0 (head s) in
                    if (c =? 49) || (c =? 121) || (c =? 89) || (c =? 116) || (c =? 84) then 1 else 0
        end).

(** The options at the front of the arguments: only "-f". *)
Fixpoint env_set_options (args : list str) (env_flag : Z) : option (list str * Z) :=
  match args with
  | (45 :: opts) :: args =>
      if forallb (λ c, c =? 102) opts
      then env_set_options args (if bool_decide (opts = []) then env_flag else Z.lor env_flag H_FORCE)
      else None
  | _ => Some (args, env_flag)
  end.

Definition CMD_RET_USAGE : Z := -1.

(** The command for the variables of EFI (cmd/nvedit_efi.c), with the arguments
    from "-e" on. *)
Context (do_env_set_efi : list str → env_gd → option (Z * env_gd)).

(** The words of the value, with a space between them. *)
Fixpoint join_words (l : list str) : str :=
  match l with
  | [] => []
  | [v] => v
  | v :: l => v ++ 32 :: join_words l
  end.

(** [args] are the arguments after the name of the command. *)
Definition _do_env_set (args : list str) (env_flag : Z) (gd : env_gd) : option (Z * env_gd) :=
  if bool_decide (take 2 (default [] (head args)) = [45; 101]) then do_env_set_efi args gd
  else
  match env_set_options args env_flag with
  | None => Some (CMD_RET_USAGE, gd)
  | Some ([], _) => None
  | Some (name :: words, env_flag) =>
      if bool_decide (61 ∈ name) then Some (1, gd)
      else
        let gd := set_id (s32 (env_id gd + 1)) gd in
        match words with
        | [] =>
            r ← hdelete_r name (env_htab gd) env_flag;
            Some (if ret r =? 0 then 1 else 0, set_htab (htab_after r) gd)
        | _ =>
            let len := foldr (λ v n, Z.of_nat (length v) + 1 + n) 0 words in
            if negb (malloc_ok len) then Some (1, gd)
            else
              r ← hsearch_r name (Some (join_words words)) ENV_ENTER (env_htab gd) env_flag;
              Some (match retval r with None => 1 | Some _ => 0 end, set_htab (htab_after r) gd)
        end
  end.

Definition H_PROGRAMMATIC : Z := 512.

Definition env_set (varname : str) (varvalue : option str) (gd : env_gd) : option (Z * env_gd) :=
  if Z.land (gd_flags gd) GD_FLG_ENV_READY =? 0 then Some (1, gd)
  else
    match varvalue with
    | None | Some [] => _do_env_set [varname] H_PROGRAMMATIC gd
    | Some v => _do_env_set [varname; v] H_PROGRAMMATIC gd
    end.

(** ** env/env.c *)

(** [M] is the state of the storage. *)
Context {M : Type}.

Record env_driver := {
  location : Z;
  load : option (env_gd → M → option (Z * env_gd * M));
  save : option (env_gd → M → option (Z * env_gd * M));
  erase : option (env_gd → M → option (Z * env_gd * M));
  init : option (env_gd → M → option (Z * env_gd * M))
}.

Context (env_locations : list Z) (drivers : list env_driver).

Definition env_has_inited (loc : Z) (gd : env_gd) : bool :=
  negb (Z.land (env_has_init gd) (Z.shiftl 1 loc) =? 0).

Definition env_set_inited (loc : Z) (gd : env_gd) : env_gd :=
  set_init (Z.lor (env_has_init gd) (Z.shiftl 1 loc)) gd.

Definition _env_driver_lookup (loc : Z) : option env_driver :=
  List.find (λ d, loc =? location d) drivers.

Definition env_get_location (prio : Z) (gd : env_gd) : Z * env_gd :=
  if prio <? 0 then (ENVL_UNKNOWN, gd)
  else
    match env_locations !! Z.to_nat prio with
    | None => (ENVL_UNKNOWN, gd)
    | Some loc => (loc, set_prio prio gd)
    end.

Definition env_driver_lookup (prio : Z) (gd : env_gd) : option env_driver * env_gd :=
  let '(loc, gd) := env_get_location prio gd in
  if loc =? ENVL_UNKNOWN then (None, gd) else (_env_driver_lookup loc, gd).

Definition env_load (gd : env_gd) (m : M) : option (Z * env_gd * M) :=
  o ← loop (S (length env_locations)) (λ '(gd, m, best_prio, prio),
      let '(drv, gd) := env_driver_lookup prio gd in
      match drv with
      | None => Some (Break (gd, m, best_prio, prio))
      | Some drv =>
          match load drv with
          | None => Some (Next (gd, m, best_prio, prio + 1))
          | Some load =>
              if negb (env_has_inited (location drv) gd) then Some (Next (gd, m, best_prio, prio + 1))
              else
                '(ret, gd, m) ← load gd m;
                if ret =? 0 then Some (Return (gd, m))
                else
                  let best_prio := if (ret =? - ENOMSG) && (best_prio =? -1) then prio else best_prio in
                  Some (Next (gd, m, best_prio, prio + 1))
          end
      end)
    (gd, m, -1, 0);
  Some (match o with
        | inr (gd, m) => (0, gd, m)
        | inl (gd, m, best_prio, _) =>
            let best_prio := if 0 <=? best_prio then best_prio else 0 in
            (- ENODEV, (env_get_location best_prio gd).2, m)
        end).

(** The common shape of [env_save] and [env_erase]. *)
Definition env_operate (op : env_driver → option (env_gd → M → option (Z * env_gd * M))) (gd : env_gd) (m : M)
    : option (Z * env_gd * M) :=
  let '(drv, gd) := env_driver_lookup (env_load_prio gd) gd in
  match drv with
  | None => Some (- ENODEV, gd, m)
  | Some drv =>
      match op drv with
      | None => Some (- ENODEV, gd, m)
      | Some f =>
          if negb (env_has_inited (location drv) gd) then Some (- ENODEV, gd, m)
          else
            '(ret, gd, m) ← f gd m;
            Some (if ret =? 0 then 0 else - ENODEV, gd, m)
      end
  end.

Definition env_save := env_operate save.
Definition env_erase := env_operate erase.

Definition env_init (gd : env_gd) (m : M) : option (Z * env_gd * M) :=
  '(gd, m, ret, prio) ← loop_brk (S (length env_locations)) (λ '(gd, m, ret, prio),
      let '(drv, gd) := env_driver_lookup prio gd in
      match drv with
      | None => Some (Break (gd, m, ret, prio))
      | Some drv =>
          match init drv with
          | None => Some (Next (env_set_inited (location drv) gd, m, ret, prio + 1))
          | Some init =>
              '(ret, gd, m) ← init gd m;
              Some (Next (if ret =? 0 then env_set_inited (location drv) gd else gd, m, ret, prio + 1))
          end
      end)
    (gd, m, - ENOENT, 0);
  if prio =? 0 then Some (- ENODEV, gd, m)
  else if ret =? - ENOENT then Some (0, set_valid ENV_VALID (set_addr (Some default_environment) gd), m)
  else Some (ret, gd, m).

(** The environment is stored somewhere (CONFIG_ENV_IS_NOWHERE is not set). *)
Definition env_relocate (gd : env_gd) (m : M) : option (env_gd * M) :=
  if env_valid gd =? ENV_INVALID then gd ← env_set_default 0 gd; Some (gd, m)
  else '(_, gd, m) ← env_load gd m; Some (gd, m).
End environment.

(** ** env/fat.c *)

(** The device, the partition and the file of the environment.  [file_write]
    and [file_read] return what [file_fat_write] and [file_fat_read] return;
    [file_read] changes the buffer. *)
Class EnvFile := {
  medium : Type;
  part_found : medium → bool;
  set_blk_dev : medium → bool * medium;
  file_write : medium → list Z → Z * medium;
  file_read : medium → list Z → Z * list Z * medium
}.

Section fat.
Context `{!EnvHooks, !Regex, !EnvFile}.
Context (CONFIG_ENV_SIZE : Z) (default_environment : list Z).
(** The addresses and the contents of the buffers on the stack. *)
Context (a_new : Z) (env_new : env_t) (a_buf : Z) (stack_buf : list Z).

Definition env_fat_save (gd : env_gd) (m : medium) : option (Z * env_gd * medium) :=
  '(err, env_new, gd) ← env_export false CONFIG_ENV_SIZE a_new env_new gd;
  if negb (err =? 0) then Some (err, gd, m)
  else if negb (part_found m) then Some (1, gd, m)
  else
    let '(ok, m) := set_blk_dev m in
    if negb ok then Some (1, gd, m)
    else
      let '(err, m) := file_write m (env_bytes false env_new) in
      Some (if err =? -1 then 1 else 0, gd, m).

Definition env_fat_load (gd : env_gd) (m : medium) : option (Z * env_gd * medium) :=
  let failed m := gd ← env_set_default false CONFIG_ENV_SIZE default_environment 0 gd; Some (- EIO, gd, m) in
  if negb (part_found m) then failed m
  else
    let '(ok, m) := set_blk_dev m in
    if negb ok then failed m
    else
      let '(err, buf, m) := file_read m stack_buf in
      if err =? -1 then failed m
      else '(r, gd) ← env_import false CONFIG_ENV_SIZE default_environment a_buf buf true gd; Some (r, gd, m).

Definition env_fat : env_driver := {|
  location := ENVL_FAT; load := Some env_fat_load; save := Some env_fat_save; erase := None; init := None
|}.
End fat.

(** ** Images *)

Lemma le32_le32_bytes x l : reg x → le32 (le32_bytes x ++ l) = x.
Proof.
  intros Hx. unfold le32, le32_bytes, wrap, reg in *. cbn [app take foldr].
  assert (E2 : x / 2 ^ 16 = x / 256 / 256) by (by rewrite Z.div_div).
  assert (E3 : x / 2 ^ 24 = x / 256 / 256 / 256) by (by rewrite !Z.div_div).
  assert (Hr : 0 ≤ x / 2 ^ 24 < 256) by (split; [apply Z.div_pos; lia|apply Z.div_lt_upper_bound; lia]).
  rewrite E3 in *. rewrite E2. change (2 ^ 8) with 256. rewrite (Z.mod_small (x / 256 / 256 / 256)) by lia.
  pose proof (Z.div_mod x 256 ltac:(lia)). pose proof (Z.div_mod (x / 256) 256 ltac:(lia)).
  pose proof (Z.div_mod (x / 256 / 256) 256 ltac:(lia)). change (foldr _ 0 (take 0 l)) with 0. lia.
Qed.

Section images.
Context (redund : bool) (size : Z).

Abbreviation as_env := (as_env redund size).
Abbreviation env_bytes := (env_bytes redund).
Abbreviation header := (ENV_HEADER_SIZE redund).
Abbreviation env_size := (ENV_SIZE redund size).

(** A well formed image: the data fill it and are bytes. *)
Record image_ok (e : env_t) : Prop := {
  im_crc : reg (e_crc e);
  im_flags : if redund then is_byte (e_flags e) else True;
  im_bytes : Forall is_byte (e_data e);
  im_size : Z.of_nat (length (e_data e)) = env_size
}.

Lemma length_env_bytes e : image_ok e → Z.of_nat (length (env_bytes e)) = size.
Proof.
  intros []. unfold EnvStore.env_bytes. rewrite !length_app. unfold EnvStore.ENV_SIZE, ENV_HEADER_SIZE in *.
  destruct redund; cbn [length le32_bytes] in *; lia.
Qed.

Lemma as_env_bytes e : image_ok e →
  ∃ f, as_env (env_bytes e) = Some {| e_crc := e_crc e; e_flags := f; e_data := e_data e |} ∧ (redund = true → f = e_flags e).
Proof.
  intros He. pose proof (length_env_bytes e He) as Hlen. destruct He as [Hc Hf _ _].
  unfold EnvStore.as_env. rewrite Hlen, Z.eqb_refl. unfold EnvStore.env_bytes. rewrite le32_le32_bytes by done.
  unfold ENV_HEADER_SIZE. destruct redund; (eexists; split; [cbn; reflexivity|]); [|done].
  intros _. cbn. apply wrap_small. unfold is_byte in Hf. lia.
Qed.

Lemma as_env_size buf e : as_env buf = Some e → Z.of_nat (length buf) = size.
Proof. unfold EnvStore.as_env. destruct (Z.eqb_spec (Z.of_nat (length buf)) size); by intros [=]. Qed.

(** The checksum of the data does not depend on the address. *)
Lemma data_crc_spec a e : Forall is_byte (e_data e) → Z.of_nat (length (e_data e)) = env_size →
  data_crc redund size a e = Some (crc32_of 0 (e_data e)).
Proof.
  intros Hb Hl. unfold data_crc. rewrite <-Hl. apply crc32_spec; [unfold reg; lia|apply bytes_at_mem_of|done].
Qed.
End images.

(** ** Export and import *)

Section storage.
Context `{!EnvHooks, !Regex} (strdup_ok : ∀ s, is_Some (strdup s)).
Context (redund : bool) (CONFIG_ENV_SIZE : Z) (default_environment : list Z).

Abbreviation env_size := (ENV_SIZE redund CONFIG_ENV_SIZE).
Abbreviation image_ok := (image_ok redund CONFIG_ENV_SIZE).

(** The variables of a table that an image can hold. *)
Record storable (tbl : list env_entry_node) : Prop := {
  st_names : exportable 0 tbl;
  st_bytes : Forall (λ e : str * str, Forall is_byte e.1 ∧ Forall is_byte e.2) (pairs tbl);
  st_some : pairs tbl ≠ [];
  st_count : Z.of_nat (length (pairs tbl)) ≤ Z.min 512 (64 + env_size / 8);
  st_room : Z.of_nat (length (pairs tbl ≫= export_entry 0)) + 1 ≤ env_size
}.

(** The text of [l] in an image. *)
Definition image_text (l : list (str * str)) : list Z :=
  let text := (l ≫= export_entry 0) ++ [0] in text ++ replicate (Z.to_nat env_size - length text) 0.

Lemma export_bytes l : Forall (λ e : str * str, Forall is_byte e.1 ∧ Forall is_byte e.2) l →
  Forall is_byte (l ≫= export_entry 0).
Proof.
  intros Hl. induction Hl as [|[k d] l [Hk Hd] _ IH]; [done|]. cbn [mbind list_bind].
  apply Forall_app. split; [|done]. unfold export_entry, escape. cbn [fst snd] in *.
  rewrite !Forall_app. split_and!; [done|by repeat constructor| |by repeat constructor].
  induction Hd as [|c d Hc _ IHd]; [done|]. cbn [mbind list_bind]. apply Forall_app. split; [|done].
  destruct (escaped 0 c); repeat constructor; unfold is_byte in *; lia.
Qed.

Lemma export_spec a env_out gd tbl : htab_ok (env_htab gd) tbl → storable tbl → env_size < 2 ^ 32 →
  Z.of_nat (length (e_data env_out)) = env_size →
  ∃ l e gd', l ≡ₚ pairs tbl ∧ env_export redund CONFIG_ENV_SIZE a env_out gd = Some (0, e, gd') ∧
    e_data e = image_text l ∧ e_crc e = crc32_of 0 (e_data e) ∧ image_ok e ∧
    (redund = true → e_flags e = u8 (env_flags gd + 1)) ∧
    gd' = (if redund then set_serial (u8 (env_flags gd + 1)) gd else gd).
Proof.
  intros Hok [Hexp Hbytes Hne _ Hroom] Hsize Hlen.
  assert (Hsel : filter (λ e, selected 0 [] e) (pairs tbl) = pairs tbl) by by apply selected_all.
  pose proof (hexport_spec (env_htab gd) tbl 0 0 (Some (e_data env_out)) env_size [] Hok) as Hspec.
  cbv zeta in Hspec. rewrite Hsel in Hspec.
  destruct Hspec as (l & Hp & _ & _ & _ & Hexport);
    [eapply Forall_impl; [exact Hexp|by intros ? (? & ? & ?)]|lia|lia|].
  assert (Hll : length (l ≫= export_entry 0) = length (pairs tbl ≫= export_entry 0)) by (by rewrite Hp).
  assert (Es : export_size env_size ((l ≫= export_entry 0) ++ [0]) = env_size)
    by (unfold export_size; by rewrite (proj2 (Z.eqb_neq env_size 0)) by lia).
  rewrite Es in Hexport.
  specialize (Hexport (e_data env_out) ltac:(rewrite length_app; cbn [length]; lia) eq_refl ltac:(lia)).
  assert (Hdrop : drop (Z.to_nat env_size) (e_data env_out) = []) by (apply drop_ge; lia).
  rewrite Hdrop, app_nil_r in Hexport. fold (image_text l) in Hexport.
  assert (Hb : Forall is_byte (image_text l)).
  { unfold image_text. rewrite !Forall_app. split; [split|].
    - apply export_bytes. by rewrite Hp.
    - by repeat constructor.
    - by apply Forall_replicate. }
  assert (Hil : Z.of_nat (length (image_text l)) = env_size).
  { unfold image_text. rewrite !length_app, length_replicate. cbn [length]. lia. }
  unfold env_export. rewrite Hexport. cbn [mbind option_bind].
  rewrite (proj2 (Z.ltb_ge env_size 0)) by lia. rewrite data_crc_spec by done. cbn [mbind option_bind e_data].
  eexists l, _, _. split; [done|]. split; [reflexivity|]. split; [done|]. split; [done|]. split; [|split].
  - split; cbn [e_crc e_flags e_data]; [apply crc32_of_reg; unfold reg; lia| |done|done].
    destruct redund; [|done]. apply wrap_range. lia.
  - by intros ->.
  - by destruct redund.
Qed.

Context (calloc_succeeds : ∀ n, calloc_ok n = true) (malloc_succeeds : ∀ n, malloc_ok n = true).

(** The table of an image, imported in the place of any other one. *)
Lemma import_text h tbl l h2 : htab_ok h tbl → storable tbl → importable 0 (pairs tbl) → l ≡ₚ pairs tbl →
  ∃ h3 tbl3, himport_r (Some h2) (image_text l) 0 0 false [] = Some (1, None, Some h3) ∧
    htab_ok h3 tbl3 ∧ omap data (vars h3) = omap data (vars h).
Proof.
  intros Hok [Hexp _ Hne Hcount Hroom] Himpl Hp.
  set (ls := (λ e : str * str, Setting [] e.1 e.2) <$> l).
  assert (Htext : (l ≫= export_entry 0) = ls ≫= line_text 0).
  { unfold ls. clear. induction l as [|e l IH]; [done|]. cbn. by rewrite IH. }
  assert (Hls : Forall (line_ok 0) ls).
  { unfold ls. apply Forall_fmap. rewrite Hp. eapply Forall_impl; [exact Hexp|].
    intros e (Hk & Hd & _). cbn. split; [constructor|by split]. }
  assert (Hlne : ls ≠ []).
  { unfold ls. intros E%fmap_nil_inv. rewrite E in Hp. by apply Permutation_nil in Hp. }
  assert (Hsep : sep_ok 0) by done.
  assert (Himg : image_text l = (ls ≫= line_text 0) ++ 0 :: replicate (Z.to_nat env_size - length ((l ≫= export_entry 0) ++ [0])) 0)
    by (unfold image_text; by rewrite Htext, <-app_assoc).
  assert (Hil : Z.of_nat (length (image_text l)) = env_size).
  { assert (length (l ≫= export_entry 0) = length (pairs tbl ≫= export_entry 0)) by (by rewrite Hp).
    unfold image_text. rewrite !length_app, length_replicate. cbn [length]. lia. }
  destruct (himport_spec strdup_ok calloc_succeeds malloc_succeeds 0 0 Hsep h2 ls
    (0 :: replicate (Z.to_nat env_size - length ((l ≫= export_entry 0) ++ [0])) 0))
    as (h0 & h3 & tbl3 & Hst & Himp & Hok3 & Hv); [done|done|by right|done|].
  rewrite <-Himg in Hst, Himp. exists h3, tbl3. split; [done|]. split; [done|].
  rewrite Hv. unfold starts_with in Hst. cbn in Hst. destruct Hst as [Hv0 Hs0].
  assert (Hreq : (ls ≫= line_requests 0) = (λ e : str * str, Enter e.1 e.2 0) <$> l).
  { unfold ls. clear. induction l as [|e l IH]; [done|]. cbn. by rewrite IH. }
  rewrite Hreq, Hv0, (map_run_settings strdup_ok calloc_succeeds malloc_succeeds).
  - rewrite omap_empty, map_union_empty, (vars_pairs h tbl Hok).
    apply list_to_map_proper; [rewrite Hp; by eapply NoDup_pairs|done].
  - by rewrite Hp.
  - rewrite Hp. by eapply NoDup_pairs.
  - done.
  - rewrite map_size_empty. apply Permutation_length in Hp. rewrite Hil in Hs0. lia.
Qed.

Lemma env_set_default_total flags gd : table_state (env_htab gd) →
  ∃ gd', env_set_default redund CONFIG_ENV_SIZE default_environment flags gd = Some gd' ∧ table_state (env_htab gd').
Proof.
  intros Hst. unfold env_set_default. destruct (_ <? _); [by exists gd|].
  destruct (himport_total strdup_ok (env_htab gd) default_environment 0 flags false [] Hst) as (r & e & h' & -> & Hst' & _).
  cbn [mbind option_bind]. eexists. by split.
Qed.

(** The import of a stored image. *)
Lemma env_import_spec a gd tbl l e gd2 check : htab_ok (env_htab gd) tbl → storable tbl → importable 0 (pairs tbl) →
  l ≡ₚ pairs tbl → e_data e = image_text l → e_crc e = crc32_of 0 (e_data e) → image_ok e →
  ∃ h3 tbl3, env_import redund CONFIG_ENV_SIZE default_environment a (env_bytes redund e) check gd2 =
      Some (0, set_gd_flags (Z.lor (gd_flags gd2) GD_FLG_ENV_READY) (set_htab h3 gd2)) ∧
    htab_ok h3 tbl3 ∧ omap data (vars h3) = omap data (vars (env_htab gd)).
Proof.
  intros Hok Hst Himpl Hp Hd Hcrc Him. unfold env_import.
  destruct (as_env_bytes redund CONFIG_ENV_SIZE e Him) as (f & -> & _). cbn [mbind option_bind e_crc e_data].
  assert (Hc : (if check then data_crc redund CONFIG_ENV_SIZE a {| e_crc := e_crc e; e_flags := f; e_data := e_data e |}
                else Some (e_crc e)) = Some (e_crc e)).
  { destruct check; [|done]. destruct Him. rewrite data_crc_spec by done. cbn [e_data]. by rewrite <-Hcrc. }
  rewrite Hc. cbn [mbind option_bind]. rewrite Z.eqb_refl. cbn [negb].
  destruct (import_text (env_htab gd) tbl l (env_htab gd2) Hok Hst Himpl Hp) as (h3 & tbl3 & Himp & Hok3 & Hv).
  rewrite Hd, Himp. cbn [mbind option_bind]. exists h3, tbl3. by split_and!.
Qed.

(** The import of an image with a wrong checksum. *)
Lemma env_import_bad a buf e gd c : as_env redund CONFIG_ENV_SIZE buf = Some e →
  data_crc redund CONFIG_ENV_SIZE a e = Some c → c ≠ e_crc e →
  env_import redund CONFIG_ENV_SIZE default_environment a buf true gd =
    (gd ← env_set_default redund CONFIG_ENV_SIZE default_environment 0 gd; Some (- ENOMSG, gd)).
Proof.
  intros He Hc Hne. unfold env_import. rewrite He. cbn [mbind option_bind]. rewrite Hc. cbn [mbind option_bind].
  by rewrite (proj2 (Z.eqb_neq c (e_crc e))).
Qed.
End storage.

(** ** Drivers *)

(** A storage that keeps what was written to it. *)
Class EnvFileWorks `{!EnvFile} := {
  stored : medium → list Z → Prop;
  write_stored m l m' : file_write m l = (0, m') → stored m' l;
  stored_access m l : stored m l → part_found m = true ∧ ∃ m', set_blk_dev m = (true, m') ∧ stored m' l;
  stored_read m l buf : stored m l → length buf = length l →
    ∃ r m', file_read m buf = (r, l, m') ∧ r ≠ -1 ∧ stored m' l
}.

Lemma lookup_one {M : Type} (d : @env_driver M) gd : location d ≠ ENVL_UNKNOWN →
  env_driver_lookup [location d] [d] 0 gd = (Some d, set_prio 0 gd) ∧
  env_driver_lookup [location d] [d] 1 gd = (None, gd).
Proof.
  intros Hl. unfold env_driver_lookup, env_get_location, _env_driver_lookup. cbn [List.find].
  change ([location d] !! Z.to_nat 0) with (Some (location d)). change ([location d] !! Z.to_nat 1) with (@None Z).
  cbn. by rewrite (proj2 (Z.eqb_neq (location d) ENVL_UNKNOWN) Hl), Z.eqb_refl.
Qed.

(** The load of the only driver. *)
Lemma env_load_one {M : Type} (d : @env_driver M) load_d gd (m : M) r gd' m' :
  location d ≠ ENVL_UNKNOWN → load d = Some load_d → env_has_inited (location d) gd = true →
  load_d (set_prio 0 gd) m = Some (r, gd', m') →
  env_load [location d] [d] gd m =
    Some (if r =? 0 then (0, gd', m') else (- ENODEV, set_prio 0 gd', m')).
Proof.
  intros Hl Hload Hinit Hrun. destruct (lookup_one d gd Hl) as [H0 _]. unfold env_load. cbn [length].
  destruct (Z.eqb_spec r 0) as [->|Hr].
  - rewrite (loop_return _ _ _ (gd', m')); [done|]. cbn beta iota. rewrite H0, Hload.
    change (env_has_inited (location d) (set_prio 0 gd)) with (env_has_inited (location d) gd).
    rewrite Hinit. cbn [negb]. by rewrite Hrun.
  - erewrite loop_next; [|cbn beta iota; rewrite H0, Hload;
      change (env_has_inited (location d) (set_prio 0 gd)) with (env_has_inited (location d) gd);
      rewrite Hinit; cbn [negb]; rewrite Hrun; cbn [mbind option_bind];
      rewrite (proj2 (Z.eqb_neq r 0) Hr); reflexivity].
    destruct (lookup_one d gd' Hl) as [_ H1].
    erewrite loop_break; [|cbn beta iota; change (0 + 1) with 1; rewrite H1; reflexivity].
    by destruct ((r =? - ENOMSG) && (-1 =? -1)).
Qed.

Lemma env_save_one {M : Type} (d : @env_driver M) save_d gd (m : M) r gd' m' :
  location d ≠ ENVL_UNKNOWN → save d = Some save_d → env_has_inited (location d) gd = true → env_load_prio gd = 0 →
  save_d (set_prio 0 gd) m = Some (r, gd', m') →
  env_save [location d] [d] gd m = Some (if r =? 0 then 0 else - ENODEV, gd', m').
Proof.
  intros Hl Hsave Hinit Hp Hrun. destruct (lookup_one d gd Hl) as [H0 _]. unfold env_save, env_operate.
  rewrite Hp, H0, Hsave. change (env_has_inited (location d) (set_prio 0 gd)) with (env_has_inited (location d) gd).
  rewrite Hinit. cbn [negb]. by rewrite Hrun.
Qed.

(** ** Saving and loading *)

Section fat_storage.
Context `{!EnvHooks, !Regex, !EnvFile, !EnvFileWorks} (strdup_ok : ∀ s, is_Some (strdup s)).
Context (calloc_succeeds : ∀ n, calloc_ok n = true) (malloc_succeeds : ∀ n, malloc_ok n = true).
Context (CONFIG_ENV_SIZE : Z) (default_environment : list Z).

Abbreviation env_size := (ENV_SIZE false CONFIG_ENV_SIZE).
Abbreviation env_fat := (env_fat CONFIG_ENV_SIZE default_environment).

Lemma env_fat_save_spec a_new env_new gd m m1 tbl : htab_ok (env_htab gd) tbl →
  storable false CONFIG_ENV_SIZE tbl → env_size < 2 ^ 32 → Z.of_nat (length (e_data env_new)) = env_size →
  part_found m = true → set_blk_dev m = (true, m1) →
  (∀ l, Z.of_nat (length l) = CONFIG_ENV_SIZE → ∃ m2, file_write m1 l = (0, m2)) →
  ∃ e l m2, env_fat_save CONFIG_ENV_SIZE a_new env_new gd m = Some (0, gd, m2) ∧
    stored m2 (env_bytes false e) ∧ l ≡ₚ pairs tbl ∧ image_ok false CONFIG_ENV_SIZE e ∧
    e_data e = image_text false CONFIG_ENV_SIZE l ∧ e_crc e = crc32_of 0 (e_data e).
Proof.
  intros Hok Hst Hsize Hlen Hpart Hdev Hw. unfold env_fat_save.
  destruct (export_spec false CONFIG_ENV_SIZE a_new env_new gd tbl Hok Hst Hsize Hlen)
    as (l & e & gd' & Hp & -> & Hd & Hcrc & Him & _ & ->).
  cbn [mbind option_bind]. change (negb (0 =? 0)) with false. cbn iota. rewrite Hpart, Hdev. cbn [negb].
  destruct (Hw (env_bytes false e)) as [m2 Hm2]; [by apply length_env_bytes|].
  rewrite Hm2. exists e, l, m2. split_and!; try done. by eapply write_stored.
Qed.

Lemma env_fat_load_spec a_buf stack_buf gd m e l h tbl : htab_ok h tbl → storable false CONFIG_ENV_SIZE tbl →
  importable 0 (pairs tbl) →
  stored m (env_bytes false e) → l ≡ₚ pairs tbl → image_ok false CONFIG_ENV_SIZE e →
  e_data e = image_text false CONFIG_ENV_SIZE l → e_crc e = crc32_of 0 (e_data e) →
  Z.of_nat (length stack_buf) = CONFIG_ENV_SIZE →
  ∃ h3 tbl3 m3, env_fat_load CONFIG_ENV_SIZE default_environment a_buf stack_buf gd m =
      Some (0, set_gd_flags (Z.lor (gd_flags gd) GD_FLG_ENV_READY) (set_htab h3 gd), m3) ∧
    htab_ok h3 tbl3 ∧ omap data (vars h3) = omap data (vars h).
Proof.
  intros Hok Hst Himpl Hs Hp Him Hd Hcrc Hlen. unfold env_fat_load.
  destruct (stored_access m _ Hs) as (-> & m1 & -> & Hs1). cbn [negb].
  pose proof (length_env_bytes false CONFIG_ENV_SIZE e Him) as Hl.
  destruct (stored_read m1 _ stack_buf Hs1) as (r & m2 & -> & Hr & _); [lia|].
  rewrite (proj2 (Z.eqb_neq r (-1)) Hr).
  destruct (env_import_spec strdup_ok false CONFIG_ENV_SIZE default_environment calloc_succeeds malloc_succeeds
    a_buf (set_htab h gd) tbl l e gd true Hok Hst Himpl Hp Hd Hcrc Him) as (h3 & tbl3 & -> & Hok3 & Hv).
  cbn [mbind option_bind]. by exists h3, tbl3, m2.
Qed.

(** C4. Round trip through the storage: with a file system that keeps what was
    written, the variables that env_save stores are the ones that a later
    env_load finds, whatever the table holds by then. It is stated for tables
    that an image carries: names that are not empty, have no '=' or NUL and do
    not begin with a blank or '#'; values that are not empty and have no NUL
    or backslash (hexport_nul_overflow); at most 512 and 64 + size/8
    variables; a text that fits; and each variable accepted by the permission
    check and its callback as a new one (premise importable: with the hooks of
    the program the variables that are not read-only and whose value has the
    form of their type, env_hooks_importable). Memory is available. *)
Theorem env_save_load a_new env_new a_buf stack_buf gd m m1 gd2 tbl :
  let env_locations := [ENVL_FAT] in
  let drivers := [env_fat a_new env_new a_buf stack_buf] in
  htab_ok (env_htab gd) tbl → storable false CONFIG_ENV_SIZE tbl → importable 0 (pairs tbl) → env_size < 2 ^ 32 →
  Z.of_nat (length (e_data env_new)) = env_size → Z.of_nat (length stack_buf) = CONFIG_ENV_SIZE →
  part_found m = true → set_blk_dev m = (true, m1) →
  (∀ l, Z.of_nat (length l) = CONFIG_ENV_SIZE → ∃ m2, file_write m1 l = (0, m2)) →
  env_has_inited ENVL_FAT gd = true → env_load_prio gd = 0 → env_has_inited ENVL_FAT gd2 = true →
  ∃ gd1 m2, env_save env_locations drivers gd m = Some (0, gd1, m2) ∧ env_htab gd1 = env_htab gd ∧
  ∃ gd3 tbl3 m3, env_load env_locations drivers gd2 m2 = Some (0, gd3, m3) ∧
    htab_ok (env_htab gd3) tbl3 ∧ omap data (vars (env_htab gd3)) = omap data (vars (env_htab gd)) ∧
    gd_flags gd3 = Z.lor (gd_flags gd2) GD_FLG_ENV_READY.
Proof.
  intros env_locations drivers Hok Hst Himpl Hsize Hlen Hbuf Hpart Hdev Hw Hinit Hprio Hinit2.
  destruct (env_fat_save_spec a_new env_new (set_prio 0 gd) m m1 tbl) as (e & l & m2 & Hsave & Hs & Hp & Him & Hd & Hcrc);
    [done..|].
  exists (set_prio 0 gd), m2. split.
  { exact (env_save_one (env_fat a_new env_new a_buf stack_buf) _ gd m 0 _ _ ltac:(done) eq_refl Hinit Hprio Hsave). }
  split; [done|].
  destruct (env_fat_load_spec a_buf stack_buf (set_prio 0 gd2) m2 e l (env_htab gd) tbl) as (h3 & tbl3 & m3 & Hload & Hok3 & Hv);
    [done..|].
  eexists _, tbl3, m3. split;
    [exact (env_load_one (env_fat a_new env_new a_buf stack_buf) _ gd2 m2 0 _ _ ltac:(done) eq_refl Hinit2 Hload)|].
  by split_and!.
Qed.
End fat_storage.

(** ** Damaged images and redundant copies *)

Section damage.
Context `{!EnvHooks, !Regex} (strdup_ok : ∀ s, is_Some (strdup s)).
Context (redund : bool) (CONFIG_ENV_SIZE : Z) (default_environment : list Z).

(** C18. Errors: an image in which a burst of at most 32 bits of the data, or
    the checksum itself, is damaged is rejected, and the table is the one of
    the default environment. *)
Theorem env_import_detects a e e' gd :
  image_ok redund CONFIG_ENV_SIZE e → image_ok redund CONFIG_ENV_SIZE e' →
  data_crc redund CONFIG_ENV_SIZE a e = Some (e_crc e) →
  burst (e_data e) (e_data e') ∧ e_crc e' = e_crc e ∨ e_data e' = e_data e ∧ e_crc e' ≠ e_crc e →
  table_state (env_htab gd) →
  ∃ gd', env_set_default redund CONFIG_ENV_SIZE default_environment 0 gd = Some gd' ∧
    env_import redund CONFIG_ENV_SIZE default_environment a (env_bytes redund e') true gd = Some (- ENOMSG, gd').
Proof.
  intros He He' Hcrc Hdmg Hst.
  destruct (env_set_default_total strdup_ok redund CONFIG_ENV_SIZE default_environment 0 gd Hst) as (gd' & Hdef & _).
  exists gd'. split; [done|].
  destruct (as_env_bytes redund CONFIG_ENV_SIZE e' He') as (f & Has & _).
  assert (Hc : e_crc e = crc32_of 0 (e_data e)).
  { destruct He. rewrite data_crc_spec in Hcrc by done. by injection Hcrc. }
  assert (Hne : crc32_of 0 (e_data e') ≠ e_crc e').
  { destruct Hdmg as [[Hb ->]|[-> Hn]]; [|by rewrite <-Hc].
    rewrite Hc. intros E. by apply (crc32_of_burst 0 (e_data e) (e_data e') Hb). }
  destruct He' as [_ _ Hb' Hs'].
  rewrite (env_import_bad redund CONFIG_ENV_SIZE default_environment a _ _ gd (crc32_of 0 (e_data e')) Has);
    [by rewrite Hdef|by apply (data_crc_spec redund CONFIG_ENV_SIZE a {| e_crc := e_crc e'; e_flags := f; e_data := e_data e' |})|done].
Qed.
End damage.

Section redundant.
Context `{!EnvHooks, !Regex} (strdup_ok : ∀ s, is_Some (strdup s)).
Context (calloc_succeeds : ∀ n, calloc_ok n = true) (malloc_succeeds : ∀ n, malloc_ok n = true).
Context (CONFIG_ENV_SIZE : Z) (default_environment : list Z).

Abbreviation env_size := (ENV_SIZE true CONFIG_ENV_SIZE).
Abbreviation image_ok := (image_ok true CONFIG_ENV_SIZE).
Abbreviation import_redund := (env_import_redund true CONFIG_ENV_SIZE default_environment).

(** The checksum of an image fits its data. *)
Definition good (e : env_t) : Prop := e_crc e = crc32_of 0 (e_data e).

(** The comparison of the serial numbers finds the successor. *)
Lemma serial_newer f1 f2 : 0 ≤ f1 < 256 → 0 ≤ f2 < 256 → f2 = (f1 + 1) mod 256 →
  let pick f1 f2 :=
    if (f1 =? 255) && (f2 =? 0) then ENV_REDUND
    else if (f2 =? 255) && (f1 =? 0) then ENV_VALID
    else if f2 <? f1 then ENV_VALID else if f1 <? f2 then ENV_REDUND else ENV_VALID in
  pick f1 f2 = ENV_REDUND ∧ pick f2 f1 = ENV_VALID.
Proof.
  intros H1 H2 E. assert (Hf : f1 = 255 ∧ f2 = 0 ∨ f1 < 255 ∧ f2 = f1 + 1).
  { destruct (decide (f1 = 255)) as [->|]; [by left|]. right. rewrite Z.mod_small in E by lia. lia. }
  cbv zeta. destruct Hf as [[-> ->]|[Hf ->]]; [done|].
  assert ((f1 + 1 =? 255) && (f1 =? 0) = false) as ->
    by (destruct (Z.eqb_spec (f1 + 1) 255), (Z.eqb_spec f1 0); (done || lia)).
  rewrite (proj2 (Z.eqb_neq f1 255)) by lia. cbn [andb].
  by rewrite (proj2 (Z.ltb_ge (f1 + 1) f1)), (proj2 (Z.ltb_lt f1 (f1 + 1))) by lia.
Qed.

(** The copy that is imported: [first] tells which one. *)
Lemma redund_import (first : bool) a1 a2 e1 e2 gd : image_ok e1 → image_ok e2 →
  (if first then good e1 ∧ (good e2 → e_flags e1 = u8 (e_flags e2 + 1))
   else good e2 ∧ (good e1 → e_flags e2 = u8 (e_flags e1 + 1))) →
  let e := if first then e1 else e2 in
  import_redund a1 (Some (env_bytes true e1)) a2 (Some (env_bytes true e2)) gd =
  env_import true CONFIG_ENV_SIZE default_environment (if first then a1 else a2) (env_bytes true e) false
    (set_serial (e_flags e) (set_valid (if first then ENV_VALID else ENV_REDUND) gd)).
Proof.
  intros H1 H2 Hgood. cbv zeta. unfold env_import_redund.
  destruct (as_env_bytes true CONFIG_ENV_SIZE e1 H1) as (f1 & -> & Hf1). specialize (Hf1 eq_refl). subst f1.
  destruct (as_env_bytes true CONFIG_ENV_SIZE e2 H2) as (f2 & -> & Hf2). specialize (Hf2 eq_refl). subst f2.
  destruct H1 as [_ Hf1 Hb1 Hs1], H2 as [_ Hf2 Hb2 Hs2].
  cbn [mbind option_bind]. rewrite !data_crc_spec by done. cbn [mbind option_bind e_data e_crc e_flags].
  unfold good, wrap, is_byte in *. change (2 ^ 8) with 256 in Hgood.
  destruct (Z.eqb_spec (crc32_of 0 (e_data e1)) (e_crc e1)) as [E1|E1],
    (Z.eqb_spec (crc32_of 0 (e_data e2)) (e_crc e2)) as [E2|E2]; cbn [negb andb];
    destruct first; destruct Hgood as [Hg Hs]; try congruence; try done.
  - destruct (serial_newer (e_flags e2) (e_flags e1)) as [_ ->]; [lia..|by apply Hs|done].
  - destruct (serial_newer (e_flags e1) (e_flags e2)) as [-> _]; [lia..|by apply Hs|done].
Qed.
(** The same with a copy that an export has made: its table is loaded. *)
Lemma redund_loads (first : bool) a1 a2 e1 e2 gd gd0 tbl l : image_ok e1 → image_ok e2 →
  (if first then good e1 ∧ (good e2 → e_flags e1 = u8 (e_flags e2 + 1))
   else good e2 ∧ (good e1 → e_flags e2 = u8 (e_flags e1 + 1))) →
  htab_ok (env_htab gd0) tbl → storable true CONFIG_ENV_SIZE tbl → importable 0 (pairs tbl) → l ≡ₚ pairs tbl →
  let e := if first then e1 else e2 in
  e_data e = image_text true CONFIG_ENV_SIZE l →
  ∃ gd', import_redund a1 (Some (env_bytes true e1)) a2 (Some (env_bytes true e2)) gd = Some (0, gd') ∧
    omap data (vars (env_htab gd')) = omap data (vars (env_htab gd0)) ∧
    env_valid gd' = (if first then ENV_VALID else ENV_REDUND) ∧ env_flags gd' = e_flags e.
Proof.
  intros H1 H2 Hgood Hok Hst Himpl Hp e Hd. rewrite (redund_import first) by done. fold e.
  assert (He : image_ok e ∧ good e) by (destruct first; by destruct Hgood).
  destruct He as [He Hge].
  destruct (env_import_spec strdup_ok true CONFIG_ENV_SIZE default_environment calloc_succeeds malloc_succeeds
    (if first then a1 else a2) gd0 tbl l e (set_serial (e_flags e) (set_valid (if first then ENV_VALID else ENV_REDUND) gd))
    false Hok Hst Himpl Hp Hd Hge He) as (h3 & tbl3 & -> & _ & Hv).
  eexists. split; [done|]. by split_and!.
Qed.

(** C10. Redundant copies: of two images exported one after the other, in
    either place, the import takes the later one - also where the serial
    number wraps around - and the serial number continues from it; when the
    later one has been damaged, so that its checksum does not fit, the earlier
    one. The tables are ones that an image carries (storable, as for
    env_save_load), and their variables are accepted by the permission check
    and their callbacks as new ones (importable: with the hooks of the
    program, not read-only and values of their type). Memory is available. *)
Theorem env_redund_newest a out a1 a2 gd1 gd2 gd tbl1 tbl2 :
  htab_ok (env_htab gd1) tbl1 → htab_ok (env_htab gd2) tbl2 →
  storable true CONFIG_ENV_SIZE tbl1 → storable true CONFIG_ENV_SIZE tbl2 →
  importable 0 (pairs tbl1) → importable 0 (pairs tbl2) →
  env_size < 2 ^ 32 → Z.of_nat (length (e_data out)) = env_size → env_flags gd2 = u8 (env_flags gd1 + 1) →
  ∃ e1 gd1' e2 gd2', env_export true CONFIG_ENV_SIZE a out gd1 = Some (0, e1, gd1') ∧
    env_export true CONFIG_ENV_SIZE a out gd2 = Some (0, e2, gd2') ∧
  ∀ swap : bool, let copies e := if swap then (e, e1) else (e1, e) in
  let import e := import_redund a1 (Some (env_bytes true (copies e).1)) a2 (Some (env_bytes true (copies e).2)) gd in
  (∃ gd', import e2 = Some (0, gd') ∧ omap data (vars (env_htab gd')) = omap data (vars (env_htab gd2)) ∧
     env_valid gd' = (if swap then ENV_VALID else ENV_REDUND) ∧ env_flags gd' = env_flags gd2') ∧
  (∀ torn, image_ok torn → e_crc torn ≠ crc32_of 0 (e_data torn) →
   ∃ gd', import torn = Some (0, gd') ∧ omap data (vars (env_htab gd')) = omap data (vars (env_htab gd1)) ∧
     env_valid gd' = (if swap then ENV_REDUND else ENV_VALID) ∧ env_flags gd' = env_flags gd1').
Proof.
  intros Hok1 Hok2 Hst1 Hst2 Himpl1 Himpl2 Hsize Hlen Hserial.
  destruct (export_spec true CONFIG_ENV_SIZE a out gd1 tbl1 Hok1 Hst1 Hsize Hlen)
    as (l1 & e1 & gd1' & Hp1 & Hx1 & Hd1 & Hc1 & Him1 & Hf1 & ->). specialize (Hf1 eq_refl).
  destruct (export_spec true CONFIG_ENV_SIZE a out gd2 tbl2 Hok2 Hst2 Hsize Hlen)
    as (l2 & e2 & gd2' & Hp2 & Hx2 & Hd2 & Hc2 & Him2 & Hf2 & ->). specialize (Hf2 eq_refl).
  eexists e1, _, e2, _. split; [exact Hx1|]. split; [exact Hx2|]. intros swap copies import. split.
  - destruct (redund_loads swap a1 a2 (copies e2).1 (copies e2).2 gd gd2 tbl2 l2) as (gd' & Hi & Hv & Hval & Hfl);
      [by destruct swap..| |done|done|done|done|by destruct swap|].
    + destruct swap; split; try done; intros _; cbn [copies fst snd]; congruence.
    + exists gd'. split_and!; [done..|]. rewrite Hfl. by destruct swap.
  - intros torn Ht Hbad.
    destruct (redund_loads (negb swap) a1 a2 (copies torn).1 (copies torn).2 gd gd1 tbl1 l1) as (gd' & Hi & Hv & Hval & Hfl);
      [by destruct swap..| |done|done|done|done|by destruct swap|].
    + destruct swap; split; done.
    + exists gd'. split_and!; [done..|by destruct swap|]. rewrite Hfl. by destruct swap.
Qed.
End redundant.

(** ** Setting and reading a variable *)

Section access.
Context `{!EnvHooks} (strdup_ok : ∀ s, is_Some (strdup s)) (malloc_succeeds : ∀ n, malloc_ok n = true).
Context (CONFIG_ENV_SIZE : Z) (default_environment : list Z) (do_env_set_efi : list str → env_gd → option (Z * env_gd)).

Abbreviation env_get := (env_get CONFIG_ENV_SIZE default_environment).
Abbreviation env_set := (env_set do_env_set_efi).

Definition ready (gd : env_gd) : Prop := Z.land (gd_flags gd) GD_FLG_ENV_READY ≠ 0.

Lemma env_get_ready name len gd tbl : ready gd → htab_ok (env_htab gd) tbl →
  env_get name len gd = Some (e ← vars (env_htab gd) !! name; data e).
Proof.
  intros Hr Hok. unfold EnvStore.env_get. rewrite (proj2 (Z.eqb_neq _ 0) Hr). cbn [negb].
  pose proof (find_spec (env_htab gd) tbl name Hok) as Hf. destruct (vars (env_htab gd) !! name) as [e|].
  - destruct Hf as (i & n & -> & _ & Hn & _ & _ & <-). cbn. rewrite (ok_table _ _ Hok). cbn. by rewrite Hn.
  - by rewrite Hf.
Qed.

Lemma env_set_options_name name words flag : head name ≠ Some 45 → env_set_options (name :: words) flag = Some (name :: words, flag).
Proof.
  intros Hn. cbn. destruct name as [|c name]; [done|]. destruct (decide (c = 45)) as [->|Hc]; [done|].
  destruct c as [|p|p]; try done. repeat (destruct p as [p|p|]; try done).
Qed.

Lemma hdelete_ret k h flag r : hdelete_r k h flag = Some r → ret r = match errno r with Some _ => 0 | None => 1 end.
Proof.
  unfold hdelete_r. destruct (hsearch_r _ _ _ _ _) as [r0|]; [|done]. cbn [mbind option_bind].
  destruct (ret r0 =? 0); [by intros [= <-]|]. destruct (table _); [|done]. cbn [mbind option_bind].
  destruct (arr_get _ _); [|done]. cbn [mbind option_bind].
  destruct (check_change _ _ _ _ _); [by intros [= <-]|]. destruct (_hdelete _ _ _); [|done]. by intros [= <-].
Qed.

(** The request that [env_set] makes. *)
Lemma env_set_step name v gd tbl : ready gd → htab_ok (env_htab gd) tbl → 61 ∉ name → head name ≠ Some 45 →
  let q := match v with None | Some [] => Delete name H_PROGRAMMATIC | Some v => Enter name v H_PROGRAMMATIC end in
  let '(M, a) := map_step (Z.to_nat (hsize (env_htab gd))) (vars (env_htab gd)) q in
  ∃ r gd' tbl', env_set name v gd = Some (r, gd') ∧ ready gd' ∧ htab_ok (env_htab gd') tbl' ∧
    vars (env_htab gd') = M ∧ r = (if a is Error _ then 1 else 0).
Proof.
  intros Hr Hok Heq Hdash q.
  destruct (table_step_spec strdup_ok (env_htab gd) tbl q Hok) as (h' & a & Hst & (Hv & _ & tbl' & Hok') & Ha).
  destruct (map_step _ _ q) as [M a']. cbn [fst snd] in *. subst a'.
  unfold EnvStore.env_set. rewrite (proj2 (Z.eqb_neq _ 0) Hr). unfold _do_env_set.
  assert (Hefi : ∀ words, bool_decide (take 2 (default [] (head (name :: words))) = [45; 101]) = false)
    by (intros words; apply bool_decide_eq_false_2; destruct name as [|? [|]]; cbn in *; congruence).
  destruct v as [[|c v]|]; subst q; cbn [table_step] in Hst; rewrite Hefi, env_set_options_name by done;
    rewrite bool_decide_eq_false_2 by done; change (env_htab (set_id _ gd)) with (env_htab gd).
  1, 3: destruct (hdelete_r name (env_htab gd) H_PROGRAMMATIC) as [r|] eqn:Hr1; [|done];
    cbn [mbind option_bind] in *; rewrite (hdelete_ret _ _ _ _ Hr1);
    eexists _, _, tbl'; (split; [reflexivity|]); (split; [exact Hr|]);
    destruct (errno r); injection Hst as <- <-; by split_and!.
  rewrite malloc_succeeds. cbn [negb join_words].
  destruct (hsearch_r name (Some (c :: v)) ENV_ENTER (env_htab gd) H_PROGRAMMATIC) as [r|]; [|done].
  cbn [mbind option_bind] in *. destruct (read_result r) as [x|] eqn:Hread; [|done]. injection Hst as <- <-.
  eexists _, _, tbl'. split_and!; [done..|]. unfold read_result in Hread.
  destruct (retval r), (errno r); try done; [|by injection Hread as <-].
  destruct (table (htab_after r)) as [t|]; [|done]. cbn in Hread. destruct (arr_get t z); [|done]. by injection Hread as <-.
Qed.

(** When the change is made: the hooks agree, and there is room for a new name
    or there is something to remove. *)
Definition set_allowed (gd : env_gd) (name : str) (v : option str) : Prop :=
  match v, vars (env_htab gd) !! name with
  | Some (c :: v), Some e => check_change e name (Some (c :: v)) env_op_overwrite H_PROGRAMMATIC = None
  | Some (c :: v), None => base.size (vars (env_htab gd)) ≠ Z.to_nat (hsize (env_htab gd)) ∧
      check_change (new_entry name (c :: v)) name (Some (c :: v)) env_op_create H_PROGRAMMATIC = None
  | _, Some e => check_change e name None env_op_delete H_PROGRAMMATIC = None
  | _, None => False
  end.

Definition value_of (v : option str) : option str := match v with Some [] => None | _ => v end.

End access.

(** ** Examples *)

(** A medium that holds at most one file. *)
Definition one_file : EnvFile := {|
  medium := option (list Z);
  part_found := λ _, true;
  set_blk_dev := λ m, (true, m);
  file_write := λ _ l, (0, Some l);
  file_read := λ m buf, match m with Some l => (Z.of_nat (length l), l, m) | None => (- ENOENT, buf, m) end
|}.

Lemma one_file_works : @EnvFileWorks one_file.
Proof.
  refine {| stored := λ (m : @medium one_file) l, m = Some l |}.
  - by intros m l m' [= <-].
  - intros m l ->. split; [done|]. by exists (Some l).
  - intros m l buf -> _. exists (Z.of_nat (length l)), (Some l). split_and!; [done|lia|done].
Defined.

(** A table with some variables: a=1 and b=xy, later a=2. *)
Definition table_with (qs : list request) : hsearch_data :=
  match @table_run open_hooks (fresh_table 5) qs with Some (h, _) => h | None => fresh_table 5 end.

Definition table_a : hsearch_data := table_with [Enter [97] [49] 0; Enter [98] [120; 121] 0].
Definition table_b : hsearch_data := table_with [Enter [97] [50] 0; Enter [98] [120; 121] 0].

Lemma table_with_ok qs : htab_ok (table_with qs) (default [] (table (table_with qs))).
Proof.
  destruct (@table_run_spec open_hooks (λ s, ex_intro _ s eq_refl) (fresh_table 5) (replicate 6 free_node) qs fresh_table_5)
    as (h & tbl & E & Hok & _).
  assert (Eh : table_with qs = h) by (unfold table_with; by rewrite E). by rewrite Eh, (ok_table _ _ Hok).
Qed.

Lemma two_storable redund tbl v : pairs tbl = [([97], [v]); ([98], [120; 121])] → v = 49 ∨ v = 50 →
  storable redund 64 tbl.
Proof.
  intros Hl Hv. split; [unfold exportable|..]; rewrite Hl.
  - repeat apply Forall_cons_2; try apply Forall_nil_2; unfold name_ok, value_ok, counted; cbn;
      split_and!; try set_solver; try (eexists _, _; by split_and!); right; split; set_solver.
  - unfold is_byte. repeat constructor; cbn; lia.
  - done.
  - destruct Hv as [-> | ->]; by destruct redund.
  - destruct Hv as [-> | ->]; by destruct redund.
Qed.

Definition gd_of (h : hsearch_data) : env_gd := {|
  env_valid := ENV_VALID; gd_flags := GD_FLG_ENV_READY; env_htab := h; env_flags := 255; env_id := 0;
  env_load_prio := 0; env_has_init := Z.shiftl 1 ENVL_FAT; env_addr := None
|}.

Definition blank (n : nat) : env_t := {| e_crc := 0; e_flags := 0; e_data := replicate n 7 |}.

(** The hooks of the program: "a" is a decimal number that is written once. *)
Definition st_hooks : EnvHooks :=
  env_hooks open_hooks dot_regex (λ _, None) (Some (chars "a:do")) None ex_clbks 104 100.

Lemma table_a_importable : @importable st_hooks 0 (pairs (default [] (table table_a))).
Proof.
  assert (E : pairs (default [] (table table_a)) = [([97], [49]); ([98], [120; 121])]) by (vm_compute; reflexivity).
  rewrite E. repeat apply Forall_cons_2; try apply Forall_nil_2; vm_compute; reflexivity.
Qed.

Lemma table_b_importable : @importable st_hooks 0 (pairs (default [] (table table_b))).
Proof.
  assert (E : pairs (default [] (table table_b)) = [([97], [50]); ([98], [120; 121])]) by (vm_compute; reflexivity).
  rewrite E. repeat apply Forall_cons_2; try apply Forall_nil_2; vm_compute; reflexivity.
Qed.

(** A value that is not a number is refused when the image is loaded. *)
Example untyped_not_importable : ¬ @importable st_hooks 0 [([97], [120; 121])].
Proof. intros H. apply Forall_cons_1 in H as [H _]. vm_compute in H. discriminate H. Qed.

Lemma env_save_load_witness :
  ∃ gd1 m2, @env_save (option (list Z)) [ENVL_FAT]
      [@env_fat st_hooks plain_regex one_file 64 [97; 61; 48; 0; 0] 0 (blank 60) 0 (replicate 64 9)]
      (gd_of table_a) None = Some (0, gd1, m2) ∧ env_htab gd1 = table_a ∧
  ∃ gd3 tbl3 m3, @env_load (option (list Z)) [ENVL_FAT]
      [@env_fat st_hooks plain_regex one_file 64 [97; 61; 48; 0; 0] 0 (blank 60) 0 (replicate 64 9)]
      (gd_of table_b) m2 = Some (0, gd3, m3) ∧
    htab_ok (env_htab gd3) tbl3 ∧ omap data (vars (env_htab gd3)) = omap data (vars table_a) ∧
    gd_flags gd3 = Z.lor GD_FLG_ENV_READY GD_FLG_ENV_READY.
Proof.
  apply (@env_save_load st_hooks plain_regex one_file one_file_works) with
    (gd := gd_of table_a) (gd2 := gd_of table_b) (m := None) (m1 := None) (tbl := default [] (table table_a)).
  - intros s. by exists s.
  - done.
  - done.
  - apply table_with_ok.
  - apply (two_storable false _ 49); [vm_compute; reflexivity|by left].
  - exact table_a_importable.
  - done.
  - done.
  - done.
  - done.
  - done.
  - intros l _. by exists (Some l).
  - done.
  - done.
  - done.
Defined.

Lemma env_redund_newest_witness :
  let gd1 := gd_of table_a in let gd2 := set_serial 0 (gd_of table_b) in
  ∃ e1 gd1' e2 gd2', @env_export st_hooks plain_regex true 64 0 (blank 59) gd1 = Some (0, e1, gd1') ∧
    @env_export st_hooks plain_regex true 64 0 (blank 59) gd2 = Some (0, e2, gd2') ∧
  ∀ swap : bool, let copies e := if swap then (e, e1) else (e1, e) in
  let import e := @env_import_redund st_hooks true 64 [97; 61; 48; 0; 0]
    0 (Some (env_bytes true (copies e).1)) 64 (Some (env_bytes true (copies e).2)) gd1 in
  (∃ gd', import e2 = Some (0, gd') ∧ omap data (vars (env_htab gd')) = omap data (vars (env_htab gd2)) ∧
     env_valid gd' = (if swap then ENV_VALID else ENV_REDUND) ∧ env_flags gd' = env_flags gd2') ∧
  (∀ torn, image_ok true 64 torn → e_crc torn ≠ crc32_of 0 (e_data torn) →
   ∃ gd', import torn = Some (0, gd') ∧ omap data (vars (env_htab gd')) = omap data (vars (env_htab gd1)) ∧
     env_valid gd' = (if swap then ENV_REDUND else ENV_VALID) ∧ env_flags gd' = env_flags gd1').
Proof.
  intros gd1 gd2.
  apply (@env_redund_newest st_hooks plain_regex) with
    (tbl1 := default [] (table table_a)) (tbl2 := default [] (table table_b)).
  - intros s. by exists s.
  - done.
  - done.
  - apply table_with_ok.
  - apply table_with_ok.
  - apply (two_storable true _ 49); [vm_compute; reflexivity|by left].
  - apply (two_storable true _ 50); [vm_compute; reflexivity|by right].
  - exact table_a_importable.
  - exact table_b_importable.
  - done.
  - done.
  - done.
Defined.

(** The image of "a=1" and the same with one bit changed. *)
Definition good_image : env_t := {| e_crc := crc32_of 0 [97; 61; 49; 0; 0; 0]; e_flags := 0; e_data := [97; 61; 49; 0; 0; 0] |}.
Definition bad_image : env_t := {| e_crc := e_crc good_image; e_flags := 0; e_data := [97; 61; 48; 0; 0; 0] |}.

Lemma env_import_detects_witness :
  ∃ gd', @env_set_default open_hooks false 10 [97; 61; 48; 0; 0] 0 (gd_of table_a) = Some gd' ∧
    @env_import open_hooks false 10 [97; 61; 48; 0; 0] 0 (env_bytes false bad_image) true (gd_of table_a) = Some (- ENOMSG, gd').
Proof.
  apply (@env_import_detects open_hooks) with (e := good_image).
  - intros s. by exists s.
  - split; [by vm_compute|done|unfold is_byte; repeat constructor; lia|done].
  - split; [by vm_compute|done|unfold is_byte; repeat constructor; lia|done].
  - by vm_compute.
  - left. split; [|done]. unfold burst.
    exists (take 16 (byte_bits [97; 61; 49])), [true], [false], (drop 17 (byte_bits [97; 61; 49; 0; 0; 0])).
    split_and!; try (by vm_compute). cbn. lia.
  - right. eexists. apply table_with_ok.
Defined.


(** The write fails with an error other than -1 and the save reports success:
    the storage keeps its old contents. *)
Definition full_disk : EnvFile := {|
  medium := option (list Z);
  part_found := λ _, true;
  set_blk_dev := λ m, (true, m);
  file_write := λ m _, (- EIO, m);
  file_read := λ m buf, (- ENOENT, buf, m)
|}.

Example save_on_full_disk :
  @env_fat_save open_hooks plain_regex full_disk 64 0 (blank 60) (gd_of table_a) (None : @medium full_disk) =
    Some (0, gd_of table_a, (None : @medium full_disk)).
Proof. vm_compute. reflexivity. Qed.

(** An entry without '=' that is the name that is looked for: the comparison
    goes on behind the end of the name. *)
Example match_past_the_name :
  env_match [97; 98; 0; 99] [97; 98] 0 (set_valid ENV_INVALID (gd_of table_a)) = None.
Proof. vm_compute. reflexivity. Qed.
