(* ===== verification/Command.v ===== *)
(** * Command: the table of commands (common/command.c)

    Commands are looked up by their name or by an abbreviation that fits only
    one of them, and called with a number that tells whether the command can be
    repeated.  The functions of the commands are addresses; what they do to the
    system is the class [Commands]. *)

From Stdlib Require Import ZArith Lia List.
From stdpp Require Import base numbers list option gmap.
From S2P Require Import Prelude Hashtable EnvText EnvStore.

Definition CMD_RET_SUCCESS : Z := 0.
Definition CMD_RET_FAILURE : Z := 1.
Definition CMD_RET_USAGE : Z := -1.

Definition CMD_FLAG_REPEAT : Z := 1.
Definition CMD_FLAG_BOOTD : Z := 2.
Definition CMD_FLAG_ENV : Z := 4.

(** What a command has as [cmd_rep]. *)
Inductive rep_fun :=
  | always_repeatable
  | never_repeatable
  | own_repeatable (f : Z).

Record cmd_tbl_s := {
  name : str; maxargs : Z; cmd_rep : rep_fun; cmd : Z; usage : str; help : option str; complete : option Z
}.

Class Commands := {
  others : Type;
  do_bootd : Z
}.

(** The state that commands work on: the global data with the environment, the
    flag of an interruption by the user, and everything else. *)
Record sys `{!Commands} := { sys_gd : env_gd; ctrlc_was_pressed : Z; sys_others : others }.

(** The functions of the commands: their result, and whether they can be
    repeated. *)
Class CommandFunctions `{!Commands} := {
  call : Z → cmd_tbl_s → Z → list str → sys → option (Z * sys);
  call_rep : Z → cmd_tbl_s → Z → list str → sys → option (Z * Z * sys)
}.

(** ** Finding a command *)

(** strncmp on the characters of two strings. *)
Fixpoint strncmp (cs ct : str) (count : nat) : Z :=
  match count with
  | O => 0
  | S count =>
      let res := swrap 8 (default 0 (head cs) - default 0 (head ct)) in
      if negb (res =? 0) || (default 0 (head cs) =? 0) then res else strncmp (tail cs) (tail ct) count
  end.

(** The part of a command before the first dot. *)
Fixpoint upto_dot (cmd : str) : str :=
  match cmd with
  | [] => []
  | c :: cmd => if c =? 46 then [] else c :: upto_dot cmd
  end.

Fixpoint find_scan (cmd : str) (len : nat) (cmdtp_temp : option cmd_tbl_s) (n_found : Z) (table : list cmd_tbl_s)
    : option cmd_tbl_s :=
  match table with
  | [] => if n_found =? 1 then cmdtp_temp else None
  | cmdtp :: table =>
      if strncmp cmd (name cmdtp) len =? 0 then
        if (len =? length (name cmdtp))%nat then Some cmdtp
        else find_scan cmd len (Some cmdtp) (n_found + 1) table
      else find_scan cmd len cmdtp_temp n_found table
  end.

Definition find_cmd_tbl (cmd : option str) (table : list cmd_tbl_s) : option cmd_tbl_s :=
  match cmd with
  | None => None
  | Some cmd => find_scan cmd (length (upto_dot cmd)) (head table) 0 table
  end.

(** ** Calling a command *)

Definition cmd_usage (cmdtp : cmd_tbl_s) : Z := 1.

Section process.
Context `{!Commands, !CommandFunctions}.

Definition cmd_always_repeatable (cmdtp : cmd_tbl_s) (flag : Z) (argv : list str) (w : sys) : option (Z * Z * sys) :=
  '(result, w) ← call (cmd cmdtp) cmdtp flag argv w; Some (result, 1, w).

Definition cmd_never_repeatable (cmdtp : cmd_tbl_s) (flag : Z) (argv : list str) (w : sys) : option (Z * Z * sys) :=
  '(result, w) ← call (cmd cmdtp) cmdtp flag argv w; Some (result, 0, w).

(** The result and [*repeatable]. *)
Definition cmd_call (cmdtp : cmd_tbl_s) (flag : Z) (argv : list str) (w : sys) : option (Z * Z * sys) :=
  match cmd_rep cmdtp with
  | always_repeatable => cmd_always_repeatable cmdtp flag argv w
  | never_repeatable => cmd_never_repeatable cmdtp flag argv w
  | own_repeatable f => call_rep f cmdtp flag argv w
  end.

Definition cmd_discard_repeatable (cmdtp : cmd_tbl_s) (flag : Z) (argv : list str) (w : sys) : option (Z * sys) :=
  '(result, _, w) ← cmd_call cmdtp flag argv w; Some (result, w).

(** The result, [*repeatable] and the state. *)
Definition cmd_process (table : list cmd_tbl_s) (flag : Z) (argv : list str) (repeatable : Z) (w : sys)
    : option (Z * Z * sys) :=
  match find_cmd_tbl (head argv) table with
  | None => Some (1, repeatable, w)
  | Some cmdtp =>
      let '(rc, flag) :=
        if maxargs cmdtp <? Z.of_nat (length argv) then (CMD_RET_USAGE, flag)
        else if cmd cmdtp =? do_bootd then
          if negb (Z.land flag CMD_FLAG_BOOTD =? 0) then (CMD_RET_FAILURE, flag)
          else (CMD_RET_SUCCESS, Z.lor flag CMD_FLAG_BOOTD)
        else (CMD_RET_SUCCESS, flag) in
      '(rc, repeatable, w) ← (if rc =? 0 then
          '(rc, newrep, w) ← cmd_call cmdtp flag argv w;
          Some (rc, Z.land repeatable newrep, w)
        else Some (rc, repeatable, w));
      Some (if rc =? CMD_RET_USAGE then cmd_usage cmdtp else rc, repeatable, w)
  end.

Definition cmd_process_error (cmdtp : cmd_tbl_s) (err : Z) : Z :=
  if err =? CMD_RET_USAGE then CMD_RET_USAGE
  else if negb (err =? 0) then CMD_RET_FAILURE else CMD_RET_SUCCESS.

Definition had_ctrlc (w : sys) : Z := ctrlc_was_pressed w.
Definition clear_ctrlc (w : sys) : sys := {| w with ctrlc_was_pressed := 0 |}.
End process.

Definition cmd_is_repeatable (cmdtp : cmd_tbl_s) : bool :=
  match cmd_rep cmdtp with always_repeatable => true | _ => false end.

(** The size at the end of an argument, as in "md.b". *)
Definition cmd_get_data_size (arg : str) (default_size : Z) : option Z :=
  let len := Z.of_nat (length arg) in
  if 2 <? len then
    dot ← arr_get arg (len - 2);
    if dot =? 46 then
      c ← arr_get arg (len - 1);
      Some (if c =? 98 then 1 else if c =? 119 then 2 else if c =? 108 then 4 else if c =? 115 then -2 else -1)
    else Some default_size
  else Some default_size.

(** ** Theorems *)

(** Strings have characters other than the terminator. *)
Definition is_text (s : str) : Prop := Forall (λ c, 0 < c < 256) s.

Lemma swrap_char_diff a b : 0 ≤ a < 256 → 0 ≤ b < 256 → swrap 8 (a - b) = 0 → a = b.
Proof.
  intros Ha Hb. unfold swrap. change (2 ^ (8 - 1)) with 128. change (2 ^ 8) with 256.
  intros H. assert (E : (a - b + 128) mod 256 = 128) by lia.
  pose proof (Z.div_mod (a - b + 128) 256 ltac:(lia)). lia.
Qed.

Lemma head_char s : is_text s → 0 ≤ default 0 (head s) < 256.
Proof. intros H. destruct s as [|c s]; cbn; [lia|]. apply Forall_cons_iff in H. lia. Qed.

Lemma tail_text s : is_text s → is_text (tail s).
Proof. unfold is_text. intros H. destruct H; [constructor|done]. Qed.

(** The first [length w] characters are equal: [w] is at the front. *)
Lemma strncmp_prefix w r n : is_text (w ++ r) → is_text n → strncmp (w ++ r) n (length w) = 0 ↔ w `prefix_of` n.
Proof.
  revert n. induction w as [|c w IH]; intros n Hw Hn; cbn [length strncmp app].
  { split; [intros _; apply prefix_nil|done]. }
  cbn -[swrap app]. apply Forall_cons_iff in Hw as [Hc Hw]. pose proof (head_char n Hn) as Hh.
  destruct (Z.eqb_spec (swrap 8 (c - default 0 (head n))) 0) as [E|E]; cbn [negb orb].
  - apply swrap_char_diff in E; [|lia|done]. rewrite (proj2 (Z.eqb_neq c 0)) by lia.
    rewrite (IH (tail n)) by (done || by apply tail_text).
    destruct n as [|d n]; cbn in E |- *; [lia|]. subst d. split; [apply prefix_cons|apply prefix_cons_inv_2].
  - split; [done|]. intros [k ->]. exfalso. apply E. cbn. by rewrite Z.sub_diag.
Qed.

Lemma upto_dot_prefix s : ∃ r, s = upto_dot s ++ r.
Proof.
  induction s as [|c s [r IH]]; cbn; [by exists []|]. destruct (c =? 46); [by eexists|].
  exists r. cbn. by rewrite <-IH.
Qed.

Lemma find_scan_spec w r t n tbl : is_text (w ++ r) → Forall (λ c, is_text (name c)) tbl → 0 ≤ n →
  find_scan (w ++ r) (length w) t n tbl =
    match List.find (λ c, bool_decide (name c = w)) tbl with
    | Some c => Some c
    | None =>
        match filter (λ c, w `prefix_of` name c) tbl with
        | [] => if n =? 1 then t else None
        | [c] => if n =? 0 then Some c else None
        | _ => None
        end
    end.
Proof.
  intros Hw Htbl. revert t n. induction Htbl as [|c tbl Hc _ IH]; intros t n Hn; cbn [find_scan List.find]; [done|].
  pose proof (strncmp_prefix w r (name c) Hw Hc) as Hp. rewrite filter_cons.
  destruct (Z.eqb_spec (strncmp (w ++ r) (name c) (length w)) 0) as [E|E].
  - apply Hp in E. rewrite (decide_True _ _ E). case_bool_decide as Hcw.
    + rewrite Hcw, Nat.eqb_refl. done.
    + rewrite (proj2 (Nat.eqb_neq _ _)).
      2:{ intros El. apply Hcw. symmetry. by apply prefix_length_eq; [|rewrite El]. }
      rewrite IH by lia. destruct (List.find _ tbl); [done|]. rewrite (proj2 (Z.eqb_neq (n + 1) 0)) by lia.
      destruct (filter _ tbl) as [|? [|? ?]]; try done.
      destruct (Z.eqb_spec (n + 1) 1), (Z.eqb_spec n 0); try done; lia.
  - rewrite decide_False by tauto. rewrite bool_decide_eq_false_2 by (intros <-; apply E, Hp; done).
    by apply IH.
Qed.

(** C22. A command is the first one with the name before the dot, or else the
    only one whose name begins with it; there is none when several begin with
    it. *)
Theorem find_cmd_correct cmd table : is_text cmd → Forall (λ c, is_text (name c)) table →
  find_cmd_tbl (Some cmd) table =
    match List.find (λ c, bool_decide (name c = upto_dot cmd)) table with
    | Some c => Some c
    | None => match filter (λ c, upto_dot cmd `prefix_of` name c) table with [c] => Some c | _ => None end
    end.
Proof.
  intros Hc Ht. cbn [find_cmd_tbl]. destruct (upto_dot_prefix cmd) as [r E].
  rewrite E at 1. rewrite find_scan_spec by (done || rewrite <-E; done || lia).
  destruct (List.find _ table); [done|]. by destruct (filter _ table) as [|? [|? ?]].
Qed.

(** ** Examples *)

Definition ex_cmd (n : str) : cmd_tbl_s :=
  {| name := n; maxargs := 2; cmd_rep := always_repeatable; cmd := 7; usage := []; help := None; complete := None |}.

(** "cp", "cmp" and "cpu". *)
Definition ex_table : list cmd_tbl_s := ex_cmd <$> [[99; 112; 117]; [99; 112]; [99; 109; 112]].

Lemma find_cmd_correct_witness :
  find_cmd_tbl (Some [99; 112; 46; 98]) ex_table =
    match List.find (λ c, bool_decide (name c = upto_dot [99; 112; 46; 98])) ex_table with
    | Some c => Some c
    | None => match filter (λ c, upto_dot [99; 112; 46; 98] `prefix_of` name c) ex_table with [c] => Some c | _ => None end
    end.
Proof.
  apply (find_cmd_correct [99; 112; 46; 98] ex_table);
    repeat apply Forall_cons_2; try apply Forall_nil_2; cbn; try lia;
    repeat apply Forall_cons_2; try apply Forall_nil_2; lia.
Defined.

(** "cp.b", "cm", and "c". *)
Example find_some :
  (λ s, name <$> find_cmd_tbl (Some s) ex_table) <$> [[99; 112; 46; 98]; [99; 109]; [99]] =
  [Some [99; 112]; Some [99; 109; 112]; None].
Proof. vm_compute. reflexivity. Qed.
