(* ===== verification/CliSimple.v ===== *)
(** * CliSimple: arguments and macros of a command (common/cli_simple.c)

    The variables of a command are replaced by their values, quotes and
    backslashes are taken away, and the words become the arguments.  Buffers are
    arrays of characters with a terminator, [argv] is an array of positions in
    the line, NULL being [None]. *)

From Stdlib Require Import ZArith Lia List.
From stdpp Require Import base numbers list option gmap.
From S2P Require Import Prelude Hashtable.

Definition CONFIG_SYS_MAXARGS : Z := 16.
Definition CONFIG_SYS_CBSIZE : Z := 1024.
Definition isblank (c : Z) : bool := (c =? 32) || (c =? 9).

(** The string in a buffer, up to the terminator. *)
Fixpoint cstr (buf : list Z) : option str :=
  match buf with
  | [] => None
  | c :: buf => if c =? 0 then Some [] else s ← cstr buf; Some (c :: s)
  end.

Definition cstr_at (buf : list Z) (i : Z) : option str := if 0 <=? i then cstr (drop (Z.to_nat i) buf) else None.

(** ** Arguments *)

Definition skip_blanks (line : list Z) (i : Z) : option Z :=
  loop_brk (S (length line)) (λ i, c ← arr_get line i; Some (if isblank c then Next (i + 1) else Break i)) i.

Definition skip_word (line : list Z) (i : Z) : option Z :=
  loop_brk (S (length line)) (λ i, c ← arr_get line i;
    Some (if negb (c =? 0) && negb (isblank c) then Next (i + 1) else Break i)) i.

(** The body of the loop, on the position, the line, [argv] and [nargs]. *)
Definition parse_step : Z * list Z * list (option Z) * Z →
    option (ctl (Z * list Z * list (option Z) * Z) (Z * list Z * list (option Z))) := λ '(i, line, argv, nargs),
  if nargs <? CONFIG_SYS_MAXARGS then
    i ← skip_blanks line i;
    c ← arr_get line i;
    if c =? 0 then
      argv ← arr_set argv nargs None;
      Some (Return (nargs, line, argv))
    else
      argv ← arr_set argv nargs (Some i);
      let nargs := nargs + 1 in
      i ← skip_word line i;
      c ← arr_get line i;
      if c =? 0 then
        argv ← arr_set argv nargs None;
        Some (Return (nargs, line, argv))
      else
        line ← arr_set line i 0;
        Some (Next (i + 1, line, argv, nargs))
  else Some (Break (i, line, argv, nargs)).

(** The number of arguments, the line and [argv]. *)
Definition cli_simple_parse_line (line : list Z) (argv : list (option Z)) : option (Z * list Z * list (option Z)) :=
  o ← loop (S (Z.to_nat CONFIG_SYS_MAXARGS)) parse_step (0, line, argv, 0);
  Some (match o with inr r => r | inl (_, line, argv, nargs) => (nargs, line, argv) end).

(** ** Macros *)

(** The variables of [cli_simple_process_macros]; [output] is the buffer, and [o]
    the position in it. *)
Record macros := {
  input : Z; inputcnt : Z; output : list Z; o : Z; outputcnt : Z; state : Z; prev : Z; varname_start : Z
}.

Definition put (c : Z) (m : macros) : option macros :=
  out ← arr_set (output m) (o m) c;
  Some {| m with output := out; o := o m + 1; outputcnt := outputcnt m - 1 |}.

Definition next_char (s : str) (m : macros) : option (Z * macros) :=
  c ← arr_get s (input m);
  Some (c, {| m with input := input m + 1; inputcnt := inputcnt m - 1 |}).

(** The copy of a value, while there is room. *)
Fixpoint copy_value (envval : str) (m : macros) : option macros :=
  match envval with
  | [] => Some m
  | c :: envval => if negb (outputcnt m =? 0) then m ← put c m; copy_value envval m else Some m
  end.

Section macros.
Context (env_get : str → option (option str)).

Definition macro_char (s : str) (c : Z) (m : macros) : option macros :=
  if state m =? 0 then
    if (c =? 39) && negb (prev m =? 92) then Some {| m with state := 3 |}
    else if (c =? 36) && negb (prev m =? 92) then Some {| m with state := 1 |}
    else put c m
  else if state m =? 1 then
    if (c =? 40) || (c =? 123) then Some {| m with state := 2; varname_start := input m |}
    else
      m ← put 36 {| m with state := 0 |};
      if negb (outputcnt m =? 0) then put c m else Some m
  else if state m =? 2 then
    if (c =? 41) || (c =? 125) then
      let envcnt := input m - varname_start m - 1 in
      if envcnt <? CONFIG_SYS_CBSIZE then
        envval ← env_get (take (Z.to_nat envcnt) (drop (Z.to_nat (varname_start m)) s));
        m ← (match envval with None => Some m | Some v => copy_value v m end);
        Some {| m with state := 0 |}
      else None
    else Some m
  else
    if (c =? 39) && negb (prev m =? 92) then Some {| m with state := 0 |}
    else put c m.

Definition macro_step (s : str) (m : macros) : option (ctl macros Empty_set) :=
  if negb (inputcnt m =? 0) && negb (outputcnt m =? 0) then
    '(c, m) ← next_char s m;
    if negb (state m =? 3) && (c =? 92) && negb (prev m =? 92) then
      if inputcnt m =? 0 then Some (Break {| m with inputcnt := -1 |})
      else
        '(c', m) ← next_char s {| m with prev := c |};
        m ← macro_char s c' m;
        Some (Next {| m with prev := c' |})
    else
      m ← macro_char s c m;
      Some (Next {| m with prev := c |})
  else Some (Break m).

Definition cli_simple_process_macros (s : str) (out : list Z) : option (list Z) :=
  m ← loop_brk (S (length s)) (macro_step s)
    {| input := 0; inputcnt := Z.of_nat (length s); output := out; o := 0; outputcnt := CONFIG_SYS_CBSIZE;
       state := 0; prev := 0; varname_start := 0 |};
  if negb (outputcnt m =? 0) then arr_set (output m) (o m) 0 else arr_set (output m) (o m - 1) 0.
End macros.

(** The arguments in [argv]. *)
Definition args_of (line : list Z) (argv : list (option Z)) (argc : Z) : option (list str) :=
  mapM (λ a, i ← a; cstr_at line i) (take (Z.to_nat argc) argv).

(** ** Words *)

(** The words of a text, where [cur] is the beginning of the first one. *)
Fixpoint words_from (cur s : str) : list str :=
  match s with
  | [] => if bool_decide (cur = []) then [] else [cur]
  | c :: s =>
      if isblank c then (if bool_decide (cur = []) then words_from [] s else cur :: words_from [] s)
      else words_from (cur ++ [c]) s
  end.

Definition words (s : str) : list str := words_from [] s.

Definition blank_only (s : str) : Prop := Forall (λ c, isblank c = true) s.
Definition no_blank (s : str) : Prop := Forall (λ c, isblank c = false) s.
Definition no_zero (s : str) : Prop := Forall (λ c, c ≠ 0) s.

Lemma words_blank b s : blank_only b → words (b ++ s) = words s.
Proof. intros Hb. induction Hb as [|c b Hc Hb IH]; [done|]. cbn. by rewrite Hc. Qed.

Lemma words_from_word cur w s : no_blank w → words_from cur (w ++ s) = words_from (cur ++ w) s.
Proof.
  intros Hw. revert cur. induction Hw as [|c w Hc Hw IH]; intros cur; [by rewrite app_nil_r|].
  cbn. by rewrite Hc, IH, <-app_assoc.
Qed.

Lemma words_word w s : no_blank w → w ≠ [] → match s with [] => True | c :: _ => isblank c = true end →
  words (w ++ s) = w :: words (tail s).
Proof.
  intros Hw Hne Hs. unfold words. rewrite words_from_word by done. destruct s as [|c s]; cbn.
  - by rewrite bool_decide_eq_false_2.
  - by rewrite Hs, bool_decide_eq_false_2.
Qed.

(** The blanks, the word and the rest of a text. *)
Lemma split_word s : ∃ b w r, s = b ++ w ++ r ∧ blank_only b ∧ no_blank w ∧ (w = [] → r = []) ∧
  match r with [] => True | c :: _ => isblank c = true end.
Proof.
  induction s as [|c s (b & w & r & -> & Hb & Hw & Hr & Hc)].
  { exists [], [], []. split_and!; done || constructor. }
  destruct (isblank c) eqn:E.
  - exists (c :: b), w, r. split; [done|]. split; [by constructor|done].
  - destruct b as [|d b].
    + exists [], (c :: w), r. split; [done|]. split; [constructor|]. split; [by constructor|done].
    + apply Forall_cons_iff in Hb as [Hd Hb]. exists [], [c], (d :: b ++ w ++ r).
      split; [done|]. split; [constructor|]. split; [by repeat constructor|done].
Qed.

(** A position moves on over the characters of a class. *)
Lemma scan_loop (p : Z → bool) line pre b x t : Forall (λ c, p c = true) b → p x = false → line = pre ++ b ++ x :: t →
  loop_brk (S (length line)) (λ i, c ← arr_get line i; Some (if p c then Next (i + 1) else Break i))
    (Z.of_nat (length pre)) = Some (Z.of_nat (length (pre ++ b))).
Proof.
  intros Hb Hx E. assert (Hf : (length b < S (length line))%nat) by (rewrite E, !length_app; lia).
  revert Hf. generalize (S (length line)) as fuel. intros fuel. revert pre fuel E.
  induction Hb as [|c b Hc Hb IH]; intros pre [|fuel] E Hf; cbn [length] in *; try lia.
  - erewrite loop_brk_break; [by rewrite app_nil_r|]. rewrite (arr_get_at line pre x t) by done. cbn. by rewrite Hx.
  - rewrite (loop_brk_next _ _ _ (Z.of_nat (length (pre ++ [c])))).
    + rewrite (IH (pre ++ [c])); [by rewrite <-app_assoc|by rewrite <-app_assoc|lia].
    + rewrite (arr_get_at line pre c (b ++ x :: t)) by done. cbn. rewrite Hc, length_app. cbn. do 2 f_equal. lia.
Qed.

Lemma cstr_app s t : no_zero s → cstr (s ++ 0 :: t) = Some s.
Proof.
  intros Hs. induction Hs as [|c s Hc Hs IH]; [done|]. cbn [app cstr]. rewrite (proj2 (Z.eqb_neq _ _)) by done.
  by rewrite IH.
Qed.

Lemma cstr_at_app pre s t : no_zero s → cstr_at (pre ++ s ++ 0 :: t) (Z.of_nat (length pre)) = Some s.
Proof.
  intros Hs. unfold cstr_at. rewrite (proj2 (Z.leb_le _ _)) by lia. rewrite Nat2Z.id, drop_app_length.
  by apply cstr_app.
Qed.

(** An element of [argv] that points to a word. *)
Definition points_to (line : list Z) (a : option Z) (w : str) : Prop :=
  ∃ i, a = Some i ∧ cstr_at line i = Some w.

Lemma args_of_points line ps ws t argc : Forall2 (points_to line) ps ws → argc = Z.of_nat (length ws) →
  args_of line (ps ++ t) argc = Some ws.
Proof.
  intros H ->. unfold args_of. rewrite Nat2Z.id, <-(Forall2_length _ _ _ H), take_app_length.
  induction H as [|a w ps ws (i & -> & Hi) _ IH]; [done|]. cbn. rewrite Hi. cbn. cbn in IH. by rewrite IH.
Qed.

Definition in_word (c : Z) : bool := negb (c =? 0) && negb (isblank c).

Lemma no_zero_app s t : no_zero (s ++ t) ↔ no_zero s ∧ no_zero t.
Proof. apply Forall_app. Qed.

Lemma parse_blanks_spec line pre b x t : blank_only b → isblank x = false → line = pre ++ b ++ x :: t →
  skip_blanks line (Z.of_nat (length pre)) = Some (Z.of_nat (length (pre ++ b))).
Proof. intros Hb Hx E. by apply (scan_loop isblank line pre b x t). Qed.

Lemma skip_word_spec line pre w x t : no_blank w → no_zero w → x = 0 ∨ isblank x = true → line = pre ++ w ++ x :: t →
  skip_word line (Z.of_nat (length pre)) = Some (Z.of_nat (length (pre ++ w))).
Proof.
  intros Hb Hz Hx E. apply (scan_loop in_word line pre w x t); [|unfold in_word|done].
  - unfold in_word. clear E. induction w as [|c w IH]; [constructor|]. apply Forall_cons_iff in Hb as [Hc Hb], Hz as [Hc0 Hz].
    constructor; [|by apply IH]. by rewrite Hc, (proj2 (Z.eqb_neq _ _)).
  - destruct Hx as [-> | ->]; [done|]. by rewrite andb_false_r.
Qed.

Lemma triple_eq {A B C} (a a' : A) (b b' : B) (c c' : C) : a = a' → b = b' → c = c' → (a, b, c) = (a', b', c').
Proof. congruence. Qed.

Lemma quadruple_eq {A B C D} (a a' : A) (b b' : B) (c c' : C) (d d' : D) :
  a = a' → b = b' → c = c' → d = d' → (a, b, c, d) = (a', b', c', d').
Proof. congruence. Qed.

Section parse.
Context (pre b rest : list Z) (A B : list (option Z)) (a : option Z).
Context (Hb : blank_only b) (Hn : Z.of_nat (length A) < CONFIG_SYS_MAXARGS).
Abbreviation at_ l := (Z.of_nat (length l)).

(** Only blanks are left. *)
Lemma parse_end :
  parse_step (at_ pre, pre ++ b ++ 0 :: rest, A ++ a :: B, at_ A) =
  Some (Return (at_ A, pre ++ b ++ 0 :: rest, A ++ None :: B)).
Proof.
  unfold parse_step. rewrite (proj2 (Z.ltb_lt _ _)) by lia.
  rewrite (parse_blanks_spec _ pre b 0 rest) by done. cbn [mbind option_bind].
  rewrite (arr_get_at _ (pre ++ b) 0 rest) by (by rewrite ?app_assoc). cbn [mbind option_bind Z.eqb].
  by rewrite (arr_set_middle A B _ a).
Qed.

(** A word, and the terminator or a blank behind it. *)
Lemma parse_word w x tl : no_blank w → no_zero w → w ≠ [] → x = 0 ∨ isblank x = true →
  parse_step (at_ pre, pre ++ b ++ w ++ x :: tl, A ++ a :: B, at_ A) =
  if x =? 0 then
    argv ← arr_set (A ++ Some (at_ (pre ++ b)) :: B) (at_ A + 1) None;
    Some (Return (at_ A + 1, pre ++ b ++ w ++ x :: tl, argv))
  else
    Some (Next (at_ (pre ++ b ++ w ++ [0]), pre ++ b ++ w ++ 0 :: tl, A ++ Some (at_ (pre ++ b)) :: B, at_ A + 1)).
Proof.
  intros Hw Hz Hne Hx. destruct w as [|c w]; [done|].
  assert (isblank c = false ∧ c ≠ 0) as [Hcb Hc0] by (apply Forall_cons_iff in Hw as [? _], Hz as [? _]; done).
  set (line := pre ++ b ++ (c :: w) ++ x :: tl).
  assert (El : line = (pre ++ b ++ c :: w) ++ x :: tl) by (unfold line; by simplify_list_eq).
  unfold parse_step. rewrite (proj2 (Z.ltb_lt _ _)) by lia.
  rewrite (parse_blanks_spec line pre b c (w ++ x :: tl)) by done. cbn [mbind option_bind].
  rewrite (arr_get_at line (pre ++ b) c (w ++ x :: tl)) by (done || (unfold line; by simplify_list_eq)).
  cbn [mbind option_bind]. rewrite (proj2 (Z.eqb_neq c 0)) by done.
  rewrite (arr_set_middle A B _ a) by done. cbn [mbind option_bind].
  rewrite (skip_word_spec line (pre ++ b) (c :: w) x tl) by (done || (unfold line; by simplify_list_eq)).
  cbn [mbind option_bind]. rewrite <-(app_assoc pre b). rewrite (arr_get_at line (pre ++ b ++ c :: w) x tl) by done.
  cbn [mbind option_bind]. destruct (x =? 0); [done|].
  rewrite (arr_set_at line (pre ++ b ++ c :: w) x tl _ 0) by done. cbn [mbind option_bind].
  replace (at_ (pre ++ b ++ c :: w) + 1) with (at_ (pre ++ b ++ (c :: w) ++ [0])) by (rewrite !length_app; cbn; lia).
  by rewrite <-!app_assoc.
Qed.
End parse.

(** The loop with room for [n] more arguments: [A] are the ones before, [B] is the
    rest of [argv]. *)
Lemma parse_loop n pre s rest A B : no_zero s → length B = S n →
  Z.of_nat (length A) + Z.of_nat n = CONFIG_SYS_MAXARGS →
  ∃ o t ps B', loop (S n) parse_step (Z.of_nat (length pre), pre ++ s ++ 0 :: rest, A ++ B, Z.of_nat (length A)) = Some o ∧
    (match o with inr r => r | inl (_, line, argv, nargs) => (nargs, line, argv) end) =
      (Z.of_nat (length (A ++ ps)), pre ++ t ++ rest, A ++ ps ++ B') ∧
    length t = S (length s) ∧ Forall2 (points_to (pre ++ t ++ rest)) ps (take n (words s)) ∧
    length (ps ++ B') = S n ∧ ((length (words s) < n)%nat → head B' = Some None).
Proof.
  revert pre s A B. induction n as [|n IH]; intros pre s A B Hs HB Hn.
  { eexists _, (s ++ [0]), [], B.
    split; [apply loop_break; unfold parse_step; by rewrite (proj2 (Z.ltb_ge _ _)) by lia|].
    rewrite app_nil_r, <-app_assoc. split_and!; try done; [rewrite length_app; cbn; lia|intros; lia]. }
  destruct (split_word s) as (b & w & r & -> & Hb & Hw & Hwr & Hr).
  apply no_zero_app in Hs as [Hbz Hs]. apply no_zero_app in Hs as [Hwz Hrz].
  destruct B as [|a B]; [done|]. cbn in HB. injection HB as HB.
  rewrite words_blank by done. destruct (decide (w = [])) as [->|Hne].
  { rewrite (Hwr eq_refl), app_nil_r. eexists _, (b ++ [0]), [], (None :: B).
    split; [apply loop_return, parse_end; [done|lia]|].
    rewrite app_nil_r, <-app_assoc. split_and!; try done; [rewrite length_app; cbn; lia|cbn; lia]. }
  rewrite words_word by done.
  assert (Hi : ∀ l, points_to (pre ++ b ++ w ++ 0 :: l) (Some (Z.of_nat (length (pre ++ b)))) w).
  { intros l. eexists. split; [done|]. rewrite app_assoc. by apply cstr_at_app. }
  destruct r as [|x r].
  - destruct B as [|a' B]; [done|]. cbn [tail]. rewrite app_nil_r.
    eexists _, (b ++ w ++ [0]), [Some (Z.of_nat (length (pre ++ b)))], (None :: B). split; [|split_and!].
    + apply loop_return. rewrite <-!app_assoc. rewrite parse_word by (done || lia || by left). cbn [Z.eqb].
      rewrite (arr_set_at _ (A ++ [Some (Z.of_nat (length (pre ++ b)))]) a' B _ None);
        [done|by rewrite <-app_assoc|rewrite length_app; cbn; lia].
    + apply triple_eq; [rewrite length_app; cbn; lia|by simplify_list_eq..].
    + rewrite !length_app. cbn. lia.
    + cbn [take]. change (words []) with (@nil str). rewrite take_nil. constructor; [|constructor]. rewrite <-!app_assoc. apply Hi.
    + cbn in *. lia.
    + done.
  - cbn [tail]. apply Forall_cons_iff in Hrz as [Hx Hrz].
    destruct (IH (pre ++ b ++ w ++ [0]) r (A ++ [Some (Z.of_nat (length (pre ++ b)))]) B)
      as (o & t & ps & B' & Hrun & Ho & Ht & Hps & HB' & Hnull); [done|done|rewrite length_app; cbn; lia|].
    assert (E : (pre ++ b ++ w ++ [0]) ++ t ++ rest = pre ++ (b ++ w ++ 0 :: t) ++ rest) by (by simplify_list_eq).
    rewrite E in Ho, Hps.
    exists o, (b ++ w ++ 0 :: t), (Some (Z.of_nat (length (pre ++ b))) :: ps), B'. split; [|split_and!].
    + rewrite <-Hrun. apply loop_next. rewrite <-!app_assoc. cbn [app].
      rewrite parse_word by (done || lia || by right). rewrite (proj2 (Z.eqb_neq x 0)) by done.
      do 2 f_equal. apply quadruple_eq; [done|by simplify_list_eq..|rewrite length_app; cbn; lia].
    + rewrite Ho. by simplify_list_eq.
    + rewrite !length_app in *. cbn in *. lia.
    + cbn [take]. constructor; [|done]. rewrite <-!app_assoc. cbn. apply Hi.
    + cbn in *. lia.
    + intros Hlt. apply Hnull. cbn in Hlt. lia.
Qed.

Lemma parse_line_spec s rest av : no_zero s → length av = 17%nat →
  ∃ argc line av', cli_simple_parse_line (s ++ 0 :: rest) av = Some (argc, line, av') ∧
    argc = Z.min CONFIG_SYS_MAXARGS (Z.of_nat (length (words s))) ∧
    args_of line av' argc = Some (take 16 (words s)) ∧
    length av' = 17%nat ∧ length line = length (s ++ 0 :: rest) ∧ drop (S (length s)) line = rest ∧
    ((length (words s) < 16)%nat → arr_get av' argc = Some None).
Proof.
  intros Hs Hav. unfold cli_simple_parse_line.
  destruct (parse_loop 16 [] s rest [] av Hs Hav) as (r & t & ps & B' & Hrun & Hr & Ht & Hps & HB' & Hnull); [done|].
  change (S (Z.to_nat CONFIG_SYS_MAXARGS)) with 17%nat. change (loop 17 parse_step (0, s ++ 0 :: rest, av, 0) = Some r) in Hrun. rewrite Hrun.
  cbn [mbind option_bind]. rewrite Hr. cbn [app] in *.
  pose proof (Forall2_length _ _ _ Hps) as Hl. rewrite length_take in Hl.
  eexists _, _, _. split; [done|]. unfold CONFIG_SYS_MAXARGS. split; [lia|].
  split; [apply args_of_points; [done|rewrite length_take; lia]|]. split; [done|].
  split; [rewrite !length_app; cbn; lia|]. split; [by rewrite <-Ht, drop_app_length|].
  intros Hlt. specialize (Hnull Hlt). destruct B' as [|x B']; [done|]. injection Hnull as ->. by apply arr_get_middle.
Qed.

(** The arguments of a line are its words, up to sixteen of them, each
    terminated in place; with fewer words NULL follows the last one.  The buffer
    behind the line is not changed. *)
Theorem cli_simple_parse_line_correct s rest av : no_zero s → length av = 17%nat →
  ∃ argc line av', cli_simple_parse_line (s ++ 0 :: rest) av = Some (argc, line, av') ∧
    argc = Z.min CONFIG_SYS_MAXARGS (Z.of_nat (length (words s))) ∧
    args_of line av' argc = Some (take 16 (words s)) ∧ drop (S (length s)) line = rest ∧
    ((length (words s) < 16)%nat → arr_get av' argc = Some None).
Proof.
  intros Hs Hav. destruct (parse_line_spec s rest av Hs Hav) as (argc & line & av' & H1 & H2 & H3 & _ & _ & H4 & H5).
  by exists argc, line, av'.
Qed.

(** ** The text that macros stand for *)

(** The parts of a command: a character, one with a backslash, a dollar sign
    without a name, a variable, and a quoted text. *)
Inductive piece :=
  | Chr (c : Z)
  | Esc (c : Z)
  | Dollar (c : Z)
  | Var (open : Z) (n : str) (close : Z)
  | Quote (s : str).

Definition render_piece (p : piece) : str :=
  match p with
  | Chr c => [c]
  | Esc c => [92; c]
  | Dollar c => [36; c]
  | Var open n close => 36 :: open :: n ++ [close]
  | Quote s => 39 :: s ++ [39]
  end.

Definition piece_ok (p : piece) : Prop :=
  match p with
  | Chr c => c ≠ 36 ∧ c ≠ 39 ∧ c ≠ 92
  | Esc c => c ≠ 92
  | Dollar c => c ≠ 40 ∧ c ≠ 123 ∧ c ≠ 92
  | Var open n close =>
      (open = 40 ∨ open = 123) ∧ (close = 41 ∨ close = 125) ∧ Forall (λ c, c ≠ 41 ∧ c ≠ 125 ∧ c ≠ 92) n ∧
      Z.of_nat (length n) < CONFIG_SYS_CBSIZE
  | Quote s => 39 ∉ s ∧ last s ≠ Some 92
  end.

Section expand.
Context (value : str → option str).

Definition expand_piece (p : piece) : str :=
  match p with
  | Chr c | Esc c => [c]
  | Dollar c => [36; c]
  | Var _ n _ => default [] (value n)
  | Quote s => s
  end.

Definition render (ps : list piece) : str := ps ≫= render_piece.
Definition expand (ps : list piece) : str := ps ≫= expand_piece.

(** The output after the text [t] has been written to the buffer [out]. *)
Definition written (out : list Z) (t : str) (m : macros) : Prop :=
  let t := take 1024 t in
  output m = t ++ drop (length t) out ∧ o m = Z.of_nat (length t) ∧ outputcnt m = 1024 - Z.of_nat (length t).

Context (out : list Z) (out_len : (1024 ≤ length out)%nat).

Lemma put_written c t m : written out t m → outputcnt m ≠ 0 →
  ∃ m', put c m = Some m' ∧ written out (t ++ [c]) m' ∧
    input m' = input m ∧ inputcnt m' = inputcnt m ∧ state m' = state m ∧ prev m' = prev m ∧
    varname_start m' = varname_start m.
Proof.
  intros (Hout & Ho & Hc) Hne. rewrite length_take in Hc.
  assert (Ht : (length t < 1024)%nat) by lia. rewrite take_ge in Hout, Ho by lia.
  destruct (drop (length t) out) as [|x l] eqn:E.
  { apply (f_equal length) in E. rewrite length_drop in E. cbn in E. lia. }
  assert (El : drop (S (length t)) out = l).
  { replace (S (length t)) with (length t + 1)%nat by lia. by rewrite <-drop_drop, E. }
  unfold put. rewrite Hout, (arr_set_middle t l _ x c Ho). cbn [mbind option_bind].
  eexists. split; [done|]. split; [|done]. unfold written. cbn [output o outputcnt].
  rewrite take_ge by (rewrite length_app; cbn; lia). rewrite length_app. cbn [length].
  replace (length t + 1)%nat with (S (length t)) by lia. rewrite El.
  split; [by rewrite <-app_assoc|]. lia.
Qed.

Lemma written_full t s m : written out t m → outputcnt m = 0 → written out (t ++ s) m.
Proof.
  intros (Hout & Ho & Hc) H0. rewrite length_take in Hc.
  assert (E : take 1024 (t ++ s) = take 1024 t) by (apply take_app_le; lia).
  unfold written. rewrite E. by rewrite length_take in *.
Qed.

Lemma copy_value_written v t m : written out t m →
  ∃ m', copy_value v m = Some m' ∧ written out (t ++ v) m' ∧
    input m' = input m ∧ inputcnt m' = inputcnt m ∧ state m' = state m ∧ prev m' = prev m ∧
    varname_start m' = varname_start m.
Proof.
  revert t m. induction v as [|c v IH]; intros t m Hw; cbn [copy_value]; [rewrite app_nil_r; by exists m|].
  destruct (Z.eqb_spec (outputcnt m) 0) as [E|E]; cbn [negb].
  - exists m. split; [done|]. split; [by apply written_full|done].
  - destruct (put_written c t m Hw E) as (m1 & -> & Hw1 & E1 & E2 & E3 & E4 & E5). cbn [mbind option_bind].
    destruct (IH (t ++ [c]) m1 Hw1) as (m2 & -> & Hw2 & F1 & F2 & F3 & F4 & F5).
    exists m2. rewrite <-app_assoc in Hw2. split_and!; try done; congruence.
Qed.

Context (env_get : str → option (option str)) (env_get_value : ∀ n, env_get n = Some (value n)) (s : str).

(** The scan is before [rest] in state [q], with the previous character [p] and
    the output [t]. *)
Record here (rest : str) (q p v : Z) (t : str) (m : macros) : Prop := {
  h_pos : ∃ pre, s = pre ++ rest ∧ input m = Z.of_nat (length pre);
  h_cnt : inputcnt m = Z.of_nat (length rest);
  h_written : written out t m;
  h_state : state m = q;
  h_prev : prev m = p;
  h_var : varname_start m = v
}.

(** From there, the output is [T] in the end. *)
Definition finishes (T rest : str) (q p v : Z) (t : str) : Prop :=
  ∀ m fuel, here rest q p v t m → (length rest < fuel)%nat →
  ∃ m', loop_brk fuel (macro_step env_get s) m = Some m' ∧ written out T m'.

Lemma finishes_end q p v t : finishes t [] q p v t.
Proof.
  intros m [|fuel] [_ Hc Hw _ _ _] Hf; [cbn in Hf; lia|]. exists m. split; [|done].
  apply loop_brk_break. unfold macro_step. by rewrite Hc.
Qed.

Lemma finishes_step T c rest q p v t x :
  T = t ++ x → (q = 3 ∨ c ≠ 92 ∨ p = 92) →
  (∀ m, here rest q p v t m → outputcnt m ≠ 0 →
    ∃ m' q' v' t', macro_char env_get s c m = Some m' ∧ here rest q' (prev m') v' t' m' ∧ finishes T rest q' c v' t') →
  finishes T (c :: rest) q p v t.
Proof.
  intros -> Hesc Hstep m [|fuel] [(pre & Epre & Hi) Hc Hw Hq Hp Hv] Hf; [cbn in Hf; lia|].
  destruct (Z.eqb_spec (outputcnt m) 0) as [E|E].
  { exists m. split; [|by apply written_full]. apply loop_brk_break. unfold macro_step. rewrite E.
    by rewrite andb_false_r. }
  set (m0 := {| m with input := input m + 1; inputcnt := inputcnt m - 1 |}).
  destruct (Hstep m0) as (m1 & q' & v' & t' & Hm1 & [H1 H2 H3 H4 _ H6] & Hfin); [|exact E|].
  { split; try done; [|cbn; cbn in Hc; lia]. exists (pre ++ [c]). split; [by rewrite <-app_assoc|].
    rewrite length_app. cbn. lia. }
  destruct (Hfin {| m1 with prev := c |} fuel) as (m' & Hm' & Hw'); [by split|cbn in Hf; lia|].
  exists m'. split; [|done]. rewrite <-Hm'. apply loop_brk_next. unfold macro_step, next_char.
  rewrite (arr_get_at s pre c rest) by done. rewrite Hc, (proj2 (Z.eqb_neq (outputcnt m) 0)) by done.
  rewrite (proj2 (Z.eqb_neq (Z.of_nat (length (c :: rest))) 0)) by (cbn; lia). cbn [negb andb mbind option_bind].
  rewrite <-Hc. fold m0. change (state m0) with (state m). change (prev m0) with (prev m). rewrite Hq, Hp.
  assert (Hno : negb (q =? 3) && (c =? 92) && negb (p =? 92) = false).
  { destruct Hesc as [->|[Hn| ->]]; [done| |by rewrite andb_false_r].
    rewrite (proj2 (Z.eqb_neq c 92)) by done. by rewrite andb_false_r. }
  by rewrite Hno, Hm1.
Qed.

Lemma finishes_put T c rest q p v t x :
  T = t ++ x → (q = 3 ∨ c ≠ 92 ∨ p = 92) → (q = 0 ∧ (c ≠ 39 ∧ c ≠ 36 ∨ p = 92) ∨ q = 3 ∧ c ≠ 39) →
  finishes T rest q c v (t ++ [c]) → finishes T (c :: rest) q p v t.
Proof.
  intros Hx Hesc Hput Hfin. apply (finishes_step T c rest q p v t x); [done|done|].
  intros m [H1 H2 H3 H4 H5 H6] Hne. destruct (put_written c t m H3 Hne) as (m' & Hm' & Hw & E1 & E2 & E3 & E4 & E5).
  exists m', q, v, (t ++ [c]). split; [|split; [|done]].
  - unfold macro_char. rewrite H4, H5. destruct Hput as [[-> Hc]|[-> Hc]]; cbn [Z.eqb].
    + destruct Hc as [[Hc1 Hc2]| ->]; [|by rewrite !andb_false_r].
      by rewrite (proj2 (Z.eqb_neq c 39)), (proj2 (Z.eqb_neq c 36)).
    + by rewrite (proj2 (Z.eqb_neq c 39)).
  - split; rewrite ?E1, ?E2, ?E3, ?E4, ?E5; done.
Qed.

Lemma finishes_quoted T w rest p v t x :
  T = t ++ w ++ x → 39 ∉ w → last (p :: w) ≠ Some 92 →
  finishes T rest 0 39 v (t ++ w) → finishes T (w ++ 39 :: rest) 3 p v t.
Proof.
  revert p t. induction w as [|c w IH]; intros p t HT Hq Hl Hfin; cbn [app].
  - apply (finishes_step T 39 rest 3 p v t x); [done|by left|]. rewrite app_nil_r in Hfin.
    intros m [H1 H2 H3 H4 H5 H6] _. exists {| m with state := 0 |}, 0, v, t. split; [|split; [by split|done]].
    unfold macro_char. rewrite H4, H5. cbn [Z.eqb andb].
    rewrite (proj2 (Z.eqb_neq p 92)); [done|]. intros ->. by apply Hl.
  - apply not_elem_of_cons in Hq as [Hc Hq]. apply (finishes_put T c _ 3 p v t (c :: w ++ x)); [done|by left|right; done|].
    apply IH; [by rewrite HT, <-app_assoc|done|by destruct w|by rewrite <-app_assoc].
Qed.

(** The rest [n2] of a name. *)
Lemma finishes_name T n n2 close rest P p v t x :
  T = t ++ x → s = P ++ n ++ close :: rest → v = Z.of_nat (length P) → Z.of_nat (length n) < CONFIG_SYS_CBSIZE →
  (close = 41 ∨ close = 125) → Forall (λ c, c ≠ 41 ∧ c ≠ 125 ∧ c ≠ 92) n2 →
  finishes T rest 0 close v (t ++ default [] (value n)) → finishes T (n2 ++ close :: rest) 2 p v t.
Proof.
  intros HT Es Ev Hn Hclose. revert p. induction n2 as [|c n2 IH]; intros p Hn2 Hfin; cbn [app].
  - apply (finishes_step T close rest 2 p v t x); [done|right; left; by destruct Hclose as [-> | ->]|].
    intros m [(pre & Epre & Hi) H2 H3 H4 H5 H6] _.
    assert (take (Z.to_nat (input m - varname_start m - 1)) (drop (Z.to_nat (varname_start m)) s) = n ∧
      input m - varname_start m - 1 = Z.of_nat (length n)) as [E El].
    { rewrite H6, Ev, Nat2Z.id.
      assert (EP : input m = Z.of_nat (length P + length n + 1)).
      { rewrite Hi. apply (f_equal length) in Epre. rewrite Es, !length_app in Epre. cbn in Epre. lia. }
      split; [|lia]. replace (Z.to_nat (input m - Z.of_nat (length P) - 1)) with (length n) by lia.
      by rewrite Es, drop_app_length, take_app_length. }
    assert (Hmc : macro_char env_get s close m =
      (m' ← (match value n with None => Some m | Some w => copy_value w m end); Some {| m' with state := 0 |})).
    { unfold macro_char. rewrite H4, E, El. rewrite (proj2 (Z.ltb_lt _ _)) by done. rewrite env_get_value.
      by destruct Hclose as [-> | ->]. }
    rewrite Hmc. destruct (value n) as [w|]; cbn [default option_map] in Hfin.
    + destruct (copy_value_written w t m H3) as (m' & -> & Hw & E1 & E2 & E3 & E4 & E5).
      exists {| m' with state := 0 |}, 0, v, (t ++ w). split; [done|]. split; [|done].
      split; cbn; rewrite ?E1, ?E2, ?E4, ?E5; try done. by exists pre.
    + rewrite app_nil_r in Hfin. exists {| m with state := 0 |}, 0, v, t. split; [done|]. split; [|done].
      split; try done. by exists pre.
  - apply Forall_cons_iff in Hn2 as [(Hc1 & Hc2 & Hc3) Hn2].
    apply (finishes_step T c _ 2 p v t x); [done|by right; left|].
    intros m [H1 H2 H3 H4 H5 H6] _. exists m, 2, v, t. split; [|split; [by split|by apply IH]].
    unfold macro_char. rewrite H4. cbn [Z.eqb]. by rewrite (proj2 (Z.eqb_neq c 41)), (proj2 (Z.eqb_neq c 125)).
Qed.

(** A character after a backslash. *)
Lemma finishes_escaped T c rest p v t x :
  T = t ++ x → p ≠ 92 → finishes T rest 0 c v (t ++ [c]) → finishes T (92 :: c :: rest) 0 p v t.
Proof.
  intros -> Hp92 Hfin [mi mc mo mp mk mq mr mv] [|fuel] [(pre & Epre & Hi) Hc Hw Hq Hp Hv] Hf; [cbn in Hf; lia|].
  cbn in Hi, Hc, Hq, Hp, Hv. subst mq mr mv.
  set (m := {| input := mi; inputcnt := mc; output := mo; o := mp; outputcnt := mk; state := 0; prev := p; varname_start := v |}).
  destruct (Z.eqb_spec mk 0) as [E|E].
  { exists m. split; [|by apply written_full]. apply loop_brk_break. unfold macro_step, m. cbn. rewrite E.
    by rewrite andb_false_r. }
  set (m0 := {| input := mi + 1 + 1; inputcnt := mc - 1 - 1; output := mo; o := mp; outputcnt := mk; state := 0;
    prev := 92; varname_start := v |}).
  destruct (put_written c t m0) as (m1 & Hm1 & Hw1 & E1 & E2 & E3 & E4 & E5); [exact Hw|exact E|].
  destruct (Hfin {| m1 with prev := c |} fuel) as (m' & Hm' & Hw'); [|cbn in Hf; lia|].
  { split; cbn; rewrite ?E1, ?E2, ?E3, ?E5; try done; [|cbn; cbn in Hc; lia].
    exists (pre ++ [92; c]). split; [by rewrite <-app_assoc|]. rewrite length_app. cbn. lia. }
  exists m'. split; [|done]. rewrite <-Hm'. apply loop_brk_next. unfold macro_step, next_char, m.
  cbn [input inputcnt output o outputcnt state prev varname_start].
  rewrite (proj2 (Z.eqb_neq mk 0)), (proj2 (Z.eqb_neq mc 0)), (arr_get_at s pre 92 (c :: rest))
    by (done || (rewrite Hc; cbn; lia)). cbn [negb andb mbind option_bind Z.eqb Pos.eqb state prev inputcnt input].
  rewrite (proj2 (Z.eqb_neq p 92)), (proj2 (Z.eqb_neq (mc - 1) 0)) by (done || (rewrite Hc; cbn; lia)).
  cbn [negb andb output o outputcnt state varname_start].
  rewrite (arr_get_at s (pre ++ [92]) c rest) by (rewrite ?length_app; cbn; rewrite ?Epre, <-?app_assoc; done || lia).
  cbn [mbind option_bind]. fold m0.
  assert (Emc : macro_char env_get s c m0 = put c m0) by (unfold macro_char; cbn; by rewrite !andb_false_r).
  by rewrite Emc, Hm1.
Qed.

Lemma finishes_dollar T rest p v t x : T = t ++ x → p ≠ 92 →
  finishes T rest 1 36 v t → finishes T (36 :: rest) 0 p v t.
Proof.
  intros HT Hp Hfin. apply (finishes_step T 36 rest 0 p v t x); [done|by right; left|].
  intros m [H1 H2 H3 H4 H5 H6] _. exists {| m with state := 1 |}, 1, v, t. split; [|split; [by split|done]].
  unfold macro_char. rewrite H4, H5. cbn [Z.eqb andb Pos.eqb]. by rewrite (proj2 (Z.eqb_neq p 92)).
Qed.

Lemma finishes_piece T r rest p v t x : piece_ok r → p ≠ 92 → T = t ++ expand_piece r ++ x →
  (∀ p' v', p' ≠ 92 → finishes T rest 0 p' v' (t ++ expand_piece r)) →
  finishes T (render_piece r ++ rest) 0 p v t.
Proof.
  intros Hr Hp HT Hfin. destruct r as [c|c|c|op n close|w]; cbn [render_piece expand_piece piece_ok app] in *.
  - apply (finishes_put T c rest 0 p v t (c :: x)); [done|right; left; tauto|left; tauto|apply Hfin; tauto].
  - apply (finishes_escaped T c rest p v t (c :: x)); [done|done|by apply Hfin].
  - apply (finishes_dollar T _ p v t (36 :: c :: x)); [done|done|].
    apply (finishes_step T c rest 1 36 v t (36 :: c :: x)); [done|right; left; tauto|].
    intros m [H1 H2 H3 H4 H5 H6] Hne.
    assert (Hw : written out t {| m with state := 0 |}) by exact H3.
    destruct (put_written 36 t _ Hw Hne) as (m1 & Hm1 & Hw1 & E1 & E2 & E3 & E4 & E5). cbn in E1, E2, E3, E4, E5.
    assert (Hmc : macro_char env_get s c m = (if negb (outputcnt m1 =? 0) then put c m1 else Some m1)).
    { unfold macro_char. rewrite H4. cbn [Z.eqb Pos.eqb]. destruct Hr as (Hc1 & Hc2 & _).
      rewrite (proj2 (Z.eqb_neq c 40)), (proj2 (Z.eqb_neq c 123)) by done. cbn [orb]. by rewrite Hm1. }
    rewrite Hmc. destruct (Z.eqb_spec (outputcnt m1) 0) as [E|E]; cbn [negb].
    + exists m1, 0, v, (t ++ [36; c]). split; [done|]. split; [|apply Hfin; tauto].
      split; try (rewrite ?E1, ?E2, ?E3, ?E5; done).
      pose proof (written_full (t ++ [36]) [c] m1 Hw1 E) as Hw2. by rewrite <-app_assoc in Hw2.
    + destruct (put_written c (t ++ [36]) m1 Hw1 E) as (m2 & Hm2 & Hw2 & F1 & F2 & F3 & F4 & F5).
      exists m2, 0, v, (t ++ [36; c]). split; [done|]. split; [|apply Hfin; tauto].
      rewrite <-app_assoc in Hw2. split; rewrite ?F1, ?F2, ?F3, ?F5, ?E1, ?E2, ?E3, ?E5; done.
  - destruct Hr as (Hop & Hclose & Hn & Hlen). rewrite <-app_assoc. cbn [app].
    apply (finishes_dollar T _ p v t (default [] (value n) ++ x)); [done|done|].
    apply (finishes_step T op _ 1 36 v t (default [] (value n) ++ x)); [done|right; left; by destruct Hop as [-> | ->]|].
    intros m [(P & EP & Hi) H2 H3 H4 H5 H6] _.
    exists {| m with state := 2; varname_start := input m |}, 2, (Z.of_nat (length P)), t. split; [|split].
    + unfold macro_char. rewrite H4. by destruct Hop as [-> | ->].
    + split; try done. by exists P.
    + apply (finishes_name T n n close rest P _ _ t (default [] (value n) ++ x)); try done.
      apply Hfin. by destruct Hclose as [-> | ->].
  - destruct Hr as [Hq Hl]. rewrite <-app_assoc. cbn [app].
    apply (finishes_step T 39 _ 0 p v t (w ++ x)); [done|by right; left|].
    intros m [H1 H2 H3 H4 H5 H6] _. exists {| m with state := 3 |}, 3, v, t. split; [|split; [by split|]].
    + unfold macro_char. rewrite H4, H5. cbn [Z.eqb andb Pos.eqb]. by rewrite (proj2 (Z.eqb_neq p 92)).
    + apply (finishes_quoted T w rest 39 v t x); [done|done|by destruct w|by apply Hfin].
Qed.

Lemma finishes_all ps p v t : Forall piece_ok ps → p ≠ 92 → finishes (t ++ expand ps) (render ps) 0 p v t.
Proof.
  intros Hps. revert p v t. induction Hps as [|r ps Hr Hps IH]; intros p v t Hp.
  - cbn. rewrite app_nil_r. apply finishes_end.
  - change (render (r :: ps)) with (render_piece r ++ render ps).
    apply (finishes_piece _ r (render ps) p v t (expand ps)); [done|done|done|].
    intros p' v' Hp'. change (expand (r :: ps)) with (expand_piece r ++ expand ps). rewrite app_assoc. by apply IH.
Qed.
End expand.

Lemma process_macros_spec value env_get ps out : (∀ n, env_get n = Some (value n)) → (1024 ≤ length out)%nat →
  Forall piece_ok ps →
  ∃ rest, cli_simple_process_macros env_get (render ps) out = Some (take 1023 (expand value ps) ++ 0 :: rest) ∧
    length (take 1023 (expand value ps) ++ 0 :: rest) = length out.
Proof.
  intros Hget Hout Hps. unfold cli_simple_process_macros.
  destruct (finishes_all value out Hout env_get Hget (render ps) ps 0 0 [] Hps ltac:(done)
    {| input := 0; inputcnt := Z.of_nat (length (render ps)); output := out; o := 0; outputcnt := CONFIG_SYS_CBSIZE;
       state := 0; prev := 0; varname_start := 0 |} (S (length (render ps)))) as (m & -> & Hw1 & Hw2 & Hw3); [|lia|].
  { split; try done. by exists []. }
  cbn [mbind option_bind app] in *. set (T := expand value ps) in *. rewrite Hw1, Hw2, Hw3. clear Hw1 Hw2 Hw3.
  destruct (Z.eqb_spec (1024 - Z.of_nat (length (take 1024 T))) 0) as [E|E]; cbn [negb].
  - rewrite length_take in E. assert (Hl : (1024 ≤ length T)%nat) by lia.
    destruct (lookup_lt_is_Some_2 T 1023) as [c Hc]; [lia|].
    assert (ET : take 1024 T = take 1023 T ++ [c]) by (by apply take_S_r).
    exists (drop 1024 out). split.
    + rewrite length_take, (Nat.min_l 1024) by lia.
      apply (arr_set_at _ _ c); [by rewrite ET, <-app_assoc|rewrite length_take; lia].
    + rewrite length_app, length_take. cbn [length]. rewrite length_drop. lia.
  - assert (Hl : (length T < 1024)%nat) by (rewrite length_take in E; lia).
    rewrite !take_ge by lia. destruct (drop (length T) out) as [|x l] eqn:El.
    { apply (f_equal length) in El. rewrite length_drop in El. cbn in El. lia. }
    exists l. split; [by apply arr_set_middle|]. apply (f_equal length) in El. rewrite length_drop in El.
    rewrite length_app. cbn in El |- *. lia.
Qed.

(** A command of plain characters, characters with a backslash, dollar signs,
    variables and quoted texts becomes the text in which each variable is
    replaced by its value, cut to the size of the buffer and terminated. *)
Theorem cli_simple_process_macros_correct value env_get ps out : (∀ n, env_get n = Some (value n)) →
  (1024 ≤ length out)%nat → Forall piece_ok ps →
  ∃ rest, cli_simple_process_macros env_get (render ps) out = Some (take 1023 (expand value ps) ++ 0 :: rest) ∧
    length (take 1023 (expand value ps) ++ 0 :: rest) = length out.
Proof. apply process_macros_spec. Qed.

(** ** Any text *)

Section bounded.
Context (env_get : str → option (option str)) (env_get_ok : ∀ n, is_Some (env_get n)).
Context (s : str) (s_len : Z.of_nat (length s) <= CONFIG_SYS_CBSIZE).
Context (out : list Z) (out_len : (1024 ≤ length out)%nat).

Record within (m : macros) : Prop := {
  w_written : ∃ t, written out t m;
  w_var : 0 ≤ varname_start m;
  w_input : 0 ≤ input m
}.

Lemma macro_char_within c m : within m → outputcnt m ≠ 0 → input m ≤ Z.of_nat (length s) →
  ∃ m', macro_char env_get s c m = Some m' ∧ within m' ∧ input m' = input m ∧ inputcnt m' = inputcnt m.
Proof.
  intros [[t Hw] Hv Hi] Hne Hle. unfold macro_char.
  assert (Hput : ∀ c m t, written out t m → outputcnt m ≠ 0 → 0 ≤ varname_start m → 0 ≤ input m →
    ∃ m', put c m = Some m' ∧ within m' ∧ input m' = input m ∧ inputcnt m' = inputcnt m).
  { intros c1 m1 t1 Hw1 Hne1 Hv1 Hi1. destruct (put_written out out_len c1 t1 m1 Hw1 Hne1) as (m2 & -> & Hw2 & E1 & E2 & E3 & E4 & E5).
    exists m2. split; [done|]. split; [split; [by eexists|congruence|congruence]|done]. }
  assert (Hset : ∀ q v, 0 ≤ v → ∃ m', Some {| m with state := q; varname_start := v |} = Some m' ∧ within m' ∧
    input m' = input m ∧ inputcnt m' = inputcnt m).
  { intros q v Hv'. eexists. split; [done|]. split; [split; [by exists t|done..]|done]. }
  destruct (state m =? 0); [destruct (_ && _); [by apply Hset|]; destruct (_ && _); [by apply Hset|by eapply Hput]|].
  destruct (state m =? 1).
  { destruct (_ || _); [by apply Hset|].
    destruct (put_written out out_len 36 t {| m with state := 0 |} Hw Hne) as (m1 & -> & Hw1 & E1 & E2 & E3 & E4 & E5).
    cbn in E1, E2, E5. cbn [mbind option_bind]. destruct (Z.eqb_spec (outputcnt m1) 0) as [E|E]; cbn [negb].
    - exists m1. split; [done|]. split; [split; [by eexists|congruence|congruence]|done].
    - destruct (Hput c m1 _ Hw1 E) as (m2 & -> & Hin & F1 & F2); [congruence|congruence|]. exists m2. split_and!; [done..|congruence|congruence]. }
  destruct (state m =? 2).
  { destruct (_ || _); [|by eexists m; split; [|split; [split; [by eexists|done..]|]]].
    rewrite (proj2 (Z.ltb_lt _ _)) by lia.
    destruct (env_get_ok (take (Z.to_nat (input m - varname_start m - 1)) (drop (Z.to_nat (varname_start m)) s))) as [o ->].
    cbn [mbind option_bind]. destruct o as [w|]; [|by apply Hset].
    destruct (copy_value_written out out_len w t m Hw) as (m1 & -> & Hw1 & E1 & E2 & E3 & E4 & E5). cbn [mbind option_bind].
    eexists. split; [done|]. split; [split; [by exists (t ++ w)|cbn; congruence..]|done]. }
  destruct (_ && _); [by apply Hset|by eapply Hput].
Qed.

Lemma macro_loop_within m : within m → 0 ≤ inputcnt m → input m + inputcnt m = Z.of_nat (length s) →
  ∃ m', loop_brk (S (Z.to_nat (inputcnt m))) (macro_step env_get s) m = Some m' ∧ ∃ t, written out t m'.
Proof.
  intros Hm Hc Hic. apply (loop_brk_total (macro_step env_get s)
    (λ m, within m ∧ 0 ≤ inputcnt m ∧ input m + inputcnt m = Z.of_nat (length s)) (λ m, Z.to_nat (inputcnt m))
    (λ m, ∃ t, written out t m)); [|done|lia].
  clear m Hm Hc Hic. intros m (Hm & Hc & Hic). unfold macro_step.
  destruct (Z.eqb_spec (inputcnt m) 0) as [E|E]; cbn [negb andb]; [by exists (Break m); split; [|apply Hm]|].
  destruct (Z.eqb_spec (outputcnt m) 0) as [E'|E']; cbn [negb andb]; [by exists (Break m); split; [|apply Hm]|].
  assert (Hnext : ∀ m, within m → 0 < inputcnt m → input m + inputcnt m = Z.of_nat (length s) →
    ∃ c, next_char s m = Some (c, {| m with input := input m + 1; inputcnt := inputcnt m - 1 |}) ∧
      within {| m with input := input m + 1; inputcnt := inputcnt m - 1 |}).
  { intros m1 [H1 H2 H3] H4 H5. unfold next_char. destruct (arr_get_ex s (input m1)) as [c ->]; [lia|].
    eexists. split; [done|]. split; cbn; [done|done|lia]. }
  destruct (Hnext m Hm ltac:(lia) Hic) as (c & -> & Hm0). cbn [mbind option_bind].
  set (m0 := {| m with input := input m + 1; inputcnt := inputcnt m - 1 |}) in *.
  assert (Hdone : ∀ c m1 p, within m1 → outputcnt m1 ≠ 0 → 0 ≤ inputcnt m1 < inputcnt m →
    input m1 + inputcnt m1 = Z.of_nat (length s) →
    ∃ r, (m' ← macro_char env_get s c m1; Some (@Next macros Empty_set {| m' with prev := p |})) = Some r ∧
      match r with
      | Next m' => (within m' ∧ 0 ≤ inputcnt m' ∧ input m' + inputcnt m' = Z.of_nat (length s)) ∧
          (Z.to_nat (inputcnt m') < Z.to_nat (inputcnt m))%nat
      | Break m' => ∃ t, written out t m'
      | Return e => False
      end).
  { intros c1 m1 p H1 H2 H3 H4. destruct (macro_char_within c1 m1 H1 H2) as (m2 & -> & [[t Hw] Hv Hi] & E1 & E2); [lia|].
    eexists. split; [done|]. cbn. split; [|lia]. split; [split; [by exists t|done..]|lia]. }
  destruct (_ && _); [|apply Hdone; cbn; [done|done|lia|lia]].
  destruct (Z.eqb_spec (inputcnt m0) 0) as [E0|E0].
  - eexists. split; [done|]. destruct Hm0 as [[t Hw] _ _]. by exists t.
  - cbn in E0. destruct (Hnext {| m0 with prev := c |}) as (c' & -> & Hm1); [by destruct Hm0; split|cbn; lia|cbn; lia|].
    cbn [mbind option_bind]. apply Hdone; cbn; [done|done|lia|lia].
Qed.

(** C21. Whatever the text of a command, as long as it fits into a buffer, the
    replacement of its variables ends; it writes at most the 1024 bytes of the
    output buffer, a terminator among them. *)
Theorem cli_simple_process_macros_bounded :
  ∃ t rest, cli_simple_process_macros env_get s out = Some (t ++ 0 :: rest) ∧ (length t < 1024)%nat ∧
    length (t ++ 0 :: rest) = length out ∧ drop 1024 (t ++ 0 :: rest) = drop 1024 out.
Proof.
  unfold cli_simple_process_macros.
  destruct (macro_loop_within {| input := 0; inputcnt := Z.of_nat (length s); output := out; o := 0;
    outputcnt := CONFIG_SYS_CBSIZE; state := 0; prev := 0; varname_start := 0 |}) as (m & Hm & t & Hw1 & Hw2 & Hw3);
    [by split; [exists []|..]|cbn; lia|cbn; lia|].
  cbn [inputcnt] in Hm. rewrite Nat2Z.id in Hm. rewrite Hm. cbn [mbind option_bind]. clear Hm.
  rewrite Hw1, Hw2, Hw3. set (T := take 1024 t) in *. assert (HT : (length T ≤ 1024)%nat) by (unfold T; rewrite length_take; lia).
  clearbody T. clear Hw1 Hw2 Hw3.
  destruct (Z.eqb_spec (1024 - Z.of_nat (length T)) 0) as [E|E]; cbn [negb].
  - destruct (arr_set_ex (T ++ drop (length T) out) (Z.of_nat (length T) - 1) 0) as (l1 & y & l2 & E1 & E2 & _ & ->).
    { rewrite length_app, length_drop. lia. }
    exists l1, l2. split; [done|]. split; [lia|].
    assert (El : length (l1 ++ 0 :: l2) = length (l1 ++ y :: l2)) by (by rewrite !length_app).
    rewrite El, <-E1, length_app, length_drop. split; [lia|].
    assert (E3 : drop 1024 (l1 ++ y :: l2) = drop 1024 (l1 ++ 0 :: l2)).
    { rewrite !drop_app_ge by lia. by replace (1024 - length l1)%nat with 1%nat by lia. }
    rewrite <-E3, <-E1. rewrite drop_app_ge by lia. rewrite drop_drop. f_equal. lia.
  - destruct (drop (length T) out) as [|x l] eqn:El.
    { apply (f_equal length) in El. rewrite length_drop in El. cbn in El. lia. }
    exists T, l. rewrite (arr_set_middle T l _ x 0) by done. split; [done|]. split; [lia|].
    assert (Hl := f_equal length El). rewrite length_drop in Hl. cbn in Hl.
    split; [rewrite length_app; cbn; lia|]. rewrite drop_app_ge by lia.
    replace (1024 - length T)%nat with (S (1023 - length T)) by lia. cbn [drop].
    rewrite <-(skipn_cons (1023 - length T) x), <-El, drop_drop. f_equal. lia.
Qed.
End bounded.

(** ** Examples *)

(** "  a bc " *)
Definition ex_text : str := [32; 32; 97; 32; 98; 99; 32].

Lemma cli_simple_parse_line_correct_witness :
  ∃ argc line av', cli_simple_parse_line (ex_text ++ 0 :: [7]) (replicate 17 (Some 5)) = Some (argc, line, av') ∧
    argc = Z.min CONFIG_SYS_MAXARGS (Z.of_nat (length (words ex_text))) ∧
    args_of line av' argc = Some (take 16 (words ex_text)) ∧
    drop (S (length ex_text)) line = [7] ∧
    ((length (words ex_text) < 16)%nat → arr_get av' argc = Some None).
Proof.
  apply (cli_simple_parse_line_correct ex_text [7] (replicate 17 (Some 5))); [|done].
  repeat constructor; lia.
Defined.

(** With sixteen words and a blank behind them NULL is not written. *)
Example argv_not_terminated :
  option_map (λ '(argc, _, av), (argc, arr_get av 16))
    (cli_simple_parse_line (concat (replicate 16 [97; 32]) ++ [0]) (replicate 17 (Some 5))) = Some (16, Some (Some 5)).
Proof. vm_compute. reflexivity. Qed.

(** a\;${v}'$' where v has the value "xy". *)
Definition ex_value (n : str) : option str := if bool_decide (n = [118]) then Some [120; 121] else None.
Definition ex_pieces : list piece := [Chr 97; Esc 59; Var 123 [118] 125; Quote [36]].

Lemma cli_simple_process_macros_correct_witness :
  ∃ rest, cli_simple_process_macros (λ n, Some (ex_value n)) (render ex_pieces) (replicate 1024 0) =
      Some (take 1023 (expand ex_value ex_pieces) ++ 0 :: rest) ∧
    length (take 1023 (expand ex_value ex_pieces) ++ 0 :: rest) = length (replicate 1024 0).
Proof.
  apply (cli_simple_process_macros_correct ex_value (λ n, Some (ex_value n)) ex_pieces (replicate 1024 0)); [done|done|].
  unfold ex_pieces. repeat apply Forall_cons_2; try apply Forall_nil_2; cbn; unfold CONFIG_SYS_CBSIZE; try split_and!; try lia;
    try done; try (apply (bool_decide_unpack _); vm_compute; done).
Defined.

Lemma cli_simple_process_macros_bounded_witness :
  ∃ t rest, cli_simple_process_macros (λ n, Some (ex_value n)) [36; 123; 118; 92; 125; 39; 92] (replicate 1030 9) =
      Some (t ++ 0 :: rest) ∧ (length t < 1024)%nat ∧
    length (t ++ 0 :: rest) = length (replicate 1030 9) ∧ drop 1024 (t ++ 0 :: rest) = drop 1024 (replicate 1030 9).
Proof.
  apply (cli_simple_process_macros_bounded (λ n, Some (ex_value n)) (λ n, ex_intro _ (ex_value n) eq_refl)
    [36; 123; 118; 92; 125; 39; 92]); [unfold CONFIG_SYS_CBSIZE; cbn; lia|]. rewrite length_replicate. lia.
Defined.

(** After two backslashes, which stand for one, a variable is not replaced. *)
Example double_backslash :
  (λ l, cstr l) <$> cli_simple_process_macros (λ n, Some (ex_value n)) [92; 92; 36; 123; 118; 125] (replicate 1024 0) =
  Some (Some [92; 36; 123; 118; 125]).
Proof. vm_compute. reflexivity. Qed.
