(* ===== verification/CliRun.v ===== *)
(** * CliRun: running command lines (common/cli_simple.c, common/cli.c)

    A line is cut at semicolons, and each command is expanded and split
    ([CliSimple]) and processed ([Command]).  The functions of common/cli.c are
    those of a build with this parser. *)

From Stdlib Require Import ZArith Lia List String Ascii.
From stdpp Require Import base numbers list option gmap.
From S2P Require Import Prelude Hashtable EnvText EnvAttr EnvFlags EnvStore Command CliSimple.

(** The search for the end of the command that begins at [str]: the position of a
    separator, or of the terminator. *)
Definition sep_step (cmdbuf : list Z) (str : Z) : bool * Z → option (ctl (bool * Z) Empty_set) := λ '(inquotes, sep),
  c ← arr_get cmdbuf sep;
  if c =? 0 then Some (Break (inquotes, sep))
  else
    inquotes ← (if c =? 39 then
        p ← arr_get cmdbuf (sep - 1);
        Some (if negb (p =? 92) then negb inquotes else inquotes)
      else Some inquotes);
    stop ← (if negb inquotes && (c =? 59) && negb (sep =? str) then
        p ← arr_get cmdbuf (sep - 1); Some (negb (p =? 92))
      else Some false);
    Some (if (stop : bool) then Break (inquotes, sep) else Next (inquotes, sep + 1)).

Definition find_separator (cmdbuf : list Z) (str : Z) : option Z :=
  '(_, sep) ← loop_brk (S (length cmdbuf)) (sep_step cmdbuf str) (false, str);
  Some sep.

Section run.
Context `{!EnvHooks, !Commands, !CommandFunctions} (table : list cmd_tbl_s).
(** The size of the environment and its default, and the size of [env_buf]. *)
Context (CONFIG_ENV_SIZE : Z) (default_environment : list Z) (env_len : Z).
(** What the local arrays [finaltoken] and [argv] hold at the beginning. *)
Context (finaltoken0 : list Z) (argv0 : list (option Z)).

#[local] Abbreviation getenv w := (λ n, env_get CONFIG_ENV_SIZE default_environment n env_len (sys_gd w)).

Record running := {
  cmdbuf : list Z; str_at : Z; finaltoken : list Z; argv : list (option Z); rc : Z; repeatable : Z; world : sys
}.

(** The body of the loop. *)
Definition run_next (flag : Z) (r : running) : option (ctl running (Z * sys)) :=
  c ← arr_get (cmdbuf r) (str_at r);
  if c =? 0 then Some (Break r)
  else
    sep ← find_separator (cmdbuf r) (str_at r);
    e ← arr_get (cmdbuf r) sep;
    '(buf, next) ← (if negb (e =? 0)
      then buf ← arr_set (cmdbuf r) sep 0; Some (buf, sep + 1)
      else Some (cmdbuf r, sep));
    token ← cstr_at buf (str_at r);
    out ← cli_simple_process_macros (getenv (world r)) token (finaltoken r);
    '(argc, out, av) ← cli_simple_parse_line out (argv r);
    let r := {| r with cmdbuf := buf; str_at := next; finaltoken := out; argv := av |} in
    if argc =? 0 then Some (Next {| r with rc := -1 |})
    else
      args ← args_of out av argc;
      '(res, rep, w) ← cmd_process table flag args (repeatable r) (world r);
      let r := {| r with rc := if negb (res =? 0) then -1 else rc r; repeatable := rep; world := w |} in
      if negb (had_ctrlc w =? 0) then Some (Return (-1, w)) else Some (Next r).

Definition cli_simple_run_command (cmd : option str) (flag : Z) (w : sys) : option (Z * sys) :=
  let w := clear_ctrlc w in
  match cmd with
  | None | Some [] => Some (-1, w)
  | Some cmd =>
      if CONFIG_SYS_CBSIZE <=? Z.of_nat (length cmd) then Some (-1, w)
      else
        r ← loop (S (length cmd)) (run_next flag)
          {| cmdbuf := cmd ++ [0]; str_at := 0; finaltoken := finaltoken0; argv := argv0; rc := 0; repeatable := 1;
             world := w |};
        Some (match r with
              | inr r => r
              | inl r => (if negb (rc r =? 0) then rc r else repeatable r, world r)
              end)
  end.

(** The lines of a text, each terminated in place. *)
Definition cli_simple_run_command_list (cmd : list Z) (w : sys) : option (Z * sys) :=
  '(cmd, line, _, rcode, w) ← loop_brk (S (length cmd)) (λ '(cmd, line, next, rcode, w),
      c ← arr_get cmd next;
      if c =? 0 then Some (Break (cmd, line, next, rcode, w))
      else if c =? 10 then
        cmd ← arr_set cmd next 0;
        l ← cstr_at cmd line;
        if negb (bool_decide (l = [])) then
          '(r, w) ← cli_simple_run_command (Some l) 0 w;
          if r <? 0 then Some (Break (cmd, line, next, 1, w))
          else Some (Next (cmd, next + 1, next + 1, rcode, w))
        else Some (Next (cmd, next + 1, next + 1, rcode, w))
      else Some (Next (cmd, line, next + 1, rcode, w)))
    (cmd, 0, 0, 0, w);
  l ← cstr_at cmd line;
  if (rcode =? 0) && negb (bool_decide (l = [])) then
    '(r, w) ← cli_simple_run_command (Some l) 0 w;
    Some (if r <? 0 then 1 else 0, w)
  else Some (rcode, w).

(** One turn of [cli_simple_loop] after [cli_readline] returned [len]: the last
    command, [rc] and the state. *)
Definition cli_simple_turn (lastcommand : str) (rc : Z) (len : Z) (console_buffer : str) (w : sys)
    : option (str * Z * sys) :=
  let flag := if len =? 0 then CMD_FLAG_REPEAT else 0 in
  let lastcommand := if 0 <? len then take (Z.to_nat CONFIG_SYS_CBSIZE) console_buffer else lastcommand in
  '(rc, w) ← (if len =? -1 then Some (rc, w) else cli_simple_run_command (Some lastcommand) flag w);
  Some (if rc <=? 0 then [] else lastcommand, rc, w).

(** ** common/cli.c, with this parser *)

Definition run_command (cmd : option str) (flag : Z) (w : sys) : option (Z * sys) :=
  '(r, w) ← cli_simple_run_command cmd flag w;
  Some (if r =? -1 then 1 else 0, w).

(** The command "run": each argument is the name of a variable with a command. *)
Fixpoint run_vars (names : list str) (flag : Z) (w : sys) : option (Z * sys) :=
  match names with
  | [] => Some (0, w)
  | n :: names =>
      arg ← getenv w n;
      match arg with
      | None => Some (1, w)
      | Some arg =>
          '(r, w) ← run_command (Some arg) (Z.lor flag CMD_FLAG_ENV) w;
          if negb (r =? 0) then Some (1, w) else run_vars names flag w
      end
  end.

Definition do_run (flag : Z) (args : list str) (w : sys) : option (Z * sys) :=
  if (length args <? 2)%nat then Some (CMD_RET_USAGE, w) else run_vars (tail args) flag w.
End run.


(** ** Separators *)

Section separators.
Context (buf : list Z) (str : Z).

(** From [i] on, with [q] for being inside of quotes, the search ends at [r]. *)
Definition reaches (q : bool) (i r : Z) : Prop :=
  ∀ fuel, (Z.to_nat (Z.of_nat (length buf) - i) < fuel)%nat →
  ∃ q', loop_brk fuel (sep_step buf str) (q, i) = Some (q', r).

Lemma reaches_next q q' i r : 0 ≤ i < Z.of_nat (length buf) →
  sep_step buf str (q, i) = Some (Next (q', i + 1)) → reaches q' (i + 1) r → reaches q i r.
Proof.
  intros Hi Hs Hr [|fuel] Hf; [lia|]. destruct (Hr fuel) as [q2 H2]; [lia|].
  exists q2. by rewrite (loop_brk_next _ _ _ _ Hs).
Qed.

Lemma reaches_break q i : sep_step buf str (q, i) = Some (Break (q, i)) → reaches q i i.
Proof. intros Hs [|fuel] Hf; [lia|]. exists q. by apply loop_brk_break. Qed.

Lemma reaches_find i r : reaches false i r → i = str → 0 ≤ i → find_separator buf i = Some r.
Proof.
  intros Hr -> Hi. unfold find_separator. destruct (Hr (S (length buf))) as [q ->]; [lia|]. done.
Qed.

Abbreviation at_ l := (Z.of_nat (length l)).

Lemma at_range P (c : Z) R : buf = P ++ c :: R → 0 ≤ at_ P < Z.of_nat (length buf).
Proof. intros ->. rewrite length_app. cbn. lia. Qed.

Lemma at_snoc P (c : Z) : at_ (P ++ [c]) = at_ P + 1.
Proof. rewrite length_app. cbn. lia. Qed.

Lemma prev_char P p R : buf = (P ++ [p]) ++ R → arr_get buf (at_ (P ++ [p]) - 1) = Some p.
Proof. intros ->. rewrite at_snoc, <-app_assoc. cbn. apply arr_get_middle. lia. Qed.

(** A character that is not special, or a semicolon in quotes. *)
Lemma reaches_plain q P c R r : buf = P ++ c :: R → c ≠ 0 → c ≠ 39 → (c = 59 → q = true) →
  reaches q (at_ (P ++ [c])) r → reaches q (at_ P) r.
Proof.
  intros E Hc Hq Hs Hr. apply (reaches_next q q); [by eapply at_range| |by rewrite <-at_snoc with (c := c)].
  unfold sep_step. rewrite (arr_get_at buf P c R (at_ P)) by done. cbn [mbind option_bind].
  rewrite (proj2 (Z.eqb_neq c 0)), (proj2 (Z.eqb_neq c 39)) by done. cbn [mbind option_bind].
  destruct (Z.eqb_spec c 59) as [->|]; [rewrite Hs by done; done|]. by rewrite andb_false_r.
Qed.

Lemma reaches_plains q P l R r : buf = P ++ l ++ R → Forall (λ c, c ≠ 0 ∧ c ≠ 39 ∧ (c = 59 → q = true)) l →
  reaches q (at_ (P ++ l)) r → reaches q (at_ P) r.
Proof.
  intros E Hl. revert P E. induction Hl as [|c l (H1 & H2 & H3) _ IH]; intros P E Hr; [by rewrite app_nil_r in Hr|].
  apply (reaches_plain q P c (l ++ R)); [done..|]. apply IH; [by rewrite E, <-app_assoc|by rewrite <-app_assoc].
Qed.

(** A quote behind the character [p]. *)
Lemma reaches_quote q P p R r : buf = (P ++ [p]) ++ 39 :: R →
  reaches (if negb (p =? 92) then negb q else q) (at_ ((P ++ [p]) ++ [39])) r → reaches q (at_ (P ++ [p])) r.
Proof.
  intros E Hr. eapply reaches_next; [by eapply at_range| |rewrite at_snoc in Hr; exact Hr].
  unfold sep_step. rewrite (arr_get_at buf (P ++ [p]) 39 R (at_ (P ++ [p]))) by done. cbn [mbind option_bind Z.eqb Pos.eqb].
  rewrite (prev_char P p (39 :: R)) by done. cbn [mbind option_bind]. by rewrite andb_false_r.
Qed.

(** A semicolon behind a backslash. *)
Lemma reaches_escaped P R r : buf = (P ++ [92]) ++ 59 :: R →
  reaches false (at_ ((P ++ [92]) ++ [59])) r → reaches false (at_ (P ++ [92])) r.
Proof.
  intros E Hr. eapply reaches_next; [by eapply at_range| |rewrite at_snoc in Hr; exact Hr].
  unfold sep_step. rewrite (arr_get_at buf (P ++ [92]) 59 R (at_ (P ++ [92]))) by done. cbn [mbind option_bind Z.eqb Pos.eqb negb andb].
  rewrite (prev_char P 92 (59 :: R)) by done. by destruct (negb _).
Qed.

(** A semicolon at the beginning is not a separator. *)
Lemma reaches_first P R r : buf = P ++ 59 :: R → at_ P = str →
  reaches false (at_ (P ++ [59])) r → reaches false (at_ P) r.
Proof.
  intros E Hs Hr. eapply reaches_next; [by eapply at_range| |rewrite at_snoc in Hr; exact Hr].
  unfold sep_step. rewrite (arr_get_at buf P 59 R (at_ P)) by done. cbn [mbind option_bind Z.eqb Pos.eqb negb andb].
  by rewrite Hs, Z.eqb_refl.
Qed.

(** The separator and the terminator. *)
Lemma reaches_end P p c R : buf = (P ++ [p]) ++ c :: R → c = 0 ∨ c = 59 ∧ p ≠ 92 ∧ at_ (P ++ [p]) ≠ str →
  reaches false (at_ (P ++ [p])) (at_ (P ++ [p])).
Proof.
  intros E Hc. apply reaches_break. unfold sep_step. rewrite (arr_get_at buf (P ++ [p]) c R (at_ (P ++ [p]))) by done.
  cbn [mbind option_bind]. destruct Hc as [->|(-> & Hp & Hs)]; [done|]. cbn [Z.eqb Pos.eqb mbind option_bind negb andb].
  rewrite (proj2 (Z.eqb_neq _ str)) by done. cbn [negb]. rewrite (prev_char P p (59 :: R)) by done. cbn [mbind option_bind].
  by rewrite (proj2 (Z.eqb_neq p 92)).
Qed.

(** A piece without a separator. *)
Definition plain (c : Z) : Prop := c ≠ 0 ∧ c ≠ 39 ∧ c ≠ 59.

Definition piece_whole (p : piece) : Prop :=
  piece_ok p ∧
  match p with
  | Chr c | Dollar c => plain c
  | Esc c => c ≠ 0
  | Var _ n _ => Forall plain n
  | Quote s => no_zero s
  end.

(** What is before: nothing and no quote follows, or a character that is not a
    backslash. *)
Definition before (P : list Z) (r : piece) : Prop :=
  match r with Quote _ => ∃ P' p, P = P' ++ [p] ∧ p ≠ 92 | _ => True end.

Lemma plains_ok q l : Forall plain l → Forall (λ c, c ≠ 0 ∧ c ≠ 39 ∧ (c = 59 → q = true)) l.
Proof. intros H. eapply Forall_impl; [exact H|]. intros c (H1 & H2 & H3). done. Qed.

Lemma reaches_piece P p R r : piece_whole p → before P p → buf = P ++ render_piece p ++ R →
  reaches false (at_ (P ++ render_piece p)) r → reaches false (at_ P) r.
Proof.
  intros [Hok Hw] Hb E Hr. destruct p as [c|c|c|op n close|w]; cbn [render_piece piece_ok app] in *.
  - apply (reaches_plains false P [c] R); [done| |done]. by apply plains_ok, Forall_singleton.
  - apply (reaches_plain false P 92 (c :: R)); [done..|].
    assert (E1 : buf = (P ++ [92]) ++ c :: R) by (by rewrite <-app_assoc).
    assert (Hr1 : reaches false (at_ ((P ++ [92]) ++ [c])) r) by (by rewrite <-app_assoc).
    destruct (decide (c = 39)) as [->|]; [by apply (reaches_quote false P 92 R)|].
    destruct (decide (c = 59)) as [->|]; [by apply (reaches_escaped P R)|].
    by apply (reaches_plain false (P ++ [92]) c R).
  - apply (reaches_plains false P [36; c] R); [done| |done]. apply plains_ok, Forall_cons_2; [by unfold plain|by apply Forall_singleton].
  - apply (reaches_plains false P (36 :: op :: n ++ [close]) R); [done| |done]. destruct Hok as (Ho & Hc & _).
    apply plains_ok, Forall_cons_2; [by unfold plain|]. apply Forall_cons_2; [unfold plain; by destruct Ho as [-> | ->]|].
    apply Forall_app. split; [done|]. apply Forall_singleton. unfold plain. by destruct Hc as [-> | ->].
  - destruct Hb as (P' & p & -> & Hp). destruct Hok as [Hq Hl].
    apply (reaches_quote false P' p (w ++ 39 :: R)); [rewrite E; cbn; by rewrite <-(app_assoc w)|].
    rewrite (proj2 (Z.eqb_neq p 92)) by done. cbn [negb].
    assert (∃ l p', 39 :: w = l ++ [p'] ∧ p' ≠ 92) as (l & p' & El & Hp').
    { destruct w as [|c w] using rev_ind; [by exists [], 39|]. exists (39 :: w), c. split; [done|].
      intros ->. apply Hl. by rewrite last_snoc. }
    set (P1 := P' ++ [p]) in *. 
    apply (reaches_plains true (P1 ++ [39]) w (39 :: R)).
    { rewrite E. cbn. by rewrite <-!app_assoc. }
    { apply Forall_forall. intros c Hc. split; [by eapply Forall_forall in Hw|]. split; [by intros ->|done]. }
    assert (E2 : (P1 ++ [39]) ++ w = (P1 ++ l) ++ [p']) by (rewrite <-!app_assoc; cbn; by rewrite El).
    rewrite E2. apply (reaches_quote true (P1 ++ l) p' R).
    { rewrite <-E2, E. cbn. by rewrite <-!app_assoc. }
    rewrite (proj2 (Z.eqb_neq p' 92)) by done. cbn [negb]. rewrite <-E2, <-!app_assoc. exact Hr.
Qed.
End separators.

Lemma render_piece_last p : piece_whole p → ∃ l c, render_piece p = l ++ [c] ∧ c ≠ 92.
Proof.
  intros [Hok Hw]. destruct p as [c|c|c|op n close|w]; cbn in *.
  - exists [], c. tauto.
  - exists [92], c. tauto.
  - exists [36], c. tauto.
  - exists (36 :: op :: n), close. split; [done|]. destruct Hok as (_ & [-> | ->] & _); done.
  - by exists (39 :: w), 39.
Qed.

Lemma reaches_pieces buf str ps P R r : Forall piece_whole ps → match ps with [] => True | p :: _ => before P p end →
  buf = P ++ render ps ++ R → reaches buf str false (Z.of_nat (length (P ++ render ps))) r →
  reaches buf str false (Z.of_nat (length P)) r.
Proof.
  intros Hps. revert P. induction Hps as [|p ps Hp Hps IH]; intros P Hb E Hr; [by rewrite app_nil_r in Hr|].
  change (render (p :: ps)) with (render_piece p ++ render ps) in *.
  apply (reaches_piece buf str P p (render ps ++ R)); [done|done|by rewrite E, <-app_assoc|].
  apply IH; [|by rewrite E, <-!app_assoc|by rewrite <-app_assoc].
  destruct ps as [|p' ps]; [done|]. destruct p'; try done. destruct (render_piece_last p Hp) as (l & c & -> & Hc).
  exists (P ++ l), c. split; [by rewrite app_assoc|done].
Qed.

(** A command: at least one piece, and all of them whole; the first one may be
    a semicolon, which does not separate there. *)
Definition first_piece (p : piece) : Prop := piece_whole p ∨ p = Chr 59.
Definition command_ok (ps : list piece) : Prop :=
  match ps with [] => False | p :: ps => first_piece p ∧ Forall piece_whole ps end.

Lemma command_pieces ps : command_ok ps → Forall first_piece ps.
Proof.
  destruct ps as [|p ps]; [done|]. intros [Hp Hps]. constructor; [done|]. eapply Forall_impl; [exact Hps|]. by left.
Qed.

Lemma first_piece_last p : first_piece p → ∃ l c, render_piece p = l ++ [c] ∧ c ≠ 92.
Proof. intros [Hp| ->]; [by apply render_piece_last|by exists [], 59]. Qed.

Lemma command_last ps : command_ok ps → ∃ l c, render ps = l ++ [c] ∧ c ≠ 92.
Proof.
  intros Hok. pose proof (command_pieces ps Hok) as Hps. destruct ps as [|p ps] using rev_ind; [done|].
  apply Forall_app in Hps as [_ Hp]. apply Forall_cons_iff in Hp as [Hp _].
  destruct (first_piece_last p Hp) as (l & c & E & Hc).
  exists (render ps ++ l), c. split; [|done]. unfold render. rewrite bind_app, <-app_assoc. cbn. by rewrite app_nil_r, E.
Qed.

Lemma reaches_command buf ps P R r : command_ok ps → match ps with [] => True | p :: _ => before P p end →
  buf = P ++ render ps ++ R → reaches buf (Z.of_nat (length P)) false (Z.of_nat (length (P ++ render ps))) r →
  reaches buf (Z.of_nat (length P)) false (Z.of_nat (length P)) r.
Proof.
  destruct ps as [|p ps]; [done|]. intros [[Hp| ->] Hps] Hb E Hr.
  - apply (reaches_pieces buf (Z.of_nat (length P)) (p :: ps) P R); [by constructor|done|done|done].
  - apply (reaches_first buf (Z.of_nat (length P)) P (render ps ++ R)); [exact E|done|].
    apply (reaches_pieces buf (Z.of_nat (length P)) ps (P ++ [59]) R); [done| |by rewrite E, <-!app_assoc|].
    + destruct ps as [|p ps]; [done|]. destruct p; try done. by exists P, 59.
    + by rewrite <-app_assoc.
Qed.

(** The end of a command is found. *)
Lemma find_separator_spec ps P c R : command_ok ps → match ps with [] => True | p :: _ => before P p end →
  c = 0 ∨ c = 59 →
  find_separator (P ++ render ps ++ c :: R) (Z.of_nat (length P)) = Some (Z.of_nat (length (P ++ render ps))).
Proof.
  intros Hok Hb Hc. eapply reaches_find; [|done|lia].
  destruct (command_last ps Hok) as (l & c' & E & Hc').
  apply (reaches_command _ ps P (c :: R)); [done|done|done|].
  assert (E2 : P ++ render ps = (P ++ l) ++ [c']) by (by rewrite E, app_assoc). rewrite E2.
  apply (reaches_end _ _ (P ++ l) c' c R); [by rewrite <-E2, <-app_assoc|].
  destruct Hc as [->|Hc]; [by left|right]. split; [done|]. split; [done|]. rewrite !length_app. cbn. lia.
Qed.

Lemma render_no_zero ps : Forall first_piece ps → no_zero (render ps).
Proof.
  intros Hps. induction Hps as [|p ps Hp _ IH]; [constructor|].
  change (render (p :: ps)) with (render_piece p ++ render ps). apply no_zero_app. split; [|done].
  destruct Hp as [[Hok Hw]| ->]; [|by apply Forall_singleton].
  assert (H1 : ∀ c, plain c → c ≠ 0) by (intros c (? & _); done).
  destruct p as [c|c|c|op n close|w]; cbn in *.
  - apply Forall_singleton, H1, Hw.
  - apply Forall_cons_2; [done|by apply Forall_singleton].
  - apply Forall_cons_2; [done|by apply Forall_singleton, H1].
  - destruct Hok as (Ho & Hc & _). apply Forall_cons_2; [done|]. apply Forall_cons_2; [by destruct Ho as [-> | ->]|].
    apply Forall_app. split; [eapply Forall_impl; [exact Hw|exact H1]|]. apply Forall_singleton. by destruct Hc as [-> | ->].
  - apply Forall_cons_2; [done|]. apply Forall_app. split; [done|]. by apply Forall_singleton.
Qed.

(** ** The commands of a line *)

(** [trail] says whether a semicolon follows the last command. *)
Fixpoint line (trail : bool) (cmds : list (list piece)) : str :=
  match cmds with
  | [] => []
  | [ps] => render ps ++ (if trail then [59] else [])
  | ps :: cmds => render ps ++ 59 :: line trail cmds
  end.

(** What holds of the state while commands run. *)
Class CommandsWork `{!EnvHooks, !Commands, !CommandFunctions} := {
  good : sys → Prop;
  good_env w : good w → ready (sys_gd w) ∧ ∃ tbl, htab_ok (env_htab (sys_gd w)) tbl;
  good_values w k e v : good w → vars (env_htab (sys_gd w)) !! k = Some e → data e = Some v → no_zero v;
  good_ctrlc w : good w → good (clear_ctrlc w);
  good_call f c flag args w : good w → ∃ r w', call f c flag args w = Some (r, w') ∧ good w';
  good_call_rep f c flag args w : good w → ∃ r rep w', call_rep f c flag args w = Some (r, rep, w') ∧ good w'
}.

Section lines.
Context `{!EnvHooks, !Commands, !CommandFunctions, !CommandsWork} (table : list cmd_tbl_s).
Context (CONFIG_ENV_SIZE : Z) (default_environment : list Z) (env_len : Z).
Context (finaltoken0 : list Z) (argv0 : list (option Z)).
Context (finaltoken_len : (1024 ≤ length finaltoken0)%nat) (argv_len : length argv0 = 17%nat).

Definition env_value (w : sys) (n : str) : option str := e ← vars (env_htab (sys_gd w)) !! n; data e.

(** The arguments of a command in the state [w]. *)
Definition arguments (w : sys) (ps : list piece) : list str :=
  take 16 (words (take 1023 (expand (env_value w) ps))).

(** What a line means: its commands, one after the other, until the user stops
    them. *)
Fixpoint run_spec (cmds : list (list piece)) (flag rc repeatable : Z) (w : sys) : option (Z * sys) :=
  match cmds with
  | [] => Some (if negb (rc =? 0) then rc else repeatable, w)
  | ps :: cmds =>
      match arguments w ps with
      | [] => run_spec cmds flag (-1) repeatable w
      | args =>
          '(r, repeatable, w) ← cmd_process table flag args repeatable w;
          if negb (had_ctrlc w =? 0) then Some (-1, w)
          else run_spec cmds flag (if negb (r =? 0) then -1 else rc) repeatable w
      end
  end.

Lemma process_good flag args rep w : good w → ∃ r rep' w', cmd_process table flag args rep w = Some (r, rep', w') ∧ good w'.
Proof.
  intros Hw. unfold cmd_process. destruct (find_cmd_tbl _ _) as [c|]; [|by eexists _, _, _].
  match goal with |- context [match ?x with pair _ _ => _ end] => destruct x as [rc flag'] end.
  destruct (rc =? 0); [|by eexists _, _, _].
  assert (∃ r rep' w', cmd_call c flag' args w = Some (r, rep', w') ∧ good w') as (r & rep' & w' & -> & Hw').
  { unfold cmd_call, cmd_always_repeatable, cmd_never_repeatable. destruct (cmd_rep c) as [| |f].
    - destruct (good_call (cmd c) c flag' args w Hw) as (r & w' & -> & Hw'). by eexists _, _, _.
    - destruct (good_call (cmd c) c flag' args w Hw) as (r & w' & -> & Hw'). by eexists _, _, _.
    - destruct (good_call_rep f c flag' args w Hw) as (r & rep' & w' & -> & Hw'). by eexists _, _, _. }
  by eexists _, _, _.
Qed.

Lemma expand_no_zero w ps : good w → Forall first_piece ps → no_zero (expand (env_value w) ps).
Proof.
  intros Hw Hps. induction Hps as [|p ps Hp _ IH]; [constructor|].
  change (expand (env_value w) (p :: ps)) with (expand_piece (env_value w) p ++ expand (env_value w) ps).
  apply no_zero_app. split; [|done]. destruct Hp as [[Hok Hp]| ->]; [|by apply Forall_singleton].
  destruct p as [c|c|c|op n close|s]; cbn in *.
  - apply Forall_singleton, Hp.
  - by apply Forall_singleton.
  - apply Forall_cons_2; [done|]. apply Forall_singleton, Hp.
  - unfold env_value. destruct (vars _ !! n) as [e|] eqn:E; [|constructor]. cbn.
    destruct (data e) as [v|] eqn:Ed; [|constructor]. by apply (good_values w n e v).
  - done.
Qed.

(** One command, from its text to its arguments. *)
Lemma expand_and_parse w ps out av : good w → Forall first_piece ps → (1024 ≤ length out)%nat → length av = 17%nat →
  ∃ out1 argc out' av',
    cli_simple_process_macros (λ n, env_get CONFIG_ENV_SIZE default_environment n env_len (sys_gd w)) (render ps) out = Some out1 ∧
    cli_simple_parse_line out1 av = Some (argc, out', av') ∧ args_of out' av' argc = Some (arguments w ps) ∧
    (argc = 0 ↔ arguments w ps = []) ∧ (1024 ≤ length out')%nat ∧ length av' = 17%nat.
Proof.
  intros Hw Hps Hout Hav. destruct (good_env w Hw) as (Hr & tbl & Hok).
  destruct (process_macros_spec (env_value w) (λ n, env_get CONFIG_ENV_SIZE default_environment n env_len (sys_gd w)) ps out)
    as (rest & Hm & Hl); [|done| |].
  { intros n. by rewrite (env_get_ready _ _ n env_len (sys_gd w) tbl Hr Hok). }
  { eapply Forall_impl; [exact Hps|]. by intros p [[? _]| ->]. }
  set (t := take 1023 (expand (env_value w) ps)) in *.
  assert (Ht : no_zero t) by (apply Forall_take; by apply expand_no_zero).
  destruct (parse_line_spec t rest av Ht Hav) as (argc & out' & av' & Hp & Ha & Hargs & Hav' & Hl' & _).
  eexists _, argc, out', av'. split; [exact Hm|]. split; [exact Hp|]. split; [exact Hargs|].
  split; [|split; [lia|done]]. unfold arguments. fold t. rewrite Ha. unfold CONFIG_SYS_MAXARGS.
  destruct (words t) as [|x l]; cbn; split; intros; try done; lia.
Qed.

(** The first command of a line is terminated, and what follows is the rest. *)
Lemma next_command trail P ps cmds : command_ok ps → match ps with [] => True | p :: _ => before P p end →
  let buf := P ++ line trail (ps :: cmds) ++ [0] in
  let sep := Z.of_nat (length (P ++ render ps)) in
  ∃ e P', find_separator buf (Z.of_nat (length P)) = Some sep ∧ arr_get buf sep = Some e ∧
    (if negb (e =? 0) then b ← arr_set buf sep 0; Some (b, sep + 1) else Some (buf, sep)) =
      Some (P' ++ line trail cmds ++ [0], Z.of_nat (length P')) ∧
    cstr_at (P' ++ line trail cmds ++ [0]) (Z.of_nat (length P)) = Some (render ps) ∧
    (cmds ≠ [] → ∃ l, P' = l ++ [0]).
Proof.
  intros Hok Hb buf sep. pose proof (render_no_zero ps (command_pieces ps Hok)) as Hz.
  assert (Hcase : cmds = [] ∧ trail = false ∨ line trail (ps :: cmds) = render ps ++ 59 :: line trail cmds).
  { destruct cmds; [|by right]. destruct trail; [by right|by left]. }
  destruct Hcase as [[-> ->]|El].
  - exists 0, (P ++ render ps). subst buf sep. cbn [line app]. rewrite app_nil_r.
    split; [by apply find_separator_spec; [..|left]|].
    split; [apply (arr_get_at _ (P ++ render ps) 0 []); [by rewrite <-app_assoc|done]|].
    split; [by rewrite <-app_assoc|]. split; [|done]. rewrite <-app_assoc. by apply cstr_at_app.
  - assert (E : buf = P ++ render ps ++ 59 :: line trail cmds ++ [0]).
    { subst buf. by rewrite El, <-app_assoc. }
    set (tl := line trail cmds ++ [0]) in *.
    exists 59, (P ++ render ps ++ [0]). rewrite E. split; [by apply find_separator_spec; [..|right]|].
    split; [apply (arr_get_at _ (P ++ render ps) 59 tl); [by rewrite <-app_assoc|done]|]. cbn [Z.eqb Pos.eqb negb].
    rewrite (arr_set_at _ (P ++ render ps) 59 tl sep 0) by (done || by rewrite <-app_assoc). cbn [mbind option_bind].
    split; [f_equal; f_equal; [by rewrite <-!app_assoc|subst sep; rewrite !length_app; cbn; lia]|].
    split; [rewrite <-!app_assoc; by apply cstr_at_app|]. intros _. exists (P ++ render ps). by rewrite app_assoc.
Qed.

(** The result of the loop. *)
Definition outcome (o : running + Z * sys) : Z * sys :=
  match o with inr x => x | inl r => (if negb (rc r =? 0) then rc r else repeatable r, world r) end.

Lemma run_loop trail flag cmds P r fuel : Forall command_ok cmds →
  match cmds with (p :: _) :: _ => before P p | _ => True end →
  cmdbuf r = P ++ line trail cmds ++ [0] → str_at r = Z.of_nat (length P) → (1024 ≤ length (finaltoken r))%nat →
  length (argv r) = 17%nat → good (world r) → (length cmds < fuel)%nat →
  ∃ o, loop fuel (run_next table CONFIG_ENV_SIZE default_environment env_len flag) r = Some o ∧
    run_spec cmds flag (rc r) (repeatable r) (world r) = Some (outcome o) ∧ good (outcome o).2.
Proof.
  intros Hcmds. revert P r fuel.
  induction Hcmds as [|ps cmds Hps Hcmds IH]; intros P r [|fuel] Hb Hbuf Hstr Hout Hav Hw Hf; cbn [length] in Hf; try lia.
  { exists (inl r). split; [|done]. apply loop_break. unfold run_next. rewrite Hbuf, Hstr. cbn [line app].
    by rewrite (arr_get_middle P []). }
  assert (Hb' : match ps with [] => True | p :: _ => before P p end) by (destruct ps; done).
  destruct (next_command trail P ps cmds Hps Hb') as (e & P' & Hsep & He & Hcut & Htok & HP'). cbv zeta in Hsep, He, Hcut.
  destruct (expand_and_parse (world r) ps (finaltoken r) (argv r) Hw (command_pieces ps Hps) Hout Hav)
    as (out1 & argc & out' & av' & Hmac & Hparse & Hargs & Hzero & Hout' & Hav').
  assert (Hnb : match cmds with (p :: _) :: _ => before P' p | _ => True end).
  { destruct cmds as [|[|p ps'] cmds]; [done..|]. destruct p; try done.
    destruct (HP' ltac:(done)) as [l ->]. by exists l, 0. }
  assert (∃ c, arr_get (cmdbuf r) (str_at r) = Some c ∧ c ≠ 0) as (c & Hc & Hc0).
  { destruct (command_last ps Hps) as (l & c' & E & _). pose proof (render_no_zero ps (command_pieces ps Hps)) as Hz.
    rewrite Hbuf, Hstr. destruct (render ps) as [|c t] eqn:Er; [by destruct l|]. apply Forall_cons_iff in Hz as [Hz _].
    exists c. split; [|done]. destruct cmds; cbn [line]; rewrite Er; by apply arr_get_middle. }
  assert (Hrun : run_next table CONFIG_ENV_SIZE default_environment env_len flag r =
    let r := {| r with cmdbuf := P' ++ line trail cmds ++ [0]; str_at := Z.of_nat (length P'); finaltoken := out'; argv := av' |} in
    if argc =? 0 then Some (Next {| r with rc := -1 |})
    else
      '(res, rep, w) ← cmd_process table flag (arguments (world r) ps) (repeatable r) (world r);
      let r := {| r with rc := if negb (res =? 0) then -1 else rc r; repeatable := rep; world := w |} in
      if negb (had_ctrlc w =? 0) then Some (Return (-1, w)) else Some (Next r)).
  { unfold run_next. rewrite Hc. cbn [mbind option_bind]. rewrite (proj2 (Z.eqb_neq c 0)) by done.
    rewrite Hbuf, Hstr, Hsep. cbn [mbind option_bind]. rewrite He. cbn [mbind option_bind]. rewrite Hcut. cbn [mbind option_bind].
    rewrite Htok. cbn [mbind option_bind]. rewrite Hmac. cbn [mbind option_bind]. rewrite Hparse. cbn [mbind option_bind].
    destruct (argc =? 0); [done|]. rewrite Hargs. done. }
  cbv zeta in Hrun. cbn [cmdbuf str_at finaltoken argv rc repeatable world] in Hrun. cbn [run_spec]. destruct (Z.eqb_spec argc 0) as [E|E].
  - apply Hzero in E. rewrite E. rewrite (loop_next _ _ _ _ Hrun). match goal with |- ∃ o, loop _ _ ?s = _ ∧ _ => apply (IH P' s fuel) end; try done; lia.
  - assert (Hne : arguments (world r) ps ≠ []) by tauto. destruct (arguments (world r) ps) as [|a args]; [done|].
    destruct (process_good flag (a :: args) (repeatable r) (world r) Hw) as (res & rep & w & Hp & Hw').
    rewrite Hp in Hrun |- *. cbn [mbind option_bind] in Hrun |- *.
    destruct (negb (had_ctrlc w =? 0)).
    + exists (inr (-1, w)). split; [by apply loop_return|done].
    + rewrite (loop_next _ _ _ _ Hrun). match goal with |- ∃ o, loop _ _ ?s = _ ∧ _ => apply (IH P' s fuel) end; try done; lia.
Qed.

(** Nothing is before the first command: it must not begin with a quote. *)
Definition begins_plain (cmds : list (list piece)) : Prop :=
  match cmds with (Quote _ :: _) :: _ => False | _ => True end.

Lemma line_length trail cmds : Forall command_ok cmds → (length cmds ≤ length (line trail cmds))%nat.
Proof.
  intros Hc. induction Hc as [|ps cmds Hps Hcmds IH]; [done|]. destruct (command_last ps Hps) as (l & c & E & _).
  destruct cmds as [|ps' cmds]; cbn [line]; rewrite E, ?length_app; cbn [length] in *; [lia|].
  cbn [line] in IH. lia.
Qed.

(** C11. A line of commands separated by semicolons, with or without one at
    the end, runs its commands in order, each with the words of its text as
    arguments (its first 1023 characters after the replacement of the
    variables, which have the values that the commands before left; at most 16
    words); it stops when the user interrupts it, and the result tells whether
    a command failed, and whether the line can be repeated. The commands are
    made of plain characters, characters behind a backslash, variables in
    $(...) or ${...}, other dollars, and closed quotes that do not end in a
    backslash; the second of two semicolons belongs to the next command
    (empty_command). Not covered, besides unclosed quotes and variables, are
    two backslashes (double_backslash) and a line that begins with a quote
    (quote_first); the line is not empty and fits into the buffer, and the
    functions of the commands return. *)
Theorem cli_simple_run_command_correct trail cmds flag w : cmds ≠ [] → Forall command_ok cmds → begins_plain cmds →
  Z.of_nat (length (line trail cmds)) < CONFIG_SYS_CBSIZE → good w →
  ∃ r w', cli_simple_run_command table CONFIG_ENV_SIZE default_environment env_len finaltoken0 argv0
      (Some (line trail cmds)) flag w = Some (r, w') ∧
    run_spec cmds flag 0 1 (clear_ctrlc w) = Some (r, w') ∧ good w'.
Proof.
  intros Hne Hcmds Hb Hlen Hw. pose proof (line_length trail cmds Hcmds) as Hll.
  unfold cli_simple_run_command. destruct (line trail cmds) as [|c l] eqn:El.
  { destruct cmds; [done|]. cbn in Hll. lia. }
  rewrite <-El in *. rewrite (proj2 (Z.leb_gt _ _)) by done.
  destruct (run_loop trail flag cmds [] {| cmdbuf := line trail cmds ++ [0]; str_at := 0; finaltoken := finaltoken0; argv := argv0;
    rc := 0; repeatable := 1; world := clear_ctrlc w |} (S (length (line trail cmds))) Hcmds) as (o & -> & Hspec & Hgood);
    try done; [|by apply good_ctrlc|lia|].
  { destruct cmds as [|[|p ps] cmds]; [done..|]. destruct p; try done. }
  cbn [mbind option_bind]. cbn [rc repeatable world] in Hspec. rewrite Hspec.
  destruct (outcome o) as [r w'] eqn:Eo. exists r, w'. split; [|done]. f_equal. by rewrite <-Eo.
Qed.
End lines.

(** ** Examples *)

(** Commands that write down their arguments; the function 7 fails. *)
#[local] Instance ex_commands : Commands := {| others := list (list str); do_bootd := 9 |}.
#[local] Instance ex_functions : CommandFunctions := {|
  call := λ f c flag args w, Some (if f =? 7 then 1 else 0, {| w with sys_others := args :: sys_others w |});
  call_rep := λ f c flag args w, Some (0, 0, w)
|}.

Definition ex_command (n : str) (f : Z) : cmd_tbl_s :=
  {| name := n; maxargs := 4; cmd_rep := always_repeatable; cmd := f; usage := []; help := None; complete := None |}.
Definition ex_table : list cmd_tbl_s := [ex_command (chars "echo") 1; ex_command (chars "false") 7].

Definition good_table (h : hsearch_data) : Prop :=
  (∃ tbl, htab_ok h tbl) ∧ map_Forall (λ _ e, Forall no_zero (option_list (data e))) (vars h).

#[local] Instance ex_hooks_open : EnvHooks := open_hooks.
#[local] Program Instance ex_work : CommandsWork := {|
  good := λ w, ready (sys_gd w) ∧ good_table (env_htab (sys_gd w))
|}.
Next Obligation. intros w [H1 [[tbl H2] _]]. split; [done|by exists tbl]. Qed.
Next Obligation.
  intros w k e v [_ [_ H]] Hk Hv. specialize (H k e Hk). cbn in H. rewrite Hv in H. by apply Forall_cons_iff in H as [H _].
Qed.
Next Obligation. done. Qed.
Next Obligation. intros f c flag args w H. by eexists _, _. Qed.
Next Obligation. intros f c flag args w H. by eexists _, _, _. Qed.

Definition ex_world : sys :=
  {| sys_gd := {| env_valid := 0; gd_flags := GD_FLG_ENV_READY; env_htab := serial_table; env_flags := 0; env_id := 1;
       env_load_prio := 0; env_has_init := 0; env_addr := None |};
     ctrlc_was_pressed := 1; sys_others := [] |}.

(** echo ${ipaddr} 'a;b' \;;false;e $x *)
Definition ex_line : list (list piece) :=
  [(Chr <$> chars "echo ") ++ [Var 123 (chars "ipaddr") 125; Chr 32; Quote (chars "a;b"); Chr 32; Esc 59];
   Chr <$> chars "false"; [Chr 101; Chr 32; Dollar 120]].

Lemma cli_simple_run_command_correct_witness :
  ∃ r w', cli_simple_run_command ex_table 64 [] 32 (replicate 1024 0) (replicate 17 None) (Some (line true ex_line)) 0 ex_world =
      Some (r, w') ∧
    run_spec ex_table ex_line 0 0 1 (clear_ctrlc ex_world) = Some (r, w') ∧ good w'.
Proof.
  apply (cli_simple_run_command_correct ex_table 64 [] 32 (replicate 1024 0) (replicate 17 None)).
  - vm_compute. lia.
  - reflexivity.
  - done.
  - unfold ex_line. repeat apply Forall_cons_2; try apply Forall_nil_2; split; try left;
      cbn; repeat apply Forall_cons_2; try apply Forall_nil_2; unfold piece_whole, plain; cbn; try split_and!; try lia;
      unfold CONFIG_SYS_CBSIZE; try done; apply (bool_decide_unpack _); vm_compute; done.
  - done.
  - vm_compute. reflexivity.
  - split; [done|]. split; [exists (default [] (table serial_table)); exact serial_table_ok|].
    unfold no_zero. apply (bool_decide_unpack _). vm_compute. done.
Defined.

(** The arguments that the commands got, the last command first; the result is
    that of a failure. *)
Example run_some :
  option_map (λ '(r, w), (r, sys_others w))
    (cli_simple_run_command ex_table 64 [] 32 (replicate 1024 0) (replicate 17 None) (Some (line true ex_line)) 0 ex_world) =
  Some (-1, [[chars "e"; chars "$x"]; [chars "false"]; [chars "echo"; chars "10.0.0.1"; chars "a;b"; chars ";"]]).
Proof. vm_compute. reflexivity. Qed.

(** A quote at the beginning of a line: the byte before the buffer is read. *)
Example quote_first :
  cli_simple_run_command ex_table 64 [] 32 (replicate 1024 0) (replicate 17 None) (Some (chars "'echo' a")) 0 ex_world = None.
Proof. vm_compute. reflexivity. Qed.

(** The second of two semicolons belongs to the command behind it. *)
Example empty_command :
  option_map (λ '(r, w), (r, sys_others w))
    (cli_simple_run_command ex_table 64 [] 32 (replicate 1024 0) (replicate 17 None) (Some (chars "echo a;; echo b;")) 0 ex_world) =
  Some (-1, [[chars "echo"; chars "a"]]).
Proof. vm_compute. reflexivity. Qed.
