(* ===== verification/Tftp.v ===== *)
(** * Tftp: the TFTP client (net/tftp.c) and the main loop of the network
    (net_loop and net_start_again of net/net.c)

    The client is a state machine driven by packets and timeouts.  Its state is
    the record [tftp] of the variables of the two files; [sent] lists the
    packets that went out.  Packets arrive in the receive buffer, in the same
    memory that the file is loaded into.  The configuration is the one of the
    board: no TFTPPUT, no TFTPSRV, LMB and TSIZE.  What is printed is not
    modelled.  The block given to the client by [lmb_get_free_size] of Lmb is
    the area that it may write to. *)

From Stdlib Require Import ZArith Lia List.
From stdpp Require Import base numbers list option gmap fin_maps.
From S2P Require Import Prelude Memory CString Ctype Strto Number Lmb.

Abbreviation str := (list Z).

Definition WELL_KNOWN_PORT : Z := 69.
Definition TIMEOUT : Z := 5000.
Definition TIMEOUT_COUNT : Z := 10.

Definition TFTP_RRQ : Z := 1.
Definition TFTP_DATA : Z := 3.
Definition TFTP_ACK : Z := 4.
Definition TFTP_ERROR : Z := 5.
Definition TFTP_OACK : Z := 6.

Definition TFTP_ERR_FILE_NOT_FOUND : Z := 1.
Definition TFTP_ERR_ACCESS_DENIED : Z := 2.

Definition TFTP_BLOCK_SIZE : Z := 512.
Definition TFTP_SEQUENCE_SIZE : Z := Z.shiftl 1 16.

Definition EINTR : Z := 4.
Definition ENONET : Z := 64.
Definition ETIMEDOUT : Z := 110.

Inductive tftp_state_t :=
  | STATE_SEND_RRQ | STATE_DATA | STATE_TOO_LARGE | STATE_BAD_MAGIC | STATE_OACK | STATE_RECV_WRQ | STATE_SEND_WRQ.

#[global] Instance tftp_state_t_eq_dec : EqDecision tftp_state_t.
Proof. solve_decision. Defined.

Inductive net_loop_state := NETLOOP_CONTINUE | NETLOOP_RESTART | NETLOOP_SUCCESS | NETLOOP_FAIL.

#[global] Instance net_loop_state_eq_dec : EqDecision net_loop_state.
Proof. solve_decision. Defined.

(** The functions that a timeout calls. *)
Inductive thand_f := tftp_timeout | start_again_timeout.

Record tftp := {
  tftp_remote_port : Z; tftp_our_port : Z; timeout_count : Z; timeout_count_max : Z;
  tftp_cur_block : Z; tftp_prev_block : Z; tftp_block_wrap : Z; tftp_block_wrap_offset : Z;
  tftp_state : tftp_state_t; tftp_load_addr : Z; tftp_load_size : Z; tftp_tsize : Z;
  tftp_block_size : Z; tftp_block_size_option : Z; timeout_ms : Z; tftp_timeout_count_max : Z;
  tftp_filename : str; net_boot_file_size : Z;
  net_state : net_loop_state; net_try_count : Z; net_restarted : bool; net_dev_exists : bool;
  time_handler : option (Z * thand_f); udp_handler : bool;
  sent : list (Z * list Z)
}.

(** A number of 16 bits in the order of the network. *)
Definition load16 (m : mem) (a : Z) : option Z := h ← load m a; l ← load m (a + 1); Some (256 * h + l).
Definition htons (x : Z) : list Z := [u8 (x / 256); u8 x].

(** [strcmp] with a literal is 0. *)
Fixpoint is_str (m : mem) (a : Z) (s : str) : option bool :=
  c ← load m a;
  match s with
  | [] => Some (c =? 0)
  | x :: s => if c =? x then is_str m (a + 1) s else Some false
  end.

Definition text_octet : str := [111; 99; 116; 101; 116].
Definition text_timeout : str := [116; 105; 109; 101; 111; 117; 116].
Definition text_tsize : str := [116; 115; 105; 122; 101].
Definition text_blksize : str := [98; 108; 107; 115; 105; 122; 101].
Definition text_too_large : str := [70; 105; 108; 101; 32; 116; 111; 111; 32; 108; 97; 114; 103; 101].
Definition text_bad_magic : str := [70; 105; 108; 101; 32; 104; 97; 115; 32; 98; 97; 100; 32; 109; 97; 103; 105; 99].
Definition text_yes : str := [121; 101; 115].
Definition text_no : str := [110; 111].
Definition text_once : str := [111; 110; 99; 101].

(** The numbers at the start of an environment variable. *)
Definition strtol_of (s : str) (base : Z) : Z := from_option fst 0 (simple_strtol (mem_of 1 (s ++ [0])) 1 base).
Definition strtoul_of (s : str) (base : Z) : Z := from_option fst 0 (simple_strtoul (mem_of 1 (s ++ [0])) 1 base).

Section tftp.
Context `{!MemOps}.
(** The variables of the environment, the name of the file, the memory map of
    the board, the address to load to, and what the network device does when
    the next one is tried: the result of its start, and whether all devices
    have been tried. *)
Context (netretry tftpblocksize tftptimeout tftptimeoutcountmax : option str).
Context (bootfile : str) (board : lmb) (load_addr : Z) (eth_try_another : bool → Z * bool).

(** ** net/net.c *)

Definition net_set_state (s : net_loop_state) (st : tftp) : tftp := {| st with net_state := s |}.

Definition net_set_timeout_handler (iv : Z) (f : thand_f) (st : tftp) : tftp :=
  {| st with time_handler := if iv =? 0 then None else Some (iv, f) |}.

Definition net_start_again (st : tftp) : Z * tftp :=
  let '(retry_forever, retrycnt) :=
    match netretry with
    | None => (false, 0)
    | Some s =>
        if bool_decide (s = text_yes) then (true, 0)
        else if bool_decide (s = text_no) then (false, 0)
        else if bool_decide (s = text_once) then (false, 1)
        else (false, strtoul_of s 0)
    end in
  if negb retry_forever && (retrycnt <? u32 (net_try_count st)) then (- ETIMEDOUT, net_set_state NETLOOP_FAIL st)
  else
    let st := {| st with net_try_count := s32 (net_try_count st + 1) |} in
    let '(ret, net_restart_wrap) := eth_try_another (negb (net_restarted st)) in
    if (net_restart_wrap : bool) then
      if net_dev_exists st then
        let st := net_set_timeout_handler 10000 start_again_timeout st in
        (ret, {| st with udp_handler := false |})
      else (ret, net_set_state NETLOOP_FAIL st)
    else (ret, net_set_state NETLOOP_RESTART st).

Definition restart (st : tftp) : tftp := (net_start_again st).2.

(** ** net/tftp.c *)

(** The result is the returned value and the memory. *)
Definition store_block (m : mem) (block src len : Z) (st : tftp) : option (Z * mem * tftp) :=
  let offset := u32 (block * tftp_block_size st + tftp_block_wrap_offset st) in
  let newsize := u32 (offset + len) in
  let store_addr := u32 (tftp_load_addr st + offset) in
  if (store_addr <? tftp_load_addr st) || (u32 (tftp_load_addr st + tftp_load_size st) <? u32 (store_addr + len))
  then Some (-1, m, st)
  else
    m ← mo_memcpy m store_addr src len;
    Some (0, m, if net_boot_file_size st <? newsize then {| st with net_boot_file_size := newsize |} else st).

Definition new_transfer (st : tftp) : tftp :=
  {| st with tftp_prev_block := 0; tftp_block_wrap := 0; tftp_block_wrap_offset := 0 |}.

Definition update_block_number (st : tftp) : tftp :=
  if (tftp_cur_block st =? 0) && negb (tftp_prev_block st =? 0) then
    {| st with tftp_block_wrap := u32 (tftp_block_wrap st + 1);
         tftp_block_wrap_offset := u32 (tftp_block_wrap_offset st + tftp_block_size st * TFTP_SEQUENCE_SIZE);
         timeout_count := 0 |}
  else st.

Definition tftp_complete (st : tftp) : tftp := net_set_state NETLOOP_SUCCESS st.

(** The packet that [tftp_send] makes. *)
Definition tftp_packet (st : tftp) : list Z :=
  match tftp_state st with
  | STATE_SEND_RRQ | STATE_SEND_WRQ =>
      htons TFTP_RRQ ++ tftp_filename st ++ [0] ++ text_octet ++ [0] ++
      text_timeout ++ [0] ++ to_digits 10 0 (timeout_ms st / 1000) ++ [0] ++
      text_tsize ++ [0] ++ to_digits 10 0 (net_boot_file_size st) ++ [0] ++
      text_blksize ++ [0] ++ to_digits 10 0 (tftp_block_size_option st) ++ [0]
  | STATE_OACK | STATE_RECV_WRQ | STATE_DATA => htons TFTP_ACK ++ htons (tftp_cur_block st)
  | STATE_TOO_LARGE => htons TFTP_ERROR ++ htons 3 ++ text_too_large ++ [0]
  | STATE_BAD_MAGIC => htons TFTP_ERROR ++ htons 2 ++ text_bad_magic ++ [0]
  end.

Definition tftp_send (st : tftp) : tftp :=
  {| st with sent := sent st ++ [(tftp_remote_port st, tftp_packet st)] |}.

(** The options of an OACK: a name is looked for at every position. *)
Definition tftp_oack (m : mem) (pkt len : Z) (st : tftp) : option tftp :=
  '(_, st) ← loop_brk (S (Z.to_nat len)) (λ '(i, st),
      if i + 8 <? len then
        b ← is_str m (pkt + i) text_blksize;
        st ← (if (b : bool) then '(v, _) ← simple_strtoul m (pkt + i + 8) 10; Some {| st with tftp_block_size := u16 v |}
              else Some st);
        b ← is_str m (pkt + i) text_tsize;
        st ← (if (b : bool) then '(v, _) ← simple_strtoul m (pkt + i + 6) 10; Some {| st with tftp_tsize := s32 v |}
              else Some st);
        Some (Next (i + 1, st))
      else Some (Break (i, st)))
    (0, st);
  Some st.

(** The block that a data packet holds: [len] bytes after its number at [pkt]. *)
Definition tftp_block (m : mem) (pkt len : Z) (st : tftp) : option (tftp * mem) :=
  let cur := tftp_cur_block st in
  if cur =? tftp_prev_block st then Some (st, m)
  else
    let st := {| st with tftp_prev_block := cur; timeout_count_max := tftp_timeout_count_max st |} in
    let st := net_set_timeout_handler (timeout_ms st) tftp_timeout st in
    '(r, m, st) ← store_block m (s32 (cur - 1)) (pkt + 2) len st;
    if negb (r =? 0) then Some (net_set_state NETLOOP_FAIL st, m)
    else
      let st := tftp_send st in
      Some (if len <? tftp_block_size st then tftp_complete st else st, m).

Definition tftp_data (m : mem) (pkt src len : Z) (st : tftp) : option (tftp * mem) :=
  cur ← load16 m pkt;
  let st := update_block_number {| st with tftp_cur_block := cur |} in
  if bool_decide (tftp_state st = STATE_SEND_RRQ ∨ tftp_state st = STATE_OACK ∨ tftp_state st = STATE_RECV_WRQ) then
    let st := new_transfer {| st with tftp_state := STATE_DATA; tftp_remote_port := src |} in
    if negb (cur =? 1) then Some (restart st, m) else tftp_block m pkt len st
  else tftp_block m pkt len st.

Definition tftp_handler (m : mem) (pkt dest src len : Z) (st : tftp) : option (tftp * mem) :=
  if negb (dest =? tftp_our_port st) then Some (st, m)
  else if bool_decide (tftp_state st ≠ STATE_SEND_RRQ) && negb (src =? tftp_remote_port st) &&
          bool_decide (tftp_state st ≠ STATE_RECV_WRQ) && bool_decide (tftp_state st ≠ STATE_SEND_WRQ)
  then Some (st, m)
  else if len <? 2 then Some (st, m)
  else
    let len := len - 2 in
    proto ← load16 m pkt;
    let pkt := pkt + 2 in
    if proto =? TFTP_OACK then
      st ← tftp_oack m pkt len {| st with tftp_state := STATE_OACK; tftp_remote_port := src |};
      Some (tftp_send st, m)
    else if proto =? TFTP_DATA then
      if len <? 2 then Some (st, m) else tftp_data m pkt src (len - 2) st
    else if proto =? TFTP_ERROR then
      code ← load16 m pkt;
      Some (if (code =? TFTP_ERR_FILE_NOT_FOUND) || (code =? TFTP_ERR_ACCESS_DENIED)
            then net_set_state NETLOOP_FAIL st else restart st, m)
    else Some (st, m).

Definition tftp_timeout_handler (st : tftp) : tftp :=
  let st := {| st with timeout_count := timeout_count st + 1 |} in
  if timeout_count_max st <? timeout_count st then restart st
  else
    let st := net_set_timeout_handler (timeout_ms st) tftp_timeout st in
    if bool_decide (tftp_state st ≠ STATE_RECV_WRQ) then tftp_send st else st.

Definition tftp_init_load_addr (st : tftp) : option (Z * tftp) :=
  max_size ← lmb_get_free_size board load_addr;
  if max_size =? 0 then Some (-1, st)
  else Some (0, {| st with tftp_load_size := max_size; tftp_load_addr := load_addr |}).

(** The options that the user may set in the environment. *)
Definition tftp_vars (st : tftp) : tftp :=
  let st :=
    match tftpblocksize with None => st | Some ep => {| st with tftp_block_size_option := u16 (strtol_of ep 10) |} end in
  let st := match tftptimeout with None => st | Some ep => {| st with timeout_ms := u32 (strtol_of ep 10) |} end in
  let st := if timeout_ms st <? 1000 then {| st with timeout_ms := 1000 |} else st in
  let st :=
    match tftptimeoutcountmax with None => st | Some ep => {| st with tftp_timeout_count_max := strtol_of ep 10 |} end in
  if tftp_timeout_count_max st <? 0 then {| st with tftp_timeout_count_max := 0 |} else st.

(** [now] is the time. *)
Definition tftp_start (now : Z) (st : tftp) : option tftp :=
  let st := tftp_vars st in
  let st := {| st with tftp_filename := bootfile |} in
  '(r, st) ← tftp_init_load_addr st;
  if negb (r =? 0) then Some (net_set_state NETLOOP_FAIL st)
  else
    let st := {| st with tftp_state := STATE_SEND_RRQ; timeout_count_max := tftp_timeout_count_max st |} in
    let st := net_set_timeout_handler (timeout_ms st) tftp_timeout st in
    let st := {| st with udp_handler := true; tftp_remote_port := WELL_KNOWN_PORT; timeout_count := 0;
                   tftp_our_port := 1024 + now mod 3072; tftp_cur_block := 0;
                   tftp_block_size := TFTP_BLOCK_SIZE; tftp_tsize := 0 |} in
    Some (tftp_send st).

(** ** The main loop (net/net.c) *)

(** What happens in a turn of the loop: packets arrive, each from and for a
    port, ctrl-c may have been pressed, and the time of the timeout handler may
    be over. *)
Record event := { packets : list (Z * Z * list Z); ctrl_c : bool; expired : bool }.

Definition net_cleanup_loop (st : tftp) : tftp := {| st with time_handler := None; udp_handler := false |}.

(** The packets that [eth_rx] finds, one after the other in the buffer at [rx]. *)
Fixpoint eth_rx (rx : Z) (l : list (Z * Z * list Z)) (st : tftp) (m : mem) : option (tftp * mem) :=
  match l with
  | [] => Some (st, m)
  | (dest, src, pkt) :: l =>
      let m := set_bytes m rx pkt in
      '(st, m) ← (if udp_handler st then tftp_handler m rx dest src (Z.of_nat (length pkt)) st else Some (st, m));
      eth_rx rx l st m
  end.

Definition run_timeout (st : tftp) : tftp :=
  match time_handler st with
  | None => st
  | Some (_, x) =>
      let st := {| st with time_handler := None |} in
      match x with
      | tftp_timeout => tftp_timeout_handler st
      | start_again_timeout => net_set_state NETLOOP_RESTART st
      end
  end.

(** The code from the label [restart] on, with the network configured. *)
Definition net_restart (now : Z) (st : tftp) : option tftp :=
  let st := net_set_state NETLOOP_CONTINUE st in
  tftp_start now {| st with net_dev_exists := true; net_boot_file_size := 0 |}.

(** A turn of the loop: it goes on, or returns a number.  No request for a
    hardware address is pending, so [arp_timeout_check] does nothing; the two
    variables that are set in the environment after a transfer, and the value
    that [net_state] gets back, are not modelled. *)
Definition net_turn (rx now : Z) (ev : event) (st : tftp) (m : mem) : option (ctl (tftp * mem) (Z * tftp * mem)) :=
  '(st, m) ← eth_rx rx (packets ev) st m;
  if ctrl_c ev then Some (Return (- EINTR, net_cleanup_loop st, m))
  else
  let st := if expired ev then run_timeout st else st in
  let st := if decide (net_state st = NETLOOP_FAIL) then (net_start_again st).2 else st in
  match net_state st with
  | NETLOOP_RESTART => st ← net_restart now {| st with net_restarted := true |}; Some (Next (st, m))
  | NETLOOP_SUCCESS => Some (Return (s32 (net_boot_file_size st), net_cleanup_loop st, m))
  | NETLOOP_FAIL => Some (Return (- ENONET, net_cleanup_loop st, m))
  | NETLOOP_CONTINUE => Some (Next (st, m))
  end.

(** The call of [net_loop], up to the first turn; the network device works. *)
Definition net_loop_enter (now : Z) (st : tftp) : option tftp :=
  net_restart now {| st with net_restarted := false; net_dev_exists := false; net_try_count := 1 |}.

End tftp.

(** ** Blocks in memory *)

Section store.
Context `{!MemOps}.

Lemma store_block_spec m st block src l off :
  0 ≤ tftp_load_addr st → 0 ≤ off → off = u32 (block * tftp_block_size st + tftp_block_wrap_offset st) →
  0 ≤ tftp_load_size st → tftp_load_addr st + tftp_load_size st < 2 ^ 32 →
  tftp_load_addr st + off + Z.of_nat (length l) < 2 ^ 32 →
  bytes_at m src l → Forall is_byte l → mapped m (tftp_load_addr st) (tftp_load_size st) →
  (src + Z.of_nat (length l) ≤ tftp_load_addr st ∨ tftp_load_addr st + tftp_load_size st ≤ src) →
  store_block m block src (Z.of_nat (length l)) st =
    if off + Z.of_nat (length l) <=? tftp_load_size st
    then Some (0, set_bytes m (tftp_load_addr st + off) l,
               if net_boot_file_size st <? off + Z.of_nat (length l)
               then {| st with net_boot_file_size := off + Z.of_nat (length l) |} else st)
    else Some (-1, m, st).
Proof.
  intros Ha Hoff0 Hoff Hs Hend Hw Hl Hb Hm Hd. unfold store_block. rewrite <-Hoff.
  rewrite (wrap_small 32 (tftp_load_addr st + off)), (wrap_small 32 (tftp_load_addr st + tftp_load_size st)),
    (wrap_small 32 (tftp_load_addr st + off + _)), (wrap_small 32 (off + _)) by lia.
  rewrite (proj2 (Z.ltb_ge (tftp_load_addr st + off) _)) by lia. cbn [orb].
  destruct (Z.leb_spec (off + Z.of_nat (length l)) (tftp_load_size st)).
  - rewrite (proj2 (Z.ltb_ge _ _)) by lia. rewrite (mo_memcpy_spec m _ src l); [done|done|done| |].
    + eapply mapped_sub; [exact Hm|lia|lia].
    + unfold fwd_ok. lia.
  - by rewrite (proj2 (Z.ltb_lt _ _)) by lia.
Qed.
End store.

Lemma load16_bytes m a x l : 0 ≤ x < 65536 → bytes_at m a (htons x ++ l) → load16 m a = Some x.
Proof.
  intros Hx Hb. pose proof (bytes_at_get m a (htons x ++ l) 0 _ Hb eq_refl) as H0.
  pose proof (bytes_at_get m a (htons x ++ l) 1 _ Hb eq_refl) as H1.
  rewrite Z.add_0_r in H0. unfold load16, load in *. rewrite H0. cbn [mbind option_bind].
  change (Z.of_nat 1) with 1 in H1. rewrite H1. cbn [mbind option_bind]. unfold wrap. change (2 ^ 8) with 256.
  rewrite (Z.mod_small (x / 256)) by (split; [apply Z.div_pos; lia|apply Z.div_lt_upper_bound; lia]).
  f_equal. pose proof (Z.div_mod x 256 ltac:(lia)). lia.
Qed.

Lemma htons_bytes x : Forall is_byte (htons x).
Proof. unfold htons. repeat constructor; apply wrap_range; lia. Qed.

(** ** Options *)

Lemma tftp_vars_spec (tftpblocksize tftptimeout tftptimeoutcountmax : option str) st :
  let st' := tftp_vars tftpblocksize tftptimeout tftptimeoutcountmax st in
  net_state st' = net_state st ∧ net_boot_file_size st' = net_boot_file_size st ∧
  tftp_block_wrap_offset st' = tftp_block_wrap_offset st ∧ timeout_ms st' ≠ 0 ∧ 0 ≤ tftp_timeout_count_max st'.
Proof.
  set (same := λ s : tftp, net_state s = net_state st ∧ net_boot_file_size s = net_boot_file_size st ∧
    tftp_block_wrap_offset s = tftp_block_wrap_offset st).
  assert (H1 : same (match tftpblocksize with None => st | Some ep => {| st with tftp_block_size_option := u16 (strtol_of ep 10) |} end))
    by by destruct tftpblocksize.
  unfold tftp_vars. revert H1. generalize (match tftpblocksize with None => st | Some ep => {| st with tftp_block_size_option := u16 (strtol_of ep 10) |} end). intros st1 H1.
  assert (H2 : same (match tftptimeout with None => st1 | Some ep => {| st1 with timeout_ms := u32 (strtol_of ep 10) |} end))
    by by destruct tftptimeout.
  revert H2. generalize (match tftptimeout with None => st1 | Some ep => {| st1 with timeout_ms := u32 (strtol_of ep 10) |} end). intros st2 H2.
  assert (H3 : same (if timeout_ms st2 <? 1000 then {| st2 with timeout_ms := 1000 |} else st2)) by by destruct (_ <? _).
  assert (M3 : timeout_ms (if timeout_ms st2 <? 1000 then {| st2 with timeout_ms := 1000 |} else st2) ≠ 0)
    by (destruct (Z.ltb_spec (timeout_ms st2) 1000); cbn; lia).
  revert H3 M3. generalize (if timeout_ms st2 <? 1000 then {| st2 with timeout_ms := 1000 |} else st2). intros st3 H3 M3.
  assert (H4 : same (match tftptimeoutcountmax with None => st3 | Some ep => {| st3 with tftp_timeout_count_max := strtol_of ep 10 |} end))
    by by destruct tftptimeoutcountmax.
  assert (M4 : timeout_ms (match tftptimeoutcountmax with None => st3 | Some ep => {| st3 with tftp_timeout_count_max := strtol_of ep 10 |} end) ≠ 0)
    by by destruct tftptimeoutcountmax.
  revert H4 M4. 
    generalize (match tftptimeoutcountmax with None => st3 | Some ep => {| st3 with tftp_timeout_count_max := strtol_of ep 10 |} end). intros st4 (<- & <- & <-) M4.
  destruct (Z.ltb_spec (tftp_timeout_count_max st4) 0); cbn; split_and!; done || lia.
Qed.

Lemma is_str_same m a s : bytes_at m a (s ++ [0]) → is_str m a s = Some true.
Proof.
  revert a. induction s as [|x s IH]; intros a Hb; apply bytes_at_cons in Hb as [Hx Hb]; cbn; unfold load; rewrite Hx; cbn.
  - done.
  - rewrite Z.eqb_refl. by apply IH.
Qed.

Lemma is_str_other m a x s c : m !! a = Some c → c ≠ x → is_str m a (x :: s) = Some false.
Proof. intros Hc Hne. cbn. unfold load. rewrite Hc. cbn. by rewrite (proj2 (Z.eqb_neq c x)). Qed.

(** The options of an OACK, the way the client names them, each with a number
    in digits. *)
Inductive oack_option := OBlksize (ds : list Z) | OTsize (ds : list Z) | OTimeout (ds : list Z).

Definition option_bytes (o : oack_option) : list Z :=
  match o with
  | OBlksize ds => text_blksize ++ [0] ++ ds ++ [0]
  | OTsize ds => text_tsize ++ [0] ++ ds ++ [0]
  | OTimeout ds => text_timeout ++ [0] ++ ds ++ [0]
  end.

Definition oack_options (os : list oack_option) : list Z := concat (option_bytes <$> os).
Definition oack_packet (os : list oack_option) : list Z := htons TFTP_OACK ++ oack_options os.

Definition option_ok (o : oack_option) : Prop :=
  match o with
  | OBlksize ds => Forall is_char ds ∧ Forall (λ c, isdigit c = true) ds ∧ ds ≠ [] ∧ 0 ≤ number_of 10 ds < 65536
  | OTsize ds | OTimeout ds => Forall is_char ds ∧ Forall (λ c, isdigit c = true) ds
  end.

(** The size of the blocks after the options. *)
Definition take_blksize (bs : Z) (o : oack_option) : Z := match o with OBlksize ds => number_of 10 ds | _ => bs end.
Definition oack_size (os : list oack_option) (bs : Z) : Z := foldl take_blksize bs os.

Lemma oack_size_again os bs : oack_size os (oack_size os bs) = oack_size os bs.
Proof.
  assert (H : (∀ b, oack_size os b = b) ∨ (∀ b c, oack_size os b = oack_size os c)).
  { induction os as [|o os IH] using rev_ind; [by left|]. unfold oack_size in *. setoid_rewrite foldl_app. cbn.
    destruct o; [by right|destruct IH; [by left|by right]..]. }
  destruct H as [H|H]; [by rewrite !H|apply H].
Qed.

Lemma option_bytes_length o : option_ok o → (length (option_bytes o) ≥ 7)%nat ∧
  match o with OBlksize _ => (length (option_bytes o) ≥ 10)%nat | _ => True end.
Proof.
  destruct o as [ds|ds|ds]; cbn [option_ok option_bytes]; rewrite ?length_app; cbn; [|lia..].
  intros (_ & _ & Hne & _). destruct ds; [done|cbn; lia].
Qed.

(** The options in the last eight bytes do not name the size of the blocks. *)
Lemma oack_size_short os bs : Forall option_ok os → (length (oack_options os) ≤ 8)%nat → oack_size os bs = bs.
Proof.
  intros Hos Hl. destruct os as [|o os]; [done|]. unfold oack_options in Hl. cbn [fmap list_fmap concat] in Hl.
  rewrite length_app in Hl. apply Forall_cons_iff in Hos as [Ho Hos]. destruct (option_bytes_length o Ho) as [H7 Hb].
  destruct os as [|o2 os].
  - destruct o; [lia|done..].
  - cbn [fmap list_fmap concat] in Hl. rewrite length_app in Hl. apply Forall_cons_iff in Hos as [Ho2 _].
    destruct (option_bytes_length o2 Ho2). lia.
Qed.

(** Inside an option no name begins. *)
Lemma option_inside o j c : option_ok o → (1 ≤ j)%nat → option_bytes o !! j = Some c →
  c ≠ 98 ∧ (c = 116 → option_bytes o !! S j = Some 0).
Proof.
  assert (Hds : ∀ (ds : list Z) i, Forall (λ c, isdigit c = true) ds → (ds ++ [0]) !! i = Some c → c ≠ 98 ∧ c ≠ 116).
  { intros ds i Hd Hc. apply list_elem_of_lookup_2, elem_of_app in Hc as [Hc|Hc].
    - rewrite Forall_forall in Hd. specialize (Hd c Hc). unfold isdigit in Hd. by split; intros ->.
    - by apply list_elem_of_singleton in Hc as ->. }
  intros Ho Hj Hc. destruct j as [|j]; [lia|]. clear Hj.
  destruct o as [ds|ds|ds]; cbn [option_ok option_bytes] in *; cbn [text_blksize text_tsize text_timeout app] in *.
  - do 7 (destruct j as [|j]; [by injection Hc as <-|]). destruct (Hds ds j) as [? ?]; [naive_solver|exact Hc|done].
  - do 5 (destruct j as [|j]; [by injection Hc as <-|]). destruct (Hds ds j) as [? ?]; [naive_solver|exact Hc|done].
  - do 7 (destruct j as [|j]; [by injection Hc as <-|]). destruct (Hds ds j) as [? ?]; [naive_solver|exact Hc|done].
Qed.

Lemma option_inside_names m a o j : option_ok o → (1 ≤ j < length (option_bytes o))%nat → bytes_at m a (option_bytes o) →
  is_str m (a + Z.of_nat j) text_blksize = Some false ∧ is_str m (a + Z.of_nat j) text_tsize = Some false.
Proof.
  intros Ho Hj Hb. destruct (lookup_lt_is_Some_2 (option_bytes o) j) as [c Hc]; [lia|].
  destruct (option_inside o j c Ho ltac:(lia) Hc) as [H98 H116]. pose proof (bytes_at_get _ _ _ _ _ Hb Hc) as Hl.
  split; [by eapply is_str_other|]. destruct (Z.eqb_spec c 116) as [->|Hne]; [|by eapply is_str_other].
  pose proof (bytes_at_get _ _ _ _ _ Hb (H116 eq_refl)) as Hl2. replace (a + Z.of_nat (S j)) with (a + Z.of_nat j + 1) in Hl2 by lia.
  cbn. unfold load. rewrite Hl. cbn. rewrite Hl2. done.
Qed.

(** The state after the names at a position have been looked for. *)
Definition option_start (m : mem) (a : Z) (st : tftp) : option tftp :=
  b ← is_str m a text_blksize;
  st ← (if (b : bool) then '(v, _) ← simple_strtoul m (a + 8) 10; Some {| st with tftp_block_size := u16 v |} else Some st);
  b ← is_str m a text_tsize;
  if (b : bool) then '(v, _) ← simple_strtoul m (a + 6) 10; Some {| st with tftp_tsize := s32 v |} else Some st.

Lemma option_start_spec m a o st : option_ok o → bytes_at m a (option_bytes o) →
  ∃ t, option_start m a st = Some {| st with tftp_block_size := take_blksize (tftp_block_size st) o; tftp_tsize := t |}.
Proof.
  intros Ho Hb. unfold option_start. assert (H0 : ∀ l x, bytes_at m a l → l !! 0%nat = Some x → m !! a = Some x)
    by (intros l x Hl Hx; rewrite <-(Z.add_0_r a); exact (bytes_at_get _ _ _ 0 _ Hl Hx)).
  assert (Hval : ∀ (s ds : list Z), bytes_at m a (s ++ [0] ++ ds ++ [0]) → Forall is_char ds →
    is_str m a s = Some true ∧ cstr_at m (a + Z.of_nat (S (length s))) ds).
  { intros s ds Hs Hch. rewrite app_assoc in Hs. apply bytes_at_app in Hs as [Hn Hd]. split; [by apply is_str_same|].
    split; [|done]. by rewrite length_app, Nat.add_1_r in Hd. }
  destruct o as [ds|ds|ds]; cbn [option_ok option_bytes take_blksize] in *.
  - destruct Ho as (Hch & Hd & _ & Hv). destruct (Hval _ _ Hb Hch) as [-> Hs]. cbn [mbind option_bind].
    change (Z.of_nat (S (length text_blksize))) with 8 in Hs.
    rewrite (is_str_other m a 116 _ 98 (H0 _ _ Hb eq_refl) ltac:(done) : is_str m a text_tsize = _).
    unfold simple_strtoul. rewrite (simple_strtou_spec 32 m (a + 8) 10 ds) by (done || lia). cbn [mbind option_bind].
    rewrite digits_of_10 by done. change (radix 10 ds) with 10. rewrite (wrap_small 32), (wrap_small 16) by lia.
    by exists (tftp_tsize st).
  - destruct Ho as (Hch & _). destruct (Hval _ _ Hb Hch) as [-> Hs].
    change (Z.of_nat (S (length text_tsize))) with 6 in Hs.
    rewrite (is_str_other m a 98 _ 116 (H0 _ _ Hb eq_refl) ltac:(done) : is_str m a text_blksize = _). cbn [mbind option_bind].
    unfold simple_strtoul. rewrite (simple_strtou_spec 32 m (a + 6) 10 ds) by (done || lia). cbn [mbind option_bind].
    by eexists.
  - rewrite (is_str_other m a 98 _ 116 (H0 _ _ Hb eq_refl) ltac:(done) : is_str m a text_blksize = _). cbn [mbind option_bind].
    pose proof (H0 _ _ Hb eq_refl) as Hl0. pose proof (bytes_at_get m a _ 1 105 Hb eq_refl) as Hl1.
    exists (tftp_tsize st). cbn [is_str text_tsize]. unfold load. rewrite Hl0. cbn [mbind option_bind Z.eqb Pos.eqb].
    change (Z.of_nat 1) with 1 in Hl1. rewrite Hl1. cbn. by destruct st.
Qed.

Lemma oack_options_app os1 os2 : oack_options (os1 ++ os2) = oack_options os1 ++ oack_options os2.
Proof. unfold oack_options. by rewrite fmap_app, concat_app. Qed.

Lemma oack_options_snoc os o : oack_options (os ++ [o]) = oack_options os ++ option_bytes o.
Proof. rewrite oack_options_app. unfold oack_options. cbn. by rewrite app_nil_r. Qed.

Lemma oack_spec m a os st : Forall option_ok os → bytes_at m a (oack_options os) →
  ∃ t, tftp_oack m a (Z.of_nat (length (oack_options os))) st =
    Some {| st with tftp_block_size := oack_size os (tftp_block_size st); tftp_tsize := t |}.
Proof.
  intros Hos Hb. unfold tftp_oack. set (len := Z.of_nat (length (oack_options os))).
  set (at_option := λ i os1, (i ≤ length (oack_options os1))%nat ∧
    (i = 0%nat ∧ os1 = [] ∨ ∃ os' o, os1 = os' ++ [o] ∧ (length (oack_options os') < i)%nat)).
  loop_ix (length (oack_options os))
    (λ (r : nat) '((i, s) : Z * tftp), ∃ os1 os2 t n, os = os1 ++ os2 ∧ i = Z.of_nat n ∧ (r + n = length (oack_options os))%nat ∧
      at_option n os1 ∧ s = {| st with tftp_block_size := oack_size os1 (tftp_block_size st); tftp_tsize := t |})
    (λ '((_, s) : Z * tftp), ∃ t, s = {| st with tftp_block_size := oack_size os (tftp_block_size st); tftp_tsize := t |}).
  - intros r [i s] (os1 & os2 & t & n & E & -> & Hr & [Hn Hat] & ->). cbv beta iota.
    assert (Hl : (length (oack_options os) = length (oack_options os1) + length (oack_options os2))%nat)
      by (by rewrite E, oack_options_app, length_app).
    rewrite E in Hos. apply Forall_app in Hos as [Hos1 Hos2].
    destruct (Z.ltb_spec (Z.of_nat n + 8) len) as [Hlt|Hge]; subst len.
    + set (s1 := {| st with tftp_block_size := _; tftp_tsize := _ |}).
      assert (Hs : ∃ o1 t', os = o1 ++ drop (length o1) os ∧ at_option (S n) o1 ∧ option_start m (a + Z.of_nat n) s1 =
        Some {| st with tftp_block_size := oack_size o1 (tftp_block_size st); tftp_tsize := t' |}).
      { destruct (decide (n = length (oack_options os1))) as [En|Hin].
        - destruct os2 as [|o os2]; [cbn in Hl; lia|]. apply Forall_cons_iff in Hos2 as [Ho Hos2].
          destruct (option_start_spec m (a + Z.of_nat n) o s1 Ho) as [t' Ht'].
          { rewrite E, oack_options_app in Hb. apply bytes_at_app in Hb as [_ Hb]. rewrite <-En in Hb.
            by apply bytes_at_app in Hb as [Hb _]. }
          exists (os1 ++ [o]), t'. split; [|split].
          + by rewrite E, (cons_middle o), app_assoc, drop_app_length.
          + split; [|right; exists os1, o; split; [done|lia]]. rewrite oack_options_snoc, length_app.
            destruct (option_bytes_length o Ho). lia.
          + rewrite Ht'. unfold oack_size. by rewrite foldl_app.
        - destruct Hat as [[-> ->]|(os' & o & -> & Hlo)]; [done|]. exists (os' ++ [o]), t.
          split; [by rewrite E, drop_app_length|]. split; [split; [lia|right; exists os', o; split; [done|lia]]|].
          apply Forall_app in Hos1 as [_ Ho%Forall_cons_iff]. rewrite oack_options_snoc, length_app in Hn, Hin.
          destruct (option_inside_names m (a + Z.of_nat (length (oack_options os'))) o (n - length (oack_options os')))
            as [Hn1 Hn2]; [apply Ho|lia| |].
          { rewrite E, oack_options_app, oack_options_snoc, <-app_assoc in Hb. apply bytes_at_app in Hb as [_ Hb].
            by apply bytes_at_app in Hb as [Hb _]. }
          replace (a + Z.of_nat (length (oack_options os')) + Z.of_nat (n - length (oack_options os'))) with (a + Z.of_nat n)
            in Hn1, Hn2 by lia.
          unfold option_start. rewrite Hn1. cbn [mbind option_bind]. by rewrite Hn2. }
      destruct Hs as (o1 & t' & E1 & Hat1 & Hs).
      match type of Hs with _ = Some ?s' => exists (Next (Z.of_nat n + 1, s')) end.
      split; [|exists (r - 1)%nat; split; [|exists o1, (drop (length o1) os), t', (S n); split_and!; [exact E1| | |exact Hat1|reflexivity]]; lia].
      unfold option_start in Hs. destruct (is_str m (a + Z.of_nat n) text_blksize) as [b1|]; [|done]. cbn [mbind option_bind] in *.
      destruct (if b1 then _ else Some s1) as [s2|]; [|done]. cbn [mbind option_bind] in *.
      destruct (is_str m (a + Z.of_nat n) text_tsize) as [b2|]; [|done]. cbn [mbind option_bind] in *.
      by rewrite Hs.
    + eexists. split; [reflexivity|]. exists t. rewrite E. unfold oack_size at 2. rewrite foldl_app.
      change (foldl take_blksize ?b os2) with (oack_size os2 b). rewrite (oack_size_short os2) by (done || lia). done.
  - exists [], os, (tftp_tsize st), 0%nat. split_and!; [done|done|lia|split; [cbn; lia|by left]|by destruct st].
  - lia.
  - destruct st0 as [? s]. destruct HQ as [t ->]. by exists t.
Qed.


(** ** Servers and the network *)

(** A server answers a packet to one of its ports with a packet from one. *)
Class TftpServer := {
  srv : Type;
  serve : srv → Z → list Z → srv * option (Z * list Z)
}.

(** The client, the memory, the server and the number of packets that may
    still be lost; or the number that [net_loop] returned. *)
Inductive sys `{!TftpServer} :=
  | Running (st : tftp) (m : mem) (s : srv) (k : nat)
  | Returned (ret : Z) (st : tftp) (m : mem).

Section network.
Context `{!MemOps, !TftpServer}.
Context (turn : event → tftp → mem → option (ctl (tftp * mem) (Z * tftp * mem))).

Definition after (r : option (ctl (tftp * mem) (Z * tftp * mem))) (s : srv) (k : nat) : option sys :=
  match r with
  | Some (Next (st, m)) => Some (Running st m s k)
  | Some (Return (ret, st, m)) => Some (Returned ret st m)
  | _ => None
  end.

(** The last packet of the client is answered and the answer arrives, once or
    more often; or one of the two is lost, and the timeout handler runs. *)
Inductive sys_step : sys → sys → Prop :=
  | Delivered st m s k p pkt s' src reply copies x :
      last (sent st) = Some (p, pkt) → serve s p pkt = (s', Some (src, reply)) →
      after (turn {| packets := replicate (S copies) (tftp_our_port st, src, reply); ctrl_c := false; expired := false |} st m) s' k = Some x →
      sys_step (Running st m s k) x
  | RequestLost st m s k x :
      after (turn {| packets := []; ctrl_c := false; expired := true |} st m) s k = Some x →
      sys_step (Running st m s (S k)) x
  | ReplyLost st m s k p pkt s' r x :
      last (sent st) = Some (p, pkt) → serve s p pkt = (s', r) →
      after (turn {| packets := []; ctrl_c := false; expired := true |} st m) s' k = Some x →
      sys_step (Running st m s (S k)) x.
End network.

(** ** A transfer *)

Section transfer.
Context `{!MemOps}.
Context (netretry : option str) (eth_try_another : bool → Z * bool).
Abbreviation tftp_data := (tftp_data netretry eth_try_another).
Abbreviation tftp_handler := (tftp_handler netretry eth_try_another).
Context (file : list Z) (file_bytes : Forall is_byte file).
(** The size of the blocks, the ports of the client and of the server, the
    receive buffer, and the area to load to. *)
Context (bs cport sport rx rxlen addr size : Z).
Context (bs_range : 0 < bs < 65536) (addr_range : 0 ≤ addr) (area_range : addr + size < 2 ^ 32)
  (file_fits : Z.of_nat (length file) ≤ size)
  (rx_room : 4 + bs ≤ rxlen) (rx_apart : rx + rxlen ≤ addr ∨ addr + size ≤ rx).

(** The bytes of block [n + 1], and the number of the blocks: the last one is
    shorter than the others. *)
Definition chunk (n : nat) : list Z := take (Z.to_nat bs) (drop (n * Z.to_nat bs) file).
Definition blocks : nat := S (length file / Z.to_nat bs).

Definition data_packet (n : nat) : list Z := htons TFTP_DATA ++ htons (Z.of_nat (S n) mod 65536) ++ chunk n.
Definition ack_packet (n : nat) : list Z := htons TFTP_ACK ++ htons (Z.of_nat n mod 65536).

(** What stays the same during the transfer, with [k] timeouts to spare. *)
Record session (k : nat) (st : tftp) : Prop := {
  s_port : tftp_our_port st = cport;
  s_addr : tftp_load_addr st = addr;
  s_size : tftp_load_size st = size;
  s_count : 0 ≤ timeout_count st ≤ timeout_count_max st - Z.of_nat k;
  s_max : timeout_count_max st = tftp_timeout_count_max st;
  s_timer : ∃ iv, time_handler st = Some (iv, tftp_timeout);
  s_ms : timeout_ms st ≠ 0;
  s_udp : udp_handler st = true;
  s_last : last (sent st) = Some (tftp_remote_port st, tftp_packet st)
}.

(** Before the first block, and after [n] blocks. *)
Record waiting (st : tftp) : Prop := {
  w_state : tftp_state st = STATE_SEND_RRQ ∨ tftp_state st = STATE_OACK;
  w_port : tftp_state st = STATE_OACK → tftp_remote_port st = sport;
  w_cur : tftp_cur_block st = 0;
  w_file : net_boot_file_size st = 0
}.

Record receiving (n : nat) (st : tftp) : Prop := {
  r_state : tftp_state st = STATE_DATA;
  r_port : tftp_remote_port st = sport;
  r_block : tftp_block_size st = bs;
  r_cur : tftp_cur_block st = Z.of_nat n mod 65536;
  r_prev : tftp_prev_block st = Z.of_nat n mod 65536;
  r_off : tftp_block_wrap_offset st = u32 (bs * 65536 * (Z.of_nat n / 65536));
  r_file : net_boot_file_size st = Z.of_nat (Nat.min (n * Z.to_nat bs) (length file))
}.

Definition phase (n : nat) (st : tftp) : Prop := match n with O => waiting st ∧ tftp_block_size st = bs | _ => receiving n st end.

(** The memory after [n] blocks. *)
Record loaded (n : nat) (m : mem) : Prop := {
  l_bytes : bytes_at m addr (take (n * Z.to_nat bs) file);
  l_mapped : mapped m addr size
}.

Lemma blocks_spec n : (n < blocks)%nat ↔ (n * Z.to_nat bs ≤ length file)%nat.
Proof.
  unfold blocks. pose proof (Nat.div_mod_eq (length file) (Z.to_nat bs)).
  pose proof (Nat.mod_upper_bound (length file) (Z.to_nat bs) ltac:(lia)). nia.
Qed.

Lemma chunk_length n : (n < blocks)%nat →
  length (chunk n) = Nat.min (Z.to_nat bs) (length file - n * Z.to_nat bs) ∧
  (length (chunk n) < Z.to_nat bs ↔ S n = blocks)%nat.
Proof.
  intros Hn. assert (Hl : length (chunk n) = Nat.min (Z.to_nat bs) (length file - n * Z.to_nat bs))
    by (unfold chunk; rewrite length_take, length_drop; lia).
  split; [done|]. pose proof (blocks_spec n) as H1. pose proof (blocks_spec (S n)) as H2. lia.
Qed.

Lemma loaded_next n m : (n < blocks)%nat → loaded n m →
  loaded (S n) (set_bytes m (addr + Z.of_nat n * bs) (chunk n)).
Proof.
  intros Hn [Hb Hm]. split; [|by apply mapped_set_bytes].
  assert (Hsplit : take (S n * Z.to_nat bs) file = take (n * Z.to_nat bs) file ++ chunk n).
  { unfold chunk. replace (S n * Z.to_nat bs)%nat with (n * Z.to_nat bs + Z.to_nat bs)%nat by lia.
    by rewrite <-take_take_drop. }
  pose proof (proj1 (blocks_spec n) Hn) as Hle.
  assert (Hlen : length (take (n * Z.to_nat bs) file) = (n * Z.to_nat bs)%nat) by (rewrite length_take; lia).
  rewrite Hsplit. apply bytes_at_app. rewrite Hlen.
  assert (E : Z.of_nat (n * Z.to_nat bs) = Z.of_nat n * bs) by lia. rewrite E.
  split; [|apply bytes_at_set_same]. apply bytes_at_set_other; [|done]. rewrite Hlen. lia.
Qed.

(** A packet in the buffer leaves the area alone. *)
Lemma loaded_receive n m pkt : Z.of_nat (length pkt) ≤ rxlen → loaded n m → loaded n (set_bytes m rx pkt).
Proof.
  intros Hl [Hb Hm]. split; [|by apply mapped_set_bytes]. apply bytes_at_set_other; [|done].
  rewrite length_take. lia.
Qed.
(** A state in which block [n + 1] has been announced. *)
Record expecting (n : nat) (st : tftp) : Prop := {
  x_state : tftp_state st = STATE_DATA;
  x_port : tftp_remote_port st = sport;
  x_block : tftp_block_size st = bs;
  x_cur : tftp_cur_block st = Z.of_nat (S n) mod 65536;
  x_prev : tftp_prev_block st ≠ tftp_cur_block st;
  x_off : tftp_block_wrap_offset st = u32 (bs * 65536 * (Z.of_nat (S n) / 65536));
  x_file : net_boot_file_size st = Z.of_nat n * bs;
  x_addr : tftp_load_addr st = addr;
  x_size : tftp_load_size st = size
}.

(** The offset of the block in the area. *)
Lemma block_offset n c off : (n < blocks)%nat → c = Z.of_nat (S n) mod 65536 →
  off = u32 (bs * 65536 * (Z.of_nat (S n) / 65536)) →
  Z.of_nat n * bs = u32 (s32 (c - 1) * bs + off).
Proof.
  intros Hn%blocks_spec -> ->. pose proof (Z.div_mod (Z.of_nat (S n)) 65536 ltac:(lia)) as Hd.
  pose proof (Z.mod_pos_bound (Z.of_nat (S n)) 65536 ltac:(lia)).
  rewrite (swrap_small 32) by lia. rewrite Z.add_comm, wrap_add_l.
  replace (bs * 65536 * (Z.of_nat (S n) / 65536) + (Z.of_nat (S n) mod 65536 - 1) * bs)
    with (Z.of_nat n * bs) by nia.
  symmetry. apply wrap_small. nia.
Qed.

Lemma block_step n st m : expecting n st → (n < blocks)%nat → loaded n m → bytes_at m (rx + 4) (chunk n) →
  ∃ st', tftp_block m (rx + 2) (Z.of_nat (length (chunk n))) st =
      Some (st', set_bytes m (addr + Z.of_nat n * bs) (chunk n)) ∧
    receiving (S n) st' ∧ net_state st' = (if decide (S n = blocks) then NETLOOP_SUCCESS else net_state st) ∧
    (∀ k, tftp_our_port st = cport → 0 ≤ timeout_count st ≤ timeout_count_max st - Z.of_nat k →
      timeout_count_max st = tftp_timeout_count_max st → timeout_ms st ≠ 0 → udp_handler st = true → session k st').
Proof.
  intros [Hst Hport Hbs Hcur Hprev Hoff Hfile Ha Hsz] Hn Hld Hb. unfold tftp_block.
  rewrite (proj2 (Z.eqb_neq _ _)) by congruence.
  destruct (chunk_length n Hn) as [Hcl Hlast]. pose proof (proj1 (blocks_spec n) Hn) as Hle.
  unfold net_set_timeout_handler. replace (rx + 2 + 2) with (rx + 4) by lia.
  rewrite (store_block_spec _ _ _ _ _ (Z.of_nat n * bs)); cbn -[wrap swrap set_bytes]; rewrite ?Ha, ?Hsz, ?Hbs;
    [|done|nia|by apply block_offset|lia|lia|nia|done|by apply Forall_take, Forall_drop|by destruct Hld|lia].
  assert (E : Z.of_nat n * bs + Z.of_nat (length (chunk n)) = Z.of_nat (Nat.min (S n * Z.to_nat bs) (length file))) by lia.
  rewrite E, (proj2 (Z.leb_le _ _)) by lia. cbn [mbind option_bind negb Z.eqb]. rewrite Hfile.
  set (F := Z.of_nat (Nat.min _ _)) in *.
  match goal with |- context [if Z.of_nat n * bs <? F then ?a else ?b] =>
    replace (if Z.of_nat n * bs <? F then a else b) with a
      by (destruct (Z.ltb_spec (Z.of_nat n * bs) F); [done|]; by replace F with (Z.of_nat n * bs) by lia) end.
  cbn [tftp_block_size]. eexists. split; [reflexivity|].
  assert (Hdec : (Z.of_nat (length (chunk n)) <? bs) = bool_decide (S n = blocks))
    by (destruct (Z.ltb_spec (Z.of_nat (length (chunk n))) bs); symmetry;
        [apply bool_decide_eq_true_2|apply bool_decide_eq_false_2]; lia).
  rewrite Hdec. split; [|split].
  - destruct (bool_decide _); (split; [done|done|done|done|done|done|]); cbn; done.
  - case_decide; [by rewrite bool_decide_eq_true_2|by rewrite bool_decide_eq_false_2].
  - intros k Hp Hc Hm Hms Hu. destruct (bool_decide _);
      (split; cbn; [done|done|done|lia|done|rewrite (proj2 (Z.eqb_neq _ _) Hms); by eexists|done|done|by rewrite last_snoc]).
Qed.
(** The number of the next block. *)
Lemma next_number n : (1 ≤ n)%nat →
  let c := Z.of_nat (S n) mod 65536 in
  Z.of_nat n mod 65536 ≠ c ∧
  (c = 0 ∧ Z.of_nat n mod 65536 ≠ 0 ∧ Z.of_nat (S n) / 65536 = Z.of_nat n / 65536 + 1 ∨
   c ≠ 0 ∧ Z.of_nat (S n) / 65536 = Z.of_nat n / 65536).
Proof.
  intros Hn c. subst c. pose proof (Z.div_mod (Z.of_nat n) 65536 ltac:(lia)).
  pose proof (Z.mod_pos_bound (Z.of_nat n) 65536 ltac:(lia)).
  pose proof (Z.div_mod (Z.of_nat (S n)) 65536 ltac:(lia)).
  pose proof (Z.mod_pos_bound (Z.of_nat (S n)) 65536 ltac:(lia)). lia.
Qed.

Lemma data_expect k n st m len l : session k st → phase n st → (n < blocks)%nat →
  bytes_at m (rx + 2) (htons (Z.of_nat (S n) mod 65536) ++ l) →
  ∃ st1, tftp_data m (rx + 2) sport len st = tftp_block m (rx + 2) len st1 ∧ expecting n st1 ∧
    net_state st1 = net_state st ∧ tftp_our_port st1 = cport ∧ 0 ≤ timeout_count st1 ≤ timeout_count_max st1 - Z.of_nat k ∧
    timeout_count_max st1 = tftp_timeout_count_max st1 ∧ timeout_ms st1 ≠ 0 ∧ udp_handler st1 = true.
Proof.
  intros [] Hph Hn Hb. unfold Tftp.tftp_data.
  rewrite (load16_bytes _ _ _ _ (Z.mod_pos_bound _ 65536 ltac:(lia)) Hb). cbn [mbind option_bind].
  destruct n as [|n].
  - destruct Hph as [[Hw _ Hc Hf] Hbs]. unfold update_block_number. cbn -[Z.modulo].
    change (Z.of_nat 1 mod 65536) with 1. cbn [Z.eqb andb]. cbn [tftp_state].
    rewrite bool_decide_eq_true_2 by naive_solver. cbn [negb]. eexists. split; [reflexivity|].
    split; [|done]. split; cbn -[wrap]; rewrite ?Hf; try done.
    change (Z.of_nat 1 / 65536) with 0. by rewrite Z.mul_0_r.
  - destruct Hph as [Hs Hp Hbs Hc Hpr Ho Hf]. destruct (next_number (S n) ltac:(lia)) as [Hne Hcase]. cbv zeta in *.
    assert (Hf' : net_boot_file_size st = Z.of_nat (S n) * bs) by (rewrite Hf; apply blocks_spec in Hn; lia).
    unfold update_block_number. cbn -[Z.modulo Z.of_nat wrap Z.mul]. rewrite Hpr.
    destruct Hcase as [(E0 & Hn0 & Hdiv)|[Hn0 Hdiv]].
    + rewrite E0, (proj2 (Z.eqb_neq _ _) Hn0). cbn [Z.eqb andb negb tftp_state].
      rewrite bool_decide_eq_false_2 by (rewrite Hs; naive_solver).
      eexists. split; [reflexivity|]. split; [|split_and!; (done || (cbn; lia))].
      split; cbn -[Z.modulo Z.of_nat wrap Z.mul Z.div]; try (done || congruence || lia).
      rewrite Ho, Hbs, wrap_add_l, Hdiv. change TFTP_SEQUENCE_SIZE with 65536. f_equal. lia.
    + rewrite (proj2 (Z.eqb_neq _ _) Hn0). cbn [andb tftp_state].
      rewrite bool_decide_eq_false_2 by (rewrite Hs; naive_solver).
      eexists. split; [reflexivity|]. split; [|split_and!; (done || (cbn; lia))].
      split; cbn -[Z.modulo Z.of_nat wrap Z.mul Z.div]; try (done || congruence || lia).
Qed.
(** The handler on the next block, and on a copy of the last one. *)
Lemma handler_data k n st m : session k st → phase n st → (n < blocks)%nat → loaded n m →
  bytes_at m rx (data_packet n) →
  ∃ st', tftp_handler m rx cport sport (Z.of_nat (length (data_packet n))) st =
      Some (st', set_bytes m (addr + Z.of_nat n * bs) (chunk n)) ∧
    session k st' ∧ phase (S n) st' ∧ net_state st' = (if decide (S n = blocks) then NETLOOP_SUCCESS else net_state st).
Proof.
  intros Hs Hph Hn Hld Hb. unfold Tftp.tftp_handler.
  rewrite (s_port _ _ Hs), Z.eqb_refl. cbn [negb].
  assert (Hsrc : bool_decide (tftp_state st ≠ STATE_SEND_RRQ) && negb (sport =? tftp_remote_port st) = false).
  { destruct n as [|n]; [destruct Hph as [[[Hw|Hw] Hp _ _] _]|destruct Hph as [Hw Hp]]; rewrite Hw;
      [by rewrite bool_decide_eq_false_2 by naive_solver| |]; rewrite Hp by done; by rewrite Z.eqb_refl, andb_false_r. }
  rewrite Hsrc. cbn [andb]. unfold data_packet in *.
  assert (El : Z.of_nat (length (htons TFTP_DATA ++ htons (Z.of_nat (S n) mod 65536) ++ chunk n)) = 4 + Z.of_nat (length (chunk n)))
    by (rewrite !length_app; cbn [length htons]; lia).
  rewrite El, (load16_bytes m rx TFTP_DATA _ ltac:(done) Hb). cbn [mbind option_bind].
  rewrite (proj2 (Z.ltb_ge _ _)), (proj2 (Z.ltb_ge (4 + _ - 2) _)) by lia. cbn [TFTP_DATA TFTP_OACK Z.eqb Pos.eqb].
  replace (4 + Z.of_nat (length (chunk n)) - 2 - 2) with (Z.of_nat (length (chunk n))) by lia.
  apply bytes_at_app in Hb as [_ Hb]. change (Z.of_nat (length (htons TFTP_DATA))) with 2 in Hb.
  destruct (data_expect k n st m (Z.of_nat (length (chunk n))) (chunk n) Hs Hph Hn Hb)
    as (st1 & -> & Hx & Hnet & Hp & Hc & Hm & Hms & Hu).
  apply bytes_at_app in Hb as [_ Hb]. change (Z.of_nat (length (htons _))) with 2 in Hb.
  replace (rx + 2 + 2) with (rx + 4) in Hb by lia.
  destruct (block_step n st1 m Hx Hn Hld Hb) as (st' & -> & Hr & Hnet' & Hses).
  exists st'. split; [done|]. split; [by apply Hses|]. split; [done|]. by rewrite Hnet', Hnet.
Qed.

Lemma handler_copy k n st m : session k st → phase (S n) st → bytes_at m rx (data_packet n) →
  tftp_handler m rx cport sport (Z.of_nat (length (data_packet n))) st = Some (st, m).
Proof.
  intros Hs [Hst Hp _ Hc Hpr _ _] Hb. unfold Tftp.tftp_handler.
  rewrite (s_port _ _ Hs), Z.eqb_refl, Hp, Z.eqb_refl, andb_false_r. cbn [negb andb]. unfold data_packet in *.
  assert (El : Z.of_nat (length (htons TFTP_DATA ++ htons (Z.of_nat (S n) mod 65536) ++ chunk n)) = 4 + Z.of_nat (length (chunk n)))
    by (rewrite !length_app; cbn [length htons]; lia).
  rewrite El, (load16_bytes m rx TFTP_DATA _ ltac:(done) Hb). cbn [mbind option_bind].
  rewrite (proj2 (Z.ltb_ge _ _)), (proj2 (Z.ltb_ge (4 + _ - 2) _)) by lia. cbn [TFTP_DATA TFTP_OACK Z.eqb Pos.eqb].
  apply bytes_at_app in Hb as [_ Hb]. change (Z.of_nat (length (htons TFTP_DATA))) with 2 in Hb.
  unfold Tftp.tftp_data. rewrite (load16_bytes _ _ _ _ (Z.mod_pos_bound _ 65536 ltac:(lia)) Hb). cbn [mbind option_bind].
  rewrite <-Hc. assert (E : {| st with tftp_cur_block := tftp_cur_block st |} = st) by by destruct st.
  rewrite E. unfold update_block_number. rewrite Hpr, <-Hc.
  rewrite andb_negb_r. rewrite bool_decide_eq_false_2 by (rewrite Hst; naive_solver).
  unfold tftp_block. by rewrite Hpr, Hc, Z.eqb_refl.
Qed.
Lemma handler_oack k st m os : session k st → waiting st → Forall option_ok os →
  oack_size os (tftp_block_size st) = bs → bytes_at m rx (oack_packet os) →
  ∃ st', tftp_handler m rx cport sport (Z.of_nat (length (oack_packet os))) st = Some (st', m) ∧
    session k st' ∧ phase 0 st' ∧ tftp_state st' = STATE_OACK ∧ net_state st' = net_state st.
Proof.
  intros Hs [Hw Hp Hc Hf] Hos Hn Hb. unfold Tftp.tftp_handler.
  rewrite (s_port _ _ Hs), Z.eqb_refl. cbn [negb].
  assert (Hsrc : bool_decide (tftp_state st ≠ STATE_SEND_RRQ) && negb (sport =? tftp_remote_port st) = false).
  { destruct Hw as [Hw|Hw]; [by rewrite bool_decide_eq_false_2 by naive_solver|].
    by rewrite Hp, Z.eqb_refl, andb_false_r. }
  rewrite Hsrc. cbn [andb]. unfold oack_packet in *.
  assert (El : Z.of_nat (length (htons TFTP_OACK ++ oack_options os)) = 2 + Z.of_nat (length (oack_options os)))
    by (rewrite !length_app; cbn [length htons]; lia).
  rewrite El, (load16_bytes m rx TFTP_OACK _ ltac:(done) Hb). cbn [mbind option_bind].
  rewrite (proj2 (Z.ltb_ge _ _)) by lia. cbn [TFTP_OACK Z.eqb Pos.eqb].
  replace (2 + Z.of_nat (length (oack_options os)) - 2) with (Z.of_nat (length (oack_options os))) by lia.
  apply bytes_at_app in Hb as [_ Hb]. change (Z.of_nat (length (htons TFTP_OACK))) with 2 in Hb.
  match goal with |- context [tftp_oack m (rx + 2) _ ?s] => destruct (oack_spec m (rx + 2) os s Hos Hb) as [t ->] end.
  cbn [mbind option_bind tftp_block_size]. rewrite Hn. eexists. split; [reflexivity|].
  destruct Hs as [? ? ? ? ? ? ? ? _]. split; [by split; cbn; rewrite ?last_snoc|].
  split; [|done]. split; [|done]. split; cbn; [by right|done|done|done].
Qed.

(** A timeout sends the last packet again. *)
Lemma timeout_step k st : session (S k) st → tftp_state st ≠ STATE_RECV_WRQ →
  let st' := run_timeout netretry eth_try_another st in
  session k st' ∧ net_state st' = net_state st ∧ (waiting st → waiting st') ∧ (∀ n, phase n st → phase n st') ∧
  tftp_state st' = tftp_state st ∧ tftp_block_size st' = tftp_block_size st.
Proof.
  intros [Hp Ha Hsz Hc Hm (iv & Ht) Hms Hu Hl] Hst st'. subst st'. unfold run_timeout. rewrite Ht. unfold tftp_timeout_handler.
  cbn [timeout_count timeout_count_max]. rewrite (proj2 (Z.ltb_ge _ _)) by lia.
  unfold net_set_timeout_handler. cbn [tftp_state]. rewrite bool_decide_eq_true_2 by done.
  split; [|split; [done|split; [|split; [|done]]]].
  - split; cbn; try done; [lia|rewrite (proj2 (Z.eqb_neq _ _) Hms); by eexists|by rewrite last_snoc].
  - by intros [].
  - intros [|n]; [by intros [[] ?]|by intros []].
Qed.
(** Copies of a block that has arrived. *)
Lemma rx_copies k n st m c : session k st → phase (S n) st → (n < blocks)%nat → loaded (S n) m →
  ∃ m', eth_rx netretry eth_try_another rx (replicate c (cport, sport, data_packet n)) st m = Some (st, m') ∧ loaded (S n) m'.
Proof.
  intros Hs Hph Hn. revert m. induction c as [|c IH]; intros m Hld; [by exists m|].
  cbn [replicate eth_rx]. rewrite (s_udp _ _ Hs).
  rewrite (handler_copy k n st _ Hs Hph (bytes_at_set_same _ _ _)). cbn [mbind option_bind].
  apply IH. apply loaded_receive; [|done]. unfold data_packet. rewrite !length_app. cbn [length htons].
  destruct (chunk_length n Hn) as [-> _]. lia.
Qed.

(** A block arrives, once or more often. *)
Lemma rx_data k n st m c : session k st → phase n st → (n < blocks)%nat → loaded n m →
  ∃ st' m', eth_rx netretry eth_try_another rx (replicate (S c) (cport, sport, data_packet n)) st m = Some (st', m') ∧
    session k st' ∧ phase (S n) st' ∧ loaded (S n) m' ∧
    net_state st' = (if decide (S n = blocks) then NETLOOP_SUCCESS else net_state st).
Proof.
  intros Hs Hph Hn Hld. cbn [replicate eth_rx]. rewrite (s_udp _ _ Hs).
  assert (Hl : Z.of_nat (length (data_packet n)) ≤ rxlen).
  { unfold data_packet. rewrite !length_app. cbn [length htons]. destruct (chunk_length n Hn) as [-> _]. lia. }
  destruct (handler_data k n st (set_bytes m rx (data_packet n)) Hs Hph Hn (loaded_receive _ _ _ Hl Hld)
    (bytes_at_set_same _ _ _)) as (st' & -> & Hs' & Hph' & Hnet).
  cbn [mbind option_bind].
  destruct (rx_copies k n st' _ c Hs' Hph' Hn (loaded_next _ _ Hn (loaded_receive _ _ _ Hl Hld))) as (m' & -> & Hld').
  by exists st', m'.
Qed.

Lemma rx_oack k st m c os : session k st → waiting st → Forall option_ok os →
  oack_size os (tftp_block_size st) = bs → Z.of_nat (length (oack_packet os)) ≤ rxlen → loaded 0 m →
  ∃ st' m', eth_rx netretry eth_try_another rx (replicate (S c) (cport, sport, oack_packet os)) st m = Some (st', m') ∧
    session k st' ∧ phase 0 st' ∧ tftp_state st' = STATE_OACK ∧ loaded 0 m' ∧ net_state st' = net_state st.
Proof.
  intros Hs Hw Hos Hn Hl. revert st m Hs Hw Hn. induction c as [|c IH]; intros st m Hs Hw Hn Hld;
    cbn [replicate]; cbn [eth_rx]; rewrite (s_udp _ _ Hs);
    destruct (handler_oack k st (set_bytes m rx (oack_packet os)) os Hs Hw Hos Hn (bytes_at_set_same _ _ _))
      as (st' & -> & Hs' & Hph' & Hst' & Hnet); cbn [mbind option_bind].
  - exists st', (set_bytes m rx (oack_packet os)). split_and!; try done. by apply loaded_receive.
  - destruct (IH st' (set_bytes m rx (oack_packet os)) Hs') as (st2 & m2 & H2 & Hs2 & Hph2 & Hst2 & Hl2 & Hn2);
      [by destruct Hph'|destruct Hph' as [_ ->]; rewrite <-Hn; apply oack_size_again|by apply loaded_receive|].
    exists st2, m2. cbn [replicate eth_rx] in H2. rewrite H2. split_and!; try done. by rewrite Hn2.
Qed.
(** *** A server that has the file *)

(** What RFC 1350 and RFC 2347 ask of a server: a request for the file is
    answered with the first block, or with an OACK of the options [oack] - any of
    the requested ones, named the way the client names them; the acknowledgement of a block, and of the OACK as block 0, with the
    block after it, as often as it is asked for. *)
Class HonestServer `{!TftpServer} (filename : str) (oack : option (list oack_option)) := {
  fresh : srv → Prop;
  holds : nat → srv → Prop;
  request s rest : fresh s →
    ∃ s' reply, serve s WELL_KNOWN_PORT (htons TFTP_RRQ ++ filename ++ [0] ++ text_octet ++ [0] ++ rest) =
        (s', Some (sport, reply)) ∧ fresh s' ∧
      ((∃ os, oack = Some os ∧ reply = oack_packet os ∧ holds 0 s') ∨ oack = None ∧ reply = data_packet 0 ∧ holds 1 s');
  acked n s : holds n s → (n < blocks)%nat →
    ∃ s', serve s sport (ack_packet n) = (s', Some (sport, data_packet n)) ∧ holds n s' ∧ holds (S n) s'
}.

Context (tftpblocksize tftptimeout tftptimeoutcountmax : option str) (bootfile : str) (board : lmb) (now : Z).
Context `{!TftpServer} (oack : option (list oack_option)) `{!HonestServer bootfile oack}.

(** The options of the OACK give the blocks the size [bs]: it is 512 where none
    names it. *)
Definition oack_ok : Prop :=
  match oack with
  | Some os => Forall option_ok os ∧ oack_size os TFTP_BLOCK_SIZE = bs ∧ Z.of_nat (length (oack_packet os)) ≤ rxlen
  | None => bs = TFTP_BLOCK_SIZE
  end.
Context (size_known : oack_ok).

Abbreviation turn :=
  (net_turn netretry tftpblocksize tftptimeout tftptimeoutcountmax bootfile board addr eth_try_another rx now).

(** The request has been sent; [n] blocks have been acknowledged. *)
Record asking (st : tftp) : Prop := {
  a_waiting : waiting st;
  a_state : tftp_state st = STATE_SEND_RRQ;
  a_block : tftp_block_size st = TFTP_BLOCK_SIZE;
  a_port : tftp_remote_port st = WELL_KNOWN_PORT;
  a_file : tftp_filename st = bootfile
}.

Definition answered (n : nat) (st : tftp) : Prop := phase n st ∧ (n = 0%nat → tftp_state st = STATE_OACK).

(** The file is in memory and net_loop returns its size. *)
Definition finished (x : sys) : Prop :=
  match x with
  | Returned ret st m => ret = s32 (Z.of_nat (length file)) ∧ net_boot_file_size st = Z.of_nat (length file) ∧ bytes_at m addr file
  | _ => False
  end.

Definition sys_inv (x : sys) : Prop :=
  match x with
  | Running st m s k => session k st ∧ net_state st = NETLOOP_CONTINUE ∧
      (asking st ∧ fresh s ∧ loaded 0 m ∨ ∃ n, (n < blocks)%nat ∧ answered n st ∧ loaded n m ∧ holds n s)
  | Returned _ _ _ => finished x
  end.

(** The blocks and the losses that are left. *)
Definition sys_left (x : sys) : nat :=
  match x with
  | Running st _ _ k =>
      k + match tftp_state st with
          | STATE_SEND_RRQ => S blocks
          | STATE_OACK => blocks
          | _ => blocks - Z.to_nat (net_boot_file_size st / bs)
          end
  | Returned _ _ _ => 0%nat
  end.
Lemma turn_data k n st m c s : session k st → net_state st = NETLOOP_CONTINUE → phase n st → (n < blocks)%nat → loaded n m →
  ∃ x, after (turn {| packets := replicate (S c) (cport, sport, data_packet n); ctrl_c := false; expired := false |} st m) s k = Some x ∧
    (S n = blocks → finished x) ∧
    (S n ≠ blocks → ∃ st' m', x = Running st' m' s k ∧ session k st' ∧ net_state st' = NETLOOP_CONTINUE ∧
       answered (S n) st' ∧ loaded (S n) m').
Proof.
  intros Hs Hnet Hph Hn Hld. unfold net_turn. cbn [packets ctrl_c expired].
  destruct (rx_data k n st m c Hs Hph Hn Hld) as (st' & m' & -> & Hs' & Hph' & Hld' & Hnet').
  cbn [mbind option_bind]. rewrite Hnet in Hnet'. destruct (decide (S n = blocks)) as [E|E]; rewrite Hnet'; cbn [decide].
  - rewrite decide_False by done. rewrite Hnet'. cbn [after]. eexists. split; [done|]. split; [intros _|done].
    assert (Hall : (S n * Z.to_nat bs > length file)%nat) by (pose proof (blocks_spec (S n)); lia).
    unfold net_cleanup_loop. cbn [finished net_boot_file_size]. destruct Hph' as [_ _ _ _ _ _ Hf]. rewrite Hf, Nat.min_r by lia. split_and!; [done|done|].
    destruct Hld' as [Hb _]. by rewrite take_ge in Hb by lia.
  - rewrite decide_False by done. rewrite Hnet'. cbn [after]. eexists. split; [done|]. split; [done|].
    intros _. exists st', m'. by split_and!.
Qed.

Lemma turn_oack k st m c s os : session k st → net_state st = NETLOOP_CONTINUE → waiting st → tftp_block_size st = TFTP_BLOCK_SIZE → loaded 0 m →
  oack = Some os →
  ∃ st' m', after (turn {| packets := replicate (S c) (cport, sport, oack_packet os); ctrl_c := false; expired := false |} st m) s k =
      Some (Running st' m' s k) ∧ session k st' ∧ net_state st' = NETLOOP_CONTINUE ∧ answered 0 st' ∧ loaded 0 m'.
Proof.
  intros Hs Hnet Hw Hb Hld Ho. unfold oack_ok in size_known. rewrite Ho in size_known. destruct size_known as (Hos & Hv & Hl).
  unfold net_turn. cbn [packets ctrl_c expired].
  destruct (rx_oack k st m c os Hs Hw Hos ltac:(by rewrite Hb) Hl Hld) as (st' & m' & -> & Hs' & Hph' & Hst' & Hld' & Hnet').
  cbn [mbind option_bind]. rewrite Hnet in Hnet'. rewrite Hnet', decide_False, Hnet' by done. exists st', m'. by split_and!.
Qed.

Lemma turn_lost k st m s : session (S k) st → net_state st = NETLOOP_CONTINUE → tftp_state st ≠ STATE_RECV_WRQ →
  ∃ st', after (turn {| packets := []; ctrl_c := false; expired := true |} st m) s k = Some (Running st' m s k) ∧
    session k st' ∧ net_state st' = NETLOOP_CONTINUE ∧ (asking st → asking st') ∧ (∀ n, answered n st → answered n st') ∧
    tftp_state st' = tftp_state st ∧ net_boot_file_size st' = net_boot_file_size st.
Proof.
  intros Hs Hnet Hst. unfold net_turn. cbn [packets ctrl_c expired eth_rx mbind option_bind].
  destruct (timeout_step k st Hs Hst) as (Hs' & Hnet' & Hw & Hph & Hst' & Hbs').
  rewrite Hnet in Hnet'. rewrite Hnet', decide_False, Hnet' by done. eexists. split; [done|].
  destruct Hs as [_ _ _ Hc _ (iv & Ht) Hms _ _].
  assert (E : ∀ {A} (f : tftp → A), (∀ a b, f {| st with timeout_count := a; time_handler := b;
      sent := sent st ++ [(tftp_remote_port st, tftp_packet st)] |} = f st) → f (run_timeout netretry eth_try_another st) = f st).
  { intros A f Hf. unfold run_timeout. rewrite Ht. unfold tftp_timeout_handler. cbn [timeout_count timeout_count_max].
    rewrite (proj2 (Z.ltb_ge _ _)) by lia. unfold net_set_timeout_handler. cbn [tftp_state].
    rewrite bool_decide_eq_true_2 by done. apply Hf. }
  split_and!; [done|done| | |done|by apply (E Z net_boot_file_size)].
  - intros []. split; [by apply Hw|by rewrite Hst'|by rewrite Hbs'|by rewrite (E Z tftp_remote_port)|by rewrite (E str tftp_filename)].
  - intros n [Hp Hz]. split; [by apply Hph|]. by rewrite Hst'.
Qed.
(** The last packet of the client, and its answer. *)
Lemma client_packet k n st : session k st → answered n st →
  last (sent st) = Some (sport, ack_packet n) ∧ tftp_state st ≠ STATE_RECV_WRQ.
Proof.
  intros Hs [Hph Hst]. rewrite (s_last _ _ Hs). unfold tftp_packet, ack_packet. destruct n as [|n].
  - destruct Hph as [[_ Hp Hc _] _]. rewrite Hst, Hp, Hc by auto. done.
  - destruct Hph as [Hs' Hp _ Hc _ _ _]. rewrite Hs', Hp, Hc. done.
Qed.

Lemma client_request k st s : session k st → asking st → fresh s →
  ∃ pkt s' reply, last (sent st) = Some (WELL_KNOWN_PORT, pkt) ∧ serve s WELL_KNOWN_PORT pkt = (s', Some (sport, reply)) ∧ fresh s' ∧
    ((∃ os, oack = Some os ∧ reply = oack_packet os ∧ holds 0 s') ∨ oack = None ∧ reply = data_packet 0 ∧ holds 1 s').
Proof.
  intros Hs [_ Hst _ Hp Hf] Hfr. rewrite (s_last _ _ Hs), Hp. unfold tftp_packet. rewrite Hst, Hf.
  eexists _. edestruct (request s) as (s' & reply & H1 & H2 & H3); [done|]. exists s', reply.
  split; [reflexivity|]. split; [exact H1|done].
Qed.

(** Every way on from a state of the invariant. *)
Lemma answer_step k n st m s' c : session k st → net_state st = NETLOOP_CONTINUE → phase n st → (n < blocks)%nat →
  loaded n m → holds (S n) s' →
  ∃ x, after (turn {| packets := replicate (S c) (cport, sport, data_packet n); ctrl_c := false; expired := false |} st m) s' k = Some x ∧
    sys_inv x ∧ (sys_left x ≤ k + (blocks - S n))%nat.
Proof.
  intros Hs Hnet Hph Hn Hld Hh.
  destruct (turn_data k n st m c s' Hs Hnet Hph Hn Hld) as (x & Hx & Hfin & Hgo). exists x. split; [done|].
  destruct (decide (S n = blocks)) as [E|E].
  - specialize (Hfin E). destruct x; [done|]. split; [done|]. cbn. lia.
  - destruct (Hgo E) as (st' & m' & -> & Hs' & Hnet' & Ha & Hld'). split.
    + cbn. split; [done|]. split; [done|]. right. exists (S n). split; [lia|]. by split_and!.
    + cbn. destruct Ha as [[Hst _ _ _ _ _ Hf] _]. rewrite Hst, Hf.
      pose proof (proj1 (blocks_spec (S n)) ltac:(lia)). rewrite Nat.min_l by lia.
      replace (Z.of_nat (S n * Z.to_nat bs)) with (Z.of_nat (S n) * bs) by lia. rewrite Z.div_mul by lia. lia.
Qed.

Lemma sys_left_answered k n st m s : answered n st → (n < blocks)%nat → sys_left (Running st m s k) = (k + (blocks - n))%nat.
Proof.
  intros [Hph Hst] Hn. cbn [sys_left]. destruct n as [|n]; [rewrite Hst by done; lia|].
  destruct Hph as [Hs _ _ _ _ _ Hf]. rewrite Hs, Hf. pose proof (proj1 (blocks_spec (S n)) Hn).
  rewrite Nat.min_l by lia. replace (Z.of_nat (S n * Z.to_nat bs)) with (Z.of_nat (S n) * bs) by lia.
  rewrite Z.div_mul by lia. lia.
Qed.

(** The steps of a running system: the answer arrives, or something is lost. *)
Lemma sys_steps (Q : sys → Prop) st m s k p pkt s' src reply :
  last (sent st) = Some (p, pkt) → serve s p pkt = (s', Some (src, reply)) →
  (∀ c, ∃ x, after (turn {| packets := replicate (S c) (tftp_our_port st, src, reply); ctrl_c := false; expired := false |} st m) s' k = Some x ∧ Q x) →
  (∀ k' t, k = S k' → t = s ∨ t = s' → ∃ x, after (turn {| packets := []; ctrl_c := false; expired := true |} st m) t k' = Some x ∧ Q x) →
  (∃ x, sys_step turn (Running st m s k) x) ∧ ∀ x, sys_step turn (Running st m s k) x → Q x.
Proof.
  intros Hlast Hserve Hdel Hlost. split.
  - destruct (Hdel 0%nat) as (x & Hx & _). exists x. by eapply Delivered.
  - intros x Hstep. inversion Hstep as [? ? ? ? ? ? ? ? ? c ? Hl Hse Hx|? ? ? k' ? Hx|? ? ? k' ? ? ? ? ? Hl Hse Hx]; subst.
    + rewrite Hlast in Hl. injection Hl as <- <-. rewrite Hserve in Hse. injection Hse as <- <- <-.
      destruct (Hdel c) as (x' & Hx' & HQ). rewrite Hx in Hx'. by injection Hx' as <-.
    + destruct (Hlost k' s eq_refl ltac:(by left)) as (x' & Hx' & HQ). rewrite Hx in Hx'. by injection Hx' as <-.
    + rewrite Hlast in Hl. injection Hl as <- <-. rewrite Hserve in Hse. injection Hse as <- <-.
      destruct (Hlost k' s' eq_refl ltac:(by right)) as (x' & Hx' & HQ). rewrite Hx in Hx'. by injection Hx' as <-.
Qed.

Lemma asking_steps st m s k : session k st → net_state st = NETLOOP_CONTINUE → asking st → fresh s → loaded 0 m →
  (∃ x', sys_step turn (Running st m s k) x') ∧
  ∀ x', sys_step turn (Running st m s k) x' → sys_inv x' ∧ (sys_left x' < k + S blocks)%nat.
Proof.
  intros Hs Hnet Ha Hfr Hld. destruct (client_request k st s Hs Ha Hfr) as (pkt & s' & reply & Hlast & Hserve & Hfr' & Hrep).
  eapply (sys_steps (λ x', sys_inv x' ∧ (sys_left x' < k + S blocks)%nat)); [done|done| |].
  - intros c. rewrite (s_port _ _ Hs). destruct Hrep as [(os & Ho & -> & Hh)|(Ho & -> & Hh)].
    + destruct (turn_oack k st m c s' os Hs Hnet (a_waiting _ Ha) (a_block _ Ha) Hld Ho) as (st' & m' & Hx & Hs' & Hnet' & Ha' & Hld').
      eexists. split; [exact Hx|]. rewrite (sys_left_answered k 0) by (done || (unfold blocks; lia)). split; [|lia].
      split; [done|]. split; [done|]. right. exists 0%nat. split; [unfold blocks; lia|]. by split_and!.
    + destruct (answer_step k 0 st m s' c Hs Hnet) as (x & Hx & Hinv & Hl);
        [|unfold blocks; lia|done|done|by exists x; split; [|split; [|lia]]].
      destruct Ha as [Hw _ Hb _ _]. split; [done|]. unfold oack_ok in size_known. rewrite Ho in size_known. by rewrite Hb.
  - intros k' t -> Ht. assert (Hrecv : tftp_state st ≠ STATE_RECV_WRQ) by (by rewrite (a_state _ Ha)).
    destruct (turn_lost k' st m t Hs Hnet Hrecv) as (st' & Hx & Hs' & Hnet' & Ha' & _ & Hst' & _).
    eexists. split; [exact Hx|]. split.
    + split; [done|]. split; [done|]. left. split; [by apply Ha'|]. split; [|done]. by destruct Ht as [-> | ->].
    + cbn. rewrite Hst', (a_state _ Ha). lia.
Qed.

Lemma answered_steps n st m s k : session k st → net_state st = NETLOOP_CONTINUE → answered n st → (n < blocks)%nat →
  loaded n m → holds n s →
  (∃ x', sys_step turn (Running st m s k) x') ∧
  ∀ x', sys_step turn (Running st m s k) x' → sys_inv x' ∧ (sys_left x' < k + (blocks - n))%nat.
Proof.
  intros Hs Hnet Ha Hn Hld Hh. destruct (client_packet k n st Hs Ha) as [Hlast Hrecv].
  destruct (acked n s Hh Hn) as (s' & Hserve & Hh' & Hh2).
  eapply (sys_steps (λ x', sys_inv x' ∧ (sys_left x' < k + (blocks - n))%nat)); [done|done| |].
  - intros c. rewrite (s_port _ _ Hs).
    destruct (answer_step k n st m s' c Hs Hnet (proj1 Ha) Hn Hld Hh2) as (x & Hx & Hinv & Hl).
    exists x. split; [done|]. split; [done|lia].
  - intros k' t -> Ht. destruct (turn_lost k' st m t Hs Hnet Hrecv) as (st' & Hx & Hs' & Hnet' & _ & Ha' & _ & _).
    eexists. split; [exact Hx|]. rewrite (sys_left_answered k' n) by (done || by apply Ha'). split; [|lia].
    split; [done|]. split; [done|]. right. exists n. split; [done|]. split; [by apply Ha'|]. split; [done|].
    by destruct Ht as [-> | ->].
Qed.

Lemma sys_step_inv x : sys_inv x → finished x ∨
  (∃ x', sys_step turn x x') ∧ ∀ x', sys_step turn x x' → sys_inv x' ∧ (sys_left x' < sys_left x)%nat.
Proof.
  destruct x as [st m s k|]; [|by left]. intros (Hs & Hnet & [(Ha & Hfr & Hld)|(n & Hn & Ha & Hld & Hh)]); right.
  - replace (sys_left (Running st m s k)) with (k + S blocks)%nat by (cbn; by rewrite (a_state _ Ha)).
    by apply asking_steps.
  - rewrite (sys_left_answered k n) by done. by apply answered_steps.
Qed.
Lemma start_spec st0 : cport = 1024 + now mod 3072 → lmb_get_free_size board addr = Some size → size ≠ 0 →
  ∃ st, net_loop_enter tftpblocksize tftptimeout tftptimeoutcountmax bootfile board addr now st0 = Some st ∧
    asking st ∧ net_state st = NETLOOP_CONTINUE ∧ 0 ≤ tftp_timeout_count_max st ∧
    ∀ k, Z.of_nat k ≤ tftp_timeout_count_max st → session k st.
Proof.
  intros Hport Hsize Hnz. unfold net_loop_enter, net_restart.
  match goal with |- context [tftp_start _ _ _ _ _ _ _ ?s] => set (s0 := s);
    assert (H0' : net_state s0 = NETLOOP_CONTINUE ∧ net_boot_file_size s0 = 0) by done; clearbody s0 end.
  destruct H0' as [Hn0 Hf0]. unfold tftp_start. destruct (tftp_vars_spec tftpblocksize tftptimeout tftptimeoutcountmax s0) as (H1 & H2 & _ & Hms & H3). cbv zeta in H1, H2, H3, Hms.
  revert H1 H2 Hms H3. rewrite Hn0, Hf0. generalize (tftp_vars tftpblocksize tftptimeout tftptimeoutcountmax s0).
  intros st1 H1 H2 Hms H3.
  unfold tftp_init_load_addr. rewrite Hsize. cbn [mbind option_bind]. rewrite (proj2 (Z.eqb_neq size 0)) by done.
  cbn [mbind option_bind Z.eqb negb]. eexists. split; [reflexivity|].
  split; [|split; [done|split; [done|]]].
  - split; [split| | | |]; cbn; try done. by left.
  - intros k Hk. cbn in Hk. split; cbn -[Z.modulo]; try done;
      [lia|rewrite (proj2 (Z.eqb_neq _ _) Hms); by eexists|by rewrite last_snoc].
Qed.

(** C2. Liveness: a transfer from a server that has the file ends. The server
    answers the request with the first block, or with an OACK of any of the
    requested options (spelled as the client spells them), and an
    acknowledgement with the next block. In each turn of net_loop the answer
    to the client's last packet arrives, once or as several copies in a row,
    or one of the two packets is lost and the timeout runs, in all at most as
    often as the client retries; ctrl-c is not pressed, the file fits into the
    free memory at the load address, and a block into the receive buffer. Then
    net_loop returns the size of the file, with the file in memory, also past
    the wrap-around of the block number. (A copy that is delayed to a later
    turn is not covered: late_oack_fails.) *)
Theorem tftp_get_completes st0 m s :
  cport = 1024 + now mod 3072 → lmb_get_free_size board addr = Some size → size ≠ 0 → mapped m addr size → fresh s →
  ∃ st, net_loop_enter tftpblocksize tftptimeout tftptimeoutcountmax bootfile board addr now st0 = Some st ∧
    ∀ k, Z.of_nat k ≤ tftp_timeout_count_max st → eventually (sys_step turn) finished (Running st m s k).
Proof.
  intros Hport Hsize Hnz Hm Hfr. destruct (start_spec st0 Hport Hsize Hnz) as (st & Hst & Ha & Hnet & _ & Hs).
  exists st. split; [done|]. intros k Hk.
  apply (eventually_measure _ _ sys_inv sys_left); [exact sys_step_inv|].
  split; [by apply Hs|]. split; [done|]. left. split; [done|]. split; [done|]. split; [|done]. by intros i x.
Qed.
End transfer.

(** ** Any packets at all *)

#[global] Instance covers_dec L a : Decision (covers L a).
Proof.
  refine (cast_if (decide (Exists (λ p, lp_base p ≤ a < lp_end p) L))); unfold covers, inside;
    rewrite ->list_relations.list.Exists_exists in *; done.
Defined.

Section safety.
Context `{!MemOps} (netretry : option str) (eth_try_another : bool → Z * bool).
Context (rx rxlen addr size : Z) (rx_room : 8 ≤ rxlen) (addr_range : 0 ≤ addr) (size_range : 0 < size)
  (area_range : addr + size < 2 ^ 32) (rx_apart : rx + rxlen < addr ∨ addr + size ≤ rx).
Abbreviation tftp_data := (tftp_data netretry eth_try_another).
Abbreviation tftp_handler := (tftp_handler netretry eth_try_another).

(** The receive buffer holds bytes, and there is a zero behind it. *)
Definition buffer_ok (m : mem) : Prop :=
  (∀ a, rx ≤ a < rx + rxlen → ∃ b, m !! a = Some b ∧ is_byte b) ∧ m !! (rx + rxlen) = Some 0.

(** Everything but the area and the buffer is the same. *)
Definition only_area (m m' : mem) : Prop :=
  ∀ a, ¬ (addr ≤ a < addr + size) → ¬ (rx ≤ a < rx + rxlen) → m' !! a = m !! a.

#[global] Instance only_area_preorder : PreOrder only_area.
Proof. split; [by intros m a|]. intros m1 m2 m3 H12 H23 a Ha Hrx. by rewrite H23, H12. Qed.

Record area_ok (st : tftp) (m : mem) : Prop := {
  ar_addr : tftp_load_addr st = addr;
  ar_size : tftp_load_size st = size;
  ar_block : 0 ≤ tftp_block_size st;
  ar_off : 0 ≤ tftp_block_wrap_offset st;
  ar_mapped : mapped m addr size;
  ar_buffer : buffer_ok m
}.

(** The next block does not wrap around the address space. *)
Definition bounded (st : tftp) : Prop :=
  addr + tftp_block_wrap_offset st + 2 * 65536 * tftp_block_size st + rxlen < 2 ^ 32.

Lemma buffer_bytes m a n : buffer_ok m → rx ≤ a → a + Z.of_nat n ≤ rx + rxlen →
  ∃ l, bytes_at m a l ∧ Forall is_byte l ∧ length l = n.
Proof.
  intros [Hb _]. revert a. induction n as [|n IH]; intros a Ha Hn.
  - exists []. split; [by intros i x|]. by split; [constructor|].
  - destruct (Hb a) as (b & Hab & Hbyte); [lia|]. destruct (IH (a + 1)) as (l & Hl & Hfl & Hlen); [lia|lia|].
    exists (b :: l). split; [by apply bytes_at_cons|]. split; [by constructor|]. cbn. by rewrite Hlen.
Qed.

Lemma buffer_cstr m a : buffer_ok m → rx ≤ a ≤ rx + rxlen → ∃ s, cstr_at m a s.
Proof.
  intros [Hb Hz] Ha. remember (Z.to_nat (rx + rxlen - a)) as n eqn:Hn. revert a Ha Hn.
  induction n as [|n IH]; intros a Ha Hn.
  - exists []. apply cstr_at_nil. by replace a with (rx + rxlen) by lia.
  - destruct (Hb a) as (b & Hab & Hbyte); [lia|]. destruct (Z.eqb_spec b 0) as [->|Hne].
    + exists []. by apply cstr_at_nil.
    + destruct (IH (a + 1)) as (s & Hs); [lia|lia|]. exists (b :: s). apply cstr_at_cons.
      split_and!; try done. unfold is_char. unfold is_byte in Hbyte. lia.
Qed.

Lemma is_str_total m a s : buffer_ok m → rx ≤ a → a + Z.of_nat (length s) < rx + rxlen → ∃ b, is_str m a s = Some b.
Proof.
  intros [Hb _]. revert a. induction s as [|x s IH]; intros a Ha Hn; cbn [is_str length] in *;
    (destruct (Hb a) as (b & Hab & _); [lia|]); unfold load; rewrite Hab; cbn [mbind option_bind]; [by eexists|].
  destruct (b =? x); [|by eexists]. apply IH; lia.
Qed.

Lemma load16_total m a : buffer_ok m → rx ≤ a → a + 2 ≤ rx + rxlen → ∃ x, load16 m a = Some x ∧ 0 ≤ x < 65536.
Proof.
  intros [Hb _] Ha Hn. destruct (Hb a) as (h & Hh & Hhb); [lia|]. destruct (Hb (a + 1)) as (l & Hl & Hlb); [lia|].
  exists (256 * h + l). unfold load16, load. rewrite Hh. cbn [mbind option_bind]. rewrite Hl. split; [done|].
  unfold is_byte in *. lia.
Qed.

Lemma strtoul_total m a : buffer_ok m → rx ≤ a ≤ rx + rxlen → ∃ v p, simple_strtoul m a 10 = Some (v, p).
Proof.
  intros Hb Ha. destruct (buffer_cstr m a Hb Ha) as (s & Hs).
  unfold simple_strtoul. rewrite (simple_strtou_spec 32 m a 10 s) by (done || lia). by eexists _, _.
Qed.
(** The fields that [area_ok] is about. *)
Definition area_fields (st : tftp) : Z * Z * Z := (tftp_load_addr st, tftp_load_size st, tftp_block_wrap_offset st).

Lemma area_same st st' m : area_fields st' = area_fields st → 0 ≤ tftp_block_size st' → area_ok st m → area_ok st' m.
Proof. intros [= E1 E2 E3] Hb []. split; congruence || done. Qed.

Lemma restart_fields st :
  area_fields (restart netretry eth_try_another st) = area_fields st ∧
  tftp_block_size (restart netretry eth_try_another st) = tftp_block_size st.
Proof.
  unfold restart, net_start_again, net_set_state, net_set_timeout_handler.
  destruct netretry as [s|]; [repeat case_bool_decide|]; cbn [negb andb]; (destruct (_ <? _) || idtac);
    try done; destruct (eth_try_another _) as [r [|]]; try done; by destruct (net_dev_exists _).
Qed.

Lemma restart_area st m : area_ok st m → area_ok (restart netretry eth_try_another st) m.
Proof. intros H0. destruct (restart_fields st) as [E1 E2]. eapply area_same; [exact E1|rewrite E2; apply H0|done]. Qed.

Lemma oack_total m a len st : buffer_ok m → rx ≤ a → 0 ≤ len → a + len ≤ rx + rxlen → 0 ≤ tftp_block_size st →
  ∃ st', tftp_oack m a len st = Some st' ∧ area_fields st' = area_fields st ∧ 0 ≤ tftp_block_size st'.
Proof.
  intros Hb Ha Hlen Hend Hbs. unfold tftp_oack.
  loop_ix (Z.to_nat len)
    (λ (n : nat) '((i, s) : Z * tftp), 0 ≤ i ∧ n = Z.to_nat (len - i) ∧ area_fields s = area_fields st ∧ 0 ≤ tftp_block_size s)
    (λ '((_, s) : Z * tftp), area_fields s = area_fields st ∧ 0 ≤ tftp_block_size s).
  - intros n [i s] (Hi & -> & Hf & Hs). cbv beta iota.
    destruct (Z.ltb_spec (i + 8) len); [|by eexists].
    destruct (is_str_total m (a + i) text_blksize Hb) as (b & ->); [lia|cbn; lia|].
    destruct (is_str_total m (a + i) text_tsize Hb) as (t & Ht); [lia|cbn; lia|].
    destruct (strtoul_total m (a + i + 8) Hb) as (v & p & Hv); [lia|].
    destruct (strtoul_total m (a + i + 6) Hb) as (w & q & Hw); [lia|].
    assert (Hmod : 0 ≤ u16 v) by (apply wrap_range; lia).
    cbn [mbind option_bind]. destruct b; rewrite ?Hv; cbn [mbind option_bind]; rewrite Ht; cbn [mbind option_bind];
      destruct t; rewrite ?Hw; cbn [mbind option_bind]; (eexists; split; [reflexivity|]);
      (exists (Z.to_nat (len - (i + 1))); split; [lia|]); by split_and!; [lia|..].
  - by split_and!; [lia|f_equal; lia|..].
  - lia.
  - destruct st0 as [? s]. by exists s.
Qed.
Lemma area_write st m off l : area_ok st m → 0 ≤ off → off + Z.of_nat (length l) ≤ size → Forall is_byte l →
  area_ok st (set_bytes m (addr + off) l) ∧ only_area m (set_bytes m (addr + off) l).
Proof.
  intros [? ? ? ? Hm [Hb Hz]] Hoff Hl Hbytes. split.
  - split; try done; [by apply mapped_set_bytes|]. split.
    + intros a Ha. rewrite lookup_set_bytes_out by lia. by apply Hb.
    + by rewrite lookup_set_bytes_out by lia.
  - intros a Ha _. apply lookup_set_bytes_out. lia.
Qed.

Lemma block_total m len st : area_ok st m → 0 ≤ tftp_cur_block st < 65536 →
  (tftp_cur_block st = 0 → tftp_prev_block st ≠ 0 → tftp_block_size st ≤ tftp_block_wrap_offset st) →
  addr + tftp_block_wrap_offset st + 65536 * tftp_block_size st + rxlen < 2 ^ 32 →
  0 ≤ len → 4 + len ≤ rxlen →
  ∃ st' m', tftp_block m (rx + 2) len st = Some (st', m') ∧ area_ok st' m' ∧ only_area m m'.
Proof.
  intros Har Hcur Hz Hbd Hlen Hroom. unfold tftp_block.
  destruct (Z.eqb_spec (tftp_cur_block st) (tftp_prev_block st)) as [E|Hne]; [by exists st, m|].
  unfold net_set_timeout_handler.
  match goal with |- context [store_block _ _ _ _ ?s] => set (st1 := s) end.
  assert (Har1 : area_ok st1 m) by (destruct Har; by split).
  destruct (buffer_bytes m (rx + 2 + 2) (Z.to_nat len) (ar_buffer _ _ Har)) as (l & Hl & Hlb & Hll); [lia|lia|].
  rewrite <-(Z2Nat.id len), <-Hll by done.
  set (off := s32 (tftp_cur_block st - 1) * tftp_block_size st1 + tftp_block_wrap_offset st1).
  assert (Hoff : 0 ≤ off ∧ addr + off + rxlen < 2 ^ 32).
  { subst off st1. cbn -[swrap]. rewrite swrap_small by lia. destruct Har as [_ _ Hb0 Ho0 _ _].
    destruct (decide (tftp_cur_block st = 0)) as [E0|]; [specialize (Hz E0 ltac:(congruence)); rewrite E0 in *; lia|nia]. }
  destruct Har1 as [Ha1 Hs1 Hb1 Ho1 Hm1 Hbuf1] eqn:E1. clear E1.
  rewrite (store_block_spec m st1 _ _ l off); rewrite ?Ha1, ?Hs1;
    [|done|lia|symmetry; apply wrap_small; lia|lia|done|lia|done|done|done|lia].
  destruct (Z.leb_spec (off + Z.of_nat (length l)) size) as [Hfit|_]; cbn [mbind option_bind Z.eqb negb].
  - destruct (area_write st1 m off l Har1 ltac:(lia) Hfit Hlb) as [Hw Hf].
    eexists _, _. split; [reflexivity|]. split; [|done].
    set (st2 := if _ <? _ then _ else st1).
    assert (Hw2 : area_ok st2 (set_bytes m (addr + off) l)) by (subst st2; destruct (_ <? _); [destruct Hw; by split|done]).
    clearbody st2. destruct (_ <? _); destruct Hw2; by split.
  - exists (net_set_state NETLOOP_FAIL st1), m. split; [done|]. split; [destruct Har1; by split|done].
Qed.

Lemma data_total m src len st : area_ok st m → bounded st → 0 ≤ len → 4 + len ≤ rxlen →
  ∃ st' m', tftp_data m (rx + 2) src len st = Some (st', m') ∧ area_ok st' m' ∧ only_area m m'.
Proof.
  intros Har Hbd Hlen Hroom. unfold Tftp.tftp_data.
  destruct (load16_total m (rx + 2) (ar_buffer _ _ Har)) as (cur & -> & Hcur); [lia|lia|]. cbn [mbind option_bind].
  set (st1 := update_block_number {| st with tftp_cur_block := cur |}).
  assert (H1 : area_ok st1 m ∧ tftp_cur_block st1 = cur ∧
    addr + tftp_block_wrap_offset st1 + 65536 * tftp_block_size st1 + rxlen < 2 ^ 32 ∧
    (cur = 0 → tftp_prev_block st1 ≠ 0 → tftp_block_size st1 ≤ tftp_block_wrap_offset st1)).
  { subst st1. unfold update_block_number, bounded in *. cbn [tftp_cur_block tftp_prev_block].
    destruct Har as [Ha Hs Hb Ho Hm Hbuf]. destruct (Z.eqb_spec cur 0), (Z.eqb_spec (tftp_prev_block st) 0); cbn [andb negb];
      (split; [split; cbn -[wrap]; try done; rewrite wrap_small; change TFTP_SEQUENCE_SIZE with 65536; lia|]);
      cbn -[wrap]; rewrite ?wrap_small by (change TFTP_SEQUENCE_SIZE with 65536; lia);
      change TFTP_SEQUENCE_SIZE with 65536; lia. }
  clearbody st1. destruct H1 as (Har1 & Hc1 & Hb1 & Hz1). rewrite <-Hc1 in *.
  case_bool_decide as Hst; [|by apply block_total].
  destruct (negb _).
  - eexists _, m. split; [reflexivity|]. split; [|done]. apply restart_area. destruct Har1; by split.
  - destruct (block_total m len (new_transfer {| st1 with tftp_state := STATE_DATA; tftp_remote_port := src |}))
      as (st' & m' & H2); [destruct Har1; by split|done|done| |done|done|by exists st', m'].
    destruct Har1. cbn. lia.
Qed.

Lemma handler_total m dest src len st : area_ok st m → bounded st → 0 ≤ len ≤ rxlen →
  ∃ st' m', tftp_handler m rx dest src len st = Some (st', m') ∧ area_ok st' m' ∧ only_area m m'.
Proof.
  intros Har Hbd Hlen. unfold Tftp.tftp_handler.
  destruct (negb (dest =? _)); [by exists st, m|]. destruct (_ && _ && _ && _); [by exists st, m|].
  destruct (Z.ltb_spec len 2); [by exists st, m|].
  pose proof (ar_buffer _ _ Har) as Hbuf.
  destruct (load16_total m rx Hbuf) as (proto & -> & _); [lia|lia|]. cbn [mbind option_bind].
  destruct (proto =? TFTP_OACK).
  { destruct (oack_total m (rx + 2) (len - 2) {| st with tftp_state := STATE_OACK; tftp_remote_port := src |} Hbuf)
      as (st' & -> & Hf & Hb); [lia|lia|lia|by apply (ar_block _ _ Har)|]. cbn [mbind option_bind].
    eexists _, m. split; [reflexivity|]. split; [|done]. apply (area_same st); [exact Hf|exact Hb|done]. }
  destruct (proto =? TFTP_DATA).
  { destruct (Z.ltb_spec (len - 2) 2); [by exists st, m|]. apply data_total; done || lia. }
  destruct (proto =? TFTP_ERROR); [|by exists st, m].
  destruct (load16_total m (rx + 2) Hbuf) as (code & -> & _); [lia|lia|]. cbn [mbind option_bind].
  eexists _, m. split; [reflexivity|]. split; [|done].
  destruct (_ || _); [destruct Har; by split|by apply restart_area].
Qed.
(** *** Turns of the loop *)

Context (tftpblocksize tftptimeout tftptimeoutcountmax : option str) (bootfile : str) (board : lmb).
Context (size_known : lmb_get_free_size board addr = Some size).

Abbreviation enter := (net_loop_enter tftpblocksize tftptimeout tftptimeoutcountmax bootfile board addr).
Abbreviation turn := (net_turn netretry tftpblocksize tftptimeout tftptimeoutcountmax bootfile board addr eth_try_another rx).

Definition packet_ok (p : Z * Z * list Z) : Prop := Forall is_byte p.2 ∧ Z.of_nat (length p.2) ≤ rxlen.

(** The blocks of the packets do not wrap around the address space. *)
Fixpoint rx_bounded (l : list (Z * Z * list Z)) (st : tftp) (m : mem) : Prop :=
  match l with
  | [] => True
  | p :: l => bounded st ∧ ∀ st' m', eth_rx netretry eth_try_another rx [p] st m = Some (st', m') → rx_bounded l st' m'
  end.

Lemma area_receive st m pkt : area_ok st m → Forall is_byte pkt → Z.of_nat (length pkt) ≤ rxlen →
  area_ok st (set_bytes m rx pkt) ∧ only_area m (set_bytes m rx pkt).
Proof.
  intros [? ? ? ? Hm [Hb Hz]] Hbytes Hl. split.
  - split; try done; [by apply mapped_set_bytes|]. split.
    + intros a Ha. destruct (decide (a < rx + Z.of_nat (length pkt))) as [Hin|Hout].
      * destruct (lookup_lt_is_Some_2 pkt (Z.to_nat (a - rx))) as [x Hx]; [lia|].
        exists x. pose proof (lookup_set_bytes_in m rx pkt _ x Hx) as Hin'. rewrite Z2Nat.id in Hin' by lia.
        replace (rx + (a - rx)) with a in Hin' by lia. split; [done|]. rewrite Forall_forall in Hbytes.
        by apply Hbytes; eapply list_elem_of_lookup_2.
      * rewrite lookup_set_bytes_out by lia. by apply Hb.
    + by rewrite lookup_set_bytes_out by lia.
  - intros a Ha Hrx. apply lookup_set_bytes_out. lia.
Qed.

Lemma rx_total l st m : area_ok st m → Forall packet_ok l → rx_bounded l st m →
  ∃ st' m', eth_rx netretry eth_try_another rx l st m = Some (st', m') ∧ area_ok st' m' ∧ only_area m m'.
Proof.
  intros Har Hl. revert st m Har. induction Hl as [|[[dest src] pkt] l [Hp Hpl] _ IH]; intros st m Har Hbd;
    [by exists st, m|].
  destruct Hbd as [Hbd Hnext]. cbn [eth_rx fst snd] in *.
  destruct (area_receive st m pkt Har Hp Hpl) as [Har1 Hf1].
  assert (H2 : ∃ st2 m2, (if udp_handler st then tftp_handler (set_bytes m rx pkt) rx dest src (Z.of_nat (length pkt)) st
      else Some (st, set_bytes m rx pkt)) = Some (st2, m2) ∧ area_ok st2 m2 ∧ only_area (set_bytes m rx pkt) m2).
  { destruct (udp_handler st); [by apply handler_total; [done|done|lia]|by eexists _, _]. }
  destruct H2 as (st2 & m2 & E & Har2 & Hf2). rewrite E in *. cbn [mbind option_bind] in *.
  destruct (IH st2 m2 Har2 (Hnext st2 m2 eq_refl)) as (st3 & m3 & H3 & Har3 & Hf3).
  exists st3, m3. split; [done|]. split; [done|]. by rewrite Hf1, Hf2.
Qed.

Lemma timeout_area st m : area_ok st m → area_ok (run_timeout netretry eth_try_another st) m.
Proof.
  intros Har. unfold run_timeout. destruct (time_handler st) as [[iv [|]]|]; [|by destruct Har|done].
  unfold tftp_timeout_handler, net_set_timeout_handler. destruct (_ <? _).
  - apply restart_area. by destruct Har.
  - case_bool_decide; by destruct Har.
Qed.

Lemma enter_area now st m : 0 ≤ tftp_block_wrap_offset st → mapped m addr size → buffer_ok m →
  ∃ st', net_restart tftpblocksize tftptimeout tftptimeoutcountmax bootfile board addr now st = Some st' ∧ area_ok st' m.
Proof.
  intros Hoff Hm Hb. unfold net_restart.
  match goal with |- context [tftp_start _ _ _ _ _ _ _ ?s] => set (s0 := s);
    assert (H0' : 0 ≤ tftp_block_wrap_offset s0) by done; clearbody s0 end.
  unfold tftp_start. destruct (tftp_vars_spec tftpblocksize tftptimeout tftptimeoutcountmax s0) as (_ & _ & H2 & _ & _).
  cbv zeta in H2. revert H2. generalize (tftp_vars tftpblocksize tftptimeout tftptimeoutcountmax s0). intros st1 H2.
  unfold tftp_init_load_addr. rewrite size_known. cbn [mbind option_bind]. rewrite (proj2 (Z.eqb_neq size 0)) by lia.
  cbn [mbind option_bind Z.eqb negb]. eexists. split; [reflexivity|]. split; cbn; try done. by rewrite H2.
Qed.

Lemma turn_total now ev st m : area_ok st m → Forall packet_ok (packets ev) → rx_bounded (packets ev) st m →
  ∃ c, turn now ev st m = Some c ∧
    match c with
    | Next (st', m') => area_ok st' m' ∧ only_area m m'
    | Return (_, st', m') => only_area m m'
    | Break _ => False
    end.
Proof.
  intros Har Hev Hbd. unfold net_turn.
  destruct (rx_total _ st m Har Hev Hbd) as (st1 & m1 & -> & Har1 & Hf1). cbn [mbind option_bind].
  destruct (ctrl_c ev); [by eexists|].
  set (st2 := if expired ev then _ else st1).
  assert (Har2 : area_ok st2 m1) by (subst st2; destruct (expired ev); [by apply timeout_area|done]). clearbody st2.
  set (st3 := if decide _ then _ else st2).
  assert (Har3 : area_ok st3 m1) by (subst st3; case_decide; [by apply restart_area|done]). clearbody st3.
  destruct (net_state st3); [by eexists| |by eexists|by eexists].
  match goal with |- context [net_restart _ _ _ _ _ _ now ?s] =>
    destruct (enter_area now s m1) as (st' & -> & Har'); try apply Har3 end.
  cbn [mbind option_bind]. by eexists.
Qed.

(** C3. Safety: packets of any bytes that fit into the receive buffer, from
    any sender, timeouts and ctrl-c in any order, where before each packet the
    load address, the wrap-around offset built up so far, two more rounds of
    65536 blocks and the buffer size add up to less than 2^32 (premise
    rx_bounded: it excludes a server whose block size and numbers make the
    address wrap around, see store_block_wraps), and a zero byte follows the
    receive buffer. Then each turn of net_loop ends without an access outside
    of the objects, and the transfer changes only the receive buffer and the
    free block that lmb_get_free_size gave: no byte of a reserved region
    outside the receive buffer. *)
Theorem tftp_safe now st0 m M R :
  0 ≤ tftp_block_wrap_offset st0 → mapped m addr size → buffer_ok m → addr < 2 ^ 32 - 1 →
  lmb_repr (memory board) M → lmb_repr (reserved board) R →
  ∃ st, enter now st0 = Some st ∧ ∀ st' m',
    rtc (λ x y, ∃ now ev, Forall packet_ok (packets ev) ∧ rx_bounded (packets ev) x.1 x.2 ∧ turn now ev x.1 x.2 = Some (Next y))
      (st, m) (st', m') →
    (∀ a, covers R a → ¬ (rx ≤ a < rx + rxlen) → m' !! a = m !! a) ∧
    ∀ now ev, Forall packet_ok (packets ev) → rx_bounded (packets ev) st' m' →
    ∃ c, turn now ev st' m' = Some c ∧
      match c with Next (_, m2) | Return (_, _, m2) => only_area m m2 | Break _ => False end.
Proof.
  intros Hoff Hm Hb Haddr HM HR.
  destruct (enter_area now {| st0 with net_restarted := false; net_dev_exists := false; net_try_count := 1 |} m Hoff Hm Hb)
    as (st & Hst & Har). exists st. split; [done|]. intros st' m' Hrun.
  assert (Hinv : area_ok st' m' ∧ only_area m m').
  { change (area_ok (st', m').1 (st', m').2 ∧ only_area (st, m).2 (st', m').2).
    change (area_ok (st, m).1 (st, m).2) in Har. clear -Har Hrun rx_room addr_range size_range area_range rx_apart size_known.
    induction Hrun as [x|x [st1 m1] y (now1 & ev & Hev & Hbd & Hturn) _ IH]; [done|].
    destruct (turn_total now1 ev _ _ Har Hev Hbd) as (c & Hc & Hpost). rewrite Hturn in Hc. injection Hc as <-.
    destruct Hpost as [Har1 Hf1]. destruct (IH Har1) as [Hy Hf]. split; [done|]. by rewrite Hf1. }
  destruct Hinv as [Har' Hf']. split.
  - intros a Ha Hrx. apply Hf'; [|done]. intros Hin.
    destruct (lmb_get_free_size_spec board M R addr HM HR ltac:(lia)) as (n & Hn & Hno & Hres & Hfree).
    rewrite size_known in Hn. injection Hn as <-.
    destruct (decide (covers M addr)) as [HcM|HcM]; [|specialize (Hno HcM); lia].
    destruct (decide (covers R addr)) as [HcR|HcR]; [specialize (Hres HcM HcR); lia|].
    destruct (Hfree HcM HcR) as (_ & Hfree' & _). by apply (Hfree' a).
  - intros now' ev Hev Hbd. destruct (turn_total now' ev st' m' Har' Hev Hbd) as (c & Hc & Hpost). exists c. split; [done|].
    destruct c as [[st2 m2]|[st2 m2]|[[r st2] m2]]; [|done|by rewrite Hf']. destruct Hpost as [_ H2]. by rewrite Hf'.
Qed.
End safety.

(** ** Examples *)

(** The state at the start of the program. *)
Definition boot_state : tftp := {|
  tftp_remote_port := 0; tftp_our_port := 0; timeout_count := 0; timeout_count_max := TIMEOUT_COUNT;
  tftp_cur_block := 0; tftp_prev_block := 0; tftp_block_wrap := 0; tftp_block_wrap_offset := 0;
  tftp_state := STATE_SEND_RRQ; tftp_load_addr := 0; tftp_load_size := 0; tftp_tsize := 0;
  tftp_block_size := TFTP_BLOCK_SIZE; tftp_block_size_option := 512; timeout_ms := TIMEOUT;
  tftp_timeout_count_max := TIMEOUT_COUNT; tftp_filename := []; net_boot_file_size := 0;
  net_state := NETLOOP_CONTINUE; net_try_count := 0; net_restarted := false; net_dev_exists := false;
  time_handler := None; udp_handler := false; sent := []
|}.

(** A board with the memory [0x1000, 0x1040), the upper half of it reserved, and
    the receive buffer below. *)
Definition ex_board : lmb := {| memory := table [blk 0x1000 64]; reserved := table [blk 0x1020 32] |}.
Definition ex_mem : mem := set_bytes (mem_of 0 (replicate 65 0)) 0x1000 (replicate 64 7).

Lemma ex_memory : lmb_repr (memory ex_board) [blk 0x1000 64].
Proof. solve_repr. Qed.

Lemma ex_reserved : lmb_repr (reserved ex_board) [blk 0x1020 32].
Proof. solve_repr. Qed.

Lemma ex_free_size : lmb_get_free_size ex_board 0x1000 = Some 32.
Proof. vm_compute. reflexivity. Qed.

Lemma ex_mapped : mapped ex_mem 0x1000 32.
Proof.
  intros b Hb. destruct (lookup_lt_is_Some_2 (replicate 64 7) (Z.to_nat (b - 0x1000))) as [x Hx]; [rewrite length_replicate; lia|].
  exists x. pose proof (lookup_set_bytes_in (mem_of 0 (replicate 65 0)) 0x1000 _ _ _ Hx) as H. rewrite Z2Nat.id in H by lia.
  by replace (0x1000 + (b - 0x1000)) with b in H by lia.
Qed.

Lemma ex_buffer : buffer_ok 0 64 ex_mem.
Proof.
  assert (H : ∀ a, 0 ≤ a < 65 → ex_mem !! a = Some 0).
  { intros a Ha. unfold ex_mem. rewrite lookup_set_bytes_out by (rewrite length_replicate; lia).
    replace a with (0 + Z.of_nat (Z.to_nat a)) by lia. apply bytes_at_mem_of. apply lookup_replicate. lia. }
  split; [|by apply H; lia]. intros a Ha. exists 0. split; [apply H; lia|done].
Qed.

Lemma tftp_safe_witness :
  ∃ st, @net_loop_enter None None None [102] ex_board 0x1000 0 boot_state = Some st ∧ ∀ st' m',
    rtc (λ x y, ∃ now ev, Forall (packet_ok 64) (packets ev) ∧
        @rx_bounded cstring_ops None (λ _, (0, false)) 0 64 0x1000 (packets ev) x.1 x.2 ∧
        @net_turn cstring_ops None None None None [102] ex_board 0x1000 (λ _, (0, false)) 0 now ev x.1 x.2 = Some (Next y))
      (st, ex_mem) (st', m') →
    (∀ a, covers [blk 0x1020 32] a → ¬ (0 ≤ a < 0 + 64) → m' !! a = ex_mem !! a) ∧
    ∀ now ev, Forall (packet_ok 64) (packets ev) →
      @rx_bounded cstring_ops None (λ _, (0, false)) 0 64 0x1000 (packets ev) st' m' →
    ∃ c, @net_turn cstring_ops None None None None [102] ex_board 0x1000 (λ _, (0, false)) 0 now ev st' m' = Some c ∧
      match c with Next (_, m2) | Return (_, _, m2) => only_area 0 64 0x1000 32 ex_mem m2 | Break _ => False end.
Proof.
  apply (@tftp_safe cstring_ops None (λ _, (0, false)) 0 64 0x1000 32) with (M := [blk 0x1000 64]).
  - lia.
  - lia.
  - lia.
  - lia.
  - lia.
  - exact ex_free_size.
  - cbn. lia.
  - exact ex_mapped.
  - exact ex_buffer.
  - lia.
  - exact ex_memory.
  - exact ex_reserved.
Defined.

(** A file of 20 bytes, and a server that sends it in blocks of 8: its state is
    the number of the next block to be asked for. *)
Definition ex_file : list Z := Z.of_nat <$> seq 1 20.
Definition ex_port : Z := 3000.

(** The server confirms the size of the blocks, and gives the size of the file. *)
Definition ex_oack : list oack_option := [OBlksize [56]; OTsize [50; 48]].

Definition ex_serve (k : nat) (port : Z) (pkt : list Z) : nat * option (Z * list Z) :=
  if port =? WELL_KNOWN_PORT then (0%nat, Some (ex_port, oack_packet ex_oack))
  else if bool_decide (pkt = ack_packet k) then (S k, Some (ex_port, data_packet ex_file 8 k))
  else (k, Some (ex_port, data_packet ex_file 8 (pred k))).

Definition ex_server : TftpServer := {| srv := nat; serve := ex_serve |}.

Definition ex_honest : @HonestServer ex_file 8 ex_port ex_server [102] (Some ex_oack).
Proof.
  refine (Build_HonestServer ex_file 8 ex_port ex_server [102] (Some ex_oack)
    (λ _ : @srv ex_server, True) (λ n (s : @srv ex_server), s = n ∨ s = S n) _ _).
  - intros s rest _. exists 0%nat, (oack_packet ex_oack). split_and!; [done..|]. left. exists ex_oack. split_and!; [done..|by left].
  - intros n s Hs Hn. exists (S n). cbn [serve ex_server].
    change (blocks ex_file 8) with 3%nat in Hn.
    split; [|split; [by right|by left]]. destruct Hs as [-> | ->];
      (destruct n as [|[|[|n]]]; [vm_compute; reflexivity..|lia]).
Defined.

Lemma tftp_get_completes_witness :
  ∃ st, @net_loop_enter None None None [102] ex_board 0x1000 0 boot_state = Some st ∧
    ∀ k, Z.of_nat k ≤ tftp_timeout_count_max st →
      eventually (@sys_step ex_server (@net_turn cstring_ops None None None None [102] ex_board 0x1000 (λ _, (0, false)) 0 0))
        (@finished ex_file 0x1000 ex_server) (@Running ex_server st ex_mem 0%nat k).
Proof.
  apply (@tftp_get_completes cstring_ops None (λ _, (0, false)) ex_file) with
    (bs := 8) (cport := 1024) (sport := ex_port) (rxlen := 64) (size := 32) (oack := Some ex_oack) (HonestServer0 := ex_honest).
  - unfold is_byte. apply Forall_fmap, list_relations.list.Forall_forall. intros x Hx%elem_of_seq. cbn. lia.
  - lia.
  - lia.
  - lia.
  - cbn. lia.
  - lia.
  - lia.
  - split; [|split; [done|cbn; lia]]. unfold ex_oack, option_ok, is_char.
    repeat (apply Forall_cons_iff; split); try apply Forall_nil; split_and?; try done; repeat constructor; cbn; lia.
  - done.
  - exact ex_free_size.
  - done.
  - exact ex_mapped.
  - done.
Defined.

(** *** Where the code departs from its intent *)

(** The end of a block near the top of the address space wraps around, and the
    comparison with the end of the area accepts it: 8 bytes go to 2^32 - 4. *)
Definition top_state : tftp :=
  {| boot_state with tftp_load_addr := 196602; tftp_load_size := 32; tftp_block_size := 65535 |}.

Example store_block_wraps :
  let m := set_bytes (mem_of 0 [1; 2; 3; 4; 5; 6; 7; 8]) (2 ^ 32 - 4) (replicate 8 0) in
  option_map (λ '(r, m', _), (r, (m' : mem) !! (2 ^ 32 - 4))) (@store_block cstring_ops m 65534 0 8 top_state) =
    Some (0, Some 1).
Proof. vm_compute. reflexivity. Qed.

(** "Not retrying", says the handler of an error packet; net_loop starts again. *)
Definition asking_state : tftp :=
  default boot_state (@net_loop_enter None None None [102] ex_board 0x1000 0 boot_state).

Definition ex_turn (netretry : option str) (l : list (list Z)) (st : tftp) (m : mem) :=
  @net_turn cstring_ops netretry None None None [102] ex_board 0x1000 (λ _, (0, false)) 0 0
    {| packets := (λ p, (1024, ex_port, p)) <$> l; ctrl_c := false; expired := false |} st m.

Example not_retrying_retries :
  match ex_turn (Some text_yes) [htons TFTP_ERROR ++ htons TFTP_ERR_FILE_NOT_FOUND ++ [0]] asking_state ex_mem with
  | Some (Next (st, _)) => net_try_count st = 2 ∧ length (sent st) = 2%nat
  | _ => False
  end.
Proof. vm_compute. done. Qed.

(** A second copy of the OACK after the first block ends the transfer. *)
Example late_oack_fails :
  match ex_turn None [oack_packet [OBlksize [56]]; data_packet ex_file 8 0; oack_packet [OBlksize [56]]; data_packet ex_file 8 1] asking_state ex_mem with
  | Some (Return (ret, _, _)) => ret = - ENONET
  | _ => False
  end.
Proof. vm_compute. done. Qed.

(** An old copy of block 0 after block 1 counts as another wrap-around. *)
Example old_block_wraps :
  let st := {| boot_state with tftp_cur_block := 0; tftp_prev_block := 1; tftp_block_wrap := 1;
                 tftp_block_wrap_offset := 512 * 65536 |} in
  tftp_block_wrap_offset (update_block_number st) = 2 * (512 * 65536).
Proof. reflexivity. Qed.

(** The number of an option that is not terminated goes on with what the
    receive buffer held before. *)
Example oack_reads_old_bytes :
  let m := mem_of 0 (text_blksize ++ [0; 56] ++ [57; 0]) in
  option_map tftp_block_size (tftp_oack m 0 9 asking_state) = Some 89.
Proof. vm_compute. reflexivity. Qed.
