(* ===== verification/Memsize.v ===== *)
(** * Memsize: the size of the memory (common/memsize.c)

    [get_ram_size] writes to the powers of two below [maxsize] and looks which
    of the words are memory of their own.  The memory, as the hardware decodes
    the addresses, is the class [RamBus]: words at a distance from the base. *)

From Stdlib Require Import ZArith Lia List.
From stdpp Require Import base numbers list option.
From S2P Require Import Prelude.

Class RamBus := {
  bus : Type;
  rd : bus → Z → Z;
  wr : bus → Z → Z → bus
}.

Section memsize.
Context `{!RamBus}.

(** The values of the array [save] of 31 words, the one at [i - 1] first; an
    access behind the array or before it is [None]. *)
Definition push (save : list Z) (v : Z) : option (list Z) := if decide (length save < 31)%nat then Some (v :: save) else None.
Definition pop (save : list Z) : option (Z * list Z) := match save with [] => None | v :: save => Some (v, save) end.

(** The loop that puts the saved words back. *)
Definition restore (n cnt : Z) (save : list Z) (b : bus) : option bus :=
  '(_, _, b) ← loop_brk 33 (λ '(cnt, save, b),
      if cnt <? n then
        '(v, save) ← pop save;
        Some (Next (Z.shiftl cnt 1, save, wr b cnt v))
      else Some (Break (cnt, save, b)))
    (cnt, save, b);
  Some b.

Definition get_ram_size (b : bus) (maxsize : Z) : option (Z * bus) :=
  let n := u32 maxsize / 4 in
  '(_, save, b) ← loop_brk 32 (λ '(cnt, save, b),
      if 0 <? cnt then
        save ← push save (rd b cnt);
        Some (Next (Z.shiftr cnt 1, save, wr b cnt (Z.lnot cnt)))
      else Some (Break (cnt, save, b)))
    (Z.shiftr n 1, [], b);
  let save_base := rd b 0 in
  let b := wr b 0 0 in
  let val := rd b 0 in
  if negb (val =? 0) then
    b ← restore n 1 save (wr b 0 save_base);
    Some (0, b)
  else
    o ← loop 33 (λ '(cnt, save, b),
        if cnt <? n then
          let val := rd b cnt in
          '(v, save) ← pop save;
          let b := wr b cnt v in
          if negb (val =? Z.lnot cnt) then
            b ← restore n (Z.shiftl cnt 1) save b;
            Some (Return (s32 (cnt * 4), b))
          else Some (Next (Z.shiftl cnt 1, save, b))
        else Some (Break (cnt, save, b)))
      (1, save, b);
    Some (match o with inr r => r | inl (_, _, b) => (maxsize, wr b 0 save_base) end).
End memsize.

Lemma u32_s32 x : u32 (s32 x) = u32 x.
Proof.
  unfold wrap, swrap. rewrite Zminus_mod, Z.mod_mod by lia. rewrite <-Zminus_mod. f_equal. lia.
Qed.

(** ** Memory that repeats *)

(** A memory of [2 ^ j] words answers at every address, modulo its size. *)
Definition mirror (j : nat) : RamBus := {|
  bus := Z → Z;
  rd := λ b c, b (c mod 2 ^ Z.of_nat j);
  wr := λ b c v x, if x =? c mod 2 ^ Z.of_nat j then v else b x
|}.

Section mirror.
Context (j k : nat) (j_le : (j ≤ k)%nat) (k_le : (k ≤ 29)%nat) (b : Z → Z).
#[local] Instance the_mirror : RamBus := mirror j.
Abbreviation p e := (2 ^ Z.of_nat e).

(** The words that the first loop saves. *)
Definition saved (e : nat) : Z :=
  if decide (e < j)%nat then b (p e) else if decide (S e = k) then b 0 else Z.lnot (p (S e)).

(** Whether a cell is one of those at [2 ^ e], [i ≤ e < j]. *)
Definition marked (i : nat) (x : Z) : Prop := ∃ e : nat, (i ≤ e < j)%nat ∧ x = p e.

(** The memory with [z] at the base and marks from [2 ^ i] on. *)
Definition looks (i : nat) (z : Z) (c : Z → Z) : Prop :=
  c 0 = z ∧ (∀ e, (i ≤ e < j)%nat → c (p e) = Z.lnot (p e)) ∧ ∀ x, x ≠ 0 → ¬ marked i x → c x = b x.

Lemma cell e : p e mod p j = if decide (e < j)%nat then p e else 0.
Proof.
  destruct (decide (e < j)%nat) as [H|H].
  - apply Z.mod_small. split; [lia|]. apply Z.pow_lt_mono_r; lia.
  - replace (Z.of_nat e) with (Z.of_nat j + Z.of_nat (e - j)) by lia. rewrite Z.pow_add_r by lia.
    rewrite Z.mul_comm. apply Z_mod_mult.
Qed.

Lemma pow_inj e f : p e = p f → e = f.
Proof. intros H. apply Z.pow_inj_r in H; lia. Qed.

Lemma marked_next i x : marked i x ↔ ((i < j)%nat ∧ x = p i) ∨ marked (S i) x.
Proof.
  split.
  - intros (e & He & ->). destruct (decide (e = i)) as [->|]; [left; split; [lia|done]|right; exists e; split; [lia|done]].
  - intros [[Hi ->]|(e & He & ->)]; [by exists i; split; [lia|]|by exists e; split; [lia|]].
Qed.
Lemma shiftr_pow e : Z.shiftr (p (S e)) 1 = p e.
Proof.
  rewrite Z.shiftr_div_pow2 by lia. change (2 ^ 1) with 2. rewrite Nat2Z.inj_succ, Z.pow_succ_r by lia.
  rewrite Z.mul_comm. by apply Z_div_mult.
Qed.

Lemma shiftl_pow e : Z.shiftl (p e) 1 = p (S e).
Proof. rewrite Z.shiftl_mul_pow2 by lia. rewrite Nat2Z.inj_succ, Z.pow_succ_r by lia. lia. Qed.

(** The base after the marks down to [2 ^ i]. *)
Definition base_at (i : nat) : Z :=
  if decide (Nat.max i j < k)%nat then Z.lnot (p (Nat.max i j)) else b 0.

(** A write to [2 ^ e] below the size of the memory, and one that comes back to
    the base. *)
Lemma looks_mark e z c : looks (S e) z c → (e < j)%nat → looks e z (@wr the_mirror c (p e) (Z.lnot (p e))).
Proof.
  intros (H0 & Hm & Ho) He. unfold wr, the_mirror, mirror. rewrite cell, decide_True by done.
  split; [|split].
  - rewrite (proj2 (Z.eqb_neq 0 _)); [done|]. pose proof (Z.pow_pos_nonneg 2 (Z.of_nat e)). lia.
  - intros f Hf. destruct (Z.eqb_spec (p f) (p e)) as [E|E]; [by rewrite E|].
    apply Hm. destruct (decide (f = e)) as [->|]; [done|lia].
  - intros x Hx Hn. destruct (Z.eqb_spec x (p e)) as [->|E].
    + exfalso. apply Hn. exists e. split; [lia|done].
    + apply Ho; [done|]. intros Hs. apply Hn, marked_next. by right.
Qed.

Lemma looks_unmark e z c : looks e z c → (e < j)%nat → looks (S e) z (@wr the_mirror c (p e) (b (p e))).
Proof.
  intros (H0 & Hm & Ho) He. unfold wr, the_mirror, mirror. rewrite cell, decide_True by done.
  split; [|split].
  - rewrite (proj2 (Z.eqb_neq 0 _)); [done|]. pose proof (Z.pow_pos_nonneg 2 (Z.of_nat e)). lia.
  - intros f Hf. destruct (Z.eqb_spec (p f) (p e)) as [E|E]; [apply pow_inj in E; lia|]. apply Hm. lia.
  - intros x Hx Hn. destruct (Z.eqb_spec x (p e)) as [->|E]; [done|].
    apply Ho; [done|]. intros [[_ ->]|Hs]%marked_next; done.
Qed.

Lemma looks_base i z v c a : looks i z c → a mod p j = 0 → looks i v (@wr the_mirror c a v).
Proof.
  intros (H0 & Hm & Ho) Ha. unfold wr, the_mirror, mirror. rewrite Ha. split; [by rewrite Z.eqb_refl|split].
  - intros f Hf. rewrite (proj2 (Z.eqb_neq _ 0)); [by apply Hm|]. pose proof (Z.pow_pos_nonneg 2 (Z.of_nat f)). lia.
  - intros x Hx Hn. rewrite (proj2 (Z.eqb_neq x 0)) by done. by apply Ho.
Qed.

Lemma push_saved e v : (e < k)%nat → push (saved <$> seq (S e) (k - S e)) v = Some (v :: (saved <$> seq (S e) (k - S e))).
Proof. intros He. unfold push. rewrite length_fmap, length_seq. by rewrite decide_True by lia. Qed.

(** The first loop. *)
Lemma mark_loop i fuel c : (i ≤ k)%nat → (i < fuel)%nat → looks i (base_at i) c →
  ∃ c' : bus, loop_brk fuel (λ '(cnt, save, b0),
      if 0 <? cnt then
        save ← push save (rd b0 cnt);
        Some (Next (Z.shiftr cnt 1, save, wr b0 cnt (Z.lnot cnt)))
      else Some (Break (cnt, save, b0)))
    (Z.shiftr (p i) 1, saved <$> seq i (k - i), c : bus) = Some (0, saved <$> seq 0 k, c') ∧ looks 0 (base_at 0) c'.
Proof.
  revert fuel c. induction i as [|e IH]; intros [|fuel] c Hi Hf Hl; try lia.
  - rewrite (loop_brk_break _ _ _ (0, saved <$> seq 0 k, c)) by (by rewrite Nat.sub_0_r). by exists c.
  - rewrite shiftr_pow. pose proof (Z.pow_pos_nonneg 2 (Z.of_nat e) ltac:(lia) ltac:(lia)).
    assert (Hrd : @rd the_mirror c (p e) = saved e).
    { unfold rd, the_mirror, mirror, saved. rewrite cell. destruct (decide (e < j)%nat) as [He|He].
      - destruct Hl as (_ & _ & Ho). apply Ho; [lia|]. intros (f & Hf' & E%pow_inj). lia.
      - destruct Hl as (-> & _). unfold base_at. rewrite Nat.max_l by lia.
        destruct (decide (S e < k)%nat), (decide (S e = k)); try done; lia. }
    erewrite loop_brk_next by (rewrite (proj2 (Z.ltb_lt _ _)) by done; rewrite Hrd, push_saved by lia; reflexivity).
    assert (Hseq : saved e :: (saved <$> seq (S e) (k - S e)) = saved <$> seq e (k - e))
      by (replace (k - e)%nat with (S (k - S e)) by lia; done).
    rewrite Hseq. apply IH; [lia|lia|].
    destruct (decide (e < j)%nat) as [He|He].
    + replace (base_at e) with (base_at (S e)) by (unfold base_at; by rewrite !Nat.max_r by lia). by apply looks_mark.
    + assert (E : base_at e = Z.lnot (p e)) by (unfold base_at; rewrite Nat.max_l by lia; by rewrite decide_True by lia).
      rewrite E. apply (looks_base e (base_at (S e))); [|by rewrite cell, decide_False].
      destruct Hl as (H0 & Hm & Ho). split; [done|]. split; [intros f Hf'; lia|].
      intros x Hx Hn. apply Ho; [done|]. intros (f & Hf' & _). lia.
Qed.
Lemma saved_last e : (j ≤ e)%nat → S e = k → saved e = b 0.
Proof. intros He Hk. unfold saved. by rewrite decide_False, decide_True by lia. Qed.

(** The words above the size come back to the base, the first one last. *)
Lemma restore_spec e z c : (j ≤ e ≤ k)%nat → looks j z c →
  ∃ c' : bus, restore (p k) (p e) (saved <$> seq e (k - e)) (c : bus) = Some c' ∧
    looks j (if decide (e = k) then z else b 0) c'.
Proof.
  intros He Hl. unfold restore.
  assert (Hfuel : (k - e < 33)%nat) by lia. revert Hfuel. generalize 33%nat as fuel. intros fuel Hfuel.
  enough (∃ c' : bus, loop_brk fuel (λ '(cnt, save, b0),
      if cnt <? p k then '(v, save) ← pop save; Some (Next (Z.shiftl cnt 1, save, wr b0 cnt v))
      else Some (Break (cnt, save, b0))) (p e, saved <$> seq e (k - e), c : bus) = Some (p k, [], c') ∧
    looks j (if decide (e = k) then z else b 0) c') as (c' & -> & H) by by exists c'.
  remember (k - e)%nat as n eqn:Hn. revert e z c fuel He Hl Hfuel Hn.
  induction n as [|n IH]; intros e z c [|fuel] He Hl Hfuel Hn; try lia.
  - assert (e = k) as -> by lia. rewrite decide_True by done.
    rewrite (loop_brk_break _ _ _ (p k, [], c)) by (by rewrite Z.ltb_irrefl). by exists c.
  - assert (Hlt : p e < p k) by (apply Z.pow_lt_mono_r; lia).
    erewrite loop_brk_next by (cbn [seq fmap list_fmap]; rewrite (proj2 (Z.ltb_lt _ _)) by done; reflexivity).
    rewrite shiftl_pow, decide_False by lia.
    destruct (IH (S e) (saved e) (@wr the_mirror c (p e) (saved e)) fuel) as (c' & Hc' & Hl');
      [lia| |lia|lia|].
    { apply (looks_base j z); [done|]. by rewrite cell, decide_False by lia. }
    exists c'. split; [done|]. destruct (decide (S e = k)); [|done]. by rewrite saved_last in Hl' by lia.
Qed.

(** The second loop. *)
Lemma check_loop e fuel c : (e ≤ j)%nat → (j - e + 1 < fuel)%nat → looks e 0 c →
  ∃ o, loop fuel (λ '(cnt, save, b0),
      if cnt <? p k then
        let val := rd b0 cnt in
        '(v, save) ← pop save;
        let b0 := wr b0 cnt v in
        if negb (val =? Z.lnot cnt) then
          b0 ← restore (p k) (Z.shiftl cnt 1) save b0;
          Some (Return (s32 (cnt * 4), b0))
        else Some (Next (Z.shiftl cnt 1, save, b0))
      else Some (Break (cnt, save, b0)))
    (p e, saved <$> seq e (k - e), c : bus) = Some o ∧
    match o with
    | inr (size, c') => (j < k)%nat ∧ size = s32 (4 * p j) ∧ looks j (b 0) c'
    | inl (_, _, c') => j = k ∧ looks j 0 c'
    end.
Proof.
  intros He. remember (j - e)%nat as n eqn:Hn. revert e c fuel He Hn.
  induction n as [|n IH]; intros e c [|fuel] He Hn Hf Hl; try lia.
  - assert (e = j) as -> by lia. destruct (decide (j = k)) as [E|Hne].
    + rewrite (loop_break _ _ _ (p j, saved <$> seq j (k - j), c)) by (rewrite E, Z.ltb_irrefl; done).
      eexists. split; [reflexivity|]. done.
    + assert (Hlt : p j < p k) by (apply Z.pow_lt_mono_r; lia).
      pose proof (Z.pow_pos_nonneg 2 (Z.of_nat j) ltac:(lia) ltac:(lia)).
      destruct (restore_spec (S j) (saved j) (@wr the_mirror c (p j) (saved j))) as (c' & Hc' & Hl'); [lia| |].
      { apply (looks_base j 0); [done|]. by rewrite cell, decide_False by lia. }
      exists (inr (s32 (p j * 4), c')). split.
      * apply loop_return. rewrite (proj2 (Z.ltb_lt _ _)) by done.
        replace (k - j)%nat with (S (k - S j)) by lia.
        change (saved <$> seq j (S (k - S j))) with (saved j :: (saved <$> seq (S j) (k - S j))). cbn [pop mbind option_bind].
        assert (Hrd : @rd the_mirror c (p j) = 0).
        { unfold rd, the_mirror, mirror. rewrite cell, decide_False by lia. by destruct Hl. }
        rewrite Hrd, (proj2 (Z.eqb_neq 0 _)) by (unfold Z.lnot; lia). cbn [negb]. rewrite shiftl_pow.
        by rewrite Hc'.
      * split; [lia|]. split.
        -- by rewrite Z.mul_comm.
        -- destruct (decide (S j = k)); [|done]. by rewrite saved_last in Hl' by lia.
  - assert (Hlt : p e < p k) by (apply Z.pow_lt_mono_r; lia).
    destruct (IH (S e) (@wr the_mirror c (p e) (saved e)) fuel) as (o & Ho & HQ); [lia|lia|lia| |].
    { assert (E : saved e = b (p e)) by (unfold saved; by rewrite decide_True by lia). rewrite E. apply looks_unmark; [done|lia]. }
    exists o. split; [|done]. rewrite <-Ho. rewrite (loop_next _ _ _ (p (S e), saved <$> seq (S e) (k - S e), @wr the_mirror c (p e) (saved e))); [done|].
    rewrite (proj2 (Z.ltb_lt _ _)) by done.
    replace (k - e)%nat with (S (k - S e)) by lia.
    change (saved <$> seq e (S (k - S e))) with (saved e :: (saved <$> seq (S e) (k - S e))). cbn [pop mbind option_bind].
    assert (Hrd : @rd the_mirror c (p e) = Z.lnot (p e)).
    { unfold rd, the_mirror, mirror. rewrite cell, decide_True by lia. destruct Hl as (_ & Hm & _). apply Hm. lia. }
    by rewrite Hrd, Z.eqb_refl, shiftl_pow.
Qed.

(** C36. For maxsize a power of two of at least four bytes and up to 2 GiB (4
    * 2^k, k <= 29, passed as the signed long that it is): on a memory of 2^j
    words, j <= k, that repeats at every address, get_ram_size returns the
    size of the memory in bytes, never goes past either end of its array save,
    and leaves every word as it was. (With 2 GiB of memory the result is the
    long with the bits of 2^31; a maxsize that is not a power of two can read
    in front of save, as the example odd_maxsize shows.) *)
Theorem get_ram_size_correct :
  ∃ c' : bus, get_ram_size (b : bus) (s32 (4 * p k)) = Some (s32 (4 * p j), c') ∧ ∀ x, c' x = b x.
Proof.
  unfold get_ram_size. assert (Hk : 0 < p k ≤ 2 ^ 29) by (split; [apply Z.pow_pos_nonneg; lia|apply Z.pow_le_mono_r; lia]).
  rewrite u32_s32, wrap_small by lia. rewrite Z.mul_comm, Z_div_mult by lia.
  assert (Hstart : looks k (base_at k) b).
  { split; [unfold base_at; by rewrite decide_False by lia|]. split; [intros e He; lia|done]. }
  destruct (mark_loop k 32 b ltac:(lia) ltac:(lia) Hstart) as (c & Hc & Hl).
  rewrite Nat.sub_diag in Hc. cbn [seq fmap list_fmap] in Hc. rewrite Hc. cbn [mbind option_bind].
  pose proof (looks_base 0 _ 0 c 0 Hl ltac:(by apply Zmod_0_l)) as Hl0.
  set (c0 := @wr the_mirror c 0 0) in *.
  assert (Hrd0 : @rd the_mirror c0 0 = 0) by (unfold rd, the_mirror, mirror; rewrite Zmod_0_l; by destruct Hl0).
  rewrite Hrd0. cbn [Z.eqb negb].
  destruct (check_loop 0 33 c0 ltac:(lia) ltac:(lia) Hl0) as (o & Ho & HQ). rewrite Nat.sub_0_r in Ho.
  match goal with |- context [loop 33 ?f ?s] => change (loop 33 f s = Some o) in Ho; rewrite Ho end.
  cbn [mbind option_bind]. destruct o as [[[cnt save] c']|[size c']].
  - destruct HQ as [E Hl']. eexists. split; [by rewrite E, Z.mul_comm|].
    assert (Hbase : @rd the_mirror c 0 = b 0).
    { unfold rd, the_mirror, mirror. rewrite Zmod_0_l. destruct Hl as (-> & _). unfold base_at. by rewrite decide_False by lia. }
    rewrite Hbase. pose proof (looks_base j 0 (b 0) c' 0 Hl' ltac:(by apply Zmod_0_l)) as (H0 & _ & Ho').
    intros x. destruct (decide (x = 0)) as [->|]; [done|]. apply Ho'; [done|]. intros (f & Hf & _). lia.
  - destruct HQ as (_ & -> & H0 & _ & Ho'). exists c'. split; [done|].
    intros x. destruct (decide (x = 0)) as [->|]; [done|]. apply Ho'; [done|]. intros (f & Hf & _). lia.
Qed.
End mirror.

(** ** Examples *)

Lemma get_ram_size_correct_witness :
  ∃ c' : @bus (mirror 3), @get_ram_size (mirror 3) (λ x, x + 7) (s32 (4 * 2 ^ Z.of_nat 29)) = Some (s32 (4 * 2 ^ Z.of_nat 3), c') ∧
    ∀ x, c' x = x + 7.
Proof. apply (get_ram_size_correct 3 29); lia. Defined.

(** A memory of 8 words; above them nothing answers, and writes are lost. *)
Definition open_bus : RamBus := {|
  bus := list Z;
  rd := λ b c, default 0 (b !! Z.to_nat c);
  wr := λ b c v, <[Z.to_nat c := v]> b
|}.

(** There the first word is lost: it is not the one that the writes to the
    addresses above the memory saved. *)
Example first_word_lost :
  @get_ram_size open_bus [10; 11; 12; 13; 14; 15; 16; 17] (4 * 32) = Some (4 * 8, [0; 11; 12; 13; 14; 15; 16; 17]).
Proof. vm_compute. reflexivity. Qed.

(** A maxsize that is not a power of two: the loop that restores the words takes
    one more of them than the first loop saved, the one in front of the array. *)
Example odd_maxsize : @get_ram_size open_bus [10; 11; 12; 13] 12 = None.
Proof. vm_compute. reflexivity. Qed.
