(* ===== verification/MallocSimple.v ===== *)
(** * MallocSimple: the allocator of the early stages (common/malloc_simple.c)

    Blocks are cut off the front of an area and are never given back. *)

From Stdlib Require Import ZArith Lia List.
From stdpp Require Import base numbers list option gmap.
From S2P Require Import Prelude Memory CString.

(** The part of the global data that the allocator uses. *)
Record malloc_gd := { malloc_base : Z; malloc_ptr : Z; malloc_limit : Z }.

Definition ALIGN (x a : Z) : Z := Z.land (u32 (x + (a - 1))) (u32 (Z.lnot (a - 1))).

(** The size of an [unsigned long]. *)
Definition LONG : Z := 4.

(** The result is the address, or NULL, which is 0. *)
Definition alloc_simple (bytes align : Z) (gd : malloc_gd) : Z * malloc_gd :=
  let addr := ALIGN (u32 (malloc_base gd + malloc_ptr gd)) align in
  let new_ptr := u32 (addr + bytes - malloc_base gd) in
  if malloc_limit gd <? new_ptr then (0, gd)
  else (addr, {| gd with malloc_ptr := ALIGN new_ptr LONG |}).

Definition malloc_simple (bytes : Z) (gd : malloc_gd) : Z * malloc_gd := alloc_simple bytes 1 gd.

Definition memalign_simple (align bytes : Z) (gd : malloc_gd) : Z * malloc_gd := alloc_simple bytes align gd.

Definition calloc (m : mem) (nmemb elem_size : Z) (gd : malloc_gd) : option (Z * mem * malloc_gd) :=
  let size := u32 (nmemb * elem_size) in
  let '(ptr, gd) := malloc_simple size gd in
  if ptr =? 0 then Some (0, m, gd)
  else m ← memset m ptr 0 size; Some (ptr, m, gd).

(** ** Lemmas *)

(** The next multiple of a power of two. *)
Lemma ALIGN_spec x e : 0 ≤ x → 0 ≤ e < 32 → x + 2 ^ e - 1 < 2 ^ 32 →
  ALIGN x (2 ^ e) mod 2 ^ e = 0 ∧ x ≤ ALIGN x (2 ^ e) < x + 2 ^ e.
Proof.
  intros Hx He Hw. unfold ALIGN. pose proof (Z.pow_pos_nonneg 2 e ltac:(lia) ltac:(lia)) as Hp.
  rewrite (wrap_small 32 (x + (2 ^ e - 1))) by lia.
  set (y := x + (2 ^ e - 1)).
  assert (E : Z.land y (u32 (Z.lnot (2 ^ e - 1))) = y - y mod 2 ^ e).
  { assert (Hy : 0 ≤ y < 2 ^ 32) by (subst y; lia).
    assert (E1 : Z.land y (u32 (Z.lnot (2 ^ e - 1))) = Z.land y (Z.lnot (Z.ones e))).
    { unfold wrap. rewrite <-(Z.land_ones _ 32) by lia. rewrite (Z.land_comm _ (Z.ones 32)), Z.land_assoc.
      rewrite Z.land_ones, Z.mod_small by lia. by rewrite Z.ones_equiv, Z.sub_1_r. }
    rewrite E1, <-Z.ldiff_land, Z.ldiff_ones_r by lia.
    rewrite Z.shiftl_mul_pow2, Z.shiftr_div_pow2 by lia. pose proof (Z.div_mod y (2 ^ e) ltac:(lia)). lia. }
  rewrite E. pose proof (Z.mod_pos_bound y (2 ^ e) Hp) as Hm. split; [|subst y; lia].
  pose proof (Z.div_mod y (2 ^ e) ltac:(lia)) as Hd.
  replace (y - y mod 2 ^ e) with (y / 2 ^ e * 2 ^ e) by lia. by apply Z_mod_mult.
Qed.

(** The area is below the top of the address space. *)
Record pool_ok (gd : malloc_gd) : Prop := {
  p_base : 0 < malloc_base gd;
  p_ptr : 0 ≤ malloc_ptr gd ≤ malloc_limit gd + LONG - 1;
  p_top : malloc_base gd + malloc_limit gd + LONG < 2 ^ 32;
  p_limit : 0 ≤ malloc_limit gd
}.

Lemma alloc_spec bytes e gd : pool_ok gd → 0 ≤ e < 32 → 0 ≤ bytes →
  malloc_base gd + malloc_ptr gd + 2 ^ e + bytes < 2 ^ 32 →
  let addr := ALIGN (malloc_base gd + malloc_ptr gd) (2 ^ e) in
  addr mod 2 ^ e = 0 ∧ malloc_base gd + malloc_ptr gd ≤ addr < malloc_base gd + malloc_ptr gd + 2 ^ e ∧
  alloc_simple bytes (2 ^ e) gd =
    if addr + bytes <=? malloc_base gd + malloc_limit gd
    then (addr, {| gd with malloc_ptr := ALIGN (addr + bytes - malloc_base gd) LONG |}) else (0, gd).
Proof.
  intros [Hb Hp Ht Hl] He Hn Hw addr.
  destruct (ALIGN_spec (malloc_base gd + malloc_ptr gd) e) as [H1 H2]; [lia|done|lia|].
  split; [done|]. split; [done|]. unfold alloc_simple.
  rewrite (wrap_small 32 (malloc_base gd + malloc_ptr gd)) by (pose proof (Z.pow_pos_nonneg 2 e); lia).
  fold addr. rewrite (wrap_small 32 (addr + bytes - malloc_base gd)) by (subst addr; lia).
  destruct (Z.leb_spec (addr + bytes) (malloc_base gd + malloc_limit gd)).
  - by rewrite (proj2 (Z.ltb_ge _ _)) by lia.
  - by rewrite (proj2 (Z.ltb_lt _ _)) by lia.
Qed.

Lemma alloc_keeps bytes e gd p gd' : pool_ok gd → 0 ≤ e < 32 → 0 ≤ bytes →
  malloc_base gd + malloc_ptr gd + 2 ^ e + bytes < 2 ^ 32 → alloc_simple bytes (2 ^ e) gd = (p, gd') →
  pool_ok gd' ∧ malloc_base gd' = malloc_base gd ∧ malloc_limit gd' = malloc_limit gd ∧ malloc_ptr gd ≤ malloc_ptr gd' ∧
  (p = 0 ∧ gd' = gd ∨
   p mod 2 ^ e = 0 ∧ malloc_base gd + malloc_ptr gd ≤ p ∧ p + bytes ≤ malloc_base gd + malloc_ptr gd' ∧
   p + bytes ≤ malloc_base gd + malloc_limit gd).
Proof.
  intros Hok He Hn Hw Hrun. destruct (alloc_spec bytes e gd Hok He Hn Hw) as (Hal & Hr & Hspec). cbv zeta in *.
  rewrite Hspec in Hrun. destruct Hok as [Hb Hp Ht Hl]. unfold LONG in Hp, Ht.
  destruct (Z.leb_spec (ALIGN (malloc_base gd + malloc_ptr gd) (2 ^ e) + bytes) (malloc_base gd + malloc_limit gd));
    injection Hrun as <- <-.
  - destruct (ALIGN_spec (ALIGN (malloc_base gd + malloc_ptr gd) (2 ^ e) + bytes - malloc_base gd) 2) as [_ H2];
      [lia|lia|lia|]. change (2 ^ 2) with 4 in H2. cbn [malloc_base malloc_ptr malloc_limit] in *. unfold LONG in *.
    split; [split; cbn [malloc_base malloc_ptr malloc_limit]; unfold LONG in *; lia|]. split; [done|]. split; [done|]. split; [lia|]. right. split; [done|]. lia.
  - split; [by split|]. split; [done|]. split; [done|]. split; [lia|by left].
Qed.

(** A sequence of requests: sizes and exponents of the alignment. *)
Fixpoint alloc_all (reqs : list (Z * Z)) (gd : malloc_gd) : list (Z * Z) * malloc_gd :=
  match reqs with
  | [] => ([], gd)
  | (bytes, e) :: reqs =>
      let '(p, gd) := memalign_simple (2 ^ e) bytes gd in
      let '(l, gd) := alloc_all reqs gd in
      (if p =? 0 then l else (p, bytes) :: l, gd)
  end.

(** Each block ends before the later ones begin. *)
Fixpoint in_order (from : Z) (l : list (Z * Z)) : Prop :=
  match l with [] => True | (p, n) :: l => from ≤ p ∧ in_order (p + n) l end.

Lemma in_order_weaken a b l : a ≤ b → in_order b l → in_order a l.
Proof. destruct l as [|[p n] l]; [done|]. cbn. intros ? []. split; [lia|done]. Qed.

(** C37. For a pool below the top of the address space and requests of any
    number, with alignments that are powers of two below 2^32, each so small
    that the end of the pool plus the alignment plus the size is below 2^32 (a
    larger one wraps around and can overlap, as the example alloc_wraps
    shows): the blocks that are given lie in the area behind what was taken
    before and not behind its limit, one behind the other without an overlap.
    *)
Theorem alloc_simple_disjoint reqs gd : pool_ok gd →
  Forall (λ '(n, e), 0 ≤ e < 32 ∧ 0 ≤ n ∧ malloc_base gd + malloc_limit gd + LONG + 2 ^ e + n < 2 ^ 32) reqs →
  let '(l, gd') := alloc_all reqs gd in
  in_order (malloc_base gd + malloc_ptr gd) l ∧
  Forall (λ '(p, n), p + n ≤ malloc_base gd + malloc_limit gd) l ∧ pool_ok gd'.
Proof.
  revert gd. induction reqs as [|[n e] reqs IH]; intros gd Hok Hreqs; [done|].
  apply Forall_cons_iff in Hreqs as [(He & Hn & Hw) Hreqs]. cbn [alloc_all]. unfold memalign_simple.
  destruct (alloc_simple n (2 ^ e) gd) as [p gd1] eqn:Hrun.
  destruct (alloc_keeps n e gd p gd1 Hok He Hn) as (Hok1 & Eb & El & Hle & Hcase); [destruct Hok; unfold LONG in *; lia|done|].
  specialize (IH gd1 Hok1). rewrite Eb, El in IH. specialize (IH Hreqs).
  destruct (alloc_all reqs gd1) as [l gd']. destruct IH as (Hord & Hin & Hok').
  destruct (Z.eqb_spec p 0) as [->|Hp].
  - split; [eapply in_order_weaken; [|exact Hord]; lia|done].
  - destruct Hcase as [[-> _]|(_ & H1 & H2 & H3)]; [done|].
    split; [split; [done|eapply in_order_weaken; [|exact Hord]; lia]|]. split; [by constructor|done].
Qed.

(** ** Examples *)

Definition ex_pool : malloc_gd := {| malloc_base := 0x8000; malloc_ptr := 6; malloc_limit := 0x400 |}.

Lemma alloc_simple_disjoint_witness :
  let '(l, gd') := alloc_all [(10, 0); (100, 4); (0x400, 0); (8, 3)] ex_pool in
  in_order (0x8000 + 6) l ∧ Forall (λ '(p, n), p + n ≤ 0x8000 + 0x400) l ∧ pool_ok gd'.
Proof.
  apply (alloc_simple_disjoint [(10, 0); (100, 4); (0x400, 0); (8, 3)] ex_pool).
  - split; cbn; unfold LONG; lia.
  - repeat apply Forall_cons_2; try apply Forall_nil_2; cbn; unfold LONG; lia.
Defined.

(** The request of 0x400 bytes is the one that fails. *)
Example alloc_some : alloc_all [(10, 0); (100, 4); (0x400, 0); (8, 3)] ex_pool =
  ([(0x8006, 10); (0x8010, 100); (0x8078, 8)], {| malloc_base := 0x8000; malloc_ptr := 0x80; malloc_limit := 0x400 |}).
Proof. vm_compute. reflexivity. Qed.

(** A size near 2^32 makes the new end wrap around: the request succeeds, the
    end moves back, and the next block overlaps the one before. *)
Example alloc_wraps :
  let '(p1, gd) := malloc_simple 10 ex_pool in
  let '(p2, gd) := malloc_simple 0xfffffff0 gd in
  let '(p3, gd) := malloc_simple 4 gd in
  (p1, p2, p3) = (0x8006, 0x8010, 0x8000).
Proof. vm_compute. reflexivity. Qed.

(** The product of calloc is not checked: 2^16 elements of 2^16 bytes need no room. *)
Example calloc_wraps : calloc ∅ 0x10000 0x10000 ex_pool = Some (0x8006, ∅, {| malloc_base := 0x8000; malloc_ptr := 8; malloc_limit := 0x400 |}).
Proof. vm_compute. reflexivity. Qed.
